(** * Memory and process-creation core of the Group_14 kernel

    A shallow embedding of [src/kernel.c] (Multiboot memory-map scan, the
    heap region and the hexadecimal console output) and
    [src/process.c] (kernel stacks, ELF loading, process construction and
    teardown), together with the macros of [include/paging.h].

    Machine integers are [Z] with the wrap-around written out, physical
    memory is a total function from addresses to bytes, and the code that
    mutates kernel state runs in a small state monad whose outcomes also
    record a halted kernel and a loop that does not finish. *)

From Stdlib Require Import ZArith List Lia Bool String.
From Stdlib Require Import Strings.Byte.
From stdpp Require Import base option gmap.
Import ListNotations.
Local Open Scope Z_scope.

(** ** Fixed-width arithmetic *)

Module Word.

Definition wrap32 (z : Z) : Z := z mod 2 ^ 32.
Definition wrap64 (z : Z) : Z := z mod 2 ^ 64.

(** [UINT32_MAX] and [UINTPTR_MAX] of [include/libc/stdint.h]. *)
Definition UINT32_MAX : Z := 0xFFFFFFFF.
Definition UINTPTR_MAX : Z := UINT32_MAX.

(** [~x] on a 32-bit unsigned operand. *)
Definition not32 (x : Z) : Z := wrap32 (Z.lnot x).

(** The [MAX] and [MIN] macros of [process.c]. *)
Definition MAX (a b : Z) : Z := if b <? a then a else b.
Definition MIN (a b : Z) : Z := if a <? b then a else b.

Definition b2z (b : byte) : Z := Z.of_N (Byte.to_N b).
Definition z2b (z : Z) : byte :=
  match Byte.of_N (Z.to_N (z mod 256)) with
  | Some b => b
  | None => Byte.x00
  end.

End Word.
Export Word.

(** ** [include/paging.h] *)

Module Paging.

Definition PAGE_SIZE : Z := 4096.
Definition PAGE_PRESENT : Z := 0x001.
Definition PAGE_RW : Z := 0x002.
Definition PAGE_USER : Z := 0x004.
Definition PAGE_PWT : Z := 0x008.
Definition PAGE_PCD : Z := 0x010.
Definition PAGE_OS_AVAILABLE_1 : Z := 0x200.
Definition PAGE_NX_BIT : Z := PAGE_OS_AVAILABLE_1.

Definition PTE_KERNEL_DATA_FLAGS : Z :=
  Z.lor (Z.lor PAGE_PRESENT PAGE_RW) PAGE_NX_BIT.
Definition PTE_USER_DATA_FLAGS : Z :=
  Z.lor (Z.lor (Z.lor PAGE_PRESENT PAGE_RW) PAGE_USER) PAGE_NX_BIT.

Definition PDE_FLAGS_FROM_PTE (pte_flags : Z) : Z :=
  Z.land pte_flags
    (Z.lor (Z.lor (Z.lor (Z.lor PAGE_PRESENT PAGE_RW) PAGE_USER) PAGE_PWT) PAGE_PCD).

Definition PAGING_FLAG_MASK : Z := 0xFFF.
Definition PAGING_ADDR_MASK : Z := 0xFFFFF000.

Definition KERNEL_SPACE_VIRT_START : Z := 0xC0000000.

Definition PAGING_PDE_SHIFT : Z := 22.
Definition PAGING_PTE_SHIFT : Z := 12.
Definition PDE_INDEX (addr : Z) : Z := Z.land (Z.shiftr addr PAGING_PDE_SHIFT) 0x3FF.
Definition PTE_INDEX (addr : Z) : Z := Z.land (Z.shiftr addr PAGING_PTE_SHIFT) 0x3FF.
Definition PAGE_OFFSET (addr : Z) : Z := Z.land addr (PAGE_SIZE - 1).
Definition KERNEL_PDE_INDEX : Z := PDE_INDEX KERNEL_SPACE_VIRT_START.

Definition PAGE_ALIGN_DOWN (addr : Z) : Z := Z.land addr (not32 (PAGE_SIZE - 1)).

(** Modelled from the spec: [ALIGN_UP] comes from [kmalloc_internal.h], which
    is not part of the sources at hand; the spec only says "page-aligned up",
    so the usual round-up-and-mask on 32-bit operands is taken. *)
Definition ALIGN_UP (x a : Z) : Z := Z.land (wrap32 (x + a - 1)) (not32 (a - 1)).
Definition PAGE_ALIGN_UP (addr : Z) : Z := ALIGN_UP addr PAGE_SIZE.

Definition RECURSIVE_PDE_INDEX : Z := 1023.
Definition RECURSIVE_PD_VADDR : Z := 0xFFFFF000.
Definition PAGING_TEMP_VADDR : Z := 0xFFBFF000.

End Paging.
Export Paging.

(** ** [src/kernel.c]: choosing the heap region from the Multiboot map *)

Module Boot.

(** One [multiboot_memory_map_t]: a 64-bit address, a 64-bit length and a
    32-bit type. *)
Record mmap_entry := MmapEntry { mm_addr : Z; mm_len : Z; mm_type : Z }.

Definition MULTIBOOT_MEMORY_AVAILABLE : Z := 1.

(** Body of the [while] loop of [find_largest_memory_area], acting on the
    pair [(best_base, best_size)]. [kernel_image_end_phys] is the global of
    the same name. *)
Definition scan_entry (kernel_image_end_phys : Z) (best : Z * Z) (e : mmap_entry)
  : Z * Z :=
  let '(best_base, best_size) := best in
  if (mm_type e =? MULTIBOOT_MEMORY_AVAILABLE) && (0x100000 <=? mm_addr e) then
    let entry_phys_start := wrap32 (mm_addr e) in
    let entry_len := mm_len e in
    let usable_start := entry_phys_start in
    let '(usable_start, entry_len) :=
      if usable_start <? kernel_image_end_phys then
        if kernel_image_end_phys <? wrap64 (entry_phys_start + entry_len) then
          let overlap := kernel_image_end_phys - usable_start in
          (kernel_image_end_phys, wrap64 (entry_len - overlap))
        else (usable_start, 0)
      else (usable_start, entry_len) in
    if best_size <? entry_len then (usable_start, entry_len) else (best_base, best_size)
  else (best_base, best_size).

(** [find_largest_memory_area]: the entries of the tag are walked in order;
    [Some (base, size)] stands for [true] with the two out parameters set,
    [None] for [false]. *)
Definition find_largest_memory_area (kernel_image_end_phys : Z)
    (entries : list mmap_entry) : option (Z * Z) :=
  let '(best_base, best_size) :=
    fold_left (scan_entry kernel_image_end_phys) entries (0, 0) in
  if 0 <? best_size then Some (best_base, wrap32 best_size) else None.

(** What the description of the parser says, on unbounded integers: an entry
    is considered when it is AVAILABLE and starts at or above 1 MiB; what
    remains of it is the part at or above the end of the kernel image. *)
Definition considered (e : mmap_entry) : Prop :=
  mm_type e = MULTIBOOT_MEMORY_AVAILABLE /\ 0x100000 <= mm_addr e.
Definition remaining_base (kend : Z) (e : mmap_entry) : Z := Z.max (mm_addr e) kend.
Definition remaining_size (kend : Z) (e : mmap_entry) : Z :=
  Z.max 0 (mm_addr e + mm_len e - Z.max (mm_addr e) kend).

Definition largest_remaining (kend : Z) (entries : list mmap_entry)
    (base size : Z) : Prop :=
  (exists e, In e entries /\ considered e /\
             base = remaining_base kend e /\ size = remaining_size kend e) /\
  (forall e, In e entries -> considered e -> remaining_size kend e <= size).

(** Entries that fit the 32-bit physical address space. *)
Definition below_4g (e : mmap_entry) : Prop :=
  0 <= mm_len e /\ mm_addr e < 2 ^ 32 /\ mm_addr e + mm_len e <= 2 ^ 32.

(** What the scan knows after the entries [seen]. *)
Definition scan_inv (kend : Z) (seen : list mmap_entry) (best : Z * Z) : Prop :=
  0 <= best.2 /\
  (forall e, In e seen -> considered e -> remaining_size kend e <= best.2) /\
  (0 < best.2 ->
   exists e, In e seen /\ considered e /\
             best.1 = remaining_base kend e /\ best.2 = remaining_size kend e).

Definition scenario_map : list mmap_entry :=
  [ MmapEntry 0x100000 0x10000 1; MmapEntry 0x400000 0x800000 1 ].

Definition high_memory_map : list mmap_entry :=
  [ MmapEntry 0x100000000 0x40000000 1 ].

End Boot.

(** ** Console output and the heap region *)

Module Init.

(** One turn of the loop of [print_hex]: the character stored in
    [hex[i]]. *)
Definition hex_char (value i : Z) : byte :=
  let n := Z.land (Z.shiftr value ((7 - i) * 4)) 0xF in
  if n <? 10 then z2b (b2z "0"%byte + n) else z2b (b2z "A"%byte + n - 10).

(** [print_hex]: the characters of [hex] that go to [terminal_write],
    [hex[0]] first; [hex[8]] is the terminating NUL. *)
Definition print_hex (value : Z) : list byte :=
  map (fun i => hex_char value (Z.of_nat i)) (seq 0 8).

(** The heap region [init_memory_management] hands to [buddy_init], from
    the region [find_largest_memory_area] reported: the clamp to
    [1 << MAX_ORDER], the 1 MiB minimum and the alignment of the start.
    [MAX_ORDER] is the constant of the buddy allocator; [None] stands for
    the two [return false]. *)
Definition heap_region (MAX_ORDER heap_phys_start heap_size : Z) : option (Z * Z) :=
  let max_buddy_size := wrap32 (Z.shiftl 1 MAX_ORDER) in
  let heap_size := if max_buddy_size <? heap_size then max_buddy_size else heap_size in
  if heap_size <? 1024 * 1024 then None
  else
    let aligned_heap_start :=
      Z.land (wrap32 (heap_phys_start + PAGE_SIZE - 1)) (not32 (PAGE_SIZE - 1)) in
    let alignment_diff := wrap32 (aligned_heap_start - heap_phys_start) in
    if heap_size <=? alignment_diff then None
    else Some (aligned_heap_start, wrap32 (heap_size - alignment_diff)).

(** The size of the initial identity and higher-half mapping that
    [init_memory_management] computes from the heap region. *)
Definition phys_mapping_size (heap_phys_start heap_size : Z) : Z :=
  let required_mapping_end := wrap32 (heap_phys_start + heap_size) in
  let phys_mapping_size := required_mapping_end in
  let phys_mapping_size :=
    if phys_mapping_size <? 16 * 1024 * 1024 then 16 * 1024 * 1024
    else phys_mapping_size in
  let phys_mapping_size :=
    Z.land (wrap32 (phys_mapping_size + 0xFFFFF)) (not32 0xFFFFF) in
  let phys_mapping_size :=
    Z.land (wrap32 (phys_mapping_size + PAGE_SIZE - 1)) (not32 (PAGE_SIZE - 1)) in
  phys_mapping_size.

End Init.

(** ** Kernel state and the monad the kernel code runs in *)

Module Kernel.

(** Objects on the kernel heap that [process.c] frees. *)
Inductive heap_obj :=
| HeapFrameList            (* the [phys_frames] array *)
| HeapFileData             (* the buffer [read_file] returned *)
| HeapPcb (pid : Z).

(** Result of [paging_map_single_4k]; [process.c] only tests it against 0. *)
Inductive map_result := MapOk | NoMemory | BadAlignment | KernelSpaceViolation.

(** Semantic attributes of a VMA ([VM_READ] ... of [mm.h]). *)
Inductive vm_flag :=
| VM_READ | VM_WRITE | VM_EXEC | VM_USER | VM_ANONYMOUS | VM_GROWS_DOWN.

(** Calls that [process.c] makes to its collaborators, in program order. *)
Inductive event :=
| EvKmalloc (ok : bool)
| EvKfree (o : heap_obj)
| EvFrameAlloc (p : Z)
| EvPutFrame (p : Z)
| EvMapSingle (pd v p flags : Z) (r : map_result)
| EvUnmapRange (pd v n : Z)
| EvGetPhys (pd v : Z)
| EvTempMap (p : Z)
| EvTempUnmap (v : Z)
| EvCopyKernelPdes (dst : Z)
| EvReadFile (path : string)
| EvCreateMm (pd : Z)
| EvDestroyMm (pd : Z)
| EvInsertVma (vstart vend : Z) (ok : bool)
| EvTssSetKernelStack (esp0 : Z)
| EvWarnEntryInKernel (entry : Z).

Record kstate := KState {
  phys : Z -> byte;                    (* physical memory *)
  frame_script : list Z;               (* what the coming [frame_alloc] calls return *)
  frame_refs : gmap Z nat;             (* reference count per frame *)
  kmalloc_script : list bool;          (* whether the coming [kmalloc] calls succeed *)
  ptes : gmap (Z * Z) Z;               (* (directory, virtual page number) to PTE *)
  page_tables : gmap (Z * Z) Z;        (* (directory, PDE index) to page-table frame *)
  files : gmap string (list byte);     (* the filesystem [read_file] reads *)
  g_kernel_page_directory_phys : Z;
  g_nx_supported : bool;
  next_pid : Z;
  g_next_kernel_stack_virt_base : Z;
  tss_esp0 : Z;
  trace : list event
}.

Definition set_phys (f : Z -> byte) (s : kstate) : kstate :=
  KState f (frame_script s) (frame_refs s) (kmalloc_script s) (ptes s)
    (page_tables s) (files s) (g_kernel_page_directory_phys s) (g_nx_supported s)
    (next_pid s) (g_next_kernel_stack_virt_base s) (tss_esp0 s) (trace s).
Definition set_frame_script (l : list Z) (s : kstate) : kstate :=
  KState (phys s) l (frame_refs s) (kmalloc_script s) (ptes s)
    (page_tables s) (files s) (g_kernel_page_directory_phys s) (g_nx_supported s)
    (next_pid s) (g_next_kernel_stack_virt_base s) (tss_esp0 s) (trace s).
Definition set_frame_refs (r : gmap Z nat) (s : kstate) : kstate :=
  KState (phys s) (frame_script s) r (kmalloc_script s) (ptes s)
    (page_tables s) (files s) (g_kernel_page_directory_phys s) (g_nx_supported s)
    (next_pid s) (g_next_kernel_stack_virt_base s) (tss_esp0 s) (trace s).
Definition set_kmalloc_script (l : list bool) (s : kstate) : kstate :=
  KState (phys s) (frame_script s) (frame_refs s) l (ptes s)
    (page_tables s) (files s) (g_kernel_page_directory_phys s) (g_nx_supported s)
    (next_pid s) (g_next_kernel_stack_virt_base s) (tss_esp0 s) (trace s).
Definition set_ptes (m : gmap (Z * Z) Z) (s : kstate) : kstate :=
  KState (phys s) (frame_script s) (frame_refs s) (kmalloc_script s) m
    (page_tables s) (files s) (g_kernel_page_directory_phys s) (g_nx_supported s)
    (next_pid s) (g_next_kernel_stack_virt_base s) (tss_esp0 s) (trace s).
Definition set_page_tables (m : gmap (Z * Z) Z) (s : kstate) : kstate :=
  KState (phys s) (frame_script s) (frame_refs s) (kmalloc_script s) (ptes s)
    m (files s) (g_kernel_page_directory_phys s) (g_nx_supported s)
    (next_pid s) (g_next_kernel_stack_virt_base s) (tss_esp0 s) (trace s).
Definition set_next_pid (p : Z) (s : kstate) : kstate :=
  KState (phys s) (frame_script s) (frame_refs s) (kmalloc_script s) (ptes s)
    (page_tables s) (files s) (g_kernel_page_directory_phys s) (g_nx_supported s)
    p (g_next_kernel_stack_virt_base s) (tss_esp0 s) (trace s).
Definition set_next_kstack (v : Z) (s : kstate) : kstate :=
  KState (phys s) (frame_script s) (frame_refs s) (kmalloc_script s) (ptes s)
    (page_tables s) (files s) (g_kernel_page_directory_phys s) (g_nx_supported s)
    (next_pid s) v (tss_esp0 s) (trace s).
Definition set_tss_esp0 (v : Z) (s : kstate) : kstate :=
  KState (phys s) (frame_script s) (frame_refs s) (kmalloc_script s) (ptes s)
    (page_tables s) (files s) (g_kernel_page_directory_phys s) (g_nx_supported s)
    (next_pid s) (g_next_kernel_stack_virt_base s) v (trace s).
Definition set_trace (t : list event) (s : kstate) : kstate :=
  KState (phys s) (frame_script s) (frame_refs s) (kmalloc_script s) (ptes s)
    (page_tables s) (files s) (g_kernel_page_directory_phys s) (g_nx_supported s)
    (next_pid s) (g_next_kernel_stack_virt_base s) (tss_esp0 s) t.

(** Outcome of running kernel code: it returns, the kernel halts (a failed
    [KERNEL_ASSERT] or a fault in kernel mode), or a loop is still running
    when the fuel is spent. *)
Inductive outcome (A : Type) :=
| Ret (a : A) (s : kstate)
| Halt
| Spin.
Arguments Ret {A} a s.
Arguments Halt {A}.
Arguments Spin {A}.

Definition M (A : Type) : Type := kstate -> outcome A.

Definition ret {A} (a : A) : M A := fun s => Ret a s.
Definition bind {A B} (m : M A) (k : A -> M B) : M B :=
  fun s => match m s with
           | Ret a s' => k a s'
           | Halt => Halt
           | Spin => Spin
           end.
Definition halt {A} : M A := fun _ => Halt.
Definition spin {A} : M A := fun _ => Spin.
Definition gets {A} (f : kstate -> A) : M A := fun s => Ret (f s) s.
Definition modify (f : kstate -> kstate) : M unit := fun s => Ret tt (f s).
Definition emit (e : event) : M unit :=
  modify (fun s => set_trace (trace s ++ [e]) s).

Declare Scope kernel_scope.
Delimit Scope kernel_scope with kernel.
Notation "'let*' x ':=' m 'in' k" := (bind m (fun x => k))
  (at level 10, x pattern, m at level 100, k at level 200) : kernel_scope.
Notation "m ';;' k" := (bind m (fun _ => k))
  (at level 100, k at level 200, right associativity) : kernel_scope.
Local Open Scope kernel_scope.

(** [KERNEL_ASSERT]: the kernel halts when the condition fails. *)
Definition KERNEL_ASSERT (c : bool) : M unit := if c then ret tt else halt.

(** Every page-stepping [for] loop of [process.c] has the shape
    [for (v = start; v < end; v += PAGE_SIZE)] on a 32-bit [v].  The body
    may leave the loop early with an error. *)
Fixpoint for_pages {E} (fuel : nat) (v v_end : Z) (body : Z -> M (option E))
  : M (option E) :=
  match fuel with
  | O => spin
  | S fuel' =>
      if v <? v_end then
        let* r := body v in
        match r with
        | Some e => ret (Some e)
        | None => for_pages fuel' (wrap32 (v + PAGE_SIZE)) v_end body
        end
      else ret None
  end.

(** A 32-bit address space has [2^20] pages: a page loop that has not
    finished after that many steps never does. *)
Definition page_fuel : nat := Z.to_nat (2 ^ 20 + 1).

(** *** Virtual memory as the kernel sees it *)

Definition vpn (v : Z) : Z := Z.shiftr v PAGING_PTE_SHIFT.

Definition pte_present (pte : Z) : bool := negb (Z.land pte PAGE_PRESENT =? 0).
Definition pte_frame (pte : Z) : Z := Z.land pte PAGING_ADDR_MASK.

(** Two-level walk of directory [pd] for [v], on the tables the paging
    engine keeps. *)
Definition translate (s : kstate) (pd v : Z) : option Z :=
  match ptes s !! (pd, vpn v) with
  | Some pte =>
      if pte_present pte then Some (pte_frame pte + PAGE_OFFSET v) else None
  | None => None
  end.

(** A byte store through a kernel virtual address; an unmapped address is a
    page fault in kernel mode. *)
Definition kstore8 (v : Z) (b : byte) : M unit :=
  fun s =>
    match translate s (g_kernel_page_directory_phys s) v with
    | Some pa => Ret tt (set_phys (fun a => if a =? pa then b else phys s a) s)
    | None => Halt
    end.

Definition kload8 (s : kstate) (v : Z) : option byte :=
  match translate s (g_kernel_page_directory_phys s) v with
  | Some pa => Some (phys s pa)
  | None => None
  end.

(** A little-endian [uint32_t] store and load at a kernel virtual address. *)
Definition kstore32 (v w : Z) : M unit :=
  kstore8 v (z2b w) ;;
  kstore8 (wrap32 (v + 1)) (z2b (Z.shiftr w 8)) ;;
  kstore8 (wrap32 (v + 2)) (z2b (Z.shiftr w 16)) ;;
  kstore8 (wrap32 (v + 3)) (z2b (Z.shiftr w 24)).

Definition kload32 (s : kstate) (v : Z) : option Z :=
  match kload8 s v, kload8 s (wrap32 (v + 1)),
        kload8 s (wrap32 (v + 2)), kload8 s (wrap32 (v + 3)) with
  | Some b0, Some b1, Some b2, Some b3 =>
      Some (b2z b0 + 2 ^ 8 * b2z b1 + 2 ^ 16 * b2z b2 + 2 ^ 24 * b2z b3)
  | _, _, _, _ => None
  end.

(** The same word read straight from physical memory. *)
Definition pload32 (s : kstate) (pa : Z) : Z :=
  b2z (phys s pa) + 2 ^ 8 * b2z (phys s (pa + 1)) +
  2 ^ 16 * b2z (phys s (pa + 2)) + 2 ^ 24 * b2z (phys s (pa + 3)).

(** A byte as process [pd] sees it at user address [v]. *)
Definition uload8 (s : kstate) (pd v : Z) : option byte :=
  match translate s pd v with
  | Some pa => Some (phys s pa)
  | None => None
  end.

(** [memset] of [src/library/stdmemory.c]: [while (n--) *p++ = c]. *)
Fixpoint memset (p : Z) (c : byte) (n : nat) : M unit :=
  match n with
  | O => ret tt
  | S n' => kstore8 p c ;; memset (wrap32 (p + 1)) c n'
  end.

(** [memcpy] from a buffer on the kernel heap, given as the bytes at and
    after the source pointer: the byte loop of [memcopy] in
    [src/library/stdmemory.c].  The list ends where the buffer ends; a read
    beyond it, which in C leaves the buffer, yields [x00] here, so what is
    proved about the bytes copied is stated for slices inside the
    buffer. *)
Fixpoint memcpy (d : Z) (src : list byte) (n : nat) : M unit :=
  match n with
  | O => ret tt
  | S n' =>
      kstore8 d (hd Byte.x00 src) ;; memcpy (wrap32 (d + 1)) (tl src) n'
  end.

(** *** Collaborators of [process.c]

    [frame.c], [paging.c], [mm.c], [kmalloc.c], [read_file.c] and [tss.c]
    are not among the sources at hand.  What follows gives each operation
    the behaviour the specification states for it.  The page tables the
    paging engine manages are kept as finite maps beside physical memory;
    physical memory holds the contents of the frames as [process.c] writes
    them. *)

Definition page_aligned (a : Z) : bool := a mod PAGE_SIZE =? 0.

(** Modelled from the spec: the kernel heap allocator of section 4.F, which
    is not in the sources; only whether a request succeeds matters here, and
    that is read from the script (an empty script lets every request
    succeed). *)
Definition kmalloc : M bool :=
  fun s =>
    let ok := hd true (kmalloc_script s) in
    Ret ok (set_trace (trace s ++ [EvKmalloc ok])
              (set_kmalloc_script (tl (kmalloc_script s)) s)).

Definition kfree (o : heap_obj) : M unit := emit (EvKfree o).

(** Modelled from the spec: [frame_alloc] of section 4.C, "page-aligned
    physical address with refcount 1, or 0 on exhaustion".  The frame handed
    out is the head of the script; an exhausted script, or a 0 in it, is
    exhaustion. *)
Definition frame_alloc_raw : M Z :=
  fun s =>
    match frame_script s with
    | [] => Ret 0 s
    | p :: rest =>
        Ret p (set_frame_script rest
                 (if p =? 0 then s
                  else set_frame_refs (<[p := 1%nat]> (frame_refs s)) s))
    end.

Definition frame_alloc : M Z :=
  let* p := frame_alloc_raw in
  emit (EvFrameAlloc p) ;; ret p.

(** Modelled from the spec: [put_frame] of section 4.C, "decrements; on
    transition to 0, returns the single frame" to the buddy allocator. *)
Definition put_frame_raw (p : Z) : M unit :=
  modify (fun s =>
    match frame_refs s !! p with
    | Some (S n) => set_frame_refs (<[p := n]> (frame_refs s)) s
    | _ => s
    end).

Definition put_frame (p : Z) : M unit :=
  emit (EvPutFrame p) ;; put_frame_raw p.

Definition temp_vpn : Z := vpn PAGING_TEMP_VADDR.

(** Modelled from the spec: [temp_map] of section 4.D "writes a single PTE
    at the reserved slot ([PAGING_TEMP_VADDR]) with kernel R/W, NX";
    [paging.h] adds "or NULL on failure", taken here to be a frame address
    that is not page-aligned. *)
Definition paging_temp_map_raw (p : Z) : M Z :=
  if page_aligned p then
    modify (fun s =>
      set_ptes (<[(g_kernel_page_directory_phys s, temp_vpn) :=
                    Z.lor p PTE_KERNEL_DATA_FLAGS]> (ptes s)) s) ;;
    ret PAGING_TEMP_VADDR
  else ret 0.

Definition paging_temp_map (p : Z) : M Z :=
  emit (EvTempMap p) ;; paging_temp_map_raw p.

(** Modelled from the spec: [temp_unmap] "clears it". *)
Definition paging_temp_unmap_raw : M unit :=
  modify (fun s =>
    set_ptes (delete (g_kernel_page_directory_phys s, temp_vpn) (ptes s)) s).

Definition paging_temp_unmap (v : Z) : M unit :=
  emit (EvTempUnmap v) ;; paging_temp_unmap_raw.

(** Modelled from the spec: [map_single_4k] of section 4.D "ensures the PDE
    at PDE_INDEX(v) references a page table (allocating and zeroing one
    through the temporary slot if absent ...), then writes the PTE.  If the
    PTE was already present with a different physical frame, the previous
    frame's refcount is decremented.  Returns one of: OK, NoMemory,
    BadAlignment, Kernel-Space-Violation if v >= KERNEL_VIRT_BASE and USER
    flag set." *)
Definition ensure_page_table (pd v : Z) : M bool :=
  let* known := gets (fun s => page_tables s !! (pd, PDE_INDEX v)) in
  match known with
  | Some _ => ret true
  | None =>
      let* pt := frame_alloc_raw in
      if pt =? 0 then ret false
      else
        let* t := paging_temp_map_raw pt in
        if t =? 0 then put_frame_raw pt ;; ret false
        else
          memset t Byte.x00 (Z.to_nat PAGE_SIZE) ;;
          paging_temp_unmap_raw ;;
          modify (fun s =>
            set_page_tables (<[(pd, PDE_INDEX v) := pt]> (page_tables s)) s) ;;
          ret true
  end.

Definition paging_map_single_4k_raw (pd v p flags : Z) : M map_result :=
  if negb (page_aligned v && page_aligned p) then ret BadAlignment
  else if (KERNEL_SPACE_VIRT_START <=? v) && negb (Z.land flags PAGE_USER =? 0)
  then ret KernelSpaceViolation
  else
    let* ok := ensure_page_table pd v in
    if negb ok then ret NoMemory
    else
      let* old := gets (fun s => ptes s !! (pd, vpn v)) in
      modify (fun s =>
        set_ptes (<[(pd, vpn v) := Z.lor (pte_frame p) flags]> (ptes s)) s) ;;
      match old with
      | Some pte =>
          (if pte_present pte && negb (pte_frame pte =? pte_frame p)
           then put_frame_raw (pte_frame pte) else ret tt) ;;
          ret MapOk
      | None => ret MapOk
      end.

Definition paging_map_single_4k (pd v p flags : Z) : M map_result :=
  let* r := paging_map_single_4k_raw pd v p flags in
  emit (EvMapSingle pd v p flags r) ;; ret r.

(** Modelled from the spec: [unmap_range] of section 4.D "clears PTEs,
    decrements refcounts of formerly mapped frames ... Missing PTEs are
    silently skipped", over the pages that meet [v, v+n). *)
Definition unmap_page (pd page : Z) : M unit :=
  let* old := gets (fun s => ptes s !! (pd, page)) in
  match old with
  | Some pte =>
      modify (fun s => set_ptes (delete (pd, page) (ptes s)) s) ;;
      if pte_present pte then put_frame_raw (pte_frame pte) else ret tt
  | None => ret tt
  end.

Fixpoint unmap_pages (pd page : Z) (count : nat) : M unit :=
  match count with
  | O => ret tt
  | S c => unmap_page pd page ;; unmap_pages pd (page + 1) c
  end.

Definition paging_unmap_range (pd v n : Z) : M unit :=
  emit (EvUnmapRange pd v n) ;;
  unmap_pages pd (vpn v)
    (Z.to_nat ((PAGE_OFFSET v + n + PAGE_SIZE - 1) / PAGE_SIZE)).

(** Modelled from the spec: [get_physical_address] of section 4.D "walks
    the two levels and returns OK with the backing frame on hit, or
    NotMapped". *)
Definition paging_get_physical_address (pd v : Z) : M (option Z) :=
  emit (EvGetPhys pd v) ;;
  gets (fun s =>
    match ptes s !! (pd, vpn v) with
    | Some pte => if pte_present pte then Some (pte_frame pte) else None
    | None => None
    end).

(** Modelled from the spec: [copy_kernel_pde_entries] of [paging.c], "copy
    kernel-space PDEs from the canonical kernel PD" (section 4.H step 2):
    the words of slots [KERNEL_PDE_INDEX] up to the recursive slot are read
    from the kernel directory's frame and stored at [new_pd_virt]. *)
Fixpoint copy_pde_slots (new_pd_virt idx : Z) (count : nat) : M unit :=
  match count with
  | O => ret tt
  | S c =>
      let* w := gets (fun s => pload32 s (g_kernel_page_directory_phys s + 4 * idx)) in
      kstore32 (wrap32 (new_pd_virt + 4 * idx)) w ;;
      copy_pde_slots new_pd_virt (idx + 1) c
  end.

Definition copy_kernel_pde_entries (new_pd_virt : Z) : M unit :=
  emit (EvCopyKernelPdes new_pd_virt) ;;
  copy_pde_slots new_pd_virt KERNEL_PDE_INDEX
    (Z.to_nat (RECURSIVE_PDE_INDEX - KERNEL_PDE_INDEX)).

(** Modelled from the spec: [tss_set_kernel_stack] "updates the active
    TSS" (section 6). *)
Definition tss_set_kernel_stack (esp0 : Z) : M unit :=
  emit (EvTssSetKernelStack esp0) ;; modify (set_tss_esp0 esp0).

(** Modelled from the spec: [read_file(path)] of section 6 returns the
    file's bytes in a heap buffer, or NULL. *)
Definition read_file (path : string) : M (option (list byte)) :=
  emit (EvReadFile path) ;; gets (fun s => files s !! path).

(** *** Memory descriptors (section 4.E) *)

Record vma_struct := Vma {
  vm_start : Z; vm_end : Z; vm_flags : list vm_flag; vm_page_prot : Z
}.

Record mm_struct := Mm {
  pgd_phys : Z; vmas : list vma_struct; start_brk : Z; end_brk : Z
}.

(** Modelled from the spec: [create_mm(pd_phys)] "returns an mm bound to
    the given PD"; the descriptor lives on the kernel heap. *)
Definition create_mm (pd : Z) : M (option mm_struct) :=
  emit (EvCreateMm pd) ;;
  let* ok := kmalloc in
  if ok then ret (Some (Mm pd [] 0 0)) else ret None.

Definition vma_overlaps (a b : Z) (v : vma_struct) : bool :=
  (a <? vm_end v) && (vm_start v <? b).

Fixpoint insert_sorted (n : vma_struct) (l : list vma_struct) : list vma_struct :=
  match l with
  | [] => [n]
  | v :: rest =>
      if vm_start n <? vm_start v then n :: v :: rest
      else v :: insert_sorted n rest
  end.

(** Modelled from the spec: [insert_vma] "inserts in sorted order; returns
    failure on overlap or on span crossing into kernel space"; the node
    comes from the kernel heap. *)
Definition insert_vma (mm : mm_struct) (a b : Z) (flags : list vm_flag)
    (prot : Z) : M (option mm_struct) :=
  if (KERNEL_SPACE_VIRT_START <? b) || existsb (vma_overlaps a b) (vmas mm)
  then emit (EvInsertVma a b false) ;; ret None
  else
    let* ok := kmalloc in
    emit (EvInsertVma a b ok) ;;
    if ok then
      ret (Some (Mm (pgd_phys mm) (insert_sorted (Vma a b flags prot) (vmas mm))
                    (start_brk mm) (end_brk mm)))
    else ret None.

(** Modelled from the spec: [destroy_mm] "calls free_user_space on its PD,
    then walks and frees its VMA list, then frees the descriptor";
    [free_user_space] releases every frame mapped below the kernel base and
    every page table of the user part of the directory. *)
Definition user_pte (pd : Z) (k : Z * Z) : bool :=
  (k.1 =? pd) && (k.2 <? vpn KERNEL_SPACE_VIRT_START).
Definition user_table (pd : Z) (k : Z * Z) : bool :=
  (k.1 =? pd) && (k.2 <? KERNEL_PDE_INDEX).

Definition release_frame (refs : gmap Z nat) (p : Z) : gmap Z nat :=
  match refs !! p with
  | Some (S n) => <[p := n]> refs
  | _ => refs
  end.

Definition paging_free_user_space (pd : Z) : M unit :=
  modify (fun s =>
    let mapped :=
      map_to_list (filter (fun kv => user_pte pd kv.1 = true) (ptes s)) in
    let tables :=
      map_to_list (filter (fun kv => user_table pd kv.1 = true) (page_tables s)) in
    let frames :=
      map (fun kv => pte_frame kv.2) (filter (fun kv => pte_present kv.2 = true) mapped)
      ++ map snd tables in
    set_frame_refs (fold_left release_frame frames (frame_refs s))
      (set_ptes (filter (fun kv => user_pte pd kv.1 = false) (ptes s))
         (set_page_tables
            (filter (fun kv => user_table pd kv.1 = false) (page_tables s)) s))).

Definition destroy_mm (mm : mm_struct) : M unit :=
  emit (EvDestroyMm (pgd_phys mm)) ;;
  paging_free_user_space (pgd_phys mm).

End Kernel.
Export Kernel.
Local Open Scope kernel_scope.

(** ** ELF32 files *)

Module Elf.

(** Modelled from the spec: [elf.h] is not among the sources; the spec asks
    for an "ELF32 little-endian i386 executable", whose header layout and
    constants are those of the ELF format: a 52-byte file header and
    32-byte program headers. *)
Definition u8 (f : list byte) (off : Z) : Z := b2z (nth (Z.to_nat off) f Byte.x00).
Definition u16 (f : list byte) (off : Z) : Z := u8 f off + 2 ^ 8 * u8 f (off + 1).
Definition u32 (f : list byte) (off : Z) : Z :=
  u8 f off + 2 ^ 8 * u8 f (off + 1) + 2 ^ 16 * u8 f (off + 2) + 2 ^ 24 * u8 f (off + 3).

Definition sizeof_Ehdr : Z := 52.
Definition sizeof_Phdr : Z := 32.

Definition EI_MAG0 : Z := 0.
Definition EI_MAG1 : Z := 1.
Definition EI_MAG2 : Z := 2.
Definition EI_MAG3 : Z := 3.
Definition EI_CLASS : Z := 4.
Definition EI_DATA : Z := 5.
Definition ELFMAG0 : Z := 0x7f.
Definition ELFMAG1 : Z := 0x45.
Definition ELFMAG2 : Z := 0x4c.
Definition ELFMAG3 : Z := 0x46.
Definition ELFCLASS32 : Z := 1.
Definition ELFDATA2LSB : Z := 1.
Definition ET_EXEC : Z := 2.
Definition EM_386 : Z := 3.
Definition EV_CURRENT : Z := 1.
Definition PT_LOAD : Z := 1.
Definition PF_X : Z := 1.
Definition PF_W : Z := 2.
Definition PF_R : Z := 4.

Definition e_ident (f : list byte) (i : Z) : Z := u8 f i.
Definition e_type (f : list byte) : Z := u16 f 16.
Definition e_machine (f : list byte) : Z := u16 f 18.
Definition e_version (f : list byte) : Z := u32 f 20.
Definition e_entry (f : list byte) : Z := u32 f 24.
Definition e_phoff (f : list byte) : Z := u32 f 28.
Definition e_phentsize (f : list byte) : Z := u16 f 42.
Definition e_phnum (f : list byte) : Z := u16 f 44.

(** Address of [phdr_table[i]] in the buffer, and its fields. *)
Definition phdr_at (f : list byte) (i : Z) : Z := e_phoff f + i * sizeof_Phdr.
Definition p_type (f : list byte) (i : Z) : Z := u32 f (phdr_at f i).
Definition p_offset (f : list byte) (i : Z) : Z := u32 f (phdr_at f i + 4).
Definition p_vaddr (f : list byte) (i : Z) : Z := u32 f (phdr_at f i + 8).
Definition p_filesz (f : list byte) (i : Z) : Z := u32 f (phdr_at f i + 16).
Definition p_memsz (f : list byte) (i : Z) : Z := u32 f (phdr_at f i + 20).
Definition p_flags (f : list byte) (i : Z) : Z := u32 f (phdr_at f i + 24).

(** Building files for the examples. *)
Definition le16 (z : Z) : list byte := [z2b z; z2b (Z.shiftr z 8)].
Definition le32 (z : Z) : list byte :=
  [z2b z; z2b (Z.shiftr z 8); z2b (Z.shiftr z 16); z2b (Z.shiftr z 24)].

Record phdr := Phdr {
  ph_type : Z; ph_offset : Z; ph_vaddr : Z; ph_filesz : Z; ph_memsz : Z; ph_flags : Z
}.

Definition encode_phdr (p : phdr) : list byte :=
  le32 (ph_type p) ++ le32 (ph_offset p) ++ le32 (ph_vaddr p) ++ le32 (ph_vaddr p) ++
  le32 (ph_filesz p) ++ le32 (ph_memsz p) ++ le32 (ph_flags p) ++ le32 0x1000.

(** An executable with the program headers right after the file header and
    the payload after them. *)
Definition build_elf (entry : Z) (phdrs : list phdr) (payload : list byte)
  : list byte :=
  [z2b ELFMAG0; z2b ELFMAG1; z2b ELFMAG2; z2b ELFMAG3;
   z2b ELFCLASS32; z2b ELFDATA2LSB; z2b 1] ++ repeat Byte.x00 9 ++
  le16 ET_EXEC ++ le16 EM_386 ++ le32 EV_CURRENT ++ le32 entry ++
  le32 sizeof_Ehdr ++ le32 0 ++ le32 0 ++ le16 sizeof_Ehdr ++
  le16 sizeof_Phdr ++ le16 (Z.of_nat (length phdrs)) ++
  le16 0 ++ le16 0 ++ le16 0 ++
  concat (map encode_phdr phdrs) ++ payload.

End Elf.
Export Elf.

(** ** [src/process.c] *)

Module Process.

(** Constants of [process.h] and [gdt.h], which are not among the sources. *)
Record config := Config {
  PROCESS_KSTACK_SIZE : Z;
  USER_STACK_TOP_VIRT_ADDR : Z;
  USER_STACK_BOTTOM_VIRT : Z;
  GDT_USER_CODE_SELECTOR : Z;
  GDT_USER_DATA_SELECTOR : Z
}.

Definition KERNEL_VIRT_BASE : Z := 0xC0000000.
Definition KERNEL_STACK_VIRT_START : Z := 0xE0000000.
Definition KERNEL_STACK_VIRT_END : Z := 0xF0000000.
Definition USER_EFLAGS_DEFAULT : Z := 0x202.

Record pcb_t := Pcb {
  pid : Z;
  page_directory_phys : Z;
  kernel_stack_vaddr_top : Z;
  kernel_stack_phys_base : Z;
  mm : option mm_struct;
  entry_point : Z;
  user_stack_top : Z;
  kernel_esp_for_switch : Z
}.

Definition set_page_directory_phys (v : Z) (p : pcb_t) : pcb_t :=
  Pcb (pid p) v (kernel_stack_vaddr_top p) (kernel_stack_phys_base p) (mm p)
    (entry_point p) (user_stack_top p) (kernel_esp_for_switch p).
Definition set_kernel_stack_vaddr_top (v : Z) (p : pcb_t) : pcb_t :=
  Pcb (pid p) (page_directory_phys p) v (kernel_stack_phys_base p) (mm p)
    (entry_point p) (user_stack_top p) (kernel_esp_for_switch p).
Definition set_kernel_stack_phys_base (v : Z) (p : pcb_t) : pcb_t :=
  Pcb (pid p) (page_directory_phys p) (kernel_stack_vaddr_top p) v (mm p)
    (entry_point p) (user_stack_top p) (kernel_esp_for_switch p).
Definition set_mm (m : option mm_struct) (p : pcb_t) : pcb_t :=
  Pcb (pid p) (page_directory_phys p) (kernel_stack_vaddr_top p)
    (kernel_stack_phys_base p) m (entry_point p) (user_stack_top p)
    (kernel_esp_for_switch p).
Definition set_entry_point (v : Z) (p : pcb_t) : pcb_t :=
  Pcb (pid p) (page_directory_phys p) (kernel_stack_vaddr_top p)
    (kernel_stack_phys_base p) (mm p) v (user_stack_top p) (kernel_esp_for_switch p).
Definition set_user_stack_top (v : Z) (p : pcb_t) : pcb_t :=
  Pcb (pid p) (page_directory_phys p) (kernel_stack_vaddr_top p)
    (kernel_stack_phys_base p) (mm p) (entry_point p) v (kernel_esp_for_switch p).
Definition set_kernel_esp_for_switch (v : Z) (p : pcb_t) : pcb_t :=
  Pcb (pid p) (page_directory_phys p) (kernel_stack_vaddr_top p)
    (kernel_stack_phys_base p) (mm p) (entry_point p) (user_stack_top p) v.

Definition set_brk (b : Z) (m : mm_struct) : mm_struct :=
  Mm (pgd_phys m) (vmas m) b b.

(** Locals of [create_user_process] that the code at [fail_create] reads. *)
Record fail_ctx := FailCtx {
  fc_proc : pcb_t;
  fc_pd_mapped_temp : bool;
  fc_proc_pd_virt_temp : Z;
  fc_initial_stack_phys_frame : Z;
  fc_initial_stack_mapped : bool;
  fc_ret_status : Z
}.

Section WithConfig.

Variable cfg : config.

(** *** [allocate_kernel_stack] *)

(** The clean-up loops [for (j = 0; j < allocated_count; j++) put_frame(phys_frames[j])]. *)
Fixpoint put_frames (phys_frames : list Z) : M unit :=
  match phys_frames with
  | [] => ret tt
  | p :: rest => put_frame p ;; put_frames rest
  end.

(** Step 1: [phys_frames] holds the [allocated_count] frames obtained so
    far; [None] is the [return false] of the exhaustion branch. *)
Fixpoint alloc_stack_frames (remaining : nat) (phys_frames : list Z)
  : M (option (list Z)) :=
  match remaining with
  | O => ret (Some phys_frames)
  | S r =>
      let* p := frame_alloc in
      if p =? 0 then
        put_frames phys_frames ;; kfree HeapFrameList ;; ret None
      else alloc_stack_frames r (phys_frames ++ [p])
  end.

(** Step 3: the mapping loop from index [i] on. *)
Fixpoint map_stack_pages (remaining : nat) (i kstack_virt_base : Z)
    (phys_frames : list Z) : M bool :=
  match remaining with
  | O => ret true
  | S r =>
      let target_vaddr := wrap32 (kstack_virt_base + wrap32 (i * PAGE_SIZE)) in
      let phys_addr := nth (Z.to_nat i) phys_frames 0 in
      let* kpd := gets g_kernel_page_directory_phys in
      let* map_res :=
        paging_map_single_4k kpd target_vaddr phys_addr PTE_KERNEL_DATA_FLAGS in
      match map_res with
      | MapOk => map_stack_pages r (i + 1) kstack_virt_base phys_frames
      | _ =>
          (if 0 <? i
           then paging_unmap_range kpd kstack_virt_base (wrap32 (i * PAGE_SIZE))
           else ret tt) ;;
          put_frames phys_frames ;;
          kfree HeapFrameList ;;
          modify (set_next_kstack kstack_virt_base) ;;
          ret false
      end
  end.

Definition allocate_kernel_stack (proc : pcb_t) : M (bool * pcb_t) :=
  let stack_alloc_size := PROCESS_KSTACK_SIZE cfg in
  if (stack_alloc_size =? 0) || negb (stack_alloc_size mod PAGE_SIZE =? 0)
  then ret (false, proc)
  else
    let num_pages := stack_alloc_size / PAGE_SIZE in
    let* ok := kmalloc in
    if negb ok then ret (false, proc)
    else
      let* frames := alloc_stack_frames (Z.to_nat num_pages) [] in
      match frames with
      | None => ret (false, proc)
      | Some phys_frames =>
          let proc := set_kernel_stack_phys_base (nth 0 phys_frames 0) proc in
          let* kstack_virt_base := gets g_next_kernel_stack_virt_base in
          let kstack_virt_end := wrap32 (kstack_virt_base + stack_alloc_size) in
          if (kstack_virt_base <? KERNEL_STACK_VIRT_START)
             || (KERNEL_STACK_VIRT_END <? kstack_virt_end)
             || (kstack_virt_end <=? kstack_virt_base)
          then
            put_frames phys_frames ;; kfree HeapFrameList ;; ret (false, proc)
          else
            modify (set_next_kstack kstack_virt_end) ;;
            KERNEL_ASSERT (kstack_virt_base mod PAGE_SIZE =? 0) ;;
            let* mapped :=
              map_stack_pages (Z.to_nat num_pages) 0 kstack_virt_base phys_frames in
            if negb mapped then ret (false, proc)
            else
              let proc := set_kernel_stack_vaddr_top kstack_virt_end proc in
              kfree HeapFrameList ;;
              ret (true, proc)
      end.

(** *** [copy_elf_segment_data] *)

Definition copy_elf_segment_data (frame_paddr : Z) (file_data_buffer : list byte)
    (file_buffer_offset size_to_copy zero_padding : Z) : M Z :=
  KERNEL_ASSERT (negb (frame_paddr =? 0) && (frame_paddr mod PAGE_SIZE =? 0)) ;;
  KERNEL_ASSERT (wrap32 (size_to_copy + zero_padding) <=? PAGE_SIZE) ;;
  let* temp_vaddr := paging_temp_map frame_paddr in
  if temp_vaddr =? 0 then ret (-1)
  else
    (if 0 <? size_to_copy
     then memcpy temp_vaddr (skipn (Z.to_nat file_buffer_offset) file_data_buffer)
            (Z.to_nat size_to_copy)
     else ret tt) ;;
    (if 0 <? zero_padding
     then memset (wrap32 (temp_vaddr + size_to_copy)) Byte.x00 (Z.to_nat zero_padding)
     else ret tt) ;;
    paging_temp_unmap temp_vaddr ;;
    ret 0.

(** *** [load_elf_and_init_memory] *)

(** The slice computation at the head of the page loop for segment [i]:
    [(copy_size_this_page, file_buffer_offset, zero_padding_this_page)]. *)
Definition page_slices (file_data : list byte) (i page_v : Z) : Z * Z * Z :=
  let file_copy_start_vaddr := p_vaddr file_data i in
  let file_copy_end_vaddr := wrap32 (p_vaddr file_data i + p_filesz file_data i) in
  let page_start_vaddr := page_v in
  let page_end_vaddr := wrap32 (page_v + PAGE_SIZE) in
  let page_end_vaddr :=
    if page_end_vaddr <=? page_start_vaddr then UINTPTR_MAX else page_end_vaddr in
  let copy_v_start := MAX page_start_vaddr file_copy_start_vaddr in
  let copy_v_end := MIN page_end_vaddr file_copy_end_vaddr in
  let copy_size_this_page :=
    if copy_v_start <? copy_v_end then copy_v_end - copy_v_start else 0 in
  let file_buffer_offset :=
    if 0 <? copy_size_this_page
    then wrap32 (wrap32 (copy_v_start - p_vaddr file_data i) + p_offset file_data i)
    else 0 in
  let mem_end_vaddr := wrap32 (p_vaddr file_data i + p_memsz file_data i) in
  let mem_end_vaddr :=
    if mem_end_vaddr <? p_vaddr file_data i then UINTPTR_MAX else mem_end_vaddr in
  let zero_v_start := wrap32 (page_start_vaddr + copy_size_this_page) in
  let zero_v_end := MIN page_end_vaddr mem_end_vaddr in
  let zero_padding_this_page :=
    if zero_v_start <? zero_v_end then zero_v_end - zero_v_start else 0 in
  (copy_size_this_page, file_buffer_offset, zero_padding_this_page).

(** Body of the page loop for segment [i].  [Some p] is a [goto
    cleanup_load_elf] taken with the local [phys_page] equal to [p]. *)
Definition load_page (file_data : list byte) (pgd : Z) (i page_prot : Z)
    (page_v : Z) : M (option Z) :=
  let* phys_page := frame_alloc in
  if phys_page =? 0 then ret (Some phys_page)
  else
    let '(copy_size_this_page, file_buffer_offset, zero_padding_this_page) :=
      page_slices file_data i page_v in
    if PAGE_SIZE <? wrap32 (copy_size_this_page + zero_padding_this_page) then
      put_frame phys_page ;; ret (Some 0)
    else
      let* r := copy_elf_segment_data phys_page file_data file_buffer_offset
                  copy_size_this_page zero_padding_this_page in
      if negb (r =? 0) then put_frame phys_page ;; ret (Some 0)
      else
        let* map_res := paging_map_single_4k pgd page_v phys_page page_prot in
        match map_res with
        | MapOk => ret None
        | _ => put_frame phys_page ;; ret (Some 0)
        end.

(** The validation of one PT_LOAD segment: [true] when the geometry is
    rejected.  The last operand is only evaluated when [p_offset] is at most
    [file_size], so the subtraction does not wrap. *)
Definition segment_invalid (file_data : list byte) (file_size i : Z) : bool :=
  (KERNEL_VIRT_BASE <=? p_vaddr file_data i)
  || ((KERNEL_VIRT_BASE <? wrap32 (p_vaddr file_data i + p_memsz file_data i))
      && (p_vaddr file_data i <? KERNEL_VIRT_BASE))
  || (wrap32 (p_vaddr file_data i + p_memsz file_data i) <? p_vaddr file_data i)
  || (p_memsz file_data i <? p_filesz file_data i)
  || (file_size <? p_offset file_data i)
  || (file_size - p_offset file_data i <? p_filesz file_data i).

Definition has_flag (flags bit : Z) : bool := negb (Z.land flags bit =? 0).

(** The VMA flags and the page protection derived from [p_flags]. *)
Definition segment_vma_flags (flags : Z) : list vm_flag :=
  [VM_USER; VM_ANONYMOUS]
  ++ (if has_flag flags PF_R then [VM_READ] else [])
  ++ (if has_flag flags PF_W then [VM_WRITE] else [])
  ++ (if has_flag flags PF_X then [VM_EXEC] else []).

Definition segment_page_prot (flags : Z) (g_nx_supported : bool) : Z :=
  let page_prot := Z.lor PAGE_PRESENT PAGE_USER in
  let page_prot :=
    if has_flag flags PF_W then Z.lor page_prot PAGE_RW else page_prot in
  if has_flag flags PF_X then page_prot
  else if g_nx_supported then Z.lor page_prot PAGE_NX_BIT else page_prot.

(** One turn of the segment loop.  The result carries the [goto] (if any),
    the memory descriptor and [highest_addr_loaded]. *)
Definition load_segment (file_data : list byte) (file_size i : Z)
    (mm : mm_struct) (highest_addr_loaded : Z) : M (option Z * mm_struct * Z) :=
  if negb (p_type file_data i =? PT_LOAD) || (p_memsz file_data i =? 0)
  then ret (None, mm, highest_addr_loaded)
  else if segment_invalid file_data file_size i
  then ret (Some 0, mm, highest_addr_loaded)
  else
    let vm_start := PAGE_ALIGN_DOWN (p_vaddr file_data i) in
    let vm_end := PAGE_ALIGN_UP (wrap32 (p_vaddr file_data i + p_memsz file_data i)) in
    if vm_end <=? vm_start then ret (None, mm, highest_addr_loaded)
    else
      let* nx := gets g_nx_supported in
      let vma_flags := segment_vma_flags (p_flags file_data i) in
      let page_prot := segment_page_prot (p_flags file_data i) nx in
      let* inserted := insert_vma mm vm_start vm_end vma_flags page_prot in
      match inserted with
      | None => ret (Some 0, mm, highest_addr_loaded)
      | Some mm =>
          let* e := for_pages page_fuel vm_start vm_end
                      (load_page file_data (pgd_phys mm) i page_prot) in
          match e with
          | Some phys_page => ret (Some phys_page, mm, highest_addr_loaded)
          | None =>
              let current_segment_end :=
                wrap32 (p_vaddr file_data i + p_memsz file_data i) in
              let current_segment_end :=
                if current_segment_end <? p_vaddr file_data i
                then UINTPTR_MAX else current_segment_end in
              ret (None, mm,
                   if highest_addr_loaded <? current_segment_end
                   then current_segment_end else highest_addr_loaded)
          end
      end.

Fixpoint load_segments (remaining : nat) (file_data : list byte)
    (file_size i : Z) (mm : mm_struct) (highest_addr_loaded : Z)
  : M (option Z * mm_struct * Z) :=
  match remaining with
  | O => ret (None, mm, highest_addr_loaded)
  | S r =>
      let* (e, mm, highest) :=
        load_segment file_data file_size i mm highest_addr_loaded in
      match e with
      | Some phys_page => ret (Some phys_page, mm, highest)
      | None => load_segments r file_data file_size (i + 1) mm highest
      end
  end.

(** The header test of step 2: [true] when the file is rejected. *)
Definition header_invalid (file_data : list byte) (file_size : Z) : bool :=
  negb (e_ident file_data EI_MAG0 =? ELFMAG0)
  || negb (e_ident file_data EI_MAG1 =? ELFMAG1)
  || negb (e_ident file_data EI_MAG2 =? ELFMAG2)
  || negb (e_ident file_data EI_MAG3 =? ELFMAG3)
  || negb (e_ident file_data EI_CLASS =? ELFCLASS32)
  || negb (e_ident file_data EI_DATA =? ELFDATA2LSB)
  || negb (e_type file_data =? ET_EXEC)
  || negb (e_machine file_data =? EM_386)
  || negb (e_version file_data =? EV_CURRENT)
  || negb (e_phentsize file_data =? sizeof_Phdr)
  || (e_phoff file_data =? 0)
  || (e_phnum file_data =? 0)
  || (file_size <? e_phoff file_data + e_phnum file_data * e_phentsize file_data)
  || (e_entry file_data =? 0).

(** The code at [cleanup_load_elf]. *)
Definition cleanup_load_elf (have_file : bool) (phys_page : Z) : M unit :=
  (if have_file then kfree HeapFileData else ret tt) ;;
  (if negb (phys_page =? 0) then put_frame phys_page else ret tt).

(** [entry_point] and [initial_brk] are the values behind the two out
    pointers on entry; the result gives the return value, the memory
    descriptor and the values behind the pointers on return. *)
Definition load_elf_and_init_memory (path : string) (mm : mm_struct)
    (entry_point initial_brk : Z) : M (Z * mm_struct * Z * Z) :=
  let* file := read_file path in
  match file with
  | None => cleanup_load_elf false 0 ;; ret (-1, mm, entry_point, initial_brk)
  | Some file_data =>
      let file_size := Z.of_nat (length file_data) in
      if file_size <? sizeof_Ehdr then
        cleanup_load_elf true 0 ;; ret (-1, mm, entry_point, initial_brk)
      else if header_invalid file_data file_size then
        cleanup_load_elf true 0 ;; ret (-1, mm, entry_point, initial_brk)
      else
        (if KERNEL_VIRT_BASE <=? e_entry file_data
         then emit (EvWarnEntryInKernel (e_entry file_data)) else ret tt) ;;
        let entry_point := e_entry file_data in
        let* (e, mm, highest_addr_loaded) :=
          load_segments (Z.to_nat (e_phnum file_data)) file_data file_size 0 mm 0 in
        match e with
        | Some phys_page =>
            cleanup_load_elf true phys_page ;;
            ret (-1, mm, entry_point, initial_brk)
        | None =>
            let initial_brk := PAGE_ALIGN_UP highest_addr_loaded in
            let initial_brk :=
              if initial_brk <? highest_addr_loaded then UINTPTR_MAX else initial_brk in
            cleanup_load_elf true 0 ;;
            ret (0, mm, entry_point, initial_brk)
        end
  end.

(** *** [prepare_initial_kernel_stack] *)

(** [kstack_ptr--; *kstack_ptr = w;] on a [uint32_t *]. *)
Definition push32 (kstack_ptr w : Z) : M Z :=
  let kstack_ptr := wrap32 (kstack_ptr - 4) in
  kstore32 kstack_ptr (wrap32 w) ;; ret kstack_ptr.

Definition prepare_initial_kernel_stack (proc : pcb_t) : M pcb_t :=
  KERNEL_ASSERT (negb (kernel_stack_vaddr_top proc =? 0)) ;;
  KERNEL_ASSERT (negb (entry_point proc =? 0)) ;;
  KERNEL_ASSERT (negb (user_stack_top proc =? 0)) ;;
  let kstack_ptr := kernel_stack_vaddr_top proc in
  let* kstack_ptr := push32 kstack_ptr (Z.lor (GDT_USER_DATA_SELECTOR cfg) 3) in
  let* kstack_ptr := push32 kstack_ptr (user_stack_top proc) in
  let* kstack_ptr := push32 kstack_ptr USER_EFLAGS_DEFAULT in
  let* kstack_ptr := push32 kstack_ptr (Z.lor (GDT_USER_CODE_SELECTOR cfg) 3) in
  let* kstack_ptr := push32 kstack_ptr (entry_point proc) in
  ret (set_kernel_esp_for_switch kstack_ptr proc).

(** *** [destroy_process] *)

(** Body of the loop over the kernel-stack pages. *)
Definition release_stack_page (kpd v_addr : Z) : M (option Empty_set) :=
  let* found := paging_get_physical_address kpd v_addr in
  match found with
  | Some phys_addr =>
      (if negb (phys_addr =? 0) then put_frame phys_addr else ret tt) ;; ret None
  | None => ret None
  end.

Definition destroy_process (pcb : pcb_t) : M unit :=
  (match mm pcb with
   | Some m => destroy_mm m
   | None => ret tt
   end) ;;
  let pcb := set_mm None pcb in
  (if negb (kernel_stack_vaddr_top pcb =? 0) then
     let stack_top := kernel_stack_vaddr_top pcb in
     let stack_size := PROCESS_KSTACK_SIZE cfg in
     let stack_base := wrap32 (stack_top - stack_size) in
     let* kpd := gets g_kernel_page_directory_phys in
     for_pages page_fuel stack_base stack_top (release_stack_page kpd) ;;
     paging_unmap_range kpd stack_base stack_size
   else ret tt) ;;
  (if negb (page_directory_phys pcb =? 0)
   then put_frame (page_directory_phys pcb) else ret tt) ;;
  kfree (HeapPcb (pid pcb)).

(** *** [create_user_process] *)

(** The code at [fail_create]; [proc] is never NULL when it is reached. *)
Definition fail_create (c : fail_ctx) : M unit :=
  (if fc_pd_mapped_temp c && negb (fc_proc_pd_virt_temp c =? 0)
   then paging_temp_unmap (fc_proc_pd_virt_temp c) else ret tt) ;;
  (if negb (fc_initial_stack_phys_frame c =? 0) && negb (fc_initial_stack_mapped c)
   then put_frame (fc_initial_stack_phys_frame c) else ret tt) ;;
  destroy_process (fc_proc c).

(** Steps 7 to 9, once the ELF image is loaded and the break is set. *)
Definition finish_user_process (proc : pcb_t) (m : mm_struct)
    (initial_brk_addr : Z) : M (fail_ctx + pcb_t) :=
  let heap_flags := [VM_READ; VM_WRITE; VM_USER; VM_ANONYMOUS] in
  let* heap := insert_vma m initial_brk_addr initial_brk_addr heap_flags
                 PTE_USER_DATA_FLAGS in
  let m := match heap with Some m' => m' | None => m end in
  let proc := set_mm (Some m) proc in
  let stack_bottom := USER_STACK_BOTTOM_VIRT cfg in
  let stack_top := USER_STACK_TOP_VIRT_ADDR cfg in
  KERNEL_ASSERT ((stack_bottom <? stack_top) && (stack_top <=? KERNEL_VIRT_BASE)
                 && (stack_bottom mod PAGE_SIZE =? 0)
                 && (stack_top mod PAGE_SIZE =? 0)) ;;
  let stk_flags := [VM_READ; VM_WRITE; VM_USER; VM_GROWS_DOWN; VM_ANONYMOUS] in
  let* stk := insert_vma m stack_bottom stack_top stk_flags PTE_USER_DATA_FLAGS in
  match stk with
  | None => ret (inl (FailCtx proc false 0 0 false (-6)))
  | Some m =>
      let proc := set_user_stack_top (USER_STACK_TOP_VIRT_ADDR cfg)
                    (set_mm (Some m) proc) in
      let initial_stack_page_vaddr :=
        wrap32 (USER_STACK_TOP_VIRT_ADDR cfg - PAGE_SIZE) in
      KERNEL_ASSERT (USER_STACK_BOTTOM_VIRT cfg <=? initial_stack_page_vaddr) ;;
      let* initial_stack_phys_frame := frame_alloc in
      if initial_stack_phys_frame =? 0 then
        ret (inl (FailCtx proc false 0 initial_stack_phys_frame false (-7)))
      else
        let* map_res :=
          paging_map_single_4k (page_directory_phys proc) initial_stack_page_vaddr
            initial_stack_phys_frame PTE_USER_DATA_FLAGS in
        match map_res with
        | MapOk =>
            let* proc := prepare_initial_kernel_stack proc in
            ret (inr proc)
        | _ =>
            ret (inl (FailCtx proc false 0 initial_stack_phys_frame false (-8)))
        end
  end.

(** Steps 2 to 6, from the page directory to the loaded ELF image. *)
Definition build_user_process (path : string) (proc : pcb_t)
  : M (fail_ctx + pcb_t) :=
  let* pd_phys := frame_alloc in
  if pd_phys =? 0 then ret (inl (FailCtx proc false 0 0 false (-1)))
  else
    let proc := set_page_directory_phys pd_phys proc in
    let* proc_pd_virt_temp := paging_temp_map pd_phys in
    if proc_pd_virt_temp =? 0 then ret (inl (FailCtx proc false 0 0 false (-2)))
    else
      memset proc_pd_virt_temp Byte.x00 (Z.to_nat PAGE_SIZE) ;;
      copy_kernel_pde_entries proc_pd_virt_temp ;;
      kstore32 (wrap32 (proc_pd_virt_temp + 4 * RECURSIVE_PDE_INDEX))
        (Z.lor (Z.lor (Z.lor (Z.land pd_phys PAGING_ADDR_MASK) PAGE_PRESENT) PAGE_RW)
           PAGE_NX_BIT) ;;
      paging_temp_unmap proc_pd_virt_temp ;;
      let* (kstack_allocated, proc) := allocate_kernel_stack proc in
      if negb kstack_allocated then ret (inl (FailCtx proc false 0 0 false (-3)))
      else
        tss_set_kernel_stack (kernel_stack_vaddr_top proc) ;;
        let* created := create_mm (page_directory_phys proc) in
        match created with
        | None => ret (inl (FailCtx proc false 0 0 false (-4)))
        | Some m =>
            let proc := set_mm (Some m) proc in
            let* (loaded, initial_brk_addr) :=
              load_elf_and_init_memory path m (entry_point proc) 0 in
            let '(res, m, entry) := loaded in
            let proc := set_entry_point entry (set_mm (Some m) proc) in
            if negb (res =? 0) then ret (inl (FailCtx proc false 0 0 false (-5)))
            else
              let m := set_brk initial_brk_addr m in
              finish_user_process (set_mm (Some m) proc) m initial_brk_addr
        end.

(** [Some proc] is the PCB returned on success, [None] the NULL of a
    failure. *)
Definition create_user_process (path : string) : M (option pcb_t) :=
  let* ok := kmalloc in
  if negb ok then ret None
  else
    let* pid := gets next_pid in
    modify (set_next_pid (wrap32 (pid + 1))) ;;
    let proc := Pcb pid 0 0 0 None 0 0 0 in
    let* r := build_user_process path proc in
    match r with
    | inr proc => ret (Some proc)
    | inl c => fail_create c ;; ret None
    end.

End WithConfig.

End Process.
Export Process.

(** ** Observations of the kernel state *)

Module Observe.

(** [preserves f m]: running [m] leaves the observation [f] of the state
    as it was. *)
Definition preserves {A B} (f : kstate -> B) (m : M A) : Prop :=
  forall s a s', m s = Ret a s' -> f s' = f s.

(** The TSS updates recorded in a trace. *)
Definition is_tss (e : event) : bool :=
  match e with EvTssSetKernelStack _ => true | _ => false end.

Definition tss_calls (t : list event) : list Z :=
  flat_map (fun e => match e with EvTssSetKernelStack v => [v] | _ => [] end) t.

(** The warnings about an entry point in kernel space recorded in a trace. *)
Definition is_warn (e : event) : bool :=
  match e with EvWarnEntryInKernel _ => true | _ => false end.

Definition warn_calls (t : list event) : list Z :=
  flat_map (fun e => match e with EvWarnEntryInKernel v => [v] | _ => [] end) t.

(** The files read, as recorded in a trace. *)
Definition is_read (e : event) : bool :=
  match e with EvReadFile _ => true | _ => false end.

Definition read_calls (t : list event) : list string :=
  flat_map (fun e => match e with EvReadFile p => [p] | _ => [] end) t.

(** An observation of the state that is blind to physical memory, to the
    allocators, to every event outside [loud], and to every PTE but those
    of the pages in [K]. *)
Record inert {B} (loud : event -> bool) (K : Z -> Prop) (f : kstate -> B)
  : Prop := Inert {
  in_phys : forall g s, f (set_phys g s) = f s;
  in_script : forall l s, f (set_frame_script l s) = f s;
  in_refs : forall r s, f (set_frame_refs r s) = f s;
  in_kmalloc : forall l s, f (set_kmalloc_script l s) = f s;
  in_tables : forall m s, f (set_page_tables m s) = f s;
  in_pid : forall p s, f (set_next_pid p s) = f s;
  in_emit : forall e s, loud e = false -> f (set_trace (trace s ++ [e]) s) = f s;
  in_ptes : forall m s,
    (forall pd q, K q -> m !! (pd, q) = ptes s !! (pd, q)) ->
    f (set_ptes m s) = f s
}.

(** The pages of [K] are kernel pages other than the temporary slot. *)
Definition kernel_only (K : Z -> Prop) : Prop :=
  forall q, K q -> vpn KERNEL_SPACE_VIRT_START <= q /\ q <> temp_vpn.

(** The only events an observation may be sensitive to are TSS updates,
    entry-point warnings and file reads. *)
Definition loud_ok (loud : event -> bool) : Prop :=
  forall e, is_tss e = false -> is_warn e = false -> is_read e = false ->
            loud e = false.

(** [total P m Q]: from a state in [P], [m] returns, in a state and with a
    result that satisfy [Q]. *)
Definition total {A} (P : kstate -> Prop) (m : M A) (Q : A -> kstate -> Prop) : Prop :=
  forall s, P s -> exists a s', m s = Ret a s' /\ Q a s'.

(** The contract of [frame_alloc]: the frames it hands out are
    page-aligned. *)
Definition frames_ok (s : kstate) : Prop :=
  Forall (fun p => p mod PAGE_SIZE = 0) (frame_script s).

(** The temporary slot is mapped. *)
Definition temp_ready (s : kstate) : Prop :=
  exists pte, ptes s !! (g_kernel_page_directory_phys s, temp_vpn) = Some pte /\
              pte_present pte = true.

Definition temp_inv (s : kstate) : Prop := frames_ok s /\ temp_ready s.

(** The kernel addresses of [lo, hi) are mapped, and address [v] of that
    range lies at physical address [v + d]. *)
Definition window (lo hi d : Z) (s : kstate) : Prop :=
  forall v, lo <= v < hi ->
    translate s (g_kernel_page_directory_phys s) v = Some (v + d).

(** Partial correctness: when [m] returns from a state in [P], the result
    and the final state satisfy [Q]. *)
Definition hoare {A} (P : kstate -> Prop) (m : M A) (Q : A -> kstate -> Prop) : Prop :=
  forall s a s', P s -> m s = Ret a s' -> Q a s'.

(** A frame other than [pd], as a 32-bit address. *)
Definition other_frame (pd p : Z) : Prop := p <> pd /\ 0 <= p < 2 ^ 32.

(** Page [q] of the kernel directory does not map frame [pd]. *)
Definition clean (pd q : Z) (s : kstate) : Prop :=
  forall pte, ptes s !! (g_kernel_page_directory_phys s, q) = Some pte ->
              pte_frame pte <> pd.

(** Frame [pd] is out of reach: [frame_alloc] will not hand it out, the
    kernel pages of [C] do not map it, and it holds the bytes [g]. *)
Record frame_kept (pd kpd : Z) (g : Z -> byte) (C : Z -> Prop) (s : kstate)
  : Prop := FrameKept {
  fk_script : Forall (other_frame pd) (frame_script s);
  fk_clean : forall q, C q -> clean pd q s;
  fk_phys : forall x, pd <= x < pd + PAGE_SIZE -> phys s x = g x;
  fk_kpd : g_kernel_page_directory_phys s = kpd
}.

(** [w] is a PTE that a successful [paging_map_single_4k] of the events
    [evs] wrote for page [q] of directory [pd]. *)
Definition written (evs : list event) (pd q w : Z) : Prop :=
  exists v p fl,
    In (EvMapSingle pd v p fl MapOk) evs /\ vpn v = q /\ w = Z.lor (pte_frame p) fl.

(** From [s] to [s'] the calls [evs] were made, and the page tables changed
    by those calls only, the temporary slot apart: a PTE is as it was or as
    one of the calls wrote it, and a page one of the calls mapped holds
    what one of them wrote. *)
Definition tracks (s s' : kstate) (evs : list event) : Prop :=
  trace s' = trace s ++ evs /\
  (forall pd q, q <> temp_vpn ->
     ptes s' !! (pd, q) = ptes s !! (pd, q) \/
     exists w, written evs pd q w /\ ptes s' !! (pd, q) = Some w) /\
  (forall pd v p fl, In (EvMapSingle pd v p fl MapOk) evs -> vpn v <> temp_vpn ->
     exists w, written evs pd (vpn v) w /\ ptes s' !! (pd, vpn v) = Some w).

(** Every run of [m] that returns is tracked by events that satisfy
    [ok]. *)
Definition tracking (ok : event -> Prop) {A} (m : M A) : Prop :=
  forall s a s', m s = Ret a s' -> exists evs, tracks s s' evs /\ Forall ok evs.

(** What the loader may log: a successful mapping is one of a user page,
    marked present. *)
Definition user_mapping (e : event) : Prop :=
  match e with
  | EvMapSingle _ v _ fl MapOk =>
      Z.land fl PAGE_PRESENT = 1 /\ v < KERNEL_SPACE_VIRT_START
  | _ => True
  end.

(** A frame that [frame_alloc] may hand out and the paging code accepts: a
    page-aligned 32-bit address other than 0. *)
Definition usable_frame (p : Z) : bool :=
  (0 <? p) && (p <? 2 ^ 32) && (p mod PAGE_SIZE =? 0).

(** The coming [k] calls of [frame_alloc] succeed with usable frames. *)
Definition frames_suffice (k : nat) (s : kstate) : bool :=
  (k <=? length (frame_script s))%nat
  && forallb usable_frame (firstn k (frame_script s)).
(** What the allocators will answer next. *)
Definition scripts (s : kstate) : list Z * list bool := (frame_script s, kmalloc_script s).

End Observe.
Export Observe.

(** ** The statements of the specification, in its own terms *)

Module Claims.

(** A program header the loader acts on: PT_LOAD with a non-zero memory
    size. *)
Definition loadable (f : list byte) (i : Z) : bool :=
  (p_type f i =? PT_LOAD) && negb (p_memsz f i =? 0).

Definition ph_indices (f : list byte) : list Z :=
  map Z.of_nat (seq 0 (Z.to_nat (e_phnum f))).

(** The maximum of [vaddr + memsz] over the loadable segments, 0 when there
    is none. *)
Definition max_segment_end (f : list byte) : Z :=
  fold_left
    (fun acc i => if loadable f i then Z.max acc (p_vaddr f i + p_memsz f i) else acc)
    (ph_indices f) 0.

(** The header conditions of section 4.G, each one negated. *)
Definition header_violation (f : list byte) : Prop :=
  e_ident f 0 <> 0x7f \/ e_ident f 1 <> 0x45 \/ e_ident f 2 <> 0x4c \/
  e_ident f 3 <> 0x46 \/
  e_ident f EI_CLASS <> ELFCLASS32 \/
  e_ident f EI_DATA <> ELFDATA2LSB \/
  e_type f <> ET_EXEC \/
  e_machine f <> EM_386 \/
  e_version f <> EV_CURRENT \/
  e_phentsize f <> sizeof_Phdr \/
  e_phoff f + e_phnum f * e_phentsize f > Z.of_nat (length f) \/
  e_entry f = 0.

(** The segment conditions of section 4.G on unbounded integers: the range
    [vaddr, vaddr+memsz) reaches into kernel space, or wraps around, or
    [filesz > memsz], or the file slice leaves the buffer. *)
Definition segment_violation (f : list byte) (i : Z) : Prop :=
  p_vaddr f i + p_memsz f i > KERNEL_VIRT_BASE \/
  p_vaddr f i + p_memsz f i >= 2 ^ 32 \/
  p_filesz f i > p_memsz f i \/
  p_offset f i + p_filesz f i > Z.of_nat (length f).

(** The pages of a kernel stack of [n] pages at [base]. *)
Definition stack_pages (base : Z) (n : nat) : list Z :=
  map (fun k => base + PAGE_SIZE * Z.of_nat k) (seq 0 n).

(** The frame behind kernel address [v], if it is mapped. *)
Definition kernel_frame (s : kstate) (v : Z) : option Z :=
  match ptes s !! (g_kernel_page_directory_phys s, vpn v) with
  | Some pte => if pte_present pte then Some (pte_frame pte) else None
  | None => None
  end.

(** Teardown of one kernel-stack page: the lookup, then [put_frame] on the
    frame found. *)
Definition stack_page_release (s : kstate) (v : Z) : list event :=
  EvGetPhys (g_kernel_page_directory_phys s) v ::
  match kernel_frame s v with
  | Some p => if p =? 0 then [] else [EvPutFrame p]
  | None => []
  end.

(** The order of release section 4.H gives for the teardown of [pcb] in
    state [s]. *)
Definition teardown_events (cfg : config) (pcb : pcb_t) (s : kstate) : list event :=
  let top := kernel_stack_vaddr_top pcb in
  let size := PROCESS_KSTACK_SIZE cfg in
  (match mm pcb with Some m => [EvDestroyMm (pgd_phys m)] | None => [] end) ++
  (if top =? 0 then []
   else concat (map (stack_page_release s)
                  (stack_pages (top - size) (Z.to_nat (size / PAGE_SIZE)))) ++
        [EvUnmapRange (g_kernel_page_directory_phys s) (top - size) size]) ++
  (if page_directory_phys pcb =? 0 then []
   else [EvPutFrame (page_directory_phys pcb)]) ++
  [EvKfree (HeapPcb (pid pcb))].

(** A kernel stack as [allocate_kernel_stack] lays it out: whole pages
    inside the kernel-stack region. *)
Definition kstack_in_region (cfg : config) (top : Z) : Prop :=
  0 < PROCESS_KSTACK_SIZE cfg /\
  PROCESS_KSTACK_SIZE cfg mod PAGE_SIZE = 0 /\
  KERNEL_STACK_VIRT_START <= top - PROCESS_KSTACK_SIZE cfg /\
  top <= KERNEL_STACK_VIRT_END.

(** The frames a stretch of the trace obtained from [frame_alloc], and the
    frames it gave to [put_frame]. *)
Definition frames_allocated (t : list event) : list Z :=
  flat_map (fun e => match e with
                     | EvFrameAlloc p => if p =? 0 then [] else [p]
                     | _ => []
                     end) t.

Definition frames_released (t : list event) : list Z :=
  flat_map (fun e => match e with EvPutFrame p => [p] | _ => [] end) t.

(** The [n] 32-bit words of kernel memory at [esp], [esp + 4], ... in
    ascending order of address. *)
Definition stack_words (s : kstate) (esp : Z) (n : nat) : list (option Z) :=
  map (fun k => kload32 s (esp + 4 * Z.of_nat k)) (seq 0 n).

(** Section 4.G on one segment: in directory [pd] the first [p_filesz]
    bytes at [p_vaddr] are the bytes of the file at [p_offset], and the
    bytes from there up to [p_memsz] are zero. *)
Definition segment_loaded (s : kstate) (pd : Z) (f : list byte) (i : Z) : Prop :=
  (forall k, 0 <= k < p_filesz f i ->
     uload8 s pd (p_vaddr f i + k)
       = Some (nth (Z.to_nat (p_offset f i + k)) f Byte.x00)) /\
  (forall k, p_filesz f i <= k < p_memsz f i ->
     uload8 s pd (p_vaddr f i + k) = Some Byte.x00).

(** Reading a number back from upper-case hexadecimal digits. *)
Definition hex_digit_value (c : byte) : option Z :=
  let z := b2z c in
  if (48 <=? z) && (z <=? 57) then Some (z - 48)
  else if (65 <=? z) && (z <=? 70) then Some (z - 55)
  else None.

Fixpoint hex_value (acc : Z) (l : list byte) : option Z :=
  match l with
  | [] => Some acc
  | c :: rest =>
      match hex_digit_value c with
      | Some d => hex_value (16 * acc + d) rest
      | None => None
      end
  end.

(** The region [(base, size)] is what remains of the first entry of the
    map whose remainder is as large as any. *)
Definition first_largest (kend : Z) (entries : list Boot.mmap_entry)
    (base size : Z) : Prop :=
  exists l1 e l2,
    entries = l1 ++ e :: l2 /\ Boot.considered e /\
    base = Boot.remaining_base kend e /\ size = Boot.remaining_size kend e /\
    (forall e', In e' l1 -> Boot.considered e' -> Boot.remaining_size kend e' < size) /\
    (forall e', In e' l2 -> Boot.considered e' -> Boot.remaining_size kend e' <= size).

(** The frames a stretch of the trace mapped with [paging_map_single_4k]. *)
Definition mapped_frames (t : list event) : list Z :=
  flat_map (fun e => match e with
                     | EvMapSingle _ _ p _ MapOk => [p]
                     | _ => []
                     end) t.

(** Every frame a stretch of the trace took from [frame_alloc] was mapped
    or given back, in this order: first the frames that were mapped, then
    the ones released. *)
Definition frames_accounted (t : list event) : Prop :=
  frames_allocated t = mapped_frames t ++ frames_released t.

(** Events that neither take, map nor release a frame. *)
Definition quiet (evs : list event) : Prop :=
  frames_allocated evs = [] /\ mapped_frames evs = [] /\ frames_released evs = [].

(** The account of a stretch of the page loop: [Some e] is a jump to
    [cleanup_load_elf] with [phys_page = e]. *)
Definition account (r : option Z) (evs : list event) : Prop :=
  frames_accounted evs /\
  match r with
  | None => frames_released evs = []
  | Some e => e = 0 /\ (length (frames_released evs) <= 1)%nat
  end.

(** Page [v] of directory [pd] is mapped. *)
Definition page_present (s : kstate) (pd v : Z) : Prop :=
  exists pte, ptes s !! (pd, vpn v) = Some pte /\ pte_present pte = true.

End Claims.
Export Claims.

(** ** Concrete machines and files *)

Module Examples.

Definition outcome_value {A} (o : outcome A) : option A :=
  match o with Ret a _ => Some a | _ => None end.

Definition outcome_state {A} (o : outcome A) : option kstate :=
  match o with Ret _ s => Some s | _ => None end.

(** Two-page kernel stacks, a user stack below the kernel base, and the
    usual flat-model selectors. *)
Definition cfg0 : config := Config 0x2000 0xC0000000 0xBFF00000 0x18 0x20.

Definition payload : list byte := map (fun n => z2b (Z.of_nat n + 1)) (seq 0 256).

(** The minimal program of the load scenario: one PT_LOAD at 0x08048000
    with [filesz = 0x100], [memsz = 0x2000], flags R|X. *)
Definition scenario_elf : list byte :=
  build_elf 0x08048000 [Phdr PT_LOAD 84 0x08048000 0x100 0x2000 5] payload.

(** The same file with its first magic byte cleared. *)
Definition bad_magic_elf : list byte := Byte.x00 :: tl scenario_elf.

(** A PT_LOAD with [filesz = 1] and [memsz = 0]. *)
Definition empty_segment_elf : list byte :=
  build_elf 0x08048000 [Phdr PT_LOAD 84 0x08048000 1 0 5] payload.

(** A good segment followed by one that starts in kernel space. *)
Definition late_violation_elf : list byte :=
  build_elf 0x08048000
    [Phdr PT_LOAD 116 0x08048000 0x100 0x1000 5;
     Phdr PT_LOAD 116 0xC0000000 0x10 0x10 6] payload.

(** An entry point in kernel space. *)
Definition kernel_entry_elf : list byte :=
  build_elf 0xC0100000 [Phdr PT_LOAD 84 0x08048000 0x100 0x2000 5] payload.

(** A segment that starts four bytes into its page. *)
Definition unaligned_elf : list byte :=
  build_elf 0x08048004 [Phdr PT_LOAD 84 0x08048004 4 8 5] payload.

Definition frames0 : list Z :=
  map (fun n => 0x500000 + 0x1000 * Z.of_nat n) (seq 0 16).

(** A freshly booted machine whose filesystem holds [file] at
    [/kernel.bin]; [frames] is what [frame_alloc] will hand out. *)
Definition machine (frames : list Z) (file : list byte) : kstate :=
  KState (fun _ => Byte.x00) frames ∅ [] ∅ ∅
    (<["/kernel.bin"%string := file]> ∅) 0x100000 true 1 0xE0000000 0 [].

Definition boot_state (file : list byte) : kstate := machine frames0 file.

Definition mm0 : mm_struct := Mm 0x400000 [] 0 0.

Definition created : outcome (option pcb_t) :=
  create_user_process cfg0 "/kernel.bin" (boot_state scenario_elf).

(** The machine after the scenario program has been made a process, and
    the PCB of that process. *)
Definition demo_state : kstate :=
  match created with Ret _ s => s | _ => boot_state scenario_elf end.

Definition demo_pcb : pcb_t :=
  Pcb 1 0x500000 0xE0002000 0x501000
    (Some (Mm 0x500000
             [Vma 0x08048000 0x0804A000 [VM_USER; VM_ANONYMOUS; VM_READ; VM_EXEC] 5;
              Vma 0x0804A000 0x0804A000 [VM_READ; VM_WRITE; VM_USER; VM_ANONYMOUS] 519;
              Vma 0xBFF00000 0xC0000000
                [VM_READ; VM_WRITE; VM_USER; VM_GROWS_DOWN; VM_ANONYMOUS] 519]
             0x0804A000 0x0804A000))
    0x08048000 0xC0000000 0xE0001FEC.

(** The return value, entry point and break of a run of the loader. *)
Definition load_summary (o : outcome (Z * mm_struct * Z * Z)) : option (Z * Z * Z) :=
  match o with
  | Ret (r, _, e, b) _ => Some (r, e, b)
  | _ => None
  end.

(** A machine whose next kernel stack straddles two page tables, with
    frames for the two stack pages and for one page table only. *)
Definition crowded_state : kstate :=
  set_next_kstack 0xE03FF000 (machine [0x501000; 0x502000; 0x503000] []).

Definition proc0 : pcb_t := Pcb 1 0x500000 0 0 None 0 0 0.

(** Whether a run of [allocate_kernel_stack] returned, and what. *)
Definition kstack_summary (o : outcome (bool * pcb_t)) : option bool :=
  match o with
  | Ret (r, _) _ => Some r
  | _ => None
  end.

(** The bytes a run of the loader leaves at the user addresses [vs] of
    directory [pd]. *)
Definition loaded_bytes (o : outcome (Z * mm_struct * Z * Z)) (pd : Z) (vs : list Z)
  : list (option byte) :=
  match o with
  | Ret _ s => map (uload8 s pd) vs
  | _ => []
  end.

(** What the segment loop returned as its error. *)
Definition segments_summary (o : outcome (option Z * mm_struct * Z))
  : option (option Z) :=
  match o with
  | Ret (e, _, _) _ => Some e
  | _ => None
  end.

(** A booted machine whose kernel page directory maps the page at
    0xE0000000 to the frame at 0x501000. *)
Definition mapped_state : kstate :=
  set_ptes (<[(0x100000, vpn 0xE0000000) := Z.lor 0x501000 PTE_KERNEL_DATA_FLAGS]> ∅)
    (boot_state []).

(** Whether two runs of [allocate_kernel_stack] in a row returned, and
    what. *)
Definition two_stacks_summary (o : outcome ((bool * pcb_t) * (bool * pcb_t)))
  : option (bool * bool) :=
  match o with
  | Ret ((a, _), (b, _)) _ => Some (a, b)
  | _ => None
  end.

(** A map with two regions of the same size. *)
Definition twin_map : list Boot.mmap_entry :=
  [ Boot.MmapEntry 0x400000 0x800000 1; Boot.MmapEntry 0x1000000 0x800000 1 ].

End Examples.
Export Examples.

(** * Theorems *)

(** ** Words, bytes and page alignment *)

Module WordFacts.

Lemma pow32 : 2 ^ 32 = 4294967296.
Proof. reflexivity. Qed.

Lemma wrap32_small z : 0 <= z < 2 ^ 32 -> wrap32 z = z.
Proof. intros H. unfold wrap32. apply Z.mod_small. exact H. Qed.

Lemma wrap64_small z : 0 <= z < 2 ^ 64 -> wrap64 z = z.
Proof. intros H. unfold wrap64. apply Z.mod_small. exact H. Qed.

Lemma wrap32_range z : 0 <= wrap32 z < 2 ^ 32.
Proof. unfold wrap32. apply Z.mod_pos_bound. reflexivity. Qed.

Lemma wrap32_mod_page z : wrap32 z mod PAGE_SIZE = z mod PAGE_SIZE.
Proof.
  unfold wrap32, PAGE_SIZE. apply Z.mod_mod_divide.
  exists 1048576. reflexivity.
Qed.

Lemma b2z_range b : 0 <= b2z b < 256.
Proof.
  unfold b2z. pose proof (Byte.to_N_bounded b) as H.
  split; [apply N2Z.is_nonneg|]. lia.
Qed.

Lemma b2z_z2b z : b2z (z2b z) = z mod 256.
Proof.
  unfold b2z, z2b.
  assert (Hr : 0 <= z mod 256 < 256) by (apply Z.mod_pos_bound; lia).
  destruct (Byte.of_N (Z.to_N (z mod 256))) as [b|] eqn:Hb.
  - apply Byte.to_of_N in Hb. rewrite Hb. rewrite Z2N.id; lia.
  - apply Byte.of_N_None_iff in Hb. lia.
Qed.

(** Masking with [~(PAGE_SIZE - 1)] rounds a 32-bit value down to a page. *)
Lemma land_page_mask x :
  0 <= x < 2 ^ 32 -> Z.land x (not32 (PAGE_SIZE - 1)) = PAGE_SIZE * (x / PAGE_SIZE).
Proof.
  intros Hx. unfold not32, wrap32.
  rewrite <- (Z.land_ones (Z.lnot (PAGE_SIZE - 1)) 32) by lia.
  rewrite Z.land_assoc, (Z.land_comm x), <- Z.land_assoc.
  rewrite (Z.land_ones x 32) by lia. rewrite (Z.mod_small x) by exact Hx.
  rewrite Z.land_comm, <- Z.ldiff_land.
  change (PAGE_SIZE - 1) with (Z.ones 12).
  rewrite Z.ldiff_ones_r by lia.
  rewrite Z.shiftl_mul_pow2, Z.shiftr_div_pow2 by lia.
  change (2 ^ 12) with PAGE_SIZE. lia.
Qed.

Lemma page_align_down_eq x :
  0 <= x < 2 ^ 32 -> PAGE_ALIGN_DOWN x = PAGE_SIZE * (x / PAGE_SIZE).
Proof. apply land_page_mask. Qed.

Lemma page_align_up_eq x :
  0 <= x <= 2 ^ 32 - PAGE_SIZE ->
  PAGE_ALIGN_UP x = PAGE_SIZE * ((x + PAGE_SIZE - 1) / PAGE_SIZE).
Proof.
  intros Hx. unfold PAGE_ALIGN_UP, ALIGN_UP.
  assert (Hr : 0 <= x + PAGE_SIZE - 1 < 2 ^ 32) by (unfold PAGE_SIZE in *; lia).
  unfold wrap32 at 1. rewrite Z.mod_small by exact Hr.
  apply land_page_mask. exact Hr.
Qed.

Lemma page_align_down_le x : 0 <= x < 2 ^ 32 -> PAGE_ALIGN_DOWN x <= x.
Proof.
  intros Hx. rewrite page_align_down_eq by exact Hx.
  apply Z.mul_div_le. reflexivity.
Qed.

Lemma page_align_up_ge x : 0 <= x <= 2 ^ 32 - PAGE_SIZE -> x <= PAGE_ALIGN_UP x.
Proof.
  intros Hx. rewrite page_align_up_eq by exact Hx.
  unfold PAGE_SIZE in *.
  pose proof (Z.div_mod (x + 4096 - 1) 4096 ltac:(lia)) as Hd.
  pose proof (Z.mod_pos_bound (x + 4096 - 1) 4096 ltac:(lia)) as Hm. lia.
Qed.

Lemma vpn_div v : vpn v = v / PAGE_SIZE.
Proof. unfold vpn. apply Z.shiftr_div_pow2. vm_compute. discriminate. Qed.

Lemma page_offset_mod v : PAGE_OFFSET v = v mod PAGE_SIZE.
Proof. unfold PAGE_OFFSET. change (PAGE_SIZE - 1) with (Z.ones 12). apply Z.land_ones. lia. Qed.

End WordFacts.
Import WordFacts.

(** ** Reasoning about monadic kernel code *)

Module MonadFacts.

Lemma bind_ret_inv {A B} (m : M A) (k : A -> M B) s b s' :
  bind m k s = Ret b s' -> exists a s1, m s = Ret a s1 /\ k a s1 = Ret b s'.
Proof.
  unfold bind. destruct (m s) as [a s1| |]; intros H; try discriminate.
  exists a, s1. split; [reflexivity | exact H].
Qed.

Lemma ret_inv {A} (a b : A) s s' : ret a s = Ret b s' -> a = b /\ s = s'.
Proof. unfold ret. intros H. injection H. auto. Qed.

Lemma gets_inv {A} (f : kstate -> A) s a s' :
  gets f s = Ret a s' -> a = f s /\ s' = s.
Proof. unfold gets. intros H. injection H. auto. Qed.

Lemma modify_inv (f : kstate -> kstate) s u s' :
  modify f s = Ret u s' -> s' = f s.
Proof. unfold modify. intros H. injection H. auto. Qed.

Lemma emit_inv e s u s' :
  emit e s = Ret u s' -> s' = set_trace (trace s ++ [e]) s.
Proof. unfold emit. intros H. apply modify_inv in H. exact H. Qed.

Lemma assert_inv c s u s' : KERNEL_ASSERT c s = Ret u s' -> c = true /\ s' = s.
Proof.
  unfold KERNEL_ASSERT. destruct c; [|discriminate].
  intros H. apply ret_inv in H. destruct H. auto.
Qed.

Lemma preserves_ret {A B} (f : kstate -> B) (a : A) : preserves f (ret a).
Proof. intros s b s' H. apply ret_inv in H. destruct H as [_ <-]. reflexivity. Qed.

Lemma preserves_halt {A B} (f : kstate -> B) : preserves f (@halt A).
Proof. intros s b s' H. discriminate. Qed.

Lemma preserves_spin {A B} (f : kstate -> B) : preserves f (@spin A).
Proof. intros s b s' H. discriminate. Qed.

Lemma preserves_bind {A B C} (f : kstate -> C) (m : M A) (k : A -> M B) :
  preserves f m -> (forall a, preserves f (k a)) -> preserves f (bind m k).
Proof.
  intros Hm Hk s b s' H. apply bind_ret_inv in H.
  destruct H as (a & s1 & H1 & H2).
  rewrite (Hk a _ _ _ H2). apply (Hm _ _ _ H1).
Qed.

Lemma preserves_gets {A B} (f : kstate -> B) (g : kstate -> A) : preserves f (gets g).
Proof. intros s b s' H. apply gets_inv in H. destruct H as [_ ->]. reflexivity. Qed.

Lemma preserves_modify {B} (f : kstate -> B) (g : kstate -> kstate) :
  (forall s, f (g s) = f s) -> preserves f (modify g).
Proof. intros Hg s b s' H. apply modify_inv in H. subst s'. apply Hg. Qed.

Lemma preserves_assert {B} (f : kstate -> B) c : preserves f (KERNEL_ASSERT c).
Proof. intros s b s' H. apply assert_inv in H. destruct H as [_ ->]. reflexivity. Qed.

Lemma preserves_for_pages {E B} (f : kstate -> B) (body : Z -> M (option E)) :
  (forall v, preserves f (body v)) ->
  forall fuel v v_end, preserves f (for_pages fuel v v_end body).
Proof.
  intros Hb. induction fuel as [|fuel IH]; intros v v_end; simpl.
  - apply preserves_spin.
  - destruct (v <? v_end); [|apply preserves_ret].
    apply preserves_bind; [apply Hb|]. intros [e|]; [apply preserves_ret | apply IH].
Qed.

Lemma preserves_for_pages_below {E B} (f : kstate -> B) (body : Z -> M (option E)) v_end :
  (forall v, v < v_end -> preserves f (body v)) ->
  forall fuel v, preserves f (for_pages fuel v v_end body).
Proof.
  intros Hb. induction fuel as [|fuel IH]; intros v; simpl.
  - apply preserves_spin.
  - destruct (v <? v_end) eqn:Hv; [|apply preserves_ret].
    apply Z.ltb_lt in Hv.
    apply preserves_bind; [apply Hb; exact Hv|].
    intros [e|]; [apply preserves_ret | apply IH].
Qed.

(** Structural steps of a [preserves] proof. *)
Ltac pres_step :=
  match goal with
  | |- preserves _ (ret _) => apply preserves_ret
  | |- preserves _ halt => apply preserves_halt
  | |- preserves _ spin => apply preserves_spin
  | |- preserves _ (gets _) => apply preserves_gets
  | |- preserves _ (KERNEL_ASSERT _) => apply preserves_assert
  | |- preserves _ (bind _ _) => apply preserves_bind; [|intros ?]
  | |- preserves _ (if ?b then _ else _) => destruct b
  | |- preserves _ (match ?x with _ => _ end) => destruct x
  | |- preserves _ (for_pages _ _ _ _) => apply preserves_for_pages; intros ?
  end.

Section Inert.

Context {B : Type} (loud : event -> bool) (K : Z -> Prop) (f : kstate -> B).
Hypothesis Hf : inert loud K f.
Hypothesis HK : kernel_only K.
Hypothesis Hloud : loud_ok loud.

Lemma not_K_temp : ~ K temp_vpn.
Proof. intros H. destruct (HK _ H) as [_ Hne]. apply Hne. reflexivity. Qed.

Lemma not_K_user q : q < vpn KERNEL_SPACE_VIRT_START -> ~ K q.
Proof. intros Hq H. destruct (HK _ H) as [Hge _]. lia. Qed.

Lemma pres_emit e :
  is_tss e = false -> is_warn e = false -> is_read e = false -> preserves f (emit e).
Proof.
  intros He Hw Hr. apply preserves_modify. intros s.
  apply (in_emit loud K f Hf), Hloud; assumption.
Qed.

Lemma pres_kmalloc : preserves f kmalloc.
Proof.
  intros s a s' H. unfold kmalloc in H. injection H as _ <-.
  etransitivity; [|apply (in_kmalloc loud K f Hf (tl (kmalloc_script s)) s)].
  apply (in_emit loud K f Hf _ (set_kmalloc_script _ s)), Hloud; reflexivity.
Qed.

Lemma pres_kfree o : preserves f (kfree o).
Proof. apply pres_emit; reflexivity. Qed.

Lemma pres_frame_alloc_raw : preserves f frame_alloc_raw.
Proof.
  intros s a s' H. unfold frame_alloc_raw in H.
  destruct (frame_script s) as [|p rest]; injection H as _ <-; [reflexivity|].
  rewrite (in_script loud K f Hf). destruct (p =? 0); [reflexivity|].
  apply (in_refs loud K f Hf).
Qed.

Lemma pres_frame_alloc : preserves f frame_alloc.
Proof.
  unfold frame_alloc. repeat pres_step.
  - apply pres_frame_alloc_raw.
  - apply pres_emit; reflexivity.
Qed.

Lemma pres_put_frame_raw p : preserves f (put_frame_raw p).
Proof.
  apply preserves_modify. intros s.
  destruct (frame_refs s !! p) as [[|n]|]; try reflexivity.
  apply (in_refs loud K f Hf).
Qed.

Lemma pres_put_frame p : preserves f (put_frame p).
Proof.
  unfold put_frame. repeat pres_step.
  - apply pres_emit; reflexivity.
  - apply pres_put_frame_raw.
Qed.

Lemma pres_kstore8 v b : preserves f (kstore8 v b).
Proof.
  intros s a s' H. unfold kstore8 in H.
  destruct (translate s (g_kernel_page_directory_phys s) v); [|discriminate].
  injection H as Hs. subst s'. apply (in_phys loud K f Hf).
Qed.

Lemma pres_kstore32 v w : preserves f (kstore32 v w).
Proof. unfold kstore32. repeat pres_step; apply pres_kstore8. Qed.

Lemma pres_memset n : forall p c, preserves f (memset p c n).
Proof.
  induction n as [|n IH]; intros p c; simpl; repeat pres_step;
    [apply pres_kstore8 | apply IH].
Qed.

Lemma pres_memcpy n : forall d src, preserves f (memcpy d src n).
Proof.
  induction n as [|n IH]; intros d src; simpl; repeat pres_step;
    [apply pres_kstore8 | apply IH].
Qed.

Lemma pres_set_pte pd q w :
  ~ K q -> forall s, f (set_ptes (<[(pd, q) := w]> (ptes s)) s) = f s.
Proof.
  intros Hq s. apply (in_ptes loud K f Hf). intros pd' q' Hq'.
  apply lookup_insert_ne. intros Heq. injection Heq as _ ->. contradiction.
Qed.

Lemma pres_del_pte pd q :
  ~ K q -> forall s, f (set_ptes (delete (pd, q) (ptes s)) s) = f s.
Proof.
  intros Hq s. apply (in_ptes loud K f Hf). intros pd' q' Hq'.
  apply lookup_delete_ne. intros Heq. injection Heq as _ ->. contradiction.
Qed.

Lemma pres_temp_map_raw p : preserves f (paging_temp_map_raw p).
Proof.
  unfold paging_temp_map_raw. repeat pres_step.
  apply preserves_modify. intros s. apply pres_set_pte, not_K_temp.
Qed.

Lemma pres_temp_map p : preserves f (paging_temp_map p).
Proof.
  unfold paging_temp_map. repeat pres_step.
  - apply pres_emit; reflexivity.
  - apply pres_temp_map_raw.
Qed.

Lemma pres_temp_unmap_raw : preserves f paging_temp_unmap_raw.
Proof. apply preserves_modify. intros s. apply pres_del_pte, not_K_temp. Qed.

Lemma pres_temp_unmap v : preserves f (paging_temp_unmap v).
Proof.
  unfold paging_temp_unmap. repeat pres_step.
  - apply pres_emit; reflexivity.
  - apply pres_temp_unmap_raw.
Qed.

Lemma pres_ensure_page_table pd v : preserves f (ensure_page_table pd v).
Proof.
  unfold ensure_page_table. repeat pres_step.
  - apply pres_frame_alloc_raw.
  - apply pres_temp_map_raw.
  - apply pres_put_frame_raw.
  - apply pres_memset.
  - apply pres_temp_unmap_raw.
  - apply preserves_modify. intros s. apply (in_tables loud K f Hf).
Qed.

(** Mapping a page whose number is outside [K]. *)
Lemma pres_map_single_raw pd v p flags :
  ~ K (vpn v) -> preserves f (paging_map_single_4k_raw pd v p flags).
Proof.
  intros Hv. unfold paging_map_single_4k_raw. repeat pres_step;
    try apply pres_ensure_page_table; try apply pres_put_frame_raw;
    apply preserves_modify; intros s; apply pres_set_pte, Hv.
Qed.

Lemma vpn_mono a b : a <= b -> vpn a <= vpn b.
Proof.
  intros H. unfold vpn. rewrite !Z.shiftr_div_pow2 by (vm_compute; discriminate).
  apply Z.div_le_mono; [reflexivity | exact H].
Qed.

(** Mapping with the USER flag never reaches a kernel page. *)
Lemma pres_map_single_user_raw pd v p flags :
  Z.land flags PAGE_USER <> 0 ->
  preserves f (paging_map_single_4k_raw pd v p flags).
Proof.
  intros Hu.
  destruct (KERNEL_SPACE_VIRT_START <=? v) eqn:Hv.
  - unfold paging_map_single_4k_raw. rewrite Hv.
    destruct (Z.land flags PAGE_USER =? 0) eqn:H0;
      [apply Z.eqb_eq in H0; contradiction|].
    simpl. repeat pres_step.
  - apply pres_map_single_raw. apply not_K_user.
    apply Z.leb_gt in Hv.
    assert (Hp : vpn v <= vpn (KERNEL_SPACE_VIRT_START - 1))
      by (apply vpn_mono; lia).
    assert (Hq : vpn (KERNEL_SPACE_VIRT_START - 1) < vpn KERNEL_SPACE_VIRT_START)
      by reflexivity.
    lia.
Qed.

Lemma pres_map_single_user pd v p flags :
  Z.land flags PAGE_USER <> 0 ->
  preserves f (paging_map_single_4k pd v p flags).
Proof.
  intros Hu. unfold paging_map_single_4k. repeat pres_step.
  - apply pres_map_single_user_raw, Hu.
  - apply pres_emit; reflexivity.
Qed.

Lemma pres_get_physical_address pd v : preserves f (paging_get_physical_address pd v).
Proof.
  unfold paging_get_physical_address. repeat pres_step.
  apply pres_emit; reflexivity.
Qed.

Lemma pres_copy_pde_slots n : forall d i, preserves f (copy_pde_slots d i n).
Proof.
  induction n as [|n IH]; intros d i; simpl; repeat pres_step;
    [apply pres_kstore32 | apply IH].
Qed.

Lemma pres_copy_kernel_pde_entries d : preserves f (copy_kernel_pde_entries d).
Proof.
  unfold copy_kernel_pde_entries. repeat pres_step.
  - apply pres_emit; reflexivity.
  - apply pres_copy_pde_slots.
Qed.

Lemma pres_read_file path :
  (forall p, loud (EvReadFile p) = false) -> preserves f (read_file path).
Proof.
  intros Hread. unfold read_file. repeat pres_step.
  apply preserves_modify. intros s. apply (in_emit loud K f Hf), Hread.
Qed.

Lemma pres_create_mm pd : preserves f (create_mm pd).
Proof.
  unfold create_mm. repeat pres_step.
  - apply pres_emit; reflexivity.
  - apply pres_kmalloc.
Qed.

Lemma pres_insert_vma m a b flags prot : preserves f (insert_vma m a b flags prot).
Proof.
  unfold insert_vma. repeat pres_step;
    try apply pres_kmalloc; apply pres_emit; reflexivity.
Qed.

Lemma pres_free_user_space pd : preserves f (paging_free_user_space pd).
Proof.
  apply preserves_modify. intros s.
  rewrite (in_refs loud K f Hf), (in_ptes loud K f Hf).
  - apply (in_tables loud K f Hf).
  - intros pd' q Hq. cbn.
    destruct (ptes s !! (pd', q)) as [w|] eqn:Hl.
    + apply map_lookup_filter_Some. split; [exact Hl|].
      unfold user_pte. cbn. apply andb_false_iff. right.
      apply Z.ltb_ge. apply (HK q Hq).
    + apply map_lookup_filter_None. left. exact Hl.
Qed.

Lemma pres_destroy_mm m : preserves f (destroy_mm m).
Proof.
  unfold destroy_mm. repeat pres_step.
  - apply pres_emit; reflexivity.
  - apply pres_free_user_space.
Qed.

Variable cfg : config.

Lemma pres_put_frames l : preserves f (put_frames l).
Proof.
  induction l as [|p l IH]; simpl; repeat pres_step;
    [apply pres_put_frame | apply IH].
Qed.

Lemma pres_copy_elf_segment_data frame file off n z :
  preserves f (copy_elf_segment_data frame file off n z).
Proof.
  unfold copy_elf_segment_data. repeat pres_step;
    first [apply pres_temp_map | apply pres_memcpy | apply pres_memset
          | apply pres_temp_unmap].
Qed.

Lemma segment_page_prot_user flags nx :
  Z.land (segment_page_prot flags nx) PAGE_USER <> 0.
Proof.
  unfold segment_page_prot.
  destruct (has_flag flags PF_W), (has_flag flags PF_X), nx; vm_compute; discriminate.
Qed.

Lemma pres_load_page file pgd i prot page_v :
  Z.land prot PAGE_USER <> 0 -> preserves f (load_page file pgd i prot page_v).
Proof.
  intros Hu. unfold load_page.
  destruct (page_slices file i page_v) as [[n off] z]. repeat pres_step;
    first [apply pres_frame_alloc | apply pres_put_frame
          | apply pres_copy_elf_segment_data
          | apply pres_map_single_user; exact Hu].
Qed.

Lemma pres_load_segment file size i m hi :
  preserves f (load_segment file size i m hi).
Proof.
  unfold load_segment. repeat pres_step;
    first [apply pres_insert_vma
          | apply pres_load_page, segment_page_prot_user].
Qed.

Lemma pres_load_segments n : forall file size i m hi,
  preserves f (load_segments n file size i m hi).
Proof.
  induction n as [|n IH]; intros file size i m hi; simpl.
  - apply preserves_ret.
  - apply preserves_bind; [apply pres_load_segment|].
    intros [[e m'] hi']. destruct e; [apply preserves_ret | apply IH].
Qed.

Lemma pres_cleanup_load_elf b p : preserves f (cleanup_load_elf b p).
Proof.
  unfold cleanup_load_elf. repeat pres_step;
    first [apply pres_kfree | apply pres_put_frame].
Qed.

Lemma pres_load_elf path m e b :
  (forall v, loud (EvWarnEntryInKernel v) = false) ->
  (forall p, loud (EvReadFile p) = false) ->
  preserves f (load_elf_and_init_memory path m e b).
Proof.
  intros Hwarn Hread.
  unfold load_elf_and_init_memory.
  apply preserves_bind; [apply pres_read_file, Hread|]. intros [file|].
  - repeat pres_step;
      first [apply pres_cleanup_load_elf | apply pres_load_segments
            | apply preserves_modify; intros s;
              apply (in_emit loud K f Hf), Hwarn].
  - repeat pres_step. apply pres_cleanup_load_elf.
Qed.

Lemma pres_push32 p w : preserves f (push32 p w).
Proof. unfold push32. repeat pres_step. apply pres_kstore32. Qed.

Lemma pres_prepare proc : preserves f (prepare_initial_kernel_stack cfg proc).
Proof.
  unfold prepare_initial_kernel_stack. repeat pres_step; apply pres_push32.
Qed.

Lemma pres_release_stack_page kpd v : preserves f (release_stack_page kpd v).
Proof.
  unfold release_stack_page. repeat pres_step;
    first [apply pres_get_physical_address | apply pres_put_frame].
Qed.

Lemma pres_finish_user_process proc m brk :
  preserves f (finish_user_process cfg proc m brk).
Proof.
  unfold finish_user_process. repeat pres_step;
    first [apply pres_insert_vma | apply pres_frame_alloc | apply pres_prepare
          | apply pres_map_single_user; vm_compute; discriminate].
Qed.

End Inert.

(** Observations that depend on no PTE at all also survive the code that
    maps and unmaps kernel pages. *)
Section InertAll.

Context {B : Type} (loud : event -> bool) (f : kstate -> B).
Hypothesis Hf : inert loud (fun _ => False) f.
Hypothesis Hloud : loud_ok loud.
Variable cfg : config.

Lemma kernel_only_none : kernel_only (fun _ => False).
Proof. intros q []. Qed.

Lemma pres_map_single pd v p flags : preserves f (paging_map_single_4k pd v p flags).
Proof.
  unfold paging_map_single_4k. repeat pres_step.
  - apply (pres_map_single_raw loud _ f Hf kernel_only_none). intros [].
  - apply (pres_emit loud _ f Hf Hloud); reflexivity.
Qed.

Lemma pres_unmap_page pd q : preserves f (unmap_page pd q).
Proof.
  unfold unmap_page. repeat pres_step; try apply (pres_put_frame_raw loud _ f Hf);
    apply preserves_modify; intros s; apply (pres_del_pte loud _ f Hf); intros [].
Qed.

Lemma pres_unmap_pages n : forall pd q, preserves f (unmap_pages pd q n).
Proof.
  induction n as [|n IH]; intros pd q; simpl; repeat pres_step;
    [apply pres_unmap_page | apply IH].
Qed.

Lemma pres_unmap_range pd v n : preserves f (paging_unmap_range pd v n).
Proof.
  unfold paging_unmap_range. repeat pres_step.
  - apply (pres_emit loud _ f Hf Hloud); reflexivity.
  - apply pres_unmap_pages.
Qed.

Lemma pres_alloc_stack_frames n : forall acc, preserves f (alloc_stack_frames n acc).
Proof.
  induction n as [|n IH]; intros acc; simpl; repeat pres_step;
    first [apply (pres_frame_alloc loud _ f Hf Hloud) | apply (pres_put_frames loud _ f Hf Hloud)
          | apply (pres_kfree loud _ f Hf Hloud) | apply IH].
Qed.

Lemma pres_destroy_process pcb : preserves f (destroy_process cfg pcb).
Proof.
  unfold destroy_process. repeat pres_step;
    first [apply (pres_destroy_mm loud _ f Hf kernel_only_none Hloud)
          | apply (pres_release_stack_page loud _ f Hf Hloud)
          | apply pres_unmap_range
          | apply (pres_put_frame loud _ f Hf Hloud)
          | apply (pres_kfree loud _ f Hf Hloud)].
Qed.

Lemma pres_fail_create c : preserves f (fail_create cfg c).
Proof.
  unfold fail_create. repeat pres_step;
    first [apply (pres_temp_unmap loud _ f Hf kernel_only_none Hloud)
          | apply (pres_put_frame loud _ f Hf Hloud)
          | apply pres_destroy_process].
Qed.

Hypothesis Hkstack : forall v s, f (set_next_kstack v s) = f s.

Lemma pres_map_stack_pages n : forall i base frames,
  preserves f (map_stack_pages n i base frames).
Proof.
  induction n as [|n IH]; intros i base frames; simpl; repeat pres_step;
    first [apply pres_map_single | apply pres_unmap_range
          | apply (pres_put_frames loud _ f Hf Hloud) | apply (pres_kfree loud _ f Hf Hloud)
          | apply preserves_modify; intros s; apply Hkstack | apply IH].
Qed.

Lemma pres_allocate_kernel_stack proc : preserves f (allocate_kernel_stack cfg proc).
Proof.
  unfold allocate_kernel_stack. repeat pres_step;
    first [apply (pres_kmalloc loud _ f Hf Hloud) | apply pres_alloc_stack_frames
          | apply (pres_put_frames loud _ f Hf Hloud) | apply (pres_kfree loud _ f Hf Hloud)
          | apply preserves_modify; intros s; apply Hkstack
          | apply pres_map_stack_pages].
Qed.

End InertAll.

End MonadFacts.
Import MonadFacts.

(** ** The memory-map scan *)

Module BootFacts.
Import Boot.

Lemma considered_dec e :
  (mm_type e =? MULTIBOOT_MEMORY_AVAILABLE) && (0x100000 <=? mm_addr e) = true
  <-> considered e.
Proof.
  unfold considered. rewrite andb_true_iff, Z.eqb_eq, Z.leb_le. tauto.
Qed.

(** On an entry below 4 GiB the loop body keeps the larger of the best
    region so far and what remains of the entry. *)
Lemma scan_entry_below_4g kend bb bs e :
  0 <= bs -> (considered e -> below_4g e) ->
  scan_entry kend (bb, bs) e =
    if (mm_type e =? MULTIBOOT_MEMORY_AVAILABLE) && (0x100000 <=? mm_addr e)
    then if bs <? remaining_size kend e
         then (remaining_base kend e, remaining_size kend e) else (bb, bs)
    else (bb, bs).
Proof.
  intros Hbs Hfit. unfold scan_entry.
  destruct ((mm_type e =? MULTIBOOT_MEMORY_AVAILABLE) && (0x100000 <=? mm_addr e))
    eqn:Hc; [|reflexivity].
  apply considered_dec in Hc. destruct (Hfit Hc) as (Hlen & Hlt32 & Hend).
  destruct Hc as [_ Haddr].
  assert (Hp : 2 ^ 32 = 4294967296) by reflexivity.
  assert (Hq : 2 ^ 64 = 18446744073709551616) by reflexivity.
  rewrite (wrap32_small (mm_addr e)) by lia.
  rewrite (wrap64_small (mm_addr e + mm_len e)) by lia.
  unfold remaining_base, remaining_size.
  destruct (mm_addr e <? kend) eqn:H1; [apply Z.ltb_lt in H1 | apply Z.ltb_ge in H1].
  - destruct (kend <? mm_addr e + mm_len e) eqn:H2;
      [apply Z.ltb_lt in H2 | apply Z.ltb_ge in H2].
    + rewrite wrap64_small by lia.
      replace (Z.max (mm_addr e) kend) with kend by lia.
      replace (Z.max 0 (mm_addr e + mm_len e - kend))
        with (mm_len e - (kend - mm_addr e)) by lia.
      reflexivity.
    + replace (Z.max 0 (mm_addr e + mm_len e - Z.max (mm_addr e) kend)) with 0 by lia.
      replace (bs <? 0) with false by (symmetry; apply Z.ltb_ge; lia).
      reflexivity.
  - replace (Z.max (mm_addr e) kend) with (mm_addr e) by lia.
    replace (Z.max 0 (mm_addr e + mm_len e - mm_addr e)) with (mm_len e) by lia.
    reflexivity.
Qed.

Lemma scan_inv_step kend seen best e :
  (considered e -> below_4g e) ->
  scan_inv kend seen best ->
  scan_inv kend (seen ++ [e]) (scan_entry kend best e).
Proof.
  intros Hfit (Hpos & Hmax & Hwit). destruct best as [bb bs].
  unfold scan_inv. cbn [fst snd] in *.
  rewrite scan_entry_below_4g by assumption.
  destruct ((mm_type e =? MULTIBOOT_MEMORY_AVAILABLE) && (0x100000 <=? mm_addr e))
    eqn:Hc.
  - apply considered_dec in Hc.
    destruct (bs <? remaining_size kend e) eqn:Hlt;
      [apply Z.ltb_lt in Hlt | apply Z.ltb_ge in Hlt]; cbn [fst snd].
    + split; [lia|]. split.
      * intros e' Hin Hc'. apply in_app_or in Hin. destruct Hin as [Hin | [<- | []]].
        -- specialize (Hmax e' Hin Hc'). lia.
        -- lia.
      * intros _. exists e. split; [apply in_or_app; right; left; reflexivity|].
        auto.
    + split; [lia|]. split.
      * intros e' Hin Hc'. apply in_app_or in Hin. destruct Hin as [Hin | [<- | []]].
        -- auto.
        -- lia.
      * intros Hb. destruct (Hwit Hb) as (e' & Hin & Hrest).
        exists e'. split; [apply in_or_app; left; exact Hin | exact Hrest].
  - cbn [fst snd]. split; [lia|]. split.
    + intros e' Hin Hc'. apply in_app_or in Hin. destruct Hin as [Hin | [<- | []]].
      * auto.
      * apply considered_dec in Hc'. congruence.
    + intros Hb. destruct (Hwit Hb) as (e' & Hin & Hrest).
      exists e'. split; [apply in_or_app; left; exact Hin | exact Hrest].
Qed.

Lemma scan_inv_fold kend rest : forall seen best,
  Forall (fun e => considered e -> below_4g e) rest ->
  scan_inv kend seen best ->
  scan_inv kend (seen ++ rest) (fold_left (scan_entry kend) rest best).
Proof.
  induction rest as [|e rest IH]; intros seen best Hall Hinv; simpl.
  - rewrite app_nil_r. exact Hinv.
  - inversion Hall as [|? ? He Hrest]; subst.
    replace (seen ++ e :: rest) with ((seen ++ [e]) ++ rest)
      by (rewrite <- app_assoc; reflexivity).
    apply IH; [exact Hrest|]. apply scan_inv_step; assumption.
Qed.

Lemma remaining_size_bound kend e :
  considered e -> below_4g e -> remaining_size kend e < 2 ^ 32.
Proof.
  intros [_ Ha] (Hl & _ & He). unfold remaining_size.
  assert (Hp : 2 ^ 32 = 4294967296) by reflexivity. lia.
Qed.

(** On a memory map whose AVAILABLE entries at or above 1 MiB lie below
    4 GiB, [find_largest_memory_area] returns the base and size of a largest
    region that remains after trimming [0, kernel_image_end) from those
    entries, and returns false exactly when nothing remains; on the map of
    the boot scenario it returns base 0x400000 and size 0x800000. *)
Theorem find_largest_memory_area_below_4g kend entries :
  Forall (fun e => considered e -> below_4g e) entries ->
  match find_largest_memory_area kend entries with
  | Some (base, size) => 0 < size /\ largest_remaining kend entries base size
  | None => forall e, In e entries -> considered e -> remaining_size kend e = 0
  end
  /\ find_largest_memory_area 0x200000 scenario_map = Some (0x400000, 0x800000).
Proof.
  intros Hall. split; [|reflexivity].
  unfold find_largest_memory_area.
  assert (Hinv : scan_inv kend ([] ++ entries)
                   (fold_left (scan_entry kend) entries (0, 0))).
  { apply scan_inv_fold; [exact Hall|].
    split; [simpl; lia|]. split; [intros e []|]. simpl. lia. }
  simpl app in Hinv.
  destruct (fold_left (scan_entry kend) entries (0, 0)) as [bb bs].
  destruct Hinv as (Hpos & Hmax & Hwit). simpl in *.
  destruct (0 <? bs) eqn:Hb; [apply Z.ltb_lt in Hb | apply Z.ltb_ge in Hb].
  - destruct (Hwit Hb) as (e & Hin & Hc & Hbase & Hsize).
    assert (Hfit : below_4g e).
    { rewrite List.Forall_forall in Hall. apply (Hall e); assumption. }
    pose proof (remaining_size_bound kend e Hc Hfit) as Hlt.
    rewrite wrap32_small by lia.
    split; [exact Hb|]. split.
    + exists e. auto.
    + exact Hmax.
  - intros e Hin Hc. specialize (Hmax e Hin Hc).
    unfold remaining_size in *. lia.
Qed.

Lemma find_largest_memory_area_below_4g_witness :
  match find_largest_memory_area 0x200000 scenario_map with
  | Some (base, size) => 0 < size /\ largest_remaining 0x200000 scenario_map base size
  | None => forall e, In e scenario_map -> considered e -> remaining_size 0x200000 e = 0
  end
  /\ find_largest_memory_area 0x200000 scenario_map = Some (0x400000, 0x800000).
Proof.
  apply (find_largest_memory_area_below_4g 0x200000 scenario_map).
  repeat constructor; simpl; lia.
Defined.

(** C3: [find_largest_memory_area] goes wrong on a map with memory above
    4 GiB.  The entry passes the test [addr >= 0x100000] on its 64-bit
    address, which is then cut to 32 bits: for the one-entry map
    [(0x100000000, 0x40000000, AVAILABLE)] and a kernel image that ends at
    0x200000 the function reports base 0x200000 and size 0x3FE00000.  That
    is not the largest region that remains of the map, and the map has no
    memory at all at the addresses reported. *)
Theorem find_largest_memory_area_high_memory :
  find_largest_memory_area 0x200000 high_memory_map = Some (0x200000, 0x3FE00000)
  /\ ~ largest_remaining 0x200000 high_memory_map 0x200000 0x3FE00000
  /\ forall e a, In e high_memory_map -> 0x200000 <= a < 0x200000 + 0x3FE00000 ->
                 ~ (mm_addr e <= a < mm_addr e + mm_len e).
Proof.
  split; [reflexivity|]. split.
  - intros [(e & Hin & _ & Hbase & _) _].
    destruct Hin as [<- | []]. vm_compute in Hbase. discriminate.
  - intros e a [<- | []] Ha. cbn. lia.
Qed.

End BootFacts.

(** ** The ELF loader *)

Module ElfFacts.

Lemma u8_range f off : 0 <= u8 f off < 256.
Proof. apply b2z_range. Qed.

Lemma u16_range f off : 0 <= u16 f off < 2 ^ 16.
Proof.
  unfold u16. pose proof (u8_range f off). pose proof (u8_range f (off + 1)).
  change (2 ^ 16) with 65536. change (2 ^ 8) with 256. lia.
Qed.

Lemma u32_range f off : 0 <= u32 f off < 2 ^ 32.
Proof.
  unfold u32. pose proof (u8_range f off). pose proof (u8_range f (off + 1)).
  pose proof (u8_range f (off + 2)). pose proof (u8_range f (off + 3)).
  rewrite pow32. change (2 ^ 8) with 256. change (2 ^ 16) with 65536.
  change (2 ^ 24) with 16777216. lia.
Qed.

(** What the validation of a segment with a non-zero memory size leaves:
    the range does not wrap and ends at or below the kernel base. *)
Lemma segment_valid_bounds f size i :
  segment_invalid f size i = false -> p_memsz f i <> 0 ->
  wrap32 (p_vaddr f i + p_memsz f i) = p_vaddr f i + p_memsz f i /\
  p_vaddr f i < p_vaddr f i + p_memsz f i <= KERNEL_VIRT_BASE /\
  p_filesz f i <= p_memsz f i /\
  p_offset f i + p_filesz f i <= size.
Proof.
  unfold segment_invalid. intros H Hm.
  repeat (apply orb_false_iff in H; destruct H as [H ?]).
  pose proof (u32_range f (phdr_at f i + 8)) as Hva.
  pose proof (u32_range f (phdr_at f i + 20)) as Hms.
  fold (p_vaddr f i) in Hva. fold (p_memsz f i) in Hms.
  rewrite pow32 in *. unfold KERNEL_VIRT_BASE in *.
  match goal with H : (_ <? p_vaddr f i) = false |- _ => apply Z.ltb_ge in H; rename H into Hw end.
  apply Z.leb_gt in H.
  assert (Hnw : p_vaddr f i + p_memsz f i < 4294967296).
  { destruct (Z_lt_ge_dec (p_vaddr f i + p_memsz f i) 4294967296) as [|Hge]; [assumption|].
    exfalso. unfold wrap32 in Hw. rewrite pow32 in Hw.
    replace (p_vaddr f i + p_memsz f i)
      with ((p_vaddr f i + p_memsz f i - 4294967296) + 1 * 4294967296) in Hw by lia.
    rewrite Z.mod_add in Hw by lia. rewrite Z.mod_small in Hw by lia. lia. }
  assert (Hwe : wrap32 (p_vaddr f i + p_memsz f i) = p_vaddr f i + p_memsz f i).
  { apply wrap32_small. rewrite pow32. lia. }
  rewrite Hwe in *.
  match goal with H : (_ && _) = false |- _ => apply andb_false_iff in H; rename H into Hk end.
  repeat match goal with H : (_ <? _) = false |- _ => apply Z.ltb_ge in H end.
  split; [reflexivity|]. split; [|split; lia].
  split; [lia|]. destruct Hk as [Hk|Hk]; [apply Z.ltb_ge in Hk|apply Z.ltb_ge in Hk]; lia.
Qed.

Lemma loadable_skip f i :
  negb (p_type f i =? PT_LOAD) || (p_memsz f i =? 0) = negb (loadable f i).
Proof.
  unfold loadable. destruct (p_type f i =? PT_LOAD), (p_memsz f i =? 0); reflexivity.
Qed.

Lemma loadable_memsz f i : loadable f i = true -> p_memsz f i <> 0.
Proof.
  unfold loadable. intros H. apply andb_true_iff in H. destruct H as [_ H].
  apply negb_true_iff, Z.eqb_neq in H. exact H.
Qed.

(** A turn of the segment loop that does not leave through the [goto]. *)
Lemma load_segment_continues f size i m hi s m' hi' s' :
  load_segment f size i m hi s = Ret (None, m', hi') s' ->
  (loadable f i = true -> segment_invalid f size i = false) /\
  hi' = if loadable f i then Z.max hi (p_vaddr f i + p_memsz f i) else hi.
Proof.
  unfold load_segment. rewrite loadable_skip.
  destruct (loadable f i) eqn:Hl; cbn [negb].
  2:{ intros H. apply ret_inv in H. destruct H as [H _]. injection H as _ <-.
      split; [discriminate | reflexivity]. }
  destruct (segment_invalid f size i) eqn:Hinv.
  { intros H. apply ret_inv in H. destruct H as [H _]. discriminate. }
  destruct (segment_valid_bounds f size i Hinv (loadable_memsz f i Hl))
    as (Hwrap & Hrange & _).
  rewrite Hwrap.
  pose proof (u32_range f (phdr_at f i + 8)) as Hva. fold (p_vaddr f i) in Hva.
  rewrite pow32 in Hva. unfold KERNEL_VIRT_BASE in Hrange.
  assert (Hlo : PAGE_ALIGN_DOWN (p_vaddr f i) <= p_vaddr f i)
    by (apply page_align_down_le; rewrite pow32; lia).
  assert (Hup : p_vaddr f i + p_memsz f i <= PAGE_ALIGN_UP (p_vaddr f i + p_memsz f i))
    by (apply page_align_up_ge; rewrite pow32; unfold PAGE_SIZE; lia).
  destruct (PAGE_ALIGN_UP (p_vaddr f i + p_memsz f i) <=? PAGE_ALIGN_DOWN (p_vaddr f i))
    eqn:Hskip; [apply Z.leb_le in Hskip; lia|].
  intros H. split; [reflexivity|].
  apply bind_ret_inv in H. destruct H as (nx & s1 & _ & H).
  apply bind_ret_inv in H. destruct H as (ins & s2 & _ & H).
  destruct ins as [m2|].
  2:{ apply ret_inv in H. destruct H as [H _]. discriminate. }
  apply bind_ret_inv in H. destruct H as (e & s3 & _ & H).
  destruct e as [p|].
  { apply ret_inv in H. destruct H as [H _]. discriminate. }
  apply ret_inv in H. destruct H as [H _]. injection H as _ <-.
  destruct (p_vaddr f i + p_memsz f i <? p_vaddr f i) eqn:Hov;
    [apply Z.ltb_lt in Hov; lia|].
  destruct (hi <? p_vaddr f i + p_memsz f i) eqn:Hhi;
    [apply Z.ltb_lt in Hhi | apply Z.ltb_ge in Hhi]; lia.
Qed.

Lemma load_segments_continue n : forall f size i m hi s m' hi' s',
  load_segments n f size i m hi s = Ret (None, m', hi') s' ->
  (forall k, (k < n)%nat -> loadable f (i + Z.of_nat k) = true ->
             segment_invalid f size (i + Z.of_nat k) = false) /\
  hi' = fold_left
          (fun acc j => if loadable f j then Z.max acc (p_vaddr f j + p_memsz f j) else acc)
          (map (fun k => i + Z.of_nat k) (seq 0 n)) hi.
Proof.
  induction n as [|n IH]; intros f size i m hi s m' hi' s' H; cbn [load_segments] in H.
  - apply ret_inv in H. destruct H as [H _]. injection H as _ <-.
    split; [lia | reflexivity].
  - apply bind_ret_inv in H. destruct H as ([[e m1] h1] & s1 & H1 & H).
    destruct e as [p|].
    { apply ret_inv in H. destruct H as [H _]. discriminate. }
    apply load_segment_continues in H1. destruct H1 as [Hv1 ->].
    apply IH in H. destruct H as [Hv ->]. split.
    + intros k Hk Hl. destruct k as [|k].
      * rewrite Z.add_0_r in *. auto.
      * replace (i + Z.of_nat (S k)) with (i + 1 + Z.of_nat k) in * by lia.
        apply Hv; [lia | exact Hl].
    + simpl. rewrite Z.add_0_r. f_equal.
      rewrite <- seq_shift, map_map. apply map_ext. intros k. lia.
Qed.

Lemma max_segment_end_unfold f :
  max_segment_end f =
  fold_left
    (fun acc j => if loadable f j then Z.max acc (p_vaddr f j + p_memsz f j) else acc)
    (map (fun k => 0 + Z.of_nat k) (seq 0 (Z.to_nat (e_phnum f)))) 0.
Proof. reflexivity. Qed.

(** The running maximum stays at or below the kernel base when every
    loadable segment passed the validation. *)
Lemma segment_fold_bound f size (l : list Z) : forall hi,
  0 <= hi <= KERNEL_VIRT_BASE ->
  (forall j, In j l -> loadable f j = true -> segment_invalid f size j = false) ->
  0 <= fold_left
         (fun acc j => if loadable f j then Z.max acc (p_vaddr f j + p_memsz f j) else acc)
         l hi <= KERNEL_VIRT_BASE.
Proof.
  induction l as [|j l IH]; intros hi Hhi Hv; simpl; [exact Hhi|].
  apply IH; [|intros; apply Hv; [right|]; assumption].
  destruct (loadable f j) eqn:Hl; [|exact Hhi].
  destruct (segment_valid_bounds f size j (Hv j (or_introl eq_refl) Hl)
              (loadable_memsz f j Hl)) as (_ & Hr & _).
  lia.
Qed.

Lemma read_file_inv path s r s' :
  read_file path s = Ret r s' ->
  r = files s !! path /\ s' = set_trace (trace s ++ [EvReadFile path]) s.
Proof.
  unfold read_file. intros H. apply bind_ret_inv in H.
  destruct H as (u & s1 & H1 & H). apply emit_inv in H1. subst s1.
  apply gets_inv in H. destruct H as [-> ->]. split; reflexivity.
Qed.

(** What a successful load went through. *)
Lemma load_elf_success path m e0 b0 s m' entry brk s' :
  load_elf_and_init_memory path m e0 b0 s = Ret (0, m', entry, brk) s' ->
  exists f s1 s2 hi,
    files s !! path = Some f /\
    sizeof_Ehdr <= Z.of_nat (length f) /\
    header_invalid f (Z.of_nat (length f)) = false /\
    load_segments (Z.to_nat (e_phnum f)) f (Z.of_nat (length f)) 0 m 0 s1
      = Ret (None, m', hi) s2 /\
    trace s1 = trace s ++ [EvReadFile path] ++
               (if KERNEL_VIRT_BASE <=? e_entry f
                then [EvWarnEntryInKernel (e_entry f)] else []) /\
    trace s' = trace s2 ++ [EvKfree HeapFileData] /\
    entry = e_entry f /\
    brk = (if PAGE_ALIGN_UP hi <? hi then UINTPTR_MAX else PAGE_ALIGN_UP hi).
Proof.
  unfold load_elf_and_init_memory. intros H.
  apply bind_ret_inv in H. destruct H as (r & s1 & H1 & H).
  apply read_file_inv in H1. destruct H1 as [-> ->].
  destruct (files s !! path) as [f|] eqn:Hf.
  2:{ apply bind_ret_inv in H. destruct H as (? & ? & _ & H).
      apply ret_inv in H. destruct H as [H _]. discriminate. }
  destruct (Z.of_nat (length f) <? sizeof_Ehdr) eqn:Hsz.
  { apply bind_ret_inv in H. destruct H as (? & ? & _ & H).
    apply ret_inv in H. destruct H as [H _]. discriminate. }
  destruct (header_invalid f (Z.of_nat (length f))) eqn:Hh.
  { apply bind_ret_inv in H. destruct H as (? & ? & _ & H).
    apply ret_inv in H. destruct H as [H _]. discriminate. }
  apply bind_ret_inv in H. destruct H as (u & s2 & Hw & H).
  apply bind_ret_inv in H. destruct H as ([[e m2] hi] & s3 & Hl & H).
  destruct e as [p|].
  { apply bind_ret_inv in H. destruct H as (? & ? & _ & H).
    apply ret_inv in H. destruct H as [H _]. discriminate. }
  apply bind_ret_inv in H. destruct H as (u' & s4 & Hc & H).
  apply ret_inv in H. destruct H as [H <-]. injection H as <- <- <-.
  exists f, s2, s3, hi. apply Z.ltb_ge in Hsz.
  repeat split; try assumption; try reflexivity.
  - destruct (KERNEL_VIRT_BASE <=? e_entry f).
    + apply emit_inv in Hw. subst s2. simpl. rewrite <- app_assoc. reflexivity.
    + apply ret_inv in Hw. destruct Hw as [_ <-]. simpl. reflexivity.
  - unfold cleanup_load_elf in Hc.
    apply bind_ret_inv in Hc. destruct Hc as (? & s5 & Hc1 & Hc).
    apply emit_inv in Hc1. subst s5. simpl in Hc.
    apply ret_inv in Hc. destruct Hc as [_ <-]. reflexivity.
Qed.

(** C5: when [load_elf_and_init_memory] succeeds, the entry point it
    reports is the header's [e_entry] and the initial break is
    [PAGE_ALIGN_UP] of the maximum of [vaddr + memsz] over the PT_LOAD
    segments with a non-zero memory size. *)
Theorem load_elf_reports_entry_and_break path m e0 b0 s f m' entry brk s' :
  files s !! path = Some f ->
  load_elf_and_init_memory path m e0 b0 s = Ret (0, m', entry, brk) s' ->
  entry = e_entry f /\ brk = PAGE_ALIGN_UP (max_segment_end f).
Proof.
  intros Hf H. apply load_elf_success in H.
  destruct H as (f' & s1 & s2 & hi & Hf' & _ & _ & Hl & _ & _ & -> & ->).
  rewrite Hf in Hf'. injection Hf' as <-.
  apply load_segments_continue in Hl. destruct Hl as [Hv Hhi].
  rewrite <- max_segment_end_unfold in Hhi. subst hi.
  split; [reflexivity|].
  assert (Hb : 0 <= max_segment_end f <= KERNEL_VIRT_BASE).
  { rewrite max_segment_end_unfold.
    apply (segment_fold_bound f (Z.of_nat (length f)));
      [unfold KERNEL_VIRT_BASE; lia|].
    intros j Hj. apply in_map_iff in Hj. destruct Hj as (k & <- & Hk).
    apply in_seq in Hk. apply Hv. lia. }
  assert (Hup : max_segment_end f <= PAGE_ALIGN_UP (max_segment_end f)).
  { apply page_align_up_ge. rewrite pow32. unfold KERNEL_VIRT_BASE, PAGE_SIZE in *. lia. }
  destruct (PAGE_ALIGN_UP (max_segment_end f) <? max_segment_end f) eqn:Hlt;
    [apply Z.ltb_lt in Hlt; lia | reflexivity].
Qed.

End ElfFacts.
Import ElfFacts.

(** ** Termination of the loader *)

Module TotalFacts.

Lemma total_ret {A} (P : kstate -> Prop) (a : A) (Q : A -> kstate -> Prop) :
  (forall s, P s -> Q a s) -> total P (ret a) Q.
Proof. intros H s Hs. exists a, s. split; [reflexivity | auto]. Qed.

Lemma total_bind {A B} P (m : M A) (k : A -> M B) Q R :
  total P m Q -> (forall a, total (Q a) (k a) R) -> total P (bind m k) R.
Proof.
  intros Hm Hk s Hs. destruct (Hm s Hs) as (a & s1 & H1 & Hq).
  destruct (Hk a s1 Hq) as (b & s2 & H2 & Hr).
  exists b, s2. split; [|exact Hr]. unfold bind. rewrite H1. exact H2.
Qed.

Lemma total_gets {A} P (g : kstate -> A) (Q : A -> kstate -> Prop) :
  (forall s, P s -> Q (g s) s) -> total P (gets g) Q.
Proof. intros H s Hs. exists (g s), s. split; [reflexivity | auto]. Qed.

Lemma total_modify P (g : kstate -> kstate) (Q : unit -> kstate -> Prop) :
  (forall s, P s -> Q tt (g s)) -> total P (modify g) Q.
Proof. intros H s Hs. exists tt, (g s). split; [reflexivity | auto]. Qed.

Lemma total_emit P e (Q : unit -> kstate -> Prop) :
  (forall s, P s -> Q tt (set_trace (trace s ++ [e]) s)) -> total P (emit e) Q.
Proof. intros H. apply total_modify. exact H. Qed.

Lemma total_weaken {A} (P P' : kstate -> Prop) (m : M A) (Q Q' : A -> kstate -> Prop) :
  total P' m Q' -> (forall s, P s -> P' s) -> (forall a s, Q' a s -> Q a s) ->
  total P m Q.
Proof.
  intros H Hp Hq s Hs. destruct (H s (Hp s Hs)) as (a & s' & He & Hq').
  exists a, s'. split; [exact He | apply Hq, Hq'].
Qed.

Lemma total_assert P c (Q : unit -> kstate -> Prop) :
  c = true -> (forall s, P s -> Q tt s) -> total P (KERNEL_ASSERT c) Q.
Proof. intros -> H. apply total_ret. exact H. Qed.

(** A page loop whose body always returns finishes when the range does not
    wrap and the fuel covers its pages. *)
Lemma total_for_pages {E} (P : kstate -> Prop) (body : Z -> M (option E)) v_end :
  v_end <= 2 ^ 32 - PAGE_SIZE ->
  (forall v, 0 <= v < v_end -> total P (body v) (fun _ => P)) ->
  forall fuel v, 0 <= v ->
  Z.max 0 (v_end - v) + PAGE_SIZE <= Z.of_nat fuel * PAGE_SIZE ->
  total P (for_pages fuel v v_end body) (fun _ => P).
Proof.
  intros Hend Hbody. induction fuel as [|fuel IH]; intros v Hv Hfuel.
  - unfold PAGE_SIZE in Hfuel. lia.
  - cbn [for_pages]. destruct (v <? v_end) eqn:Hlt;
      [apply Z.ltb_lt in Hlt | apply total_ret; auto].
    apply (total_bind _ _ _ (fun _ => P)); [apply Hbody; lia|].
    intros [e|]; [apply total_ret; auto|].
    rewrite wrap32_small by (rewrite pow32 in *; unfold PAGE_SIZE in *; lia).
    apply IH; unfold PAGE_SIZE in *; lia.
Qed.

Lemma page_fuel_val : Z.of_nat page_fuel = 2 ^ 20 + 1.
Proof. unfold page_fuel. apply Z2Nat.id. lia. Qed.

Lemma total_seq {A B} P (m : M A) (k : A -> M B) Q :
  total P m (fun _ => P) -> (forall a, total P (k a) Q) -> total P (bind m k) Q.
Proof. intros Hm Hk. apply (total_bind P m k (fun _ => P) Q); assumption. Qed.

(** Steps of a totality proof whose invariant is kept by every call. *)
Ltac total_step :=
  match goal with
  | |- total _ (ret _) _ => apply total_ret; intros ? ?; try assumption
  | |- total _ (bind _ _) _ => apply total_seq; [|intros ?]
  | |- total _ (if ?b then _ else _) _ => destruct b
  | |- total _ (match ?x with _ => _ end) _ => destruct x
  end.

Lemma div_page_eq v q :
  PAGE_SIZE * q <= v < PAGE_SIZE * q + PAGE_SIZE -> v / PAGE_SIZE = q.
Proof.
  unfold PAGE_SIZE. intros H. symmetry.
  apply (Z.div_unique v 4096 q (v - 4096 * q)); lia.
Qed.

Lemma temp_page_vpn v :
  PAGING_TEMP_VADDR <= v < PAGING_TEMP_VADDR + PAGE_SIZE -> vpn v = temp_vpn.
Proof.
  intros H. rewrite vpn_div. change temp_vpn with 0xFFBFF.
  apply div_page_eq. unfold PAGING_TEMP_VADDR, PAGE_SIZE in *. lia.
Qed.

Lemma present_lor_flags p fl : Z.land fl PAGE_PRESENT = 1 -> pte_present (Z.lor p fl) = true.
Proof.
  intros H. unfold pte_present. rewrite Z.land_lor_distr_l, H.
  apply negb_true_iff, Z.eqb_neq. intros H0.
  apply Z.lor_eq_0_iff in H0. destruct H0 as [_ H0]. discriminate.
Qed.


Lemma kstore8_temp_total v b :
  PAGING_TEMP_VADDR <= v < PAGING_TEMP_VADDR + PAGE_SIZE ->
  total temp_inv (kstore8 v b) (fun _ => temp_inv).
Proof.
  intros Hv s [Hs (pte & Hpte & Hp)]. unfold kstore8, translate.
  rewrite (temp_page_vpn v Hv), Hpte, Hp.
  eexists tt, _. split; [reflexivity|].
  split; [exact Hs|]. exists pte. split; assumption.
Qed.

Lemma memset_temp_total c n : forall p,
  PAGING_TEMP_VADDR <= p -> p + Z.of_nat n <= PAGING_TEMP_VADDR + PAGE_SIZE ->
  total temp_inv (memset p c n) (fun _ => temp_inv).
Proof.
  induction n as [|n IH]; intros p Hlo Hhi; cbn [memset].
  - apply total_ret. auto.
  - apply total_seq; [apply kstore8_temp_total; lia|]. intros _.
    assert (Hw : wrap32 (p + 1) = p + 1).
    { apply wrap32_small. rewrite pow32.
      unfold PAGING_TEMP_VADDR, PAGE_SIZE in *. lia. }
    rewrite Hw. apply IH; lia.
Qed.

Lemma memcpy_temp_total n : forall p src,
  PAGING_TEMP_VADDR <= p -> p + Z.of_nat n <= PAGING_TEMP_VADDR + PAGE_SIZE ->
  total temp_inv (memcpy p src n) (fun _ => temp_inv).
Proof.
  induction n as [|n IH]; intros p src Hlo Hhi; cbn [memcpy].
  - apply total_ret. auto.
  - apply total_seq; [apply kstore8_temp_total; lia|]. intros _.
    assert (Hw : wrap32 (p + 1) = p + 1).
    { apply wrap32_small. rewrite pow32.
      unfold PAGING_TEMP_VADDR, PAGE_SIZE in *. lia. }
    rewrite Hw. apply IH; lia.
Qed.

Lemma page_aligned_iff p : page_aligned p = true <-> p mod PAGE_SIZE = 0.
Proof. unfold page_aligned. apply Z.eqb_eq. Qed.

(** Mapping an aligned frame at the temporary slot makes the slot ready. *)
Lemma temp_map_raw_total p :
  p mod PAGE_SIZE = 0 ->
  total frames_ok (paging_temp_map_raw p)
    (fun v s => v = PAGING_TEMP_VADDR /\ temp_inv s).
Proof.
  intros Hp s Hs. unfold paging_temp_map_raw.
  rewrite (proj2 (page_aligned_iff p) Hp).
  eexists _, _. split; [reflexivity|]. split; [reflexivity|].
  split; [exact Hs|]. eexists. cbn. rewrite lookup_insert_eq.
  split; [reflexivity|]. apply present_lor_flags. reflexivity.
Qed.

Lemma frame_alloc_raw_total :
  total frames_ok frame_alloc_raw (fun p s => p mod PAGE_SIZE = 0 /\ frames_ok s).
Proof.
  intros s Hs. unfold frame_alloc_raw, frames_ok in *.
  destruct (frame_script s) as [|p rest] eqn:Hscr.
  - eexists _, _. split; [reflexivity|]. rewrite Hscr. split; [reflexivity | exact Hs].
  - inversion Hs as [|? ? Hp Hrest]; subst.
    eexists _, _. split; [reflexivity|]. split; [exact Hp|].
    destruct (p =? 0); exact Hrest.
Qed.

Lemma frame_alloc_total :
  total frames_ok frame_alloc (fun p s => p mod PAGE_SIZE = 0 /\ frames_ok s).
Proof.
  unfold frame_alloc.
  apply (total_bind _ _ _ (fun p s => p mod PAGE_SIZE = 0 /\ frames_ok s));
    [apply frame_alloc_raw_total|].
  intros p s [Hp Hs]. eexists _, _. split; [reflexivity|]. split; assumption.
Qed.

(** Calls that only touch the trace, the reference counts, the heap script
    or the page tables keep the frame contract. *)
Ltac total_simple :=
  let s := fresh "s" in let Hs := fresh "Hs" in
  intros s Hs; eexists _, _; split; [reflexivity | exact Hs].

Lemma put_frame_raw_total p : total frames_ok (put_frame_raw p) (fun _ => frames_ok).
Proof.
  intros s Hs. eexists _, _. split; [reflexivity|].
  destruct (frame_refs s !! p) as [[|n]|]; exact Hs.
Qed.

Lemma put_frame_total p : total frames_ok (put_frame p) (fun _ => frames_ok).
Proof.
  unfold put_frame. apply total_seq; [total_simple|]. intros _.
  apply put_frame_raw_total.
Qed.

Lemma kfree_total o : total frames_ok (kfree o) (fun _ => frames_ok).
Proof. total_simple. Qed.

Lemma kmalloc_total : total frames_ok kmalloc (fun _ => frames_ok).
Proof. total_simple. Qed.

Lemma emit_total e : total frames_ok (emit e) (fun _ => frames_ok).
Proof. total_simple. Qed.

Lemma temp_unmap_raw_total : total temp_inv paging_temp_unmap_raw (fun _ => frames_ok).
Proof. intros s [Hs _]. eexists _, _. split; [reflexivity | exact Hs]. Qed.

Lemma insert_vma_total m a b fl prot :
  total frames_ok (insert_vma m a b fl prot) (fun _ => frames_ok).
Proof.
  unfold insert_vma. repeat total_step;
    first [apply emit_total | apply kmalloc_total].
Qed.

Lemma ensure_page_table_total pd v :
  total frames_ok (ensure_page_table pd v) (fun _ => frames_ok).
Proof.
  unfold ensure_page_table.
  apply total_seq; [total_simple|]. intros [pt|]; [apply total_ret; auto|].
  apply (total_bind _ _ _ (fun p s => p mod PAGE_SIZE = 0 /\ frames_ok s));
    [apply frame_alloc_raw_total|].
  intros pt. destruct (pt =? 0); [apply total_ret; tauto|].
  intros s [Hpt Hs]. revert s Hs.
  apply (total_bind _ _ _ (fun v s => v = PAGING_TEMP_VADDR /\ temp_inv s));
    [apply temp_map_raw_total, Hpt|].
  intros t s [-> Hs]. revert s Hs. cbn [Z.eqb PAGING_TEMP_VADDR].
  apply total_seq.
  - apply memset_temp_total; [lia|]. rewrite Z2Nat.id by (unfold PAGE_SIZE; lia). lia.
  - intros _. apply (total_bind _ _ _ (fun _ => frames_ok));
      [apply temp_unmap_raw_total|].
    intros _. apply total_seq; [total_simple|]. intros _. apply total_ret. auto.
Qed.

Lemma map_single_raw_total pd v p fl :
  total frames_ok (paging_map_single_4k_raw pd v p fl) (fun _ => frames_ok).
Proof.
  unfold paging_map_single_4k_raw.
  destruct (negb (page_aligned v && page_aligned p)); [apply total_ret; auto|].
  destruct ((KERNEL_SPACE_VIRT_START <=? v) && negb (Z.land fl PAGE_USER =? 0));
    [apply total_ret; auto|].
  apply total_seq; [apply ensure_page_table_total|]. intros ok.
  destruct ok; cbn [negb]; [|apply total_ret; auto].
  apply total_seq; [total_simple|]. intros old.
  apply total_seq; [total_simple|]. intros _.
  destruct old as [pte|]; [|apply total_ret; auto].
  apply total_seq; [|intros _; apply total_ret; auto].
  destruct (pte_present pte && negb (pte_frame pte =? pte_frame p));
    [apply put_frame_raw_total | apply total_ret; auto].
Qed.

Lemma map_single_total pd v p fl :
  total frames_ok (paging_map_single_4k pd v p fl) (fun _ => frames_ok).
Proof.
  unfold paging_map_single_4k.
  apply total_seq; [apply map_single_raw_total|]. intros r.
  apply total_seq; [apply emit_total|]. intros _. apply total_ret. auto.
Qed.

Lemma copy_elf_segment_data_total frame file off n z :
  frame <> 0 -> frame mod PAGE_SIZE = 0 -> 0 <= n -> 0 <= z -> n + z <= PAGE_SIZE ->
  total frames_ok (copy_elf_segment_data frame file off n z) (fun _ => frames_ok).
Proof.
  intros Hnz Hal Hn Hz Hsum. unfold copy_elf_segment_data.
  apply total_seq.
  { apply total_assert; [|auto].
    apply andb_true_iff. split; [apply negb_true_iff, Z.eqb_neq, Hnz | apply Z.eqb_eq, Hal]. }
  intros _. apply total_seq.
  { apply total_assert; [|auto]. apply Z.leb_le.
    rewrite wrap32_small; [exact Hsum|]. rewrite pow32. unfold PAGE_SIZE in *. lia. }
  intros _. unfold paging_temp_map.
  apply (total_bind _ _ _ (fun v s => v = PAGING_TEMP_VADDR /\ temp_inv s)).
  { apply total_seq; [apply emit_total|]. intros _. apply temp_map_raw_total, Hal. }
  intros t s [-> Hs]. revert s Hs. cbn [Z.eqb PAGING_TEMP_VADDR].
  apply total_seq.
  { destruct (0 <? n); [|apply total_ret; auto].
    apply memcpy_temp_total; [lia|]. rewrite Z2Nat.id by lia. lia. }
  intros _. apply total_seq.
  { destruct (0 <? z) eqn:Hz0; [|apply total_ret; auto]. apply Z.ltb_lt in Hz0.
    assert (Hw : wrap32 (PAGING_TEMP_VADDR + n) = PAGING_TEMP_VADDR + n).
    { apply wrap32_small. rewrite pow32.
      unfold PAGING_TEMP_VADDR, PAGE_SIZE in *. lia. }
    rewrite Hw. apply memset_temp_total; [lia|]. rewrite Z2Nat.id by lia.
      unfold PAGE_SIZE in *. lia. }
  intros _. apply (total_bind _ _ _ (fun _ => frames_ok)).
  { unfold paging_temp_unmap.
    apply (total_bind _ _ _ (fun _ => temp_inv)).
    - intros s Hs. eexists _, _. split; [reflexivity | exact Hs].
    - intros _. apply temp_unmap_raw_total. }
  intros _. apply total_ret. auto.
Qed.

Lemma wrap32_cases x :
  0 <= x < 2 * 2 ^ 32 ->
  (x < 2 ^ 32 /\ wrap32 x = x) \/ (2 ^ 32 <= x /\ wrap32 x = x - 2 ^ 32).
Proof.
  intros Hx. rewrite pow32 in *.
  destruct (Z_lt_ge_dec x 4294967296) as [Hlt|Hge].
  - left. split; [exact Hlt|]. apply wrap32_small. rewrite pow32. lia.
  - right. split; [lia|]. unfold wrap32. rewrite pow32.
    replace x with ((x - 4294967296) + 1 * 4294967296) at 1 by lia.
    rewrite Z.mod_add by lia. apply Z.mod_small. lia.
Qed.

(** The copy and the zero fill computed for a page fit the page: the
    sanity check of the loop never fires. *)
Lemma page_slices_fit f i page_v :
  0 <= page_v < 2 ^ 32 ->
  let '(n, off, z) := page_slices f i page_v in
  0 <= n /\ 0 <= z /\ n + z <= PAGE_SIZE.
Proof.
  intros Hv. unfold page_slices.
  pose proof (wrap32_range (p_vaddr f i + p_filesz f i)) as Hfe.
  pose proof (wrap32_range (p_vaddr f i + p_memsz f i)) as Hme.
  set (fe := wrap32 (p_vaddr f i + p_filesz f i)) in *.
  set (me0 := wrap32 (p_vaddr f i + p_memsz f i)) in *.
  set (me := if me0 <? p_vaddr f i then UINTPTR_MAX else me0).
  set (pe := if wrap32 (page_v + PAGE_SIZE) <=? page_v
             then UINTPTR_MAX else wrap32 (page_v + PAGE_SIZE)).
  assert (Hpe : page_v <= pe <= page_v + PAGE_SIZE /\ pe < 2 ^ 32).
  { subst pe. unfold UINTPTR_MAX, UINT32_MAX, PAGE_SIZE. rewrite pow32 in *.
    destruct (wrap32_cases (page_v + 4096)) as [[H1 H2]|[H1 H2]];
      [rewrite pow32; lia | | ]; rewrite H2; rewrite pow32 in *.
    - destruct (page_v + 4096 <=? page_v) eqn:Hc; [apply Z.leb_le in Hc|]; lia.
    - destruct (page_v + 4096 - 4294967296 <=? page_v) eqn:Hc;
        [|apply Z.leb_gt in Hc]; lia. }
  clearbody pe.
  set (cs := MAX page_v (p_vaddr f i)). set (ce := MIN pe fe).
  assert (Hcs : page_v <= cs)
    by (subst cs; unfold MAX; destruct (p_vaddr f i <? page_v) eqn:Hc;
        [|apply Z.ltb_ge in Hc]; lia).
  assert (Hce : ce <= pe)
    by (subst ce; unfold MIN; destruct (pe <? fe) eqn:Hc;
        [|apply Z.ltb_ge in Hc]; lia).
  clearbody cs ce.
  set (n := if cs <? ce then ce - cs else 0).
  assert (Hn : 0 <= n /\ page_v + n <= pe)
    by (subst n; destruct (cs <? ce) eqn:Hc; [apply Z.ltb_lt in Hc|]; lia).
  clearbody n.
  assert (Hzs : wrap32 (page_v + n) = page_v + n)
    by (apply wrap32_small; lia).
  rewrite Hzs. set (ze := MIN pe me).
  assert (Hze : ze <= pe)
    by (subst ze; unfold MIN; destruct (pe <? me) eqn:Hc;
        [|apply Z.ltb_ge in Hc]; lia).
  clearbody ze.
  destruct (page_v + n <? ze) eqn:Hc; [apply Z.ltb_lt in Hc|]; lia.
Qed.

Lemma load_page_total f pgd i prot page_v :
  0 <= page_v < 2 ^ 32 ->
  total frames_ok (load_page f pgd i prot page_v) (fun _ => frames_ok).
Proof.
  intros Hv. unfold load_page.
  apply (total_bind _ _ _ (fun p s => p mod PAGE_SIZE = 0 /\ frames_ok s));
    [apply frame_alloc_total|].
  intros p. destruct (p =? 0) eqn:Hp0; [apply total_ret; tauto|].
  apply Z.eqb_neq in Hp0.
  pose proof (page_slices_fit f i page_v Hv) as Hfit.
  destruct (page_slices f i page_v) as [[n off] z]. destruct Hfit as (Hn & Hz & Hsum).
  intros s [Hal Hs]. revert s Hs.
  destruct (PAGE_SIZE <? wrap32 (n + z)).
  { apply total_seq; [apply put_frame_total|]. intros _. apply total_ret. auto. }
  apply total_seq; [apply copy_elf_segment_data_total; assumption|]. intros r.
  destruct (negb (r =? 0)).
  { apply total_seq; [apply put_frame_total|]. intros _. apply total_ret. auto. }
  apply total_seq; [apply map_single_total|]. intros res.
  destruct res; try (apply total_ret; auto);
    (apply total_seq; [apply put_frame_total|]; intros _; apply total_ret; auto).
Qed.

Lemma page_align_up_le_kernel x :
  0 <= x <= KERNEL_VIRT_BASE -> PAGE_ALIGN_UP x <= KERNEL_VIRT_BASE.
Proof.
  intros Hx. unfold KERNEL_VIRT_BASE in *.
  rewrite page_align_up_eq by (rewrite pow32; unfold PAGE_SIZE; lia).
  unfold PAGE_SIZE.
  assert (H : (x + 4096 - 1) / 4096 <= 786432).
  { apply Z.lt_succ_r. apply Z.div_lt_upper_bound; lia. }
  lia.
Qed.

Lemma load_segment_total f size i m hi :
  total frames_ok (load_segment f size i m hi) (fun _ => frames_ok).
Proof.
  unfold load_segment. rewrite loadable_skip.
  destruct (loadable f i) eqn:Hl; cbn [negb]; [|apply total_ret; auto].
  destruct (segment_invalid f size i) eqn:Hinv; [apply total_ret; auto|].
  destruct (segment_valid_bounds f size i Hinv (loadable_memsz f i Hl))
    as (Hwrap & Hrange & _).
  rewrite Hwrap.
  pose proof (u32_range f (phdr_at f i + 8)) as Hva. fold (p_vaddr f i) in Hva.
  destruct (_ <=? _); [apply total_ret; auto|].
  apply total_seq; [intros s Hs; eexists _, _; split; [reflexivity | exact Hs]|].
  intros nx. apply total_seq; [apply insert_vma_total|].
  intros [m2|]; [|apply total_ret; auto].
  apply total_seq.
  - apply total_for_pages.
    + pose proof (page_align_up_le_kernel (p_vaddr f i + p_memsz f i)) as Hk.
      rewrite pow32. unfold KERNEL_VIRT_BASE, PAGE_SIZE in *. lia.
    + intros v Hv. apply load_page_total.
      pose proof (page_align_up_le_kernel (p_vaddr f i + p_memsz f i)) as Hk.
      rewrite pow32. unfold KERNEL_VIRT_BASE in *. lia.
    + rewrite page_align_down_eq by lia. unfold PAGE_SIZE.
      apply Z.mul_nonneg_nonneg; [lia|]. apply Z.div_pos; lia.
    + rewrite page_fuel_val.
      pose proof (page_align_up_le_kernel (p_vaddr f i + p_memsz f i)) as Hk.
      assert (0 <= PAGE_ALIGN_DOWN (p_vaddr f i)).
      { rewrite page_align_down_eq by lia. unfold PAGE_SIZE.
        apply Z.mul_nonneg_nonneg; [lia|]. apply Z.div_pos; lia. }
      change (2 ^ 20) with 1048576.
      unfold KERNEL_VIRT_BASE, PAGE_SIZE in *. lia.
  - intros [e|]; apply total_ret; auto.
Qed.

Lemma load_segments_total n : forall f size i m hi,
  total frames_ok (load_segments n f size i m hi) (fun _ => frames_ok).
Proof.
  induction n as [|n IH]; intros f size i m hi; cbn [load_segments].
  - apply total_ret. auto.
  - apply total_seq; [apply load_segment_total|].
    intros [[e m'] hi']. destruct e; [apply total_ret; auto | apply IH].
Qed.

Lemma cleanup_load_elf_total b p :
  total frames_ok (cleanup_load_elf b p) (fun _ => frames_ok).
Proof.
  unfold cleanup_load_elf.
  apply total_seq; [destruct b; [apply kfree_total | apply total_ret; auto]|].
  intros _. destruct (negb (p =? 0)); [apply put_frame_total | apply total_ret; auto].
Qed.

(** With page-aligned frames the loader always returns. *)
Lemma load_elf_total path m e0 b0 :
  total frames_ok (load_elf_and_init_memory path m e0 b0) (fun _ => frames_ok).
Proof.
  unfold load_elf_and_init_memory.
  apply total_seq.
  { unfold read_file. apply total_seq; [apply emit_total|]. intros _.
    intros s Hs. eexists _, _. split; [reflexivity | exact Hs]. }
  intros [f|].
  2:{ apply total_seq; [apply cleanup_load_elf_total|]. intros _. apply total_ret. auto. }
  destruct (_ <? sizeof_Ehdr).
  { apply total_seq; [apply cleanup_load_elf_total|]. intros _. apply total_ret. auto. }
  destruct (header_invalid _ _).
  { apply total_seq; [apply cleanup_load_elf_total|]. intros _. apply total_ret. auto. }
  apply total_seq.
  { destruct (_ <=? _); [apply emit_total | apply total_ret; auto]. }
  intros _. apply total_seq; [apply load_segments_total|].
  intros [[e m'] hi]. destruct e.
  - apply total_seq; [apply cleanup_load_elf_total|]. intros _. apply total_ret. auto.
  - apply total_seq; [apply cleanup_load_elf_total|]. intros _. apply total_ret. auto.
Qed.

Lemma segment_violation_invalid f i :
  segment_violation f i -> segment_invalid f (Z.of_nat (length f)) i = true.
Proof.
  unfold segment_violation, segment_invalid. intros H.
  pose proof (u32_range f (phdr_at f i + 8)) as Hva. fold (p_vaddr f i) in Hva.
  pose proof (u32_range f (phdr_at f i + 20)) as Hms. fold (p_memsz f i) in Hms.
  pose proof (u32_range f (phdr_at f i + 16)) as Hfs. fold (p_filesz f i) in Hfs.
  pose proof (u32_range f (phdr_at f i + 4)) as Hof. fold (p_offset f i) in Hof.
  set (size := Z.of_nat (length f)) in *.
  destruct (KERNEL_VIRT_BASE <=? p_vaddr f i) eqn:H1; [reflexivity|].
  apply Z.leb_gt in H1. cbn [orb].
  destruct (p_memsz f i <? p_filesz f i) eqn:H4; [rewrite !orb_true_r; reflexivity|].
  apply Z.ltb_ge in H4.
  destruct (size <? p_offset f i) eqn:H5; [rewrite !orb_true_r; reflexivity|].
  apply Z.ltb_ge in H5.
  destruct (size - p_offset f i <? p_filesz f i) eqn:H6;
    [rewrite !orb_true_r; reflexivity|].
  apply Z.ltb_ge in H6. rewrite !orb_false_r.
  assert (Hk : p_vaddr f i + p_memsz f i > KERNEL_VIRT_BASE).
  { unfold KERNEL_VIRT_BASE in *. rewrite pow32 in *. lia. }
  clear H. rewrite pow32 in *.
  destruct (wrap32_cases (p_vaddr f i + p_memsz f i)) as [[Ha Hb]|[Ha Hb]];
    [rewrite pow32; lia | | ]; rewrite Hb; rewrite pow32 in *.
  - replace (KERNEL_VIRT_BASE <? p_vaddr f i + p_memsz f i) with true
      by (symmetry; apply Z.ltb_lt; lia).
    replace (p_vaddr f i <? KERNEL_VIRT_BASE) with true
      by (symmetry; apply Z.ltb_lt; lia).
    reflexivity.
  - replace (p_vaddr f i + p_memsz f i - 4294967296 <? p_vaddr f i) with true
      by (symmetry; apply Z.ltb_lt; lia).
    apply orb_true_r.
Qed.

Lemma header_violation_invalid f :
  header_violation f -> header_invalid f (Z.of_nat (length f)) = true.
Proof.
  unfold header_violation, header_invalid. intros H.
  unfold EI_MAG0, EI_MAG1, EI_MAG2, EI_MAG3, ELFMAG0, ELFMAG1, ELFMAG2, ELFMAG3.
  repeat match goal with
         | H : _ \/ _ |- _ => destruct H as [H|H]
         end;
    try (apply Z.eqb_neq in H; rewrite H);
    try (apply Z.eqb_eq in H; rewrite H);
    try (apply Z.gt_lt, Z.ltb_lt in H; rewrite H);
    cbn [negb orb]; rewrite ?orb_true_r; reflexivity.
Qed.

End TotalFacts.
Import TotalFacts.

(** ** What the loader accepts and refuses *)

Module LoaderFacts.

Lemma warn_calls_app t1 t2 : warn_calls (t1 ++ t2) = warn_calls t1 ++ warn_calls t2.
Proof. unfold warn_calls. apply flat_map_app. Qed.

Lemma tss_calls_app t1 t2 : tss_calls (t1 ++ t2) = tss_calls t1 ++ tss_calls t2.
Proof. unfold tss_calls. apply flat_map_app. Qed.

Lemma inert_warn_calls K : inert is_warn K (fun s => warn_calls (trace s)).
Proof.
  constructor; try reflexivity.
  intros e s He. cbn. rewrite warn_calls_app.
  destruct e; try discriminate He; apply app_nil_r.
Qed.

Lemma inert_tss_calls K : inert is_tss K (fun s => tss_calls (trace s)).
Proof.
  constructor; try reflexivity.
  intros e s He. cbn. rewrite tss_calls_app.
  destruct e; try discriminate He; apply app_nil_r.
Qed.

Lemma loud_ok_warn : loud_ok is_warn.
Proof. intros e _ H _. exact H. Qed.

Lemma loud_ok_tss : loud_ok is_tss.
Proof. intros e H _ _. exact H. Qed.

Lemma loud_ok_read : loud_ok is_read.
Proof. intros e _ _ H. exact H. Qed.

Lemma loud_ok_none : loud_ok (fun _ => false).
Proof. intros e _ _ _. reflexivity. Qed.

Lemma read_calls_app t1 t2 : read_calls (t1 ++ t2) = read_calls t1 ++ read_calls t2.
Proof. apply flat_map_app. Qed.

Lemma inert_read_calls K : inert is_read K (fun s => read_calls (trace s)).
Proof.
  constructor; try reflexivity.
  intros e s He. cbn. rewrite read_calls_app.
  destruct e; try discriminate He; apply app_nil_r.
Qed.

(** C9 (amended): an entry point at or above [KERNEL_VIRT_BASE] is not
    rejected.  The loader records one warning and goes on; when the load
    succeeds, the entry point it reports is that kernel-space [e_entry]. *)
Theorem load_elf_kernel_entry_warns path m e0 b0 s f m' entry brk s' :
  files s !! path = Some f ->
  KERNEL_VIRT_BASE <= e_entry f ->
  load_elf_and_init_memory path m e0 b0 s = Ret (0, m', entry, brk) s' ->
  entry = e_entry f /\
  warn_calls (trace s') = warn_calls (trace s) ++ [e_entry f].
Proof.
  intros Hf Hk H. apply load_elf_success in H.
  destruct H as (f' & s1 & s2 & hi & Hf' & _ & _ & Hl & Ht1 & Ht' & -> & _).
  rewrite Hf in Hf'. injection Hf' as <-.
  split; [reflexivity|].
  pose proof (pres_load_segments is_warn (fun _ => False)
                (fun s => warn_calls (trace s)) (inert_warn_calls _)
                kernel_only_none loud_ok_warn _ _ _ _ _ _ _ _ _ Hl) as Hp.
  cbn beta in Hp. rewrite Ht', warn_calls_app, Hp, Ht1.
  apply Z.leb_le in Hk. rewrite Hk.
  rewrite !warn_calls_app. cbn. rewrite !app_nil_r. reflexivity.
Qed.

(** A file whose header breaks one of the validated conditions is refused
    before anything is allocated or mapped. *)
Lemma load_elf_header_rejected path m e0 b0 s f :
  files s !! path = Some f ->
  header_violation f ->
  exists s', load_elf_and_init_memory path m e0 b0 s = Ret (-1, m, e0, b0) s' /\
             trace s' = trace s ++ [EvReadFile path; EvKfree HeapFileData] /\
             ptes s' = ptes s /\ frame_script s' = frame_script s /\
             phys s' = phys s.
Proof.
  intros Hf Hv. apply header_violation_invalid in Hv.
  unfold load_elf_and_init_memory, bind, read_file, emit, modify, gets.
  cbn. rewrite Hf.
  destruct (_ <? sizeof_Ehdr).
  - eexists; split; [reflexivity|]. cbn. rewrite <- app_assoc. auto.
  - rewrite Hv. eexists; split; [reflexivity|]. cbn. rewrite <- app_assoc. auto.
Qed.

(** With page-aligned frames, a file with a loadable segment that breaks
    one of the segment conditions is refused. *)
Lemma load_elf_segment_rejected path m e0 b0 s f :
  files s !! path = Some f ->
  frames_ok s ->
  (exists i, 0 <= i < e_phnum f /\ loadable f i = true /\ segment_violation f i) ->
  exists m' e b s', load_elf_and_init_memory path m e0 b0 s = Ret (-1, m', e, b) s'.
Proof.
  intros Hf Hs (i & Hi & Hl & Hviol).
  destruct (load_elf_total path m e0 b0 s Hs) as ([[[r m'] e] b] & s' & Hrun & _).
  exists m', e, b, s'. rewrite Hrun. f_equal. f_equal. f_equal. f_equal.
  destruct (Z.eq_dec r 0) as [->|Hr].
  + exfalso. apply load_elf_success in Hrun.
    destruct Hrun as (f' & s1 & s2 & hi & Hf' & _ & _ & Hseg & _).
    rewrite Hf in Hf'. injection Hf' as <-.
    apply load_segments_continue in Hseg. destruct Hseg as [Hvalid _].
    specialize (Hvalid (Z.to_nat i)).
    rewrite Z2Nat.id, Z.add_0_l in Hvalid by lia.
    rewrite (segment_violation_invalid f i Hviol) in Hvalid.
    assert (Hc : true = false) by (apply Hvalid; [lia | exact Hl]).
    discriminate.
  + revert Hrun. clear -Hr. unfold load_elf_and_init_memory. intros H.
    apply bind_ret_inv in H. destruct H as (file & s1 & _ & H).
    destruct file as [f|].
    2:{ apply bind_ret_inv in H. destruct H as (? & ? & _ & H).
        apply ret_inv in H. destruct H as [H _]. congruence. }
    destruct (_ <? sizeof_Ehdr).
    { apply bind_ret_inv in H. destruct H as (? & ? & _ & H).
      apply ret_inv in H. destruct H as [H _]. congruence. }
    destruct (header_invalid _ _).
    { apply bind_ret_inv in H. destruct H as (? & ? & _ & H).
      apply ret_inv in H. destruct H as [H _]. congruence. }
    apply bind_ret_inv in H. destruct H as (? & ? & _ & H).
    apply bind_ret_inv in H. destruct H as ([[err m2] hi] & ? & _ & H).
    destruct err.
    * apply bind_ret_inv in H. destruct H as (? & ? & _ & H).
      apply ret_inv in H. destruct H as [H _]. congruence.
    * apply bind_ret_inv in H. destruct H as (? & ? & _ & H).
      apply ret_inv in H. destruct H as [H _]. congruence.
Qed.

Lemma frames_ok_machine file : frames_ok (boot_state file).
Proof. unfold frames_ok. cbn. repeat constructor. Qed.

Lemma files_machine frames file :
  files (machine frames file) !! "/kernel.bin"%string = Some file.
Proof. cbn. apply lookup_insert_eq. Qed.

Lemma load_elf_reports_entry_and_break_witness :
  exists m' s',
    load_elf_and_init_memory "/kernel.bin" mm0 0 0 (boot_state scenario_elf)
      = Ret (0, m', 0x08048000, 0x0804A000) s' /\
    (0x08048000 = e_entry scenario_elf /\
     0x0804A000 = PAGE_ALIGN_UP (max_segment_end scenario_elf)).
Proof.
  assert (Hv : load_summary
                 (load_elf_and_init_memory "/kernel.bin" mm0 0 0
                    (boot_state scenario_elf))
               = Some (0, 0x08048000, 0x0804A000)) by (vm_compute; reflexivity).
  destruct (load_elf_and_init_memory "/kernel.bin" mm0 0 0 (boot_state scenario_elf))
    as [[[[r m'] e] b] s'| |] eqn:Hrun; try discriminate Hv.
  cbn in Hv. injection Hv as -> -> ->.
  exists m', s'. split; [reflexivity|].
  apply (load_elf_reports_entry_and_break "/kernel.bin" mm0 0 0
           (boot_state scenario_elf) scenario_elf m' _ _ s').
  - apply files_machine.
  - exact Hrun.
Defined.

Lemma load_elf_kernel_entry_warns_witness :
  exists m' s',
    load_elf_and_init_memory "/kernel.bin" mm0 0 0 (boot_state kernel_entry_elf)
      = Ret (0, m', 0xC0100000, 0x0804A000) s' /\
    (0xC0100000 = e_entry kernel_entry_elf /\
     warn_calls (trace s')
       = warn_calls (trace (boot_state kernel_entry_elf)) ++ [e_entry kernel_entry_elf]).
Proof.
  assert (Hv : load_summary
                 (load_elf_and_init_memory "/kernel.bin" mm0 0 0
                    (boot_state kernel_entry_elf))
               = Some (0, 0xC0100000, 0x0804A000)) by (vm_compute; reflexivity).
  destruct (load_elf_and_init_memory "/kernel.bin" mm0 0 0 (boot_state kernel_entry_elf))
    as [[[[r m'] e] b] s'| |] eqn:Hrun; try discriminate Hv.
  cbn in Hv. injection Hv as -> -> ->.
  exists m', s'. split; [reflexivity|].
  apply (load_elf_kernel_entry_warns "/kernel.bin" mm0 0 0
           (boot_state kernel_entry_elf) kernel_entry_elf m' _ 0x0804A000 s').
  - apply files_machine.
  - vm_compute. discriminate.
  - exact Hrun.
Defined.

(** C9 as stated fails: an executable whose entry point is 0xC0100000 is
    loaded, and a process is created from it. *)
Lemma load_elf_accepts_kernel_entry :
  KERNEL_VIRT_BASE <= e_entry kernel_entry_elf /\
  load_summary (load_elf_and_init_memory "/kernel.bin" mm0 0 0
                  (boot_state kernel_entry_elf))
    = Some (0, 0xC0100000, 0x0804A000) /\
  option_map (option_map entry_point)
    (outcome_value (create_user_process cfg0 "/kernel.bin"
                      (boot_state kernel_entry_elf)))
    = Some (Some 0xC0100000).
Proof.
  split; [vm_compute; discriminate|]. split; vm_compute; reflexivity.
Qed.

(** C8 as stated fails twice.  A PT_LOAD with [filesz = 1 > memsz = 0] is
    skipped and the file is accepted; and when the second segment starts
    in kernel space the loader returns -1 with the first segment already
    mapped. *)
Lemma load_elf_skips_and_keeps_segments :
  (p_type empty_segment_elf 0 = PT_LOAD /\
   p_filesz empty_segment_elf 0 > p_memsz empty_segment_elf 0 /\
   load_summary (load_elf_and_init_memory "/kernel.bin" mm0 0 0
                   (boot_state empty_segment_elf))
     = Some (0, 0x08048000, 0)) /\
  (loadable late_violation_elf 1 = true /\
   p_vaddr late_violation_elf 1 + p_memsz late_violation_elf 1 > KERNEL_VIRT_BASE /\
   match load_elf_and_init_memory "/kernel.bin" mm0 0 0
           (boot_state late_violation_elf) with
   | Ret (r, _, _, _) s' =>
       r = -1 /\ uload8 s' (pgd_phys mm0) 0x08048000 = Some (nth 0 payload Byte.x00)
   | _ => False
   end).
Proof.
  split; [split; [reflexivity | split; [reflexivity | vm_compute; reflexivity]]|].
  split; [vm_compute; reflexivity|]. split; [reflexivity|].
  vm_compute. split; reflexivity.
Qed.

End LoaderFacts.
Import LoaderFacts.

(** ** Teardown of a process *)

Module TeardownFacts.

Lemma inert_pte_at pd q :
  inert (fun _ => false) (fun q' => q' = q) (fun s => ptes s !! (pd, q)).
Proof.
  constructor; try reflexivity.
  intros m s H. cbn. apply H. reflexivity.
Qed.

Lemma inert_kpd K : inert (fun _ => false) K g_kernel_page_directory_phys.
Proof. constructor; reflexivity. Qed.

Lemma inert_tss_esp0 K : inert (fun _ => false) K tss_esp0.
Proof. constructor; reflexivity. Qed.

Lemma inert_next_kstack K : inert (fun _ => false) K g_next_kernel_stack_virt_base.
Proof. constructor; reflexivity. Qed.

(** Pages of the kernel-stack region are kernel pages other than the
    temporary slot. *)
Lemma stack_region_vpn v :
  KERNEL_STACK_VIRT_START <= v < KERNEL_STACK_VIRT_END ->
  vpn KERNEL_SPACE_VIRT_START <= vpn v /\ vpn v <> temp_vpn.
Proof.
  intros [Hlo Hhi].
  assert (H1 : vpn KERNEL_STACK_VIRT_START <= vpn v) by (apply vpn_mono; exact Hlo).
  assert (H2 : vpn v <= vpn (KERNEL_STACK_VIRT_END - 1)) by (apply vpn_mono; lia).
  change (vpn KERNEL_STACK_VIRT_START) with 0xE0000 in H1.
  change (vpn (KERNEL_STACK_VIRT_END - 1)) with 0xEFFFF in H2.
  change (vpn KERNEL_SPACE_VIRT_START) with 0xC0000.
  change temp_vpn with 0xFFBFF. lia.
Qed.

Lemma kernel_only_stack_page v :
  KERNEL_STACK_VIRT_START <= v < KERNEL_STACK_VIRT_END ->
  kernel_only (fun q => q = vpn v).
Proof. intros Hv q ->. apply stack_region_vpn, Hv. Qed.

Lemma preserves_trace_unmap_pages n : forall pd q, preserves trace (unmap_pages pd q n).
Proof.
  induction n as [|n IH]; intros pd q; cbn [unmap_pages]; repeat pres_step.
  - unfold unmap_page. repeat pres_step;
      first [apply preserves_modify; intros s; reflexivity
            | unfold put_frame_raw; apply preserves_modify; intros s;
              destruct (frame_refs s !! _) as [[|?]|]; reflexivity].
  - apply IH.
Qed.

Lemma preserves_kpd_unmap_pages n pd q :
  preserves g_kernel_page_directory_phys (unmap_pages pd q n).
Proof. apply (pres_unmap_pages (fun _ => false) _ (inert_kpd _)). Qed.

Lemma unmap_range_trace pd v n s u s' :
  paging_unmap_range pd v n s = Ret u s' ->
  trace s' = trace s ++ [EvUnmapRange pd v n].
Proof.
  unfold paging_unmap_range. intros H.
  apply bind_ret_inv in H. destruct H as (? & s1 & H1 & H).
  apply emit_inv in H1. subst s1.
  apply preserves_trace_unmap_pages in H. exact H.
Qed.

Lemma unmap_pages_returns n : forall pd q s, exists s', unmap_pages pd q n s = Ret tt s'.
Proof.
  induction n as [|n IH]; intros pd q s; cbn [unmap_pages].
  - eexists. reflexivity.
  - unfold bind at 1.
    assert (H : exists s1, unmap_page pd q s = Ret tt s1).
    { unfold unmap_page, bind, gets, modify, put_frame_raw, ret.
      destruct (ptes s !! (pd, q)) as [pte|]; [|eexists; reflexivity].
      destruct (pte_present pte); eexists; reflexivity. }
    destruct H as [s1 ->]. apply IH.
Qed.

(** One turn of the teardown loop. *)
Lemma release_stack_page_spec v s :
  exists s',
    release_stack_page (g_kernel_page_directory_phys s) v s = Ret None s' /\
    trace s' = trace s ++ stack_page_release s v /\
    ptes s' = ptes s /\
    g_kernel_page_directory_phys s' = g_kernel_page_directory_phys s.
Proof.
  unfold release_stack_page, paging_get_physical_address, stack_page_release,
    kernel_frame, bind, emit, modify, gets, put_frame, put_frame_raw, ret.
  cbn.
  destruct (ptes s !! (g_kernel_page_directory_phys s, vpn v)) as [pte|];
    [|eexists; repeat split; reflexivity].
  destruct (pte_present pte); [|eexists; repeat split; reflexivity].
  destruct (pte_frame pte =? 0); cbn.
  - eexists. repeat split; reflexivity.
  - eexists. split; [reflexivity|]. cbn.
    destruct (frame_refs s !! pte_frame pte) as [[|?]|]; cbn;
      rewrite <- app_assoc; repeat split; reflexivity.
Qed.

Lemma stack_page_release_ext s s' v :
  ptes s' = ptes s ->
  g_kernel_page_directory_phys s' = g_kernel_page_directory_phys s ->
  stack_page_release s' v = stack_page_release s v.
Proof. intros Hp Hk. unfold stack_page_release, kernel_frame. rewrite Hp, Hk. reflexivity. Qed.

Lemma stack_pages_succ v n :
  stack_pages v (S n) = v :: stack_pages (v + PAGE_SIZE) n.
Proof.
  unfold stack_pages. cbn [seq map]. f_equal; [lia|].
  rewrite <- seq_shift, map_map. apply List.map_ext. intros k. lia.
Qed.

(** The teardown loop over [n] whole pages. *)
Lemma release_loop_spec top n : forall fuel v s,
  (n < fuel)%nat -> 0 <= v -> top = v + PAGE_SIZE * Z.of_nat n ->
  top <= 2 ^ 32 - PAGE_SIZE ->
  exists s',
    for_pages fuel v top (release_stack_page (g_kernel_page_directory_phys s)) s
      = Ret None s' /\
    trace s' = trace s ++ concat (map (stack_page_release s) (stack_pages v n)) /\
    ptes s' = ptes s /\
    g_kernel_page_directory_phys s' = g_kernel_page_directory_phys s.
Proof.
  induction n as [|n IH]; intros fuel v s Hfuel Hv Htop Hmax;
    (destruct fuel as [|fuel]; [lia|]); cbn [for_pages].
  - replace (v <? top) with false by (symmetry; apply Z.ltb_ge; lia).
    exists s. cbn. rewrite app_nil_r. auto.
  - replace (v <? top) with true
      by (symmetry; apply Z.ltb_lt; unfold PAGE_SIZE in *; lia).
    destruct (release_stack_page_spec v s) as (s1 & Hr & Ht & Hp & Hk).
    unfold bind at 1. rewrite Hr.
    rewrite wrap32_small by (rewrite pow32 in *; unfold PAGE_SIZE in *; lia).
    destruct (IH fuel (v + PAGE_SIZE) s1) as (s2 & Hr2 & Ht2 & Hp2 & Hk2);
      [lia | unfold PAGE_SIZE; lia | unfold PAGE_SIZE in *; lia | exact Hmax |].
    exists s2. rewrite Hk in Hr2. rewrite Hr2. split; [reflexivity|].
    split; [|split; congruence].
    rewrite Ht2, Ht, <- app_assoc, stack_pages_succ. cbn [map concat].
    f_equal. f_equal. f_equal. apply List.map_ext. intros k.
    apply stack_page_release_ext; assumption.
Qed.

Lemma page_fuel_gt n : Z.of_nat n <= 2 ^ 20 -> (n < page_fuel)%nat.
Proof.
  intros H. apply Nat2Z.inj_lt. rewrite page_fuel_val. lia.
Qed.

(** Frames behind the kernel stack are not touched by [destroy_mm]. *)
Lemma destroy_mm_spec m s :
  exists s',
    destroy_mm m s = Ret tt s' /\
    trace s' = trace s ++ [EvDestroyMm (pgd_phys m)] /\
    g_kernel_page_directory_phys s' = g_kernel_page_directory_phys s /\
    forall v, KERNEL_STACK_VIRT_START <= v < KERNEL_STACK_VIRT_END ->
              stack_page_release s' v = stack_page_release s v.
Proof.
  eexists. split; [reflexivity|]. split; [reflexivity|]. split; [reflexivity|].
  intros v Hv. unfold stack_page_release, kernel_frame. cbn.
  set (kpd := g_kernel_page_directory_phys s).
  assert (Hl : filter (fun kv => user_pte (pgd_phys m) kv.1 = false) (ptes s)
                 !! (kpd, vpn v) = ptes s !! (kpd, vpn v)).
  { destruct (ptes s !! (kpd, vpn v)) as [w|] eqn:Hw.
    - apply map_lookup_filter_Some. split; [exact Hw|].
      unfold user_pte. cbn. apply andb_false_iff. right.
      apply Z.ltb_ge. apply (stack_region_vpn v Hv).
    - apply map_lookup_filter_None. left. exact Hw. }
  rewrite Hl. reflexivity.
Qed.

Lemma bind_run {A B} (m : M A) (k : A -> M B) s a s1 :
  m s = Ret a s1 -> bind m k s = k a s1.
Proof. intros H. unfold bind. rewrite H. reflexivity. Qed.

Lemma stack_pages_in_region cfg top v :
  kstack_in_region cfg top ->
  In v (stack_pages (top - PROCESS_KSTACK_SIZE cfg)
          (Z.to_nat (PROCESS_KSTACK_SIZE cfg / PAGE_SIZE))) ->
  KERNEL_STACK_VIRT_START <= v < KERNEL_STACK_VIRT_END.
Proof.
  intros (Hpos & Hmod & Hlo & Hhi) Hin. unfold stack_pages in Hin.
  apply in_map_iff in Hin. destruct Hin as (k & <- & Hk). apply in_seq in Hk.
  assert (Hsz : PROCESS_KSTACK_SIZE cfg
                = PAGE_SIZE * (PROCESS_KSTACK_SIZE cfg / PAGE_SIZE)).
  { pose proof (Z.div_mod (PROCESS_KSTACK_SIZE cfg) PAGE_SIZE ltac:(discriminate)).
    lia. }
  assert (Hk' : Z.of_nat k < PROCESS_KSTACK_SIZE cfg / PAGE_SIZE).
  { destruct Hk as [_ Hk]. cbn in Hk. apply Nat2Z.inj_lt in Hk.
    rewrite Z2Nat.id in Hk; [exact Hk|]. apply Z.div_pos; [lia | reflexivity]. }
  unfold PAGE_SIZE in *. lia.
Qed.

(** C7: [destroy_process] releases in this order: [destroy_mm] on the
    memory descriptor if there is one; for each page of the kernel stack,
    from the lowest, the lookup of its frame followed by [put_frame] on the
    frame found; [paging_unmap_range] over the stack in the kernel
    directory; [put_frame] on the page-directory frame; and last the PCB
    itself. *)
Theorem destroy_process_order cfg pcb s :
  kernel_stack_vaddr_top pcb = 0 \/ kstack_in_region cfg (kernel_stack_vaddr_top pcb) ->
  exists s',
    destroy_process cfg pcb s = Ret tt s' /\
    trace s' = trace s ++ teardown_events cfg pcb s.
Proof.
  intros Hstack. unfold destroy_process, teardown_events.
  assert (H1 : exists s1,
    (match mm pcb with Some m => destroy_mm m | None => ret tt end) s = Ret tt s1 /\
    trace s1 = trace s ++
      (match mm pcb with Some m => [EvDestroyMm (pgd_phys m)] | None => [] end) /\
    g_kernel_page_directory_phys s1 = g_kernel_page_directory_phys s /\
    forall v, KERNEL_STACK_VIRT_START <= v < KERNEL_STACK_VIRT_END ->
              stack_page_release s1 v = stack_page_release s v).
  { destruct (mm pcb) as [m|]; [apply destroy_mm_spec|].
    exists s. rewrite app_nil_r. auto. }
  destruct H1 as (s1 & Hr1 & Ht1 & Hk1 & Hrel).
  rewrite (bind_run _ _ _ _ _ Hr1).
  cbn [kernel_stack_vaddr_top page_directory_phys pid set_mm].
  set (top := kernel_stack_vaddr_top pcb) in *.
  set (size := PROCESS_KSTACK_SIZE cfg) in *.
  assert (H2 : exists s2,
    (if negb (top =? 0)
     then
       let* kpd := gets g_kernel_page_directory_phys in
       for_pages page_fuel (wrap32 (top - size)) top (release_stack_page kpd) ;;
       paging_unmap_range kpd (wrap32 (top - size)) size
     else ret tt) s1 = Ret tt s2 /\
    trace s2 = trace s1 ++
      (if top =? 0 then []
       else concat (map (stack_page_release s)
                      (stack_pages (top - size) (Z.to_nat (size / PAGE_SIZE)))) ++
            [EvUnmapRange (g_kernel_page_directory_phys s) (top - size) size])).
  { destruct (top =? 0) eqn:Htop; cbn [negb].
    { exists s1. rewrite app_nil_r. auto. }
    destruct Hstack as [H0|Hreg]; [apply Z.eqb_neq in Htop; contradiction|].
    pose proof Hreg as (Hpos & Hmod & Hlo & Hhi).
    fold size in Hpos, Hmod, Hlo.
    unfold KERNEL_STACK_VIRT_START, KERNEL_STACK_VIRT_END in *.
    rewrite wrap32_small by (rewrite pow32; lia).
    assert (Hsz : size = PAGE_SIZE * (size / PAGE_SIZE)).
    { pose proof (Z.div_mod size PAGE_SIZE ltac:(discriminate)). lia. }
    assert (Hn : 0 <= size / PAGE_SIZE) by (apply Z.div_pos; [lia | reflexivity]).
    destruct (release_loop_spec top (Z.to_nat (size / PAGE_SIZE)) page_fuel
                (top - size) s1) as (s2 & Hr2 & Ht2 & Hp2 & Hk2).
    { apply page_fuel_gt. rewrite Z2Nat.id by exact Hn.
      change (2 ^ 20) with 1048576. unfold PAGE_SIZE in *. lia. }
    { lia. }
    { rewrite Z2Nat.id by exact Hn. lia. }
    { rewrite pow32. unfold PAGE_SIZE. lia. }
    destruct (unmap_pages_returns
                (Z.to_nat ((PAGE_OFFSET (top - size) + size + PAGE_SIZE - 1) / PAGE_SIZE))
                (g_kernel_page_directory_phys s1) (vpn (top - size))
                (set_trace (trace s2 ++ [EvUnmapRange (g_kernel_page_directory_phys s1)
                                           (top - size) size]) s2))
      as (s3 & Hr3).
    exists s3. split.
    - unfold bind at 1. unfold gets at 1. rewrite (bind_run _ _ _ _ _ Hr2).
      unfold paging_unmap_range. unfold bind at 1. unfold emit, modify. exact Hr3.
    - apply preserves_trace_unmap_pages in Hr3. rewrite Hr3. cbn [trace set_trace].
      rewrite Ht2, Hk1, <- app_assoc. f_equal. f_equal.
      f_equal. apply map_ext_in. intros v Hv. apply Hrel.
      apply (stack_pages_in_region cfg top v Hreg Hv). }
  destruct H2 as (s2 & Hr2 & Ht2).
  rewrite (bind_run _ _ _ _ _ Hr2).
  assert (H3 : exists s3,
    (if negb (page_directory_phys pcb =? 0)
     then put_frame (page_directory_phys pcb) else ret tt) s2 = Ret tt s3 /\
    trace s3 = trace s2 ++
      (if page_directory_phys pcb =? 0 then []
       else [EvPutFrame (page_directory_phys pcb)])).
  { destruct (page_directory_phys pcb =? 0); cbn [negb].
    - exists s2. rewrite app_nil_r. auto.
    - eexists. split; [reflexivity|]. cbn.
      destruct (frame_refs s2 !! page_directory_phys pcb) as [[|?]|]; reflexivity. }
  destruct H3 as (s3 & Hr3 & Ht3).
  rewrite (bind_run _ _ _ _ _ Hr3).
  eexists. split; [reflexivity|]. cbn [trace set_trace].
  rewrite Ht3, Ht2, Ht1, <- !app_assoc. reflexivity.
Qed.

Lemma demo_pcb_created : outcome_value created = Some (Some demo_pcb).
Proof. vm_compute. reflexivity. Qed.

Lemma destroy_process_order_witness :
  kstack_in_region cfg0 (kernel_stack_vaddr_top demo_pcb) /\
  teardown_events cfg0 demo_pcb demo_state =
    [EvDestroyMm 0x500000;
     EvGetPhys 0x100000 0xE0000000; EvPutFrame 0x501000;
     EvGetPhys 0x100000 0xE0001000; EvPutFrame 0x502000;
     EvUnmapRange 0x100000 0xE0000000 0x2000;
     EvPutFrame 0x500000; EvKfree (HeapPcb 1)] /\
  exists s',
    destroy_process cfg0 demo_pcb demo_state = Ret tt s' /\
    trace s' = trace demo_state ++ teardown_events cfg0 demo_pcb demo_state.
Proof.
  assert (Hreg : kstack_in_region cfg0 (kernel_stack_vaddr_top demo_pcb)).
  { unfold kstack_in_region. cbn.
    unfold KERNEL_STACK_VIRT_START, KERNEL_STACK_VIRT_END. repeat split; lia. }
  split; [exact Hreg|]. split; [vm_compute; reflexivity|].
  apply (destroy_process_order cfg0 demo_pcb demo_state). right. exact Hreg.
Defined.

End TeardownFacts.
Import TeardownFacts.

(** ** Kernel stacks *)

Module KstackFacts.

Lemma inert_trace K : inert (fun _ => true) K trace.
Proof. constructor; try reflexivity. intros e s H. discriminate. Qed.

Lemma map_single_raw_trace pd v p fl : preserves trace (paging_map_single_4k_raw pd v p fl).
Proof.
  apply (pres_map_single_raw (fun _ => true) (fun _ => False) trace
           (inert_trace _) kernel_only_none). intros [].
Qed.

(** What a call to [paging_map_single_4k] leaves of the state [process.c]
    itself manages. *)
Lemma map_single_spec pd v p fl s r s' :
  paging_map_single_4k pd v p fl s = Ret r s' ->
  trace s' = trace s ++ [EvMapSingle pd v p fl r] /\
  g_kernel_page_directory_phys s' = g_kernel_page_directory_phys s /\
  g_next_kernel_stack_virt_base s' = g_next_kernel_stack_virt_base s.
Proof.
  intros H. split; [|split].
  - unfold paging_map_single_4k in H.
    apply bind_ret_inv in H. destruct H as (r0 & s1 & H1 & H).
    apply bind_ret_inv in H. destruct H as (u & s2 & H2 & H).
    apply emit_inv in H2. apply ret_inv in H. destruct H as [-> <-]. subst s2.
    apply map_single_raw_trace in H1. cbn. rewrite H1. reflexivity.
  - apply (pres_map_single (fun _ => false) _ (inert_kpd _) loud_ok_none) in H. exact H.
  - apply (pres_map_single (fun _ => false) _ (inert_next_kstack _) loud_ok_none) in H.
    exact H.
Qed.

(** [put_frames] always returns and only adds its calls to the trace. *)
Lemma put_frames_spec l : forall s,
  exists s',
    put_frames l s = Ret tt s' /\
    trace s' = trace s ++ map EvPutFrame l /\
    ptes s' = ptes s /\
    g_kernel_page_directory_phys s' = g_kernel_page_directory_phys s /\
    g_next_kernel_stack_virt_base s' = g_next_kernel_stack_virt_base s.
Proof.
  induction l as [|p l IH]; intros s; cbn [put_frames map].
  - exists s. rewrite app_nil_r. auto.
  - assert (H : exists s1, put_frame p s = Ret tt s1 /\
                trace s1 = trace s ++ [EvPutFrame p] /\ ptes s1 = ptes s /\
                g_kernel_page_directory_phys s1 = g_kernel_page_directory_phys s /\
                g_next_kernel_stack_virt_base s1 = g_next_kernel_stack_virt_base s).
    { eexists. split; [reflexivity|]. cbn.
      destruct (frame_refs s !! p) as [[|?]|]; auto. }
    destruct H as (s1 & Hr & Ht & Hp & Hk & Hn).
    destruct (IH s1) as (s2 & Hr2 & Ht2 & Hp2 & Hk2 & Hn2).
    exists s2. rewrite (bind_run _ _ _ _ _ Hr). split; [exact Hr2|].
    rewrite Ht2, Ht, <- app_assoc. repeat split; congruence.
Qed.

Lemma frames_allocated_app t1 t2 :
  frames_allocated (t1 ++ t2) = frames_allocated t1 ++ frames_allocated t2.
Proof. apply flat_map_app. Qed.

Lemma frames_released_app t1 t2 :
  frames_released (t1 ++ t2) = frames_released t1 ++ frames_released t2.
Proof. apply flat_map_app. Qed.

Lemma frames_allocated_puts l : frames_allocated (map EvPutFrame l) = [].
Proof. induction l as [|p l IH]; [reflexivity | exact IH]. Qed.

Lemma frames_released_puts l : frames_released (map EvPutFrame l) = l.
Proof. induction l as [|p l IH]; [reflexivity | cbn; f_equal; exact IH]. Qed.

Lemma frames_allocated_allocs l :
  Forall (fun p => p <> 0) l -> frames_allocated (map EvFrameAlloc l) = l.
Proof.
  induction 1 as [|p l Hp _ IH]; [reflexivity|]. cbn.
  apply Z.eqb_neq in Hp. rewrite Hp. cbn. f_equal. exact IH.
Qed.

Lemma frames_released_allocs l : frames_released (map EvFrameAlloc l) = [].
Proof. induction l as [|p l IH]; [reflexivity | exact IH]. Qed.

Lemma frame_alloc_spec s p s' :
  frame_alloc s = Ret p s' ->
  trace s' = trace s ++ [EvFrameAlloc p] /\
  ptes s' = ptes s /\
  g_kernel_page_directory_phys s' = g_kernel_page_directory_phys s /\
  g_next_kernel_stack_virt_base s' = g_next_kernel_stack_virt_base s /\
  (p <> 0 -> exists rest, frame_script s = p :: rest /\ frame_script s' = rest).
Proof.
  unfold frame_alloc, frame_alloc_raw, bind, emit, modify, ret. intros H.
  destruct (frame_script s) as [|q rest] eqn:Hs.
  - injection H as <- <-. cbn. repeat split; try reflexivity. intros []. reflexivity.
  - injection H as <- <-. cbn.
    destruct (q =? 0); cbn; repeat split; try reflexivity; intros _; exists rest; auto.
Qed.

(** Step 1 of [allocate_kernel_stack]. *)
Lemma alloc_stack_frames_spec n : forall acc s r s',
  alloc_stack_frames n acc s = Ret r s' ->
  ptes s' = ptes s /\
  g_kernel_page_directory_phys s' = g_kernel_page_directory_phys s /\
  g_next_kernel_stack_virt_base s' = g_next_kernel_stack_virt_base s /\
  exists new,
    Forall (fun p => p <> 0) new /\
    match r with
    | Some phys_frames =>
        phys_frames = acc ++ new /\ length new = n /\
        trace s' = trace s ++ map EvFrameAlloc new
    | None =>
        trace s' = trace s ++ map EvFrameAlloc new ++ [EvFrameAlloc 0] ++
                   map EvPutFrame (acc ++ new) ++ [EvKfree HeapFrameList]
    end.
Proof.
  induction n as [|n IH]; intros acc s r s' H; cbn [alloc_stack_frames] in H.
  - apply ret_inv in H. destruct H as [<- <-]. repeat split; try reflexivity.
    exists []. split; [constructor|]. rewrite !app_nil_r. auto.
  - apply bind_ret_inv in H. destruct H as (p & s1 & H1 & H).
    apply frame_alloc_spec in H1. destruct H1 as (Ht1 & Hp1 & Hk1 & Hn1 & _).
    destruct (p =? 0) eqn:Hp0.
    + apply Z.eqb_eq in Hp0. subst p.
      apply bind_ret_inv in H. destruct H as (u & s2 & H2 & H).
      destruct (put_frames_spec acc s1) as (s2' & Hr2 & Ht2 & Hp2 & Hk2 & Hn2).
      rewrite Hr2 in H2. assert (s2 = s2') by congruence. subst s2. clear H2.
      apply bind_ret_inv in H. destruct H as (u' & s3 & H3 & H).
      apply emit_inv in H3. apply ret_inv in H. destruct H as [<- <-]. subst s3.
      cbn. repeat split; try congruence.
      exists []. split; [constructor|]. cbn. rewrite app_nil_r, Ht2, Ht1.
      rewrite <- !app_assoc. reflexivity.
    + apply Z.eqb_neq in Hp0. apply IH in H.
      destruct H as (Hp2 & Hk2 & Hn2 & new & Hnew & Hr).
      repeat split; try congruence.
      exists (p :: new). split; [constructor; assumption|].
      destruct r as [fr|].
      * destruct Hr as (Hfr & Hlen & Ht). split; [|split].
        -- rewrite Hfr, <- app_assoc. reflexivity.
        -- cbn. lia.
        -- rewrite Ht, Ht1. cbn [map]. rewrite <- List.app_assoc. reflexivity.
      * rewrite Hr, Ht1. cbn [map]. rewrite <- !List.app_assoc. reflexivity.
Qed.

Lemma unmap_page_spec pd q s u s' :
  unmap_page pd q s = Ret u s' ->
  ptes s' = delete (pd, q) (ptes s) /\
  g_kernel_page_directory_phys s' = g_kernel_page_directory_phys s /\
  g_next_kernel_stack_virt_base s' = g_next_kernel_stack_virt_base s.
Proof.
  unfold unmap_page, bind, gets, modify, put_frame_raw, ret.
  destruct (ptes s !! (pd, q)) as [pte|] eqn:Hl.
  - destruct (pte_present pte); intros H; inversion H; subst; cbn;
      [destruct (frame_refs s !! pte_frame pte) as [[|?]|]|]; cbn; auto.
  - intros H. inversion H; subst. split; [|auto].
    symmetry. apply delete_id. exact Hl.
Qed.

(** After [unmap_pages] nothing is mapped in the range. *)
Lemma unmap_pages_spec n : forall pd q s u s',
  unmap_pages pd q n s = Ret u s' ->
  (forall k, 0 <= k < Z.of_nat n -> ptes s' !! (pd, q + k) = None) /\
  (forall key, (forall k, 0 <= k < Z.of_nat n -> key <> (pd, q + k)) ->
               ptes s' !! key = ptes s !! key) /\
  g_kernel_page_directory_phys s' = g_kernel_page_directory_phys s /\
  g_next_kernel_stack_virt_base s' = g_next_kernel_stack_virt_base s.
Proof.
  induction n as [|n IH]; intros pd q s u s' H; cbn [unmap_pages] in H.
  - apply ret_inv in H. destruct H as [_ <-]. repeat split; try reflexivity. lia.
  - apply bind_ret_inv in H. destruct H as (u1 & s1 & H1 & H).
    apply unmap_page_spec in H1. destruct H1 as (Hp1 & Hk1 & Hn1).
    apply IH in H. destruct H as (Hnone & Hother & Hk2 & Hn2).
    split; [|split; [|split; congruence]].
    + intros k Hk. destruct (Z.eq_dec k 0) as [->|Hne].
      * rewrite Hother.
        -- rewrite Hp1, Z.add_0_r. apply lookup_delete_eq.
        -- intros k' Hk' Heq. injection Heq as Heq. lia.
      * replace (q + k) with (q + 1 + (k - 1)) by lia. apply Hnone. lia.
    + intros key Hkey. rewrite Hother.
      * rewrite Hp1. apply lookup_delete_ne. intros <-.
        apply (Hkey 0); [lia|]. rewrite Z.add_0_r. reflexivity.
      * intros k Hk. replace (q + 1 + k) with (q + (k + 1)) by lia. apply Hkey. lia.
Qed.

Lemma stack_page_addr base k :
  0 <= base -> 0 <= k -> base + PAGE_SIZE * (k + 1) <= 2 ^ 32 ->
  wrap32 (base + wrap32 (k * PAGE_SIZE)) = base + PAGE_SIZE * k.
Proof.
  intros Hb Hk Hmax. rewrite pow32 in Hmax. unfold PAGE_SIZE in *.
  rewrite (wrap32_small (k * 4096)) by (rewrite pow32; lia).
  rewrite wrap32_small by (rewrite pow32; lia). lia.
Qed.

Lemma stack_page_vpn base k :
  base mod PAGE_SIZE = 0 -> vpn (base + PAGE_SIZE * k) = vpn base + k.
Proof.
  intros _. rewrite !vpn_div. rewrite Z.mul_comm.
  apply Z.div_add. discriminate.
Qed.

(** Step 3 of [allocate_kernel_stack], from index [i] on. *)
Lemma map_stack_pages_spec base frames n : forall i s b s',
  map_stack_pages n i base frames s = Ret b s' ->
  0 <= i -> 0 <= base -> base mod PAGE_SIZE = 0 ->
  base + PAGE_SIZE * (i + Z.of_nat n) <= 2 ^ 32 ->
  g_kernel_page_directory_phys s' = g_kernel_page_directory_phys s /\
  exists evs,
    trace s' = trace s ++ evs /\
    frames_allocated evs = [] /\
    if b then
      g_next_kernel_stack_virt_base s' = g_next_kernel_stack_virt_base s /\
      frames_released evs = []
    else
      g_next_kernel_stack_virt_base s' = base /\
      frames_released evs = frames /\
      exists j, i <= j /\
        (forall k, 0 <= k < j ->
           ptes s' !! (g_kernel_page_directory_phys s, vpn base + k) = None) /\
        (forall pd v p fl, In (EvMapSingle pd v p fl MapOk) evs ->
           pd = g_kernel_page_directory_phys s /\
           exists k, i <= k < j /\ vpn v = vpn base + k).
Proof.
  induction n as [|n IH]; intros i s b s' H Hi Hb Hal Hmax;
    cbn [map_stack_pages] in H.
  - apply ret_inv in H. destruct H as [<- <-]. split; [reflexivity|].
    exists []. rewrite app_nil_r. auto.
  - rewrite stack_page_addr in H by (unfold PAGE_SIZE in *; lia).
    apply bind_ret_inv in H. destruct H as (kpd & s0 & H0 & H).
    apply gets_inv in H0. destruct H0 as [-> ->].
    apply bind_ret_inv in H. destruct H as (r & s1 & H1 & H).
    apply map_single_spec in H1. destruct H1 as (Ht1 & Hk1 & Hn1).
    set (kpd := g_kernel_page_directory_phys s) in *.
    set (ev := EvMapSingle kpd (base + PAGE_SIZE * i) (nth (Z.to_nat i) frames 0)
                 PTE_KERNEL_DATA_FLAGS) in *.
    assert (Hfail : r <> MapOk ->
      ((if 0 <? i then paging_unmap_range kpd base (wrap32 (i * PAGE_SIZE))
        else ret tt) ;;
       put_frames frames ;; kfree HeapFrameList ;;
       modify (set_next_kstack base) ;; ret false) s1 = Ret b s' ->
      g_kernel_page_directory_phys s' = kpd /\
      exists evs, trace s' = trace s ++ evs /\ frames_allocated evs = [] /\
        b = false /\
        g_next_kernel_stack_virt_base s' = base /\
        frames_released evs = frames /\
        (forall k, 0 <= k < i -> ptes s' !! (kpd, vpn base + k) = None) /\
        (forall pd v p fl, ~ In (EvMapSingle pd v p fl MapOk) evs)).
    { intros Hr Hrun.
      apply bind_ret_inv in Hrun. destruct Hrun as (u & s2 & H2 & Hrun).
      assert (Hun : g_kernel_page_directory_phys s2 = kpd /\
                    (forall k, 0 <= k < i -> ptes s2 !! (kpd, vpn base + k) = None) /\
                    trace s2 = trace s1 ++
                      (if 0 <? i then [EvUnmapRange kpd base (wrap32 (i * PAGE_SIZE))]
                       else [])).
      { destruct (0 <? i) eqn:Hi0.
        - pose proof (unmap_range_trace _ _ _ _ _ _ H2) as Htr.
          unfold paging_unmap_range in H2.
          apply bind_ret_inv in H2. destruct H2 as (? & s1' & H2a & H2).
          apply emit_inv in H2a. subst s1'.
          apply unmap_pages_spec in H2. destruct H2 as (Hnone & _ & Hk2 & _).
          cbn in Hk2. split; [congruence|]. split; [|exact Htr].
          intros k Hk. apply Hnone.
          rewrite page_offset_mod, Hal.
          rewrite wrap32_small by (rewrite pow32 in *; unfold PAGE_SIZE in *; lia).
          replace (0 + i * PAGE_SIZE + PAGE_SIZE - 1)
            with ((PAGE_SIZE - 1) + i * PAGE_SIZE) by lia.
          rewrite Z.div_add by discriminate.
          change ((PAGE_SIZE - 1) / PAGE_SIZE) with 0.
          rewrite Z2Nat.id by lia. lia.
        - apply ret_inv in H2. destruct H2 as [_ <-].
          apply Z.ltb_ge in Hi0. split; [exact Hk1|]. split; [intros; lia|].
          rewrite app_nil_r. reflexivity. }
      destruct Hun as (Hk2 & Hnone & Ht2).
      apply bind_ret_inv in Hrun. destruct Hrun as (u3 & s3 & H3 & Hrun).
      destruct (put_frames_spec frames s2) as (s3' & Hr3 & Ht3 & Hp3 & Hk3 & Hn3).
      rewrite Hr3 in H3. assert (s3 = s3') by congruence. subst s3'. clear H3.
      apply bind_ret_inv in Hrun. destruct Hrun as (u4 & s4 & H4 & Hrun).
      apply emit_inv in H4. subst s4.
      apply bind_ret_inv in Hrun. destruct Hrun as (u5 & s5 & H5 & Hrun).
      apply modify_inv in H5. subst s5.
      apply ret_inv in Hrun. destruct Hrun as [<- <-]. cbn.
      split; [congruence|].
      exists ([ev r] ++ (if 0 <? i
                         then [EvUnmapRange kpd base (wrap32 (i * PAGE_SIZE))] else [])
              ++ map EvPutFrame frames ++ [EvKfree HeapFrameList]).
      split; [rewrite Ht3, Ht2, Ht1, <- !List.app_assoc; reflexivity|].
      split.
      { rewrite !frames_allocated_app, frames_allocated_puts.
        destruct (0 <? i); reflexivity. }
      split; [reflexivity|]. split; [reflexivity|]. split.
      { rewrite !frames_released_app, frames_released_puts.
        destruct (0 <? i); cbn; apply app_nil_r. }
      split.
      { intros k Hk. rewrite Hp3. apply Hnone, Hk. }
      intros pd v p fl Hin.
      apply in_app_or in Hin. destruct Hin as [[Hin|[]]|Hin].
      { subst ev. injection Hin as _ _ _ _ Heq. apply Hr. exact Heq. }
      apply in_app_or in Hin. destruct Hin as [Hin|Hin].
      { destruct (0 <? i); [destruct Hin as [Hin|[]]; discriminate | destruct Hin]. }
      apply in_app_or in Hin. destruct Hin as [Hin|[Hin|[]]]; [|discriminate].
      apply in_map_iff in Hin. destruct Hin as (? & Hin & _). discriminate. }
    destruct r.
    + apply IH in H; [|lia|exact Hb|exact Hal|unfold PAGE_SIZE in *; lia].
      destruct H as (Hk2 & evs & Ht2 & Ha2 & Hrest).
      split; [congruence|].
      exists (ev MapOk :: evs). split.
      { rewrite Ht2, Ht1, <- List.app_assoc. reflexivity. }
      split; [exact Ha2|].
      destruct b.
      * destruct Hrest as [Hn2 Hrel]. split; [congruence | exact Hrel].
      * destruct Hrest as (Hn2 & Hrel & j & Hj & Hnone & Hin).
        split; [exact Hn2|]. split; [exact Hrel|].
        exists j. split; [lia|]. rewrite Hk1 in Hnone. split; [exact Hnone|].
        intros pd v p fl [Heq|Hin'].
        -- subst ev. injection Heq as <- <- _ _. split; [reflexivity|].
           exists i. split; [lia|]. apply stack_page_vpn, Hal.
        -- destruct (Hin _ _ _ _ Hin') as (-> & k & Hk & Hv).
           split; [exact Hk1|]. exists k. split; [lia | exact Hv].
    + destruct (Hfail ltac:(discriminate) H)
        as (Hk & evs & Ht & Ha & -> & Hn & Hrel & Hnone & Hno).
      split; [exact Hk|]. exists evs. repeat split; try assumption.
      exists i. split; [lia|]. split; [exact Hnone|].
      intros pd v p fl Hin. exfalso. exact (Hno _ _ _ _ Hin).
    + destruct (Hfail ltac:(discriminate) H)
        as (Hk & evs & Ht & Ha & -> & Hn & Hrel & Hnone & Hno).
      split; [exact Hk|]. exists evs. repeat split; try assumption.
      exists i. split; [lia|]. split; [exact Hnone|].
      intros pd v p fl Hin. exfalso. exact (Hno _ _ _ _ Hin).
    + destruct (Hfail ltac:(discriminate) H)
        as (Hk & evs & Ht & Ha & -> & Hn & Hrel & Hnone & Hno).
      split; [exact Hk|]. exists evs. repeat split; try assumption.
      exists i. split; [lia|]. split; [exact Hnone|].
      intros pd v p fl Hin. exfalso. exact (Hno _ _ _ _ Hin).
Qed.

Lemma kmalloc_spec s ok s' :
  kmalloc s = Ret ok s' ->
  trace s' = trace s ++ [EvKmalloc ok] /\
  ptes s' = ptes s /\
  g_kernel_page_directory_phys s' = g_kernel_page_directory_phys s /\
  g_next_kernel_stack_virt_base s' = g_next_kernel_stack_virt_base s.
Proof. unfold kmalloc. intros H. injection H as <- <-. cbn. auto. Qed.

Lemma no_map_in_allocs pd v p fl r l : ~ In (EvMapSingle pd v p fl r) (map EvFrameAlloc l).
Proof. intros H. apply in_map_iff in H. destruct H as (? & H & _). discriminate. Qed.

Lemma no_map_in_puts pd v p fl r l : ~ In (EvMapSingle pd v p fl r) (map EvPutFrame l).
Proof. intros H. apply in_map_iff in H. destruct H as (? & H & _). discriminate. Qed.

Ltac no_map H :=
  rewrite ?List.in_app_iff in H; cbn [In] in H;
  repeat match type of H with
         | _ \/ _ => destruct H as [H|H]
         end;
  first [ discriminate H
        | exact (no_map_in_allocs _ _ _ _ _ _ H)
        | exact (no_map_in_puts _ _ _ _ _ _ H)
        | contradiction ].

(** The two ways [allocate_kernel_stack] returns.  On success the stack is
    the next [PROCESS_KSTACK_SIZE] bytes of the kernel-stack region and the
    bump pointer is its top; on failure the bump pointer is where it was,
    the frames obtained have been given back and no page mapped by the call
    is left in the directory. *)
Lemma allocate_kernel_stack_spec cfg proc s r proc' s' :
  0 <= PROCESS_KSTACK_SIZE cfg < 2 ^ 32 ->
  0 <= g_next_kernel_stack_virt_base s < 2 ^ 32 ->
  allocate_kernel_stack cfg proc s = Ret (r, proc') s' ->
  g_kernel_page_directory_phys s' = g_kernel_page_directory_phys s /\
  exists evs,
    trace s' = trace s ++ evs /\
    if r then
      kstack_in_region cfg (kernel_stack_vaddr_top proc') /\
      kernel_stack_vaddr_top proc' =
        g_next_kernel_stack_virt_base s + PROCESS_KSTACK_SIZE cfg /\
      g_next_kernel_stack_virt_base s' = kernel_stack_vaddr_top proc' /\
      g_next_kernel_stack_virt_base s mod PAGE_SIZE = 0 /\
      frames_released evs = [] /\
      exists phys_base,
        proc' = set_kernel_stack_vaddr_top (kernel_stack_vaddr_top proc')
                  (set_kernel_stack_phys_base phys_base proc)
    else
      g_next_kernel_stack_virt_base s' = g_next_kernel_stack_virt_base s /\
      frames_allocated evs = frames_released evs /\
      forall pd v p fl, In (EvMapSingle pd v p fl MapOk) evs ->
        ptes s' !! (pd, vpn v) = None.
Proof.
  intros Hsize Hnext H. unfold allocate_kernel_stack in H.
  destruct ((PROCESS_KSTACK_SIZE cfg =? 0)
            || negb (PROCESS_KSTACK_SIZE cfg mod PAGE_SIZE =? 0)) eqn:Hcfg.
  { apply ret_inv in H. destruct H as [H <-]. injection H as <- <-.
    split; [reflexivity|]. exists []. rewrite app_nil_r.
    repeat split. intros ? ? ? ? []. }
  apply orb_false_iff in Hcfg. destruct Hcfg as [Hnz Hmod].
  apply Z.eqb_neq in Hnz. apply negb_false_iff, Z.eqb_eq in Hmod.
  apply bind_ret_inv in H. destruct H as (ok & s1 & H1 & H).
  apply kmalloc_spec in H1. destruct H1 as (Ht1 & Hp1 & Hk1 & Hn1).
  destruct ok; cbn [negb] in H.
  2:{ apply ret_inv in H. destruct H as [H <-]. injection H as <- <-.
      split; [exact Hk1|]. exists [EvKmalloc false].
      repeat split; try assumption.
      intros pd v p fl [Hin|[]]. discriminate. }
  apply bind_ret_inv in H. destruct H as (fr & s2 & H2 & H).
  apply alloc_stack_frames_spec in H2.
  destruct H2 as (Hp2 & Hk2 & Hn2 & new & Hnew & Hfr).
  destruct fr as [phys_frames|].
  2:{ apply ret_inv in H. destruct H as [H <-]. injection H as <- <-.
      split; [congruence|].
      exists ([EvKmalloc true] ++ map EvFrameAlloc new ++ [EvFrameAlloc 0] ++
              map EvPutFrame ([] ++ new) ++ [EvKfree HeapFrameList]).
      split; [rewrite Hfr, Ht1, <- List.app_assoc; reflexivity|].
      split; [congruence|]. split.
      { rewrite !frames_allocated_app, !frames_released_app.
        rewrite frames_allocated_allocs by exact Hnew.
        rewrite frames_released_allocs, frames_allocated_puts, frames_released_puts.
        cbn. rewrite !app_nil_r. reflexivity. }
      intros pd v p fl Hin. exfalso. no_map Hin. }
  destruct Hfr as (Hfr & Hlen & Ht2). cbn [app] in Hfr. subst phys_frames.
  apply bind_ret_inv in H. destruct H as (base & s3 & H3 & H).
  apply gets_inv in H3. destruct H3 as [-> ->].
  set (base := g_next_kernel_stack_virt_base s2) in H.
  assert (Hbase : base = g_next_kernel_stack_virt_base s) by (unfold base; congruence).
  clearbody base.
  destruct ((base <? KERNEL_STACK_VIRT_START)
            || (KERNEL_STACK_VIRT_END <? wrap32 (base + PROCESS_KSTACK_SIZE cfg))
            || (wrap32 (base + PROCESS_KSTACK_SIZE cfg) <=? base)) eqn:Hrange.
  { apply bind_ret_inv in H. destruct H as (u3 & s3 & H3 & H).
    destruct (put_frames_spec new s2) as (s3' & Hr3 & Ht3 & Hp3 & Hk3 & Hn3).
    rewrite Hr3 in H3. assert (s3 = s3') by congruence. subst s3'. clear H3.
    apply bind_ret_inv in H. destruct H as (u4 & s4 & H4 & H).
    apply emit_inv in H4. subst s4.
    apply ret_inv in H. destruct H as [H <-]. injection H as <- <-. cbn.
    split; [congruence|].
    exists ([EvKmalloc true] ++ map EvFrameAlloc new ++ map EvPutFrame new ++
            [EvKfree HeapFrameList]).
    split; [rewrite Ht3, Ht2, Ht1, <- !List.app_assoc; reflexivity|].
    split; [congruence|]. split.
    { rewrite !frames_allocated_app, !frames_released_app.
      rewrite frames_allocated_allocs by exact Hnew.
      rewrite frames_released_allocs, frames_allocated_puts, frames_released_puts.
      cbn. rewrite !app_nil_r. reflexivity. }
    intros pd v p fl Hin. exfalso. no_map Hin. }
  apply orb_false_iff in Hrange. destruct Hrange as [Hrange Hwrap].
  apply orb_false_iff in Hrange. destruct Hrange as [Hlo Hhi].
  apply Z.ltb_ge in Hlo. apply Z.ltb_ge in Hhi. apply Z.leb_gt in Hwrap.
  assert (Hend : wrap32 (base + PROCESS_KSTACK_SIZE cfg) = base + PROCESS_KSTACK_SIZE cfg).
  { destruct (wrap32_cases (base + PROCESS_KSTACK_SIZE cfg)) as [[_ Hc]|[_ Hc]].
    - unfold KERNEL_STACK_VIRT_START in Hlo. rewrite pow32 in *. lia.
    - exact Hc.
    - rewrite Hc in Hwrap. rewrite pow32 in *. lia. }
  rewrite Hend in *.
  apply bind_ret_inv in H. destruct H as (u3 & s3 & H3 & H).
  apply modify_inv in H3. subst s3.
  apply bind_ret_inv in H. destruct H as (u4 & s4 & H4 & H).
  apply assert_inv in H4. destruct H4 as [Hal ->]. apply Z.eqb_eq in Hal.
  apply bind_ret_inv in H. destruct H as (mapped & s5 & H5 & H).
  apply map_stack_pages_spec in H5;
    [|lia | unfold KERNEL_STACK_VIRT_START in Hlo; lia | exact Hal |].
  2:{ cbn [Z.add]. rewrite Z2Nat.id by (apply Z.div_pos; unfold PAGE_SIZE; lia).
      unfold KERNEL_STACK_VIRT_END in Hhi. rewrite pow32.
      pose proof (Z.mul_div_le (PROCESS_KSTACK_SIZE cfg) PAGE_SIZE ltac:(reflexivity)).
      lia. }
  cbn in H5. destruct H5 as (Hk5 & evs & Ht5 & Ha5 & Hrest).
  destruct mapped; cbn [negb] in H.
  - apply bind_ret_inv in H. destruct H as (u6 & s6 & H6 & H).
    apply emit_inv in H6. subst s6.
    apply ret_inv in H. destruct H as [H <-]. injection H as <- <-. cbn.
    destruct Hrest as [Hn5 Hrel].
    split; [congruence|].
    exists ([EvKmalloc true] ++ map EvFrameAlloc new ++ evs ++ [EvKfree HeapFrameList]).
    split; [rewrite Ht5, Ht2, Ht1, <- !List.app_assoc; reflexivity|].
    split.
    { unfold kstack_in_region. cbn. repeat split; try assumption; lia. }
    split; [congruence|]. split; [exact Hn5|]. split; [congruence|]. split.
    { rewrite !frames_released_app, frames_released_allocs, Hrel. reflexivity. }
    exists (nth 0 new 0). reflexivity.
  - apply ret_inv in H. destruct H as [H <-]. injection H as <- <-.
    destruct Hrest as (Hn5 & Hrel & j & Hj & Hnone & Hin).
    split; [congruence|].
    exists ([EvKmalloc true] ++ map EvFrameAlloc new ++ evs).
    split; [rewrite Ht5, Ht2, Ht1, <- !List.app_assoc; reflexivity|].
    split; [congruence|]. split.
    { rewrite !frames_allocated_app, !frames_released_app.
      rewrite frames_allocated_allocs by exact Hnew.
      rewrite frames_released_allocs, Ha5, Hrel. cbn. rewrite app_nil_r. reflexivity. }
    intros pd v p fl Hin'.
    assert (Hin'' : In (EvMapSingle pd v p fl MapOk) evs).
    { rewrite !List.in_app_iff in Hin'. cbn [In] in Hin'.
      destruct Hin' as [[Hin'|[]]|[Hin'|Hin']];
        [discriminate | exfalso; exact (no_map_in_allocs _ _ _ _ _ _ Hin') | exact Hin']. }
    destruct (Hin _ _ _ _ Hin'') as (-> & k & Hk & ->).
    apply Hnone. lia.
Qed.

(** C6: when [allocate_kernel_stack] returns false, every frame it got from
    [frame_alloc] during the call has been passed to [put_frame], every
    page a [paging_map_single_4k] of the call mapped is unmapped again, and
    [g_next_kernel_stack_virt_base] has the value it had on entry. *)
Theorem allocate_kernel_stack_unwinds cfg proc s proc' s' :
  0 <= PROCESS_KSTACK_SIZE cfg < 2 ^ 32 ->
  0 <= g_next_kernel_stack_virt_base s < 2 ^ 32 ->
  allocate_kernel_stack cfg proc s = Ret (false, proc') s' ->
  g_next_kernel_stack_virt_base s' = g_next_kernel_stack_virt_base s /\
  exists evs,
    trace s' = trace s ++ evs /\
    frames_allocated evs = frames_released evs /\
    forall pd v p fl, In (EvMapSingle pd v p fl MapOk) evs ->
      ptes s' !! (pd, vpn v) = None.
Proof.
  intros Hsize Hnext H.
  destruct (allocate_kernel_stack_spec _ _ _ _ _ _ Hsize Hnext H)
    as (_ & evs & Ht & Hn & Hfr & Hmap).
  split; [exact Hn|]. exists evs. auto.
Qed.

Lemma allocate_kernel_stack_unwinds_witness :
  exists proc' s',
    allocate_kernel_stack cfg0 proc0 crowded_state = Ret (false, proc') s' /\
    g_next_kernel_stack_virt_base s' = g_next_kernel_stack_virt_base crowded_state /\
    exists evs,
      trace s' = trace crowded_state ++ evs /\
      frames_allocated evs = frames_released evs /\
      forall pd v p fl, In (EvMapSingle pd v p fl MapOk) evs ->
        ptes s' !! (pd, vpn v) = None.
Proof.
  assert (Hs : kstack_summary (allocate_kernel_stack cfg0 proc0 crowded_state)
               = Some false) by (vm_compute; reflexivity).
  destruct (allocate_kernel_stack cfg0 proc0 crowded_state)
    as [[r proc'] s'| |] eqn:Hrun; try discriminate Hs.
  cbn in Hs. injection Hs as ->. exists proc', s'. split; [reflexivity|].
  apply (allocate_kernel_stack_unwinds cfg0 proc0 crowded_state proc' s').
  - cbn. lia.
  - cbn. lia.
  - exact Hrun.
Defined.

End KstackFacts.
Import KstackFacts.

(** ** Failed process creation *)

Module CreateFacts.

Ltac bind_inv H a s1 H1 :=
  apply bind_ret_inv in H; destruct H as (a & s1 & H1 & H).

Lemma inert_tss_view K :
  inert is_tss K (fun s => (tss_calls (trace s), tss_esp0 s)).
Proof.
  constructor; try reflexivity.
  intros e s He. cbn. rewrite tss_calls_app.
  destruct e; try discriminate He; rewrite app_nil_r; reflexivity.
Qed.

Lemma inert_files K : inert (fun _ => false) K files.
Proof. constructor; reflexivity. Qed.

Lemma put_frame_ptes p s u s' :
  put_frame p s = Ret u s' ->
  ptes s' = ptes s /\
  g_kernel_page_directory_phys s' = g_kernel_page_directory_phys s.
Proof.
  unfold put_frame, put_frame_raw, bind, emit, modify. intros H.
  injection H as _ <-. cbn.
  destruct (frame_refs s !! p) as [[|?]|]; auto.
Qed.

(** After [destroy_process] no page of the kernel stack is mapped. *)
Lemma destroy_process_unmaps cfg pcb s u s' :
  kernel_stack_vaddr_top pcb <> 0 ->
  kstack_in_region cfg (kernel_stack_vaddr_top pcb) ->
  kernel_stack_vaddr_top pcb mod PAGE_SIZE = 0 ->
  destroy_process cfg pcb s = Ret u s' ->
  g_kernel_page_directory_phys s' = g_kernel_page_directory_phys s /\
  forall v,
    kernel_stack_vaddr_top pcb - PROCESS_KSTACK_SIZE cfg <= v
      < kernel_stack_vaddr_top pcb ->
    ptes s' !! (g_kernel_page_directory_phys s, vpn v) = None.
Proof.
  intros Hnz (Hpos & Hmod & Hlo & Hhi) Htop H.
  split.
  { exact (pres_destroy_process (fun _ => false) _ (inert_kpd _) loud_ok_none
             cfg pcb _ _ _ H). }
  unfold destroy_process in H.
  bind_inv H u1 s1 H1.
  assert (Hk1 : g_kernel_page_directory_phys s1 = g_kernel_page_directory_phys s).
  { destruct (mm pcb) as [m|].
    - exact (pres_destroy_mm (fun _ => false) (fun _ => False) _ (inert_kpd _)
               kernel_only_none loud_ok_none m _ _ _ H1).
    - apply ret_inv in H1. destruct H1 as [_ <-]. reflexivity. }
  bind_inv H u2 s2 H2.
  cbn [kernel_stack_vaddr_top set_mm] in H2.
  apply Z.eqb_neq in Hnz. rewrite Hnz in H2. cbn [negb] in H2.
  bind_inv H2 kpd s1' H2a. apply gets_inv in H2a. destruct H2a as [-> ->].
  bind_inv H2 r3 s3 H3.
  assert (Hk3 : g_kernel_page_directory_phys s3 = g_kernel_page_directory_phys s1).
  { refine (preserves_for_pages g_kernel_page_directory_phys _ _ _ _ _ _ _ _ H3).
    intros v.
    exact (pres_release_stack_page (fun _ => false) (fun _ => False) _ (inert_kpd _)
             loud_ok_none _ v). }
  unfold paging_unmap_range in H2.
  bind_inv H2 u4 s4 H4. apply emit_inv in H4. subst s4.
  apply unmap_pages_spec in H2. destruct H2 as (Hnone & _ & _ & _).
  bind_inv H u5 s5 H5.
  assert (Hp5 : ptes s5 = ptes s2).
  { destruct (negb (page_directory_phys (set_mm None pcb) =? 0)).
    - apply put_frame_ptes in H5. apply H5.
    - apply ret_inv in H5. destruct H5 as [_ <-]. reflexivity. }
  apply emit_inv in H. subst s'. cbn [ptes set_trace].
  intros v Hv. rewrite Hp5, <- Hk1.
  set (top := kernel_stack_vaddr_top pcb) in *.
  set (size := PROCESS_KSTACK_SIZE cfg) in *.
  assert (Hbase : wrap32 (top - size) = top - size).
  { apply wrap32_small. rewrite pow32.
    unfold KERNEL_STACK_VIRT_START, KERNEL_STACK_VIRT_END in *. lia. }
  rewrite Hbase in Hnone.
  assert (Hbmod : (top - size) mod PAGE_SIZE = 0).
  { rewrite Zminus_mod, Htop, Hmod. reflexivity. }
  assert (Hsz : size = PAGE_SIZE * (size / PAGE_SIZE)).
  { pose proof (Z.div_mod size PAGE_SIZE ltac:(discriminate)). lia. }
  replace (vpn v) with (vpn (top - size) + (v - (top - size)) / PAGE_SIZE).
  2:{ rewrite !vpn_div.
      pose proof (Z.div_mod (top - size) PAGE_SIZE ltac:(discriminate)) as Hd.
      rewrite Hbmod, Z.add_0_r in Hd.
      replace v with ((v - (top - size)) + ((top - size) / PAGE_SIZE) * PAGE_SIZE)
        at 2 by lia.
      rewrite Z.div_add by discriminate. lia. }
  apply Hnone.
  rewrite page_offset_mod, Hbmod.
  replace (0 + size + PAGE_SIZE - 1) with ((PAGE_SIZE - 1) + (size / PAGE_SIZE) * PAGE_SIZE)
    by lia.
  rewrite Z.div_add by discriminate.
  change ((PAGE_SIZE - 1) / PAGE_SIZE) with 0.
  rewrite Z2Nat.id by (apply Z.div_pos; [lia | reflexivity]).
  split; [apply Z.div_pos; [lia | reflexivity]|].
  cbn [Z.add]. apply Z.div_lt_upper_bound; [reflexivity | lia].
Qed.

(** Steps 2 and 3 of [create_user_process], the allocation and the set-up
    of the page directory, change nothing an inert observation sees. *)
Lemma pd_setup_inert {B} loud (f : kstate -> B) pd t a w s s1 s2 s3 s4 s5 s6 u3 u4 u5 u6 :
  inert loud (fun _ => False) f -> loud_ok loud ->
  frame_alloc s = Ret pd s1 ->
  paging_temp_map pd s1 = Ret t s2 ->
  memset t Byte.x00 (Z.to_nat PAGE_SIZE) s2 = Ret u3 s3 ->
  copy_kernel_pde_entries t s3 = Ret u4 s4 ->
  kstore32 a w s4 = Ret u5 s5 ->
  paging_temp_unmap t s5 = Ret u6 s6 ->
  f s6 = f s.
Proof.
  intros Hf Hloud H1 H2 H3 H4 H5 H6.
  rewrite (pres_temp_unmap _ _ f Hf kernel_only_none Hloud _ _ _ _ H6).
  rewrite (pres_kstore32 _ _ f Hf _ _ _ _ _ H5).
  rewrite (pres_copy_kernel_pde_entries _ _ f Hf Hloud _ _ _ _ H4).
  rewrite (pres_memset _ _ f Hf _ _ _ _ _ _ H3).
  rewrite (pres_temp_map _ _ f Hf kernel_only_none Hloud _ _ _ _ H2).
  exact (pres_frame_alloc _ _ f Hf Hloud _ _ _ H1).
Qed.

Lemma finish_fail_top cfg proc m brk s c s' :
  finish_user_process cfg proc m brk s = Ret (inl c) s' ->
  kernel_stack_vaddr_top (fc_proc c) = kernel_stack_vaddr_top proc.
Proof.
  intros H. unfold finish_user_process in H.
  bind_inv H heap s1 H1. bind_inv H u2 s2 H2. bind_inv H stk s3 H3.
  destruct stk as [m'|].
  2:{ apply ret_inv in H. destruct H as [H _]. injection H as <-. reflexivity. }
  bind_inv H u4 s4 H4. bind_inv H fr s5 H5.
  destruct (fr =? 0).
  { apply ret_inv in H. destruct H as [H _]. injection H as <-. reflexivity. }
  bind_inv H r s6 H6.
  destruct r;
    try (apply ret_inv in H; destruct H as [H _]; injection H as <-; reflexivity).
  bind_inv H p s7 H7. apply ret_inv in H. destruct H as [H _]. discriminate H.
Qed.

(** The two kinds of failure inside [create_user_process]: before the
    kernel stack exists, and after the TSS has been pointed at it. *)
Lemma build_fail_spec cfg path proc s c s1 :
  0 <= PROCESS_KSTACK_SIZE cfg < 2 ^ 32 ->
  0 <= g_next_kernel_stack_virt_base s < 2 ^ 32 ->
  build_user_process cfg path proc s = Ret (inl c) s1 ->
  (tss_calls (trace s1) = tss_calls (trace s) /\
   tss_esp0 s1 = tss_esp0 s /\
   read_calls (trace s1) = read_calls (trace s)) \/
  (exists top,
     kernel_stack_vaddr_top (fc_proc c) = top /\
     kstack_in_region cfg top /\
     top mod PAGE_SIZE = 0 /\
     tss_calls (trace s1) = tss_calls (trace s) ++ [top] /\
     tss_esp0 s1 = top).
Proof.
  intros Hsize Hnext H. unfold build_user_process in H.
  bind_inv H pd s2 H2.
  assert (Hearly : forall s',
            (tss_calls (trace s'), tss_esp0 s') = (tss_calls (trace s), tss_esp0 s) ->
            read_calls (trace s') = read_calls (trace s) ->
            tss_calls (trace s') = tss_calls (trace s) /\
            tss_esp0 s' = tss_esp0 s /\
            read_calls (trace s') = read_calls (trace s)).
  { intros s' H1 Hr. injection H1 as Ha Hb. auto. }
  destruct (pd =? 0).
  { apply ret_inv in H. destruct H as [_ <-]. left. apply Hearly.
    - exact (pres_frame_alloc _ _ _ (inert_tss_view (fun _ => False)) loud_ok_tss
               _ _ _ H2).
    - exact (pres_frame_alloc _ _ _ (inert_read_calls (fun _ => False)) loud_ok_read
               _ _ _ H2). }
  bind_inv H t s3 H3.
  destruct (t =? 0).
  { apply ret_inv in H. destruct H as [_ <-]. left. apply Hearly.
    - rewrite (pres_temp_map _ _ _ (inert_tss_view _) kernel_only_none loud_ok_tss
                 _ _ _ _ H3).
      exact (pres_frame_alloc _ _ _ (inert_tss_view (fun _ => False)) loud_ok_tss
               _ _ _ H2).
    - rewrite (pres_temp_map _ _ _ (inert_read_calls _) kernel_only_none loud_ok_read
                 _ _ _ _ H3).
      exact (pres_frame_alloc _ _ _ (inert_read_calls (fun _ => False)) loud_ok_read
               _ _ _ H2). }
  bind_inv H u4 s4 H4. bind_inv H u5 s5 H5. bind_inv H u6 s6 H6. bind_inv H u7 s7 H7.
  pose proof (pd_setup_inert _ _ _ _ _ _ _ _ _ _ _ _ _ _ _ _ _
                (inert_tss_view _) loud_ok_tss H2 H3 H4 H5 H6 H7) as Hv7.
  pose proof (pd_setup_inert _ _ _ _ _ _ _ _ _ _ _ _ _ _ _ _ _
                (inert_read_calls _) loud_ok_read H2 H3 H4 H5 H6 H7) as Hr7.
  pose proof (pd_setup_inert _ _ _ _ _ _ _ _ _ _ _ _ _ _ _ _ _
                (inert_next_kstack _) loud_ok_none H2 H3 H4 H5 H6 H7) as Hn7.
  cbn beta in Hv7, Hr7, Hn7.
  bind_inv H res s8 H8. destruct res as [ok proc2].
  destruct ok; cbn [negb] in H.
  2:{ apply ret_inv in H. destruct H as [_ <-]. left. apply Hearly.
      - rewrite <- Hv7.
        exact (pres_allocate_kernel_stack _ _ (inert_tss_view _) loud_ok_tss cfg
                 (fun _ _ => eq_refl) _ _ _ _ H8).
      - rewrite <- Hr7.
        exact (pres_allocate_kernel_stack _ _ (inert_read_calls _) loud_ok_read cfg
                 (fun _ _ => eq_refl) _ _ _ _ H8). }
  right.
  pose proof (pres_allocate_kernel_stack _ _ (inert_tss_view _) loud_ok_tss cfg
                (fun _ _ => eq_refl) _ _ _ _ H8) as Hv8.
  cbn beta in Hv8. rewrite Hv7 in Hv8. injection Hv8 as Hc8 _.
  rewrite <- Hn7 in Hnext.
  destruct (allocate_kernel_stack_spec _ _ _ _ _ _ Hsize Hnext H8)
    as (_ & evs & _ & Hreg & Htop & _ & Hal & _).
  set (top := kernel_stack_vaddr_top proc2) in *.
  exists top.
  assert (Htmod : top mod PAGE_SIZE = 0).
  { destruct Hreg as (_ & Hmod & _). rewrite Htop, Zplus_mod, Hal, Hmod. reflexivity. }
  bind_inv H u9 s9 H9.
  assert (Hv9 : tss_calls (trace s9) = tss_calls (trace s) ++ [top] /\ tss_esp0 s9 = top).
  { unfold tss_set_kernel_stack, bind, emit, modify in H9. injection H9 as _ <-.
    cbn. rewrite tss_calls_app, Hc8. auto. }
  assert (Hkeep : forall s',
            (tss_calls (trace s'), tss_esp0 s') = (tss_calls (trace s9), tss_esp0 s9) ->
            kstack_in_region cfg top /\ top mod PAGE_SIZE = 0 /\
            tss_calls (trace s') = tss_calls (trace s) ++ [top] /\ tss_esp0 s' = top).
  { intros s' Heq. injection Heq as Ha Hb. destruct Hv9 as [Hc Hd].
    rewrite Ha, Hb. auto. }
  bind_inv H cm s10 H10.
  pose proof (pres_create_mm _ _ _ (inert_tss_view (fun _ => False)) loud_ok_tss
                _ _ _ _ H10) as Hv10. cbn beta in Hv10.
  destruct cm as [m|].
  2:{ apply ret_inv in H. destruct H as [H <-]. injection H as <-.
      cbn [fc_proc]. split; [reflexivity | apply Hkeep, Hv10]. }
  bind_inv H loaded s11 H11. destruct loaded as [[[res m'] entry] brk].
  pose proof (pres_load_elf _ _ _ (inert_tss_view _) kernel_only_none loud_ok_tss
                _ _ _ _ (fun _ => eq_refl) (fun _ => eq_refl) _ _ _ H11) as Hv11.
  cbn beta in Hv11. rewrite Hv10 in Hv11.
  destruct (negb (res =? 0)).
  { apply ret_inv in H. destruct H as [H <-]. injection H as <-.
    cbn [fc_proc]. split; [reflexivity | apply Hkeep, Hv11]. }
  pose proof (pres_finish_user_process _ _ _ (inert_tss_view _) kernel_only_none
                loud_ok_tss _ _ _ _ _ _ _ H) as Hv12.
  cbn beta in Hv12. rewrite Hv11 in Hv12.
  apply finish_fail_top in H. cbn in H.
  split; [exact H | apply Hkeep, Hv12].
Qed.

(** A failed call either never got as far as the TSS update (it has then
    not read the file either), or it leaves [esp0] at the top of the kernel
    stack it allocated, of which [destroy_process] has unmapped every
    page. *)
Lemma create_failure_cases cfg path s s' :
  0 <= PROCESS_KSTACK_SIZE cfg < 2 ^ 32 ->
  0 <= g_next_kernel_stack_virt_base s < 2 ^ 32 ->
  create_user_process cfg path s = Ret None s' ->
  (tss_calls (trace s') = tss_calls (trace s) /\
   tss_esp0 s' = tss_esp0 s /\
   read_calls (trace s') = read_calls (trace s)) \/
  (exists top,
     tss_calls (trace s') = tss_calls (trace s) ++ [top] /\
     tss_esp0 s' = top /\
     kstack_in_region cfg top /\
     forall v, top - PROCESS_KSTACK_SIZE cfg <= v < top ->
               ptes s' !! (g_kernel_page_directory_phys s', vpn v) = None).
Proof.
  intros Hsize Hnext H. unfold create_user_process in H.
  bind_inv H ok s1 H1.
  pose proof (pres_kmalloc _ _ _ (inert_tss_view (fun _ => False)) loud_ok_tss
                _ _ _ H1) as Hv1.
  pose proof (pres_kmalloc _ _ _ (inert_read_calls (fun _ => False)) loud_ok_read
                _ _ _ H1) as Hr1.
  pose proof (pres_kmalloc _ _ _ (inert_next_kstack (fun _ => False)) loud_ok_none
                _ _ _ H1) as Hn1.
  cbn beta in Hv1, Hr1, Hn1. injection Hv1 as Hc1 He1.
  destruct ok; cbn [negb] in H.
  2:{ apply ret_inv in H. destruct H as [_ <-]. left. auto. }
  bind_inv H pid0 s2 H2. apply gets_inv in H2. destruct H2 as [-> ->].
  bind_inv H u3 s3 H3. apply modify_inv in H3. subst s3.
  bind_inv H r s4 H4.
  destruct r as [c|proc].
  2:{ apply ret_inv in H. destruct H as [H _]. discriminate H. }
  bind_inv H u5 s5 H5. apply ret_inv in H. destruct H as [_ <-].
  pose proof (pres_fail_create _ _ (inert_tss_view _) loud_ok_tss cfg _ _ _ _ H5)
    as Hv5.
  pose proof (pres_fail_create _ _ (inert_read_calls _) loud_ok_read cfg _ _ _ _ H5)
    as Hr5.
  cbn beta in Hv5, Hr5. injection Hv5 as Hc5 He5.
  apply build_fail_spec in H4; [|exact Hsize | cbn; rewrite Hn1; exact Hnext].
  cbn [trace tss_esp0 set_next_pid] in H4.
  destruct H4 as [(Hc4 & He4 & Hr4)|(top & Htop & Hreg & Htmod & Hc4 & He4)].
  - left. repeat split; congruence.
  - right. exists top. split; [congruence|]. split; [congruence|].
    split; [exact Hreg|].
    unfold fail_create in H5.
    bind_inv H5 u6 s6 H6. bind_inv H5 u7 s7 H7.
    assert (Hnz : kernel_stack_vaddr_top (fc_proc c) <> 0).
    { rewrite Htop. destruct Hreg as (Hpos & _ & Hlo & _).
      unfold KERNEL_STACK_VIRT_START in Hlo. lia. }
    rewrite <- Htop in Hreg, Htmod.
    destruct (destroy_process_unmaps _ _ _ _ _ Hnz Hreg Htmod H5) as (Hk & Hnone).
    rewrite Hk. rewrite Htop in Hnone. exact Hnone.
Qed.

End CreateFacts.
Import CreateFacts.

(** ** The initial kernel stack *)

Module IretFacts.

Ltac bind_inv H a s1 H1 :=
  apply bind_ret_inv in H; destruct H as (a & s1 & H1 & H).

(** A 32-bit word is the little-endian value of its four bytes. *)
Lemma word_bytes w :
  0 <= w < 2 ^ 32 ->
  b2z (z2b w) + 2 ^ 8 * b2z (z2b (Z.shiftr w 8)) +
  2 ^ 16 * b2z (z2b (Z.shiftr w 16)) + 2 ^ 24 * b2z (z2b (Z.shiftr w 24)) = w.
Proof.
  intros Hw. rewrite !b2z_z2b, !Z.shiftr_div_pow2 by lia.
  rewrite pow32 in Hw.
  change (2 ^ 8) with 256. change (2 ^ 16) with (256 * 256).
  change (2 ^ 24) with (256 * 256 * 256).
  rewrite <- !Z.div_div by lia.
  pose proof (Z.div_mod w 256 ltac:(lia)).
  pose proof (Z.div_mod (w / 256) 256 ltac:(lia)).
  pose proof (Z.div_mod (w / 256 / 256) 256 ltac:(lia)).
  assert (0 <= w / 256 / 256 / 256 < 256).
  { split; [repeat apply Z.div_pos; lia|].
    repeat (apply Z.div_lt_upper_bound; [lia|]). lia. }
  rewrite (Z.mod_small (w / 256 / 256 / 256) 256) by lia.
  lia.
Qed.

Lemma kstore8_window lo hi d v b s u s' :
  window lo hi d s -> lo <= v < hi ->
  kstore8 v b s = Ret u s' ->
  window lo hi d s' /\
  kload8 s' v = Some b /\
  forall v', lo <= v' < hi -> v' <> v -> kload8 s' v' = kload8 s v'.
Proof.
  intros Hw Hv H. unfold kstore8 in H. rewrite (Hw v Hv) in H.
  inversion H; subst s'; clear H. split; [|split].
  - intros v' Hv'. exact (Hw v' Hv').
  - unfold kload8. change (translate (set_phys _ s) _ v) with
      (translate s (g_kernel_page_directory_phys s) v).
    rewrite (Hw v Hv). cbn. rewrite Z.eqb_refl. reflexivity.
  - intros v' Hv' Hne. unfold kload8.
    change (translate (set_phys _ s) _ v') with
      (translate s (g_kernel_page_directory_phys s) v').
    rewrite (Hw v' Hv'). cbn.
    destruct (Z.eqb_spec (v' + d) (v + d)); [lia | reflexivity].
Qed.

Lemma kstore32_window lo hi d v w s u s' :
  window lo hi d s -> 0 <= lo -> hi <= 2 ^ 32 -> lo <= v -> v + 4 <= hi ->
  0 <= w < 2 ^ 32 ->
  kstore32 v w s = Ret u s' ->
  window lo hi d s' /\
  kload32 s' v = Some w /\
  forall v', lo <= v' -> v' + 4 <= hi -> v' + 4 <= v \/ v + 4 <= v' ->
             kload32 s' v' = kload32 s v'.
Proof.
  intros Hw Hlo Hhi Hv Hv4 Hrng H. unfold kstore32 in H.
  rewrite !wrap32_small in H by lia.
  bind_inv H u0 s0 H0. bind_inv H u1 s1 H1. bind_inv H u2 s2 H2.
  apply (kstore8_window lo hi d) in H0; [|exact Hw | lia]. destruct H0 as (Hw0 & Hl0 & Ho0).
  apply (kstore8_window lo hi d) in H1; [|exact Hw0 | lia]. destruct H1 as (Hw1 & Hl1 & Ho1).
  apply (kstore8_window lo hi d) in H2; [|exact Hw1 | lia]. destruct H2 as (Hw2 & Hl2 & Ho2).
  apply (kstore8_window lo hi d) in H; [|exact Hw2 | lia]. destruct H as (Hw3 & Hl3 & Ho3).
  split; [exact Hw3|]. split.
  - unfold kload32. rewrite !wrap32_small by lia.
    rewrite Hl3.
    rewrite (Ho3 (v + 2)), Hl2 by lia.
    rewrite (Ho3 (v + 1)), (Ho2 (v + 1)), Hl1 by lia.
    rewrite (Ho3 v), (Ho2 v), (Ho1 v), Hl0 by lia.
    rewrite word_bytes by exact Hrng. reflexivity.
  - intros v' Hv' Hv'4 Hdis. unfold kload32. rewrite !wrap32_small by lia.
    rewrite (Ho3 v'), (Ho2 v'), (Ho1 v'), (Ho0 v') by lia.
    rewrite (Ho3 (v' + 1)), (Ho2 (v' + 1)), (Ho1 (v' + 1)), (Ho0 (v' + 1)) by lia.
    rewrite (Ho3 (v' + 2)), (Ho2 (v' + 2)), (Ho1 (v' + 2)), (Ho0 (v' + 2)) by lia.
    rewrite (Ho3 (v' + 3)), (Ho2 (v' + 3)), (Ho1 (v' + 3)), (Ho0 (v' + 3)) by lia.
    reflexivity.
Qed.

Lemma lor3_range a : 0 <= a < 2 ^ 32 -> 0 <= Z.lor a 3 < 2 ^ 32.
Proof.
  intros Ha. split; [apply Z.lor_nonneg; lia|].
  assert (Hpos : 0 < Z.lor a 3).
  { assert (Hne : Z.lor a 3 <> 0).
    { intros H0. apply Z.lor_eq_0_iff in H0. destruct H0 as [_ H0]. discriminate H0. }
    assert (0 <= Z.lor a 3) by (apply Z.lor_nonneg; lia). lia. }
  apply Z.log2_lt_pow2; [exact Hpos|].
  rewrite Z.log2_lor by lia.
  apply Z.max_lub_lt; [|reflexivity].
  destruct (Z.eq_dec a 0) as [->|Hne]; [reflexivity|].
  apply Z.log2_lt_pow2; lia.
Qed.

(** A store that succeeds somewhere in the page below a page-aligned [top]
    shows the whole page mapped, to one frame. *)
Lemma page_window top v0 b s u s1 :
  top mod PAGE_SIZE = 0 -> top - PAGE_SIZE <= v0 < top ->
  kstore8 v0 b s = Ret u s1 ->
  exists d, window (top - PAGE_SIZE) top d s.
Proof.
  intros Htop Hv0 H. unfold kstore8, translate in H.
  assert (Hq : forall v, top - PAGE_SIZE <= v < top ->
                 vpn v = top / PAGE_SIZE - 1 /\ PAGE_OFFSET v = v - (top - PAGE_SIZE)).
  { intros v Hv. rewrite vpn_div, page_offset_mod.
    pose proof (Z.div_mod top PAGE_SIZE ltac:(discriminate)) as Hd.
    rewrite Htop, Z.add_0_r in Hd.
    assert (Hv' : v = (top / PAGE_SIZE - 1) * PAGE_SIZE + (v - (top - PAGE_SIZE)))
      by lia.
    split.
    - symmetry. apply (Z.div_unique_pos v PAGE_SIZE _ (v - (top - PAGE_SIZE))); lia.
    - symmetry. apply (Z.mod_unique_pos v PAGE_SIZE (top / PAGE_SIZE - 1)); lia. }
  destruct (Hq v0 Hv0) as [Hvpn0 _]. rewrite Hvpn0 in H.
  destruct (ptes s !! (g_kernel_page_directory_phys s, top / PAGE_SIZE - 1))
    as [pte|] eqn:Hpte; [|discriminate H].
  destruct (pte_present pte) eqn:Hpres; [|discriminate H].
  exists (pte_frame pte - (top - PAGE_SIZE)).
  intros v Hv. unfold translate. destruct (Hq v Hv) as [-> ->].
  rewrite Hpte, Hpres. f_equal. lia.
Qed.

(** [prepare_initial_kernel_stack] in isolation: the five words it pushes,
    read back in ascending order, and the stack pointer it records. *)
Lemma prepare_initial_kernel_stack_spec cfg proc s proc' s' :
  kernel_stack_vaddr_top proc mod PAGE_SIZE = 0 ->
  PAGE_SIZE <= kernel_stack_vaddr_top proc <= 2 ^ 32 ->
  0 <= entry_point proc < 2 ^ 32 ->
  0 <= user_stack_top proc < 2 ^ 32 ->
  0 <= GDT_USER_CODE_SELECTOR cfg < 2 ^ 32 ->
  0 <= GDT_USER_DATA_SELECTOR cfg < 2 ^ 32 ->
  prepare_initial_kernel_stack cfg proc s = Ret proc' s' ->
  proc' = set_kernel_esp_for_switch (kernel_stack_vaddr_top proc - 20) proc /\
  stack_words s' (kernel_stack_vaddr_top proc - 20) 5 =
    [Some (entry_point proc); Some (Z.lor (GDT_USER_CODE_SELECTOR cfg) 3);
     Some USER_EFLAGS_DEFAULT; Some (user_stack_top proc);
     Some (Z.lor (GDT_USER_DATA_SELECTOR cfg) 3)].
Proof.
  intros Hmod Htop He Hu Hcs Hds H.
  set (top := kernel_stack_vaddr_top proc) in *.
  unfold prepare_initial_kernel_stack in H. fold top in H.
  bind_inv H a1 t1 A1. apply assert_inv in A1. destruct A1 as [_ ->].
  bind_inv H a2 t2 A2. apply assert_inv in A2. destruct A2 as [_ ->].
  bind_inv H a3 t3 A3. apply assert_inv in A3. destruct A3 as [_ ->].
  unfold push32 in H.
  pose proof (lor3_range _ Hcs) as Hcs3. pose proof (lor3_range _ Hds) as Hds3.
  rewrite pow32 in *. unfold PAGE_SIZE in Htop.
  assert (Hw1 : wrap32 (top - 4) = top - 4) by (apply wrap32_small; rewrite pow32; lia).
  assert (Hw2 : wrap32 (top - 4 - 4) = top - 8)
    by (rewrite wrap32_small by (rewrite pow32; lia); lia).
  assert (Hw3 : wrap32 (top - 8 - 4) = top - 12)
    by (rewrite wrap32_small by (rewrite pow32; lia); lia).
  assert (Hw4 : wrap32 (top - 12 - 4) = top - 16)
    by (rewrite wrap32_small by (rewrite pow32; lia); lia).
  assert (Hw5 : wrap32 (top - 16 - 4) = top - 20)
    by (rewrite wrap32_small by (rewrite pow32; lia); lia).
  rewrite Hw1 in H.
  bind_inv H p1 s1 H1. bind_inv H1 u1 s1' K1. apply ret_inv in H1.
  destruct H1 as [<- <-]. rewrite Hw2 in H.
  bind_inv H p2 s2 H2. bind_inv H2 u2 s2' K2. apply ret_inv in H2.
  destruct H2 as [<- <-]. rewrite Hw3 in H.
  bind_inv H p3 s3 H3. bind_inv H3 u3 s3' K3. apply ret_inv in H3.
  destruct H3 as [<- <-]. rewrite Hw4 in H.
  bind_inv H p4 s4 H4. bind_inv H4 u4 s4' K4. apply ret_inv in H4.
  destruct H4 as [<- <-]. rewrite Hw5 in H.
  bind_inv H p5 s5 H5. bind_inv H5 u5 s5' K5. apply ret_inv in H5.
  destruct H5 as [<- <-].
  apply ret_inv in H. destruct H as [<- <-].
  split; [reflexivity|].
  rewrite !wrap32_small in K1, K2, K3, K4, K5
    by (rewrite pow32; first [assumption | unfold USER_EFLAGS_DEFAULT; lia]).
  assert (Hwin : exists d, window (top - PAGE_SIZE) top d s).
  { pose proof K1 as K. unfold kstore32 in K. bind_inv K u0 s0 K0.
    apply (page_window top) in K0; [exact K0 | exact Hmod | unfold PAGE_SIZE; lia]. }
  destruct Hwin as [d Hwin].
  assert (Hlo : 0 <= top - PAGE_SIZE) by (unfold PAGE_SIZE; lia).
  assert (Hhi : top <= 2 ^ 32) by (rewrite pow32; lia).
  apply (kstore32_window _ _ _ _ _ _ _ _ Hwin Hlo Hhi) in K1;
    [|unfold PAGE_SIZE; lia | lia | rewrite pow32; lia].
  destruct K1 as (Hwin1 & L1 & _).
  apply (kstore32_window _ _ _ _ _ _ _ _ Hwin1 Hlo Hhi) in K2;
    [|unfold PAGE_SIZE; lia | lia | rewrite pow32; lia].
  destruct K2 as (Hwin2 & L2 & O2).
  apply (kstore32_window _ _ _ _ _ _ _ _ Hwin2 Hlo Hhi) in K3;
    [|unfold PAGE_SIZE; lia | lia | rewrite pow32; unfold USER_EFLAGS_DEFAULT; lia].
  destruct K3 as (Hwin3 & L3 & O3).
  apply (kstore32_window _ _ _ _ _ _ _ _ Hwin3 Hlo Hhi) in K4;
    [|unfold PAGE_SIZE; lia | lia | rewrite pow32; lia].
  destruct K4 as (Hwin4 & L4 & O4).
  apply (kstore32_window _ _ _ _ _ _ _ _ Hwin4 Hlo Hhi) in K5;
    [|unfold PAGE_SIZE; lia | lia | rewrite pow32; lia].
  destruct K5 as (Hwin5 & L5 & O5).
  unfold stack_words. cbn [map seq].
  replace (top - 20 + 4 * Z.of_nat 0) with (top - 20) by lia.
  replace (top - 20 + 4 * Z.of_nat 1) with (top - 16) by lia.
  replace (top - 20 + 4 * Z.of_nat 2) with (top - 12) by lia.
  replace (top - 20 + 4 * Z.of_nat 3) with (top - 8) by lia.
  replace (top - 20 + 4 * Z.of_nat 4) with (top - 4) by lia.
  rewrite L5.
  rewrite (O5 (top - 16)), L4 by (unfold PAGE_SIZE; lia).
  rewrite (O5 (top - 12)), (O4 (top - 12)), L3 by (unfold PAGE_SIZE; lia).
  rewrite (O5 (top - 8)), (O4 (top - 8)), (O3 (top - 8)), L2 by (unfold PAGE_SIZE; lia).
  rewrite (O5 (top - 4)), (O4 (top - 4)), (O3 (top - 4)), (O2 (top - 4)), L1
    by (unfold PAGE_SIZE; lia).
  reflexivity.
Qed.

Lemma finish_success_inv cfg proc m brk s pcb s' :
  finish_user_process cfg proc m brk s = Ret (inr pcb) s' ->
  exists proc9 s9,
    prepare_initial_kernel_stack cfg proc9 s9 = Ret pcb s' /\
    kernel_stack_vaddr_top proc9 = kernel_stack_vaddr_top proc /\
    page_directory_phys proc9 = page_directory_phys proc /\
    entry_point proc9 = entry_point proc /\
    user_stack_top proc9 = USER_STACK_TOP_VIRT_ADDR cfg /\
    USER_STACK_TOP_VIRT_ADDR cfg <= KERNEL_VIRT_BASE.
Proof.
  intros H. unfold finish_user_process in H.
  bind_inv H heap s1 H1. bind_inv H u2 s2 H2.
  apply assert_inv in H2. destruct H2 as [Hchk ->].
  apply andb_true_iff in Hchk. destruct Hchk as [Hchk _].
  apply andb_true_iff in Hchk. destruct Hchk as [Hchk _].
  apply andb_true_iff in Hchk. destruct Hchk as [_ Hle]. apply Z.leb_le in Hle.
  bind_inv H stk s3 H3.
  destruct stk as [m'|].
  2:{ apply ret_inv in H. destruct H as [H _]. discriminate H. }
  bind_inv H u4 s4 H4. bind_inv H fr s5 H5.
  destruct (fr =? 0).
  { apply ret_inv in H. destruct H as [H _]. discriminate H. }
  bind_inv H r s6 H6.
  destruct r; try (apply ret_inv in H; destruct H as [H _]; discriminate H).
  bind_inv H p s7 H7. apply ret_inv in H. destruct H as [H <-].
  injection H as <-.
  eexists _, _. split; [exact H7|]. cbn. auto.
Qed.

Lemma tss_set_files top s u s' :
  tss_set_kernel_stack top s = Ret u s' ->
  files s' = files s /\
  g_kernel_page_directory_phys s' = g_kernel_page_directory_phys s.
Proof.
  unfold tss_set_kernel_stack, bind, emit, modify. intros H.
  inversion H; subst. auto.
Qed.

(** The last step of a successful [create_user_process]. *)
Lemma create_success_inv cfg path s f pcb s' :
  0 <= PROCESS_KSTACK_SIZE cfg < 2 ^ 32 ->
  0 <= g_next_kernel_stack_virt_base s < 2 ^ 32 ->
  files s !! path = Some f ->
  create_user_process cfg path s = Ret (Some pcb) s' ->
  exists proc9 s9,
    prepare_initial_kernel_stack cfg proc9 s9 = Ret pcb s' /\
    kstack_in_region cfg (kernel_stack_vaddr_top proc9) /\
    kernel_stack_vaddr_top proc9 mod PAGE_SIZE = 0 /\
    entry_point proc9 = e_entry f /\
    user_stack_top proc9 = USER_STACK_TOP_VIRT_ADDR cfg /\
    USER_STACK_TOP_VIRT_ADDR cfg <= KERNEL_VIRT_BASE.
Proof.
  intros Hsize Hnext Hfile H. unfold create_user_process in H.
  bind_inv H ok s1 H1.
  pose proof (pres_kmalloc _ _ _ (inert_files (fun _ => False)) loud_ok_none
                _ _ _ H1) as Hf1.
  pose proof (pres_kmalloc _ _ _ (inert_next_kstack (fun _ => False)) loud_ok_none
                _ _ _ H1) as Hn1.
  destruct ok; cbn [negb] in H.
  2:{ apply ret_inv in H. destruct H as [H _]. discriminate H. }
  bind_inv H pid0 s2 H2. apply gets_inv in H2. destruct H2 as [-> ->].
  bind_inv H u3 s3 H3. apply modify_inv in H3. subst s3.
  bind_inv H r s4 H4.
  destruct r as [c|proc].
  { bind_inv H u5 s5 H5. apply ret_inv in H. destruct H as [H _]. discriminate H. }
  apply ret_inv in H. destruct H as [H <-]. injection H as ->.
  unfold build_user_process in H4.
  bind_inv H4 pd t2 K2.
  destruct (pd =? 0).
  { apply ret_inv in H4. destruct H4 as [H4 _]. discriminate H4. }
  bind_inv H4 t t3 K3.
  destruct (t =? 0).
  { apply ret_inv in H4. destruct H4 as [H4 _]. discriminate H4. }
  bind_inv H4 u4 t4 K4. bind_inv H4 u5 t5 K5. bind_inv H4 u6 t6 K6.
  bind_inv H4 u7 t7 K7.
  pose proof (pd_setup_inert _ _ _ _ _ _ _ _ _ _ _ _ _ _ _ _ _
                (inert_files _) loud_ok_none K2 K3 K4 K5 K6 K7) as Hf7.
  pose proof (pd_setup_inert _ _ _ _ _ _ _ _ _ _ _ _ _ _ _ _ _
                (inert_next_kstack _) loud_ok_none K2 K3 K4 K5 K6 K7) as Hn7.
  cbn in Hf7, Hn7.
  bind_inv H4 res t8 K8. destruct res as [ok proc2].
  destruct ok; cbn [negb] in H4.
  2:{ apply ret_inv in H4. destruct H4 as [H4 _]. discriminate H4. }
  pose proof (pres_allocate_kernel_stack _ _ (inert_files _) loud_ok_none cfg
                (fun _ _ => eq_refl) _ _ _ _ K8) as Hf8.
  cbn beta in Hf8.
  assert (Hnext7 : 0 <= g_next_kernel_stack_virt_base t7 < 2 ^ 32)
    by (rewrite Hn7, Hn1; exact Hnext).
  destruct (allocate_kernel_stack_spec _ _ _ _ _ _ Hsize Hnext7 K8)
    as (_ & evs & _ & Hreg & Htop & _ & Hal & _).
  assert (Htmod : kernel_stack_vaddr_top proc2 mod PAGE_SIZE = 0).
  { destruct Hreg as (_ & Hmod & _). rewrite Htop, Zplus_mod, Hal, Hmod. reflexivity. }
  bind_inv H4 u9 t9 K9. apply tss_set_files in K9. destruct K9 as [Hf9 _].
  bind_inv H4 cm t10 K10.
  pose proof (pres_create_mm _ _ _ (inert_files (fun _ => False)) loud_ok_none
                _ _ _ _ K10) as Hf10.
  destruct cm as [m|].
  2:{ apply ret_inv in H4. destruct H4 as [H4 _]. discriminate H4. }
  bind_inv H4 loaded t11 K11. destruct loaded as [[[res m'] entry] brk].
  destruct (res =? 0) eqn:Hres; cbn [negb] in H4.
  2:{ apply ret_inv in H4. destruct H4 as [H4 _]. discriminate H4. }
  apply Z.eqb_eq in Hres. subst res.
  apply load_elf_success in K11.
  destruct K11 as (f' & _ & _ & _ & Hf' & _ & _ & _ & _ & _ & Hentry & _).
  assert (f' = f).
  { rewrite Hf10, Hf9, Hf8, Hf7, Hf1, Hfile in Hf'. congruence. }
  subst f'.
  apply finish_success_inv in H4.
  destruct H4 as (proc9 & s9 & Hprep & Ht9 & _ & He9 & Hu9 & Hle).
  exists proc9, s9. cbn in Ht9, He9.
  split; [exact Hprep|]. rewrite Ht9, He9. auto.
Qed.

(** C1: after a successful [create_user_process] the five words at
    [kernel_esp_for_switch], in ascending order of address, are the entry
    point of the ELF file, the user code selector with RPL 3, EFLAGS 0x202,
    the top of the user stack and the user data selector with RPL 3; and
    [kernel_esp_for_switch] is 20 bytes below the top of the kernel
    stack. *)
Theorem create_user_process_iret_frame cfg path s f pcb s' :
  0 <= PROCESS_KSTACK_SIZE cfg < 2 ^ 32 ->
  0 <= USER_STACK_TOP_VIRT_ADDR cfg ->
  0 <= GDT_USER_CODE_SELECTOR cfg < 2 ^ 32 ->
  0 <= GDT_USER_DATA_SELECTOR cfg < 2 ^ 32 ->
  0 <= g_next_kernel_stack_virt_base s < 2 ^ 32 ->
  files s !! path = Some f ->
  create_user_process cfg path s = Ret (Some pcb) s' ->
  kernel_esp_for_switch pcb = kernel_stack_vaddr_top pcb - 20 /\
  stack_words s' (kernel_esp_for_switch pcb) 5 =
    [Some (e_entry f); Some (Z.lor (GDT_USER_CODE_SELECTOR cfg) 3); Some 0x202;
     Some (USER_STACK_TOP_VIRT_ADDR cfg); Some (Z.lor (GDT_USER_DATA_SELECTOR cfg) 3)].
Proof.
  intros Hsize Hust Hcs Hds Hnext Hfile H.
  destruct (create_success_inv _ _ _ _ _ _ Hsize Hnext Hfile H)
    as (proc9 & s9 & Hprep & Hreg & Htmod & He & Hu & Hle).
  apply prepare_initial_kernel_stack_spec in Hprep;
    [| exact Htmod | | rewrite He; apply u32_range | | exact Hcs | exact Hds].
  - destruct Hprep as [-> Hwords].
    cbn [kernel_esp_for_switch set_kernel_esp_for_switch kernel_stack_vaddr_top].
    rewrite Hwords, He, Hu. split; reflexivity.
  - destruct Hreg as (Hpos & _ & Hlo & Hhi).
    unfold KERNEL_STACK_VIRT_START, KERNEL_STACK_VIRT_END, PAGE_SIZE in *.
    rewrite pow32. lia.
  - rewrite Hu. unfold KERNEL_VIRT_BASE in Hle. rewrite pow32. lia.
Qed.

Lemma create_user_process_iret_frame_witness :
  exists s',
    create_user_process cfg0 "/kernel.bin" (boot_state scenario_elf)
      = Ret (Some demo_pcb) s' /\
    (kernel_esp_for_switch demo_pcb = kernel_stack_vaddr_top demo_pcb - 20 /\
     stack_words s' (kernel_esp_for_switch demo_pcb) 5 =
       [Some (e_entry scenario_elf); Some (Z.lor (GDT_USER_CODE_SELECTOR cfg0) 3);
        Some 0x202; Some (USER_STACK_TOP_VIRT_ADDR cfg0);
        Some (Z.lor (GDT_USER_DATA_SELECTOR cfg0) 3)]).
Proof.
  assert (Hv : outcome_value
                 (create_user_process cfg0 "/kernel.bin" (boot_state scenario_elf))
               = Some (Some demo_pcb)) by (vm_compute; reflexivity).
  destruct (create_user_process cfg0 "/kernel.bin" (boot_state scenario_elf))
    as [r s'| |] eqn:Hrun; try discriminate Hv.
  cbn in Hv. injection Hv as ->.
  exists s'. split; [reflexivity|].
  apply (create_user_process_iret_frame cfg0 "/kernel.bin" (boot_state scenario_elf)
           scenario_elf demo_pcb s').
  - cbn. lia.
  - cbn. lia.
  - cbn. lia.
  - cbn. lia.
  - cbn. lia.
  - apply files_machine.
  - exact Hrun.
Defined.

End IretFacts.
Import IretFacts.

(** ** The recursive page-directory entry *)

Module DirectoryFacts.

Ltac bind_inv H a s1 H1 :=
  apply bind_ret_inv in H; destruct H as (a & s1 & H1 & H).

Lemma hoare_ret {A} (P : kstate -> Prop) (a : A) (Q : A -> kstate -> Prop) :
  (forall s, P s -> Q a s) -> hoare P (ret a) Q.
Proof. intros H s b s' Hs Hr. apply ret_inv in Hr. destruct Hr as [<- <-]. auto. Qed.

Lemma hoare_bind {A B} P (m : M A) (k : A -> M B) Q R :
  hoare P m Q -> (forall a, hoare (Q a) (k a) R) -> hoare P (bind m k) R.
Proof.
  intros Hm Hk s b s' Hs Hr. bind_inv Hr a s1 H1.
  exact (Hk a s1 b s' (Hm _ _ _ Hs H1) Hr).
Qed.

Lemma hoare_seq {A B} P (m : M A) (k : A -> M B) Q :
  hoare P m (fun _ => P) -> (forall a, hoare P (k a) Q) -> hoare P (bind m k) Q.
Proof. intros Hm Hk. apply (hoare_bind P m k (fun _ => P) Q); assumption. Qed.

Lemma hoare_weaken {A} (P P' : kstate -> Prop) (m : M A) (Q Q' : A -> kstate -> Prop) :
  hoare P' m Q' -> (forall s, P s -> P' s) -> (forall a s, Q' a s -> Q a s) ->
  hoare P m Q.
Proof. intros H Hp Hq s a s' Hs Hr. apply Hq, (H s a s' (Hp s Hs) Hr). Qed.

Lemma hoare_gets {A} P (f : kstate -> A) (Q : A -> kstate -> Prop) :
  (forall s, P s -> Q (f s) s) -> hoare P (gets f) Q.
Proof. intros H s a s' Hs Hr. apply gets_inv in Hr. destruct Hr as [-> ->]. auto. Qed.

Lemma hoare_assert P c : hoare P (KERNEL_ASSERT c) (fun _ => P).
Proof. intros s a s' Hs Hr. apply assert_inv in Hr. destruct Hr as [_ ->]. exact Hs. Qed.

Lemma hoare_for_pages {E} (P : kstate -> Prop) (body : Z -> M (option E)) v_end :
  (forall v, 0 <= v < 2 ^ 32 -> hoare P (body v) (fun _ => P)) ->
  forall fuel v, 0 <= v < 2 ^ 32 ->
  hoare P (for_pages fuel v v_end body) (fun _ => P).
Proof.
  intros Hb. induction fuel as [|fuel IH]; intros v Hv; cbn [for_pages].
  - intros s a s' _ H. discriminate H.
  - destruct (v <? v_end); [|apply hoare_ret; auto].
    apply hoare_seq; [apply Hb, Hv|].
    intros [e|]; [apply hoare_ret; auto|]. apply IH, wrap32_range.
Qed.

(** Structural steps of a proof that a call keeps an invariant. *)
Ltac hoare_step :=
  match goal with
  | |- hoare _ (ret _) _ => apply hoare_ret; intros ? ?; try assumption
  | |- hoare _ (KERNEL_ASSERT _ ;; _) _ => apply hoare_seq; [apply hoare_assert|intros ?]
  | |- hoare _ (bind (gets _) _) _ =>
      apply hoare_seq; [apply hoare_gets; intros ? ?; assumption|intros ?]
  | |- hoare _ (bind _ _) _ => apply hoare_seq; [|intros ?]
  | |- hoare _ (if ?b then _ else _) _ => destruct b
  | |- hoare _ (match ?x with _ => _ end) _ => destruct x
  end.

Lemma pte_frame_range pte : 0 <= pte_frame pte < 2 ^ 32 /\ pte_frame pte mod PAGE_SIZE = 0.
Proof.
  unfold pte_frame, PAGING_ADDR_MASK. split.
  - assert (H : Z.land pte 0xFFFFF000 = Z.land pte 0xFFFFF000 mod 2 ^ 32).
    { rewrite <- Z.land_ones by lia. rewrite <- Z.land_assoc. reflexivity. }
    rewrite H. apply Z.mod_pos_bound. lia.
  - change PAGE_SIZE with (2 ^ 12). rewrite <- Z.land_ones by lia.
    rewrite <- Z.land_assoc. change (Z.land 0xFFFFF000 (Z.ones 12)) with 0.
    apply Z.land_0_r.
Qed.

(** The frame of a PTE made from an aligned 32-bit frame and flags below
    the page size is that frame. *)
Lemma pte_frame_lor p fl :
  0 <= p < 2 ^ 32 -> p mod PAGE_SIZE = 0 -> Z.land fl PAGING_ADDR_MASK = 0 ->
  pte_frame (Z.lor p fl) = p.
Proof.
  intros Hp Hal Hfl. unfold pte_frame.
  rewrite Z.land_lor_distr_l, Hfl, Z.lor_0_r.
  change PAGING_ADDR_MASK with (not32 (PAGE_SIZE - 1)).
  rewrite land_page_mask by exact Hp.
  pose proof (Z.div_mod p PAGE_SIZE ltac:(discriminate)). lia.
Qed.

Lemma pte_frame_idem p : pte_frame (pte_frame p) = pte_frame p.
Proof.
  unfold pte_frame. rewrite <- Z.land_assoc. reflexivity.
Qed.

Lemma pte_frame_lor_frame p fl :
  Z.land fl PAGING_ADDR_MASK = 0 -> pte_frame (Z.lor (pte_frame p) fl) = pte_frame p.
Proof.
  intros Hfl. unfold pte_frame at 1.
  rewrite Z.land_lor_distr_l, Hfl, Z.lor_0_r. apply pte_frame_idem.
Qed.

(** Two page frames that share a byte are the same frame. *)
Lemma frame_disjoint a b x :
  a mod PAGE_SIZE = 0 -> b mod PAGE_SIZE = 0 ->
  a <= x < a + PAGE_SIZE -> b <= x < b + PAGE_SIZE -> a = b.
Proof.
  intros Ha Hb Hxa Hxb.
  pose proof (Z.div_mod a PAGE_SIZE ltac:(discriminate)) as Hda.
  pose proof (Z.div_mod b PAGE_SIZE ltac:(discriminate)) as Hdb.
  rewrite Ha in Hda. rewrite Hb in Hdb. unfold PAGE_SIZE in *.
  assert (a / 4096 = b / 4096) by lia. lia.
Qed.

Lemma kept_ext pd kpd g C s s' :
  frame_script s' = frame_script s -> ptes s' = ptes s -> phys s' = phys s ->
  g_kernel_page_directory_phys s' = g_kernel_page_directory_phys s ->
  frame_kept pd kpd g C s -> frame_kept pd kpd g C s'.
Proof.
  intros H1 H2 H3 H4 [Ha Hb Hc Hd]. constructor.
  - rewrite H1. exact Ha.
  - intros q Hq pte. unfold clean in Hb. rewrite H2, H4. apply Hb, Hq.
  - intros x Hx. rewrite H3. apply Hc, Hx.
  - rewrite H4. exact Hd.
Qed.

Lemma kept_weaken pd kpd g (C C' : Z -> Prop) s :
  (forall q, C' q -> C q) -> frame_kept pd kpd g C s -> frame_kept pd kpd g C' s.
Proof. intros H [Ha Hb Hc Hd]. constructor; auto. Qed.

Lemma kept_add pd kpd g (C : Z -> Prop) q0 s :
  frame_kept pd kpd g C s -> clean pd q0 s ->
  frame_kept pd kpd g (fun q => C q \/ q = q0) s.
Proof.
  intros [Ha Hb Hc Hd] Hq. constructor; auto.
  intros q [Hc'| ->]; auto.
Qed.

Section Kept.

Variables (pd kpd : Z) (g : Z -> byte) (C : Z -> Prop).
Hypothesis Hpd : pd mod PAGE_SIZE = 0.
Hypothesis Hpd0 : pd <> 0.
Hypothesis Hrange : 0 <= pd < 2 ^ 32.
Hypothesis Htemp : C temp_vpn.

Local Abbreviation I := (frame_kept pd kpd g C).

(** Calls that leave the frame script, the page tables, physical memory
    and the kernel directory alone. *)
Ltac simple_call :=
  let s := fresh "s" in let a := fresh "a" in let s' := fresh "s'" in
  let Hs := fresh "Hs" in let H := fresh "H" in
  intros s a s' Hs H; apply (kept_ext pd kpd g C s s'); [| | | |exact Hs];
  revert H; cbv [bind emit modify gets ret]; intros H;
  inversion H; subst; reflexivity.

Lemma emit_kept e : hoare I (emit e) (fun _ => I).
Proof. unfold emit. simple_call. Qed.

Lemma kmalloc_kept : hoare I kmalloc (fun _ => I).
Proof. unfold kmalloc. simple_call. Qed.

Lemma kfree_kept o : hoare I (kfree o) (fun _ => I).
Proof. apply emit_kept. Qed.

Lemma put_frame_raw_kept p : hoare I (put_frame_raw p) (fun _ => I).
Proof.
  intros s a s' Hs H. apply (kept_ext pd kpd g C s s'); [| | | |exact Hs];
    revert H; unfold put_frame_raw; cbv [modify]; intros H; inversion H; subst;
    destruct (frame_refs s !! p) as [[|?]|]; reflexivity.
Qed.

Lemma put_frame_kept p : hoare I (put_frame p) (fun _ => I).
Proof.
  unfold put_frame. apply hoare_seq; [apply emit_kept|]. intros _.
  apply put_frame_raw_kept.
Qed.

Lemma put_frames_kept l : hoare I (put_frames l) (fun _ => I).
Proof.
  induction l as [|p l IH]; cbn [put_frames]; [apply hoare_ret; auto|].
  apply hoare_seq; [apply put_frame_kept|]. intros _. exact IH.
Qed.

Lemma set_next_kstack_kept v : hoare I (modify (set_next_kstack v)) (fun _ => I).
Proof. simple_call. Qed.

Lemma tss_set_kept v : hoare I (tss_set_kernel_stack v) (fun _ => I).
Proof. unfold tss_set_kernel_stack. simple_call. Qed.

Lemma read_file_kept path : hoare I (read_file path) (fun _ => I).
Proof. unfold read_file. simple_call. Qed.

Lemma create_mm_kept d : hoare I (create_mm d) (fun _ => I).
Proof.
  unfold create_mm. apply hoare_seq; [apply emit_kept|]. intros _.
  apply hoare_seq; [apply kmalloc_kept|]. intros [|]; apply hoare_ret; auto.
Qed.

Lemma insert_vma_kept m a b fl prot : hoare I (insert_vma m a b fl prot) (fun _ => I).
Proof.
  unfold insert_vma. destruct (_ || _).
  - apply hoare_seq; [apply emit_kept|]. intros _. apply hoare_ret; auto.
  - apply hoare_seq; [apply kmalloc_kept|]. intros ok.
    apply hoare_seq; [apply emit_kept|]. intros _.
    destruct ok; apply hoare_ret; auto.
Qed.

Lemma zero_other : other_frame pd 0.
Proof. split; [congruence | rewrite pow32; lia]. Qed.

(** [frame_alloc] hands out another frame. *)
Lemma frame_alloc_raw_kept :
  hoare I frame_alloc_raw (fun p s => I s /\ other_frame pd p).
Proof.
  intros s p s' Hs H. unfold frame_alloc_raw in H.
  destruct (frame_script s) as [|q rest] eqn:Hscr.
  - inversion H; subst. split; [exact Hs | apply zero_other].
  - inversion H; subst. clear H.
    destruct Hs as [Ha Hb Hc Hd]. rewrite Hscr in Ha.
    inversion Ha as [|? ? Hq Hrest]; subst.
    split; [|exact Hq].
    constructor; destruct (p =? 0); cbn; auto.
Qed.

Lemma frame_alloc_kept : hoare I frame_alloc (fun p s => I s /\ other_frame pd p).
Proof.
  unfold frame_alloc. eapply hoare_bind; [apply frame_alloc_raw_kept|].
  intros p. apply (hoare_bind _ _ _ (fun _ s => I s /\ other_frame pd p)).
  - intros s a s' Hpre H. destruct Hpre as [Hs Hp].
    split; [exact (emit_kept _ _ _ _ Hs H) | exact Hp].
  - intros _. apply hoare_ret. auto.
Qed.

(** A store through a page of [C] does not reach the frame. *)
Lemma kstore8_kept v b : C (vpn v) -> hoare I (kstore8 v b) (fun _ => I).
Proof.
  intros Hc s a s' Hs H. unfold kstore8, translate in H.
  destruct (ptes s !! (g_kernel_page_directory_phys s, vpn v)) as [pte|] eqn:Hpte;
    [|discriminate H].
  destruct (pte_present pte); [|discriminate H].
  inversion H; subst; clear H.
  pose proof (fk_clean _ _ _ _ _ Hs _ Hc _ Hpte) as Hne.
  destruct Hs as [Ha Hb Hc' Hd]. constructor; cbn; auto.
  intros x Hx. destruct (Z.eqb_spec x (pte_frame pte + PAGE_OFFSET v)) as [->|_];
    [|apply Hc', Hx].
  exfalso. apply Hne.
  destruct (pte_frame_range pte) as [_ Hal].
  apply (frame_disjoint _ _ (pte_frame pte + PAGE_OFFSET v) Hal Hpd); [|exact Hx].
  rewrite page_offset_mod.
  pose proof (Z.mod_pos_bound v PAGE_SIZE ltac:(reflexivity)). lia.
Qed.

Lemma memset_temp_kept c n : forall p,
  PAGING_TEMP_VADDR <= p -> p + Z.of_nat n <= PAGING_TEMP_VADDR + PAGE_SIZE ->
  hoare I (memset p c n) (fun _ => I).
Proof.
  induction n as [|n IH]; intros p Hlo Hhi; cbn [memset].
  - apply hoare_ret. auto.
  - apply hoare_seq.
    { apply kstore8_kept. rewrite temp_page_vpn by lia. exact Htemp. }
    intros _.
    assert (Hw : wrap32 (p + 1) = p + 1).
    { apply wrap32_small. rewrite pow32.
      unfold PAGING_TEMP_VADDR, PAGE_SIZE in *. lia. }
    rewrite Hw. apply IH; lia.
Qed.

Lemma memcpy_temp_kept n : forall p src,
  PAGING_TEMP_VADDR <= p -> p + Z.of_nat n <= PAGING_TEMP_VADDR + PAGE_SIZE ->
  hoare I (memcpy p src n) (fun _ => I).
Proof.
  induction n as [|n IH]; intros p src Hlo Hhi; cbn [memcpy].
  - apply hoare_ret. auto.
  - apply hoare_seq.
    { apply kstore8_kept. rewrite temp_page_vpn by lia. exact Htemp. }
    intros _.
    assert (Hw : wrap32 (p + 1) = p + 1).
    { apply wrap32_small. rewrite pow32.
      unfold PAGING_TEMP_VADDR, PAGE_SIZE in *. lia. }
    rewrite Hw. apply IH; lia.
Qed.

(** Writing a PTE for another frame, or clearing one, keeps the pages of
    [C] clean. *)
Lemma set_pte_kept d q w :
  pte_frame w <> pd ->
  hoare I (modify (fun s => set_ptes (<[(d, q) := w]> (ptes s)) s)) (fun _ => I).
Proof.
  intros Hw s a s' Hs H. apply modify_inv in H. subst s'.
  destruct Hs as [Ha Hb Hc Hd]. constructor; cbn; auto.
  intros q' Hq' pte. cbn.
  destruct (decide ((d, q) = (g_kernel_page_directory_phys s, q'))) as [->|Hne].
  - rewrite lookup_insert_eq. intros Heq. injection Heq as <-. exact Hw.
  - rewrite lookup_insert_ne by exact Hne. apply Hb, Hq'.
Qed.

Lemma del_pte_kept (key : kstate -> Z * Z) :
  hoare I (modify (fun s => set_ptes (delete (key s) (ptes s)) s)) (fun _ => I).
Proof.
  intros s a s' Hs H. apply modify_inv in H. subst s'.
  destruct Hs as [Ha Hb Hc Hd]. constructor; cbn; auto.
  intros q' Hq' pte. cbn.
  destruct (decide (key s = (g_kernel_page_directory_phys s, q'))) as [->|Hne].
  - rewrite lookup_delete_eq. discriminate.
  - rewrite lookup_delete_ne by exact Hne. apply Hb, Hq'.
Qed.

Lemma temp_map_raw_kept p :
  other_frame pd p -> hoare I (paging_temp_map_raw p) (fun _ => I).
Proof.
  intros [Hne Hp]. unfold paging_temp_map_raw.
  destruct (page_aligned p) eqn:Hal; [|apply hoare_ret; auto].
  apply page_aligned_iff in Hal.
  apply hoare_seq; [|intros _; apply hoare_ret; auto].
  intros s a s' Hs H. apply modify_inv in H. subst s'.
  assert (Hfr : pte_frame (Z.lor p PTE_KERNEL_DATA_FLAGS) <> pd)
    by (rewrite pte_frame_lor by (try assumption; reflexivity); exact Hne).
  destruct Hs as [Ha Hb Hc Hd]. constructor; cbn; auto.
  intros q' Hq' pte. cbn.
  destruct (decide (temp_vpn = q')) as [<-|Hq].
  - rewrite lookup_insert_eq. intros Heq. injection Heq as <-. exact Hfr.
  - rewrite lookup_insert_ne by congruence. apply Hb, Hq'.
Qed.

Lemma temp_map_kept p : other_frame pd p -> hoare I (paging_temp_map p) (fun _ => I).
Proof.
  intros Hp. unfold paging_temp_map. apply hoare_seq; [apply emit_kept|].
  intros _. apply temp_map_raw_kept, Hp.
Qed.

Lemma temp_unmap_raw_kept : hoare I paging_temp_unmap_raw (fun _ => I).
Proof.
  unfold paging_temp_unmap_raw.
  apply (del_pte_kept (fun s => (g_kernel_page_directory_phys s, temp_vpn))).
Qed.

Lemma temp_unmap_kept v : hoare I (paging_temp_unmap v) (fun _ => I).
Proof.
  unfold paging_temp_unmap. apply hoare_seq; [apply emit_kept|].
  intros _. apply temp_unmap_raw_kept.
Qed.

Lemma ensure_page_table_kept d v : hoare I (ensure_page_table d v) (fun _ => I).
Proof.
  unfold ensure_page_table.
  apply hoare_seq; [apply hoare_gets; auto|]. intros [pt|]; [apply hoare_ret; auto|].
  eapply hoare_bind; [apply frame_alloc_raw_kept|]. intros pt. cbv beta.
  destruct (pt =? 0); [apply hoare_ret; tauto|].
  intros s a s' Hpre. destruct Hpre as [Hs Hp]. revert s a s' Hs.
  change (hoare I
    (let* t := paging_temp_map_raw pt in
     if t =? 0 then put_frame_raw pt ;; ret false
     else memset t Byte.x00 (Z.to_nat PAGE_SIZE) ;; paging_temp_unmap_raw ;;
          modify (fun s => set_page_tables (<[(d, PDE_INDEX v) := pt]> (page_tables s)) s) ;;
          ret true) (fun _ => I)).
  apply (hoare_bind _ _ _ (fun t s => I s /\ (t = 0 \/ t = PAGING_TEMP_VADDR))).
  { intros s t s' Hs H. split; [exact (temp_map_raw_kept pt Hp _ _ _ Hs H)|].
    unfold paging_temp_map_raw in H. destruct (page_aligned pt).
    - bind_inv H u s1 H1. apply ret_inv in H. destruct H as [<- _]. auto.
    - apply ret_inv in H. destruct H as [<- _]. auto. }
  intros t. destruct (t =? 0) eqn:Ht.
  { apply (hoare_weaken _ I _ _ (fun _ => I)); [|tauto|auto].
    apply hoare_seq; [apply put_frame_raw_kept|]. intros _. apply hoare_ret; auto. }
  apply Z.eqb_neq in Ht.
  intros s a s' Hpre. destruct Hpre as [Hs [Hz| ->]]; [contradiction|].
  revert s a s' Hs.
  change (hoare I
    (memset PAGING_TEMP_VADDR Byte.x00 (Z.to_nat PAGE_SIZE) ;; paging_temp_unmap_raw ;;
     modify (fun s => set_page_tables (<[(d, PDE_INDEX v) := pt]> (page_tables s)) s) ;;
     ret true) (fun _ => I)).
  apply hoare_seq; [apply memset_temp_kept; [lia | rewrite Z2Nat.id by discriminate; lia]|].
  intros _. apply hoare_seq; [apply temp_unmap_raw_kept|].
  intros _. apply hoare_seq; [simple_call|].
  intros _. apply hoare_ret; auto.
Qed.

(** Mapping another frame keeps the invariant, and the page mapped does
    not map [pd]. *)
Lemma map_single_raw_kept d v p fl :
  other_frame pd p -> Z.land fl PAGING_ADDR_MASK = 0 ->
  hoare I (paging_map_single_4k_raw d v p fl)
    (fun r s => I s /\ (r = MapOk -> d = kpd -> clean pd (vpn v) s)).
Proof.
  intros [Hne Hp] Hfl. unfold paging_map_single_4k_raw.
  destruct (page_aligned v && page_aligned p) eqn:Hal; cbn [negb].
  2:{ apply hoare_ret. intros s Hs. split; [exact Hs | discriminate]. }
  apply andb_true_iff in Hal. destruct Hal as [_ Hal]. apply page_aligned_iff in Hal.
  destruct (_ && _).
  { apply hoare_ret. intros s Hs. split; [exact Hs | discriminate]. }
  apply hoare_seq; [apply ensure_page_table_kept|]. intros ok.
  destruct ok; cbn [negb].
  2:{ apply hoare_ret. intros s Hs. split; [exact Hs | discriminate]. }
  assert (Hfr : pte_frame (Z.lor (pte_frame p) fl) <> pd).
  { rewrite pte_frame_lor_frame by exact Hfl.
    replace (pte_frame p) with (pte_frame (Z.lor p 0)) by (rewrite Z.lor_0_r; reflexivity).
    rewrite pte_frame_lor by (try assumption; reflexivity). exact Hne. }
  apply hoare_seq; [apply hoare_gets; auto|]. intros old.
  apply (hoare_bind _ _ _ (fun _ s => I s /\ (d = kpd -> clean pd (vpn v) s))).
  { intros s a s' Hs H. split; [exact (set_pte_kept d (vpn v) _ Hfr _ _ _ Hs H)|].
    apply modify_inv in H. subst s'. intros -> pte. cbn.
    rewrite (fk_kpd _ _ _ _ _ Hs), lookup_insert_eq.
    intros Heq. injection Heq as <-. exact Hfr. }
  intros _.
  assert (Hput : forall q, hoare (fun s => I s /\ (d = kpd -> clean pd (vpn v) s))
                   (put_frame_raw q)
                   (fun _ s => I s /\ (d = kpd -> clean pd (vpn v) s))).
  { intros q s a s' Hpre H. destruct Hpre as [Hs Hc].
    split; [exact (put_frame_raw_kept q _ _ _ Hs H)|].
    intros Hd pte. specialize (Hc Hd pte).
    unfold put_frame_raw in H. apply modify_inv in H. subst s'.
    destruct (frame_refs s !! q) as [[|?]|]; exact Hc. }
  destruct old as [pte|].
  - apply (hoare_bind _ _ _ (fun _ s => I s /\ (d = kpd -> clean pd (vpn v) s))).
    + destruct (_ && _); [apply Hput | apply hoare_ret; auto].
    + intros _. apply hoare_ret. intros s Hpre. destruct Hpre as [Hs Hc]. auto.
  - apply hoare_ret. intros s Hpre. destruct Hpre as [Hs Hc]. auto.
Qed.

Lemma map_single_kept d v p fl :
  other_frame pd p -> Z.land fl PAGING_ADDR_MASK = 0 ->
  hoare I (paging_map_single_4k d v p fl)
    (fun r s => I s /\ (r = MapOk -> d = kpd -> clean pd (vpn v) s)).
Proof.
  intros Hp Hfl. unfold paging_map_single_4k.
  eapply hoare_bind; [apply (map_single_raw_kept d v p fl Hp Hfl)|].
  intros r.
  apply (hoare_bind _ _ _
           (fun _ s => I s /\ (r = MapOk -> d = kpd -> clean pd (vpn v) s))).
  - intros s a s' Hpre H. destruct Hpre as [Hs Hc].
    split; [exact (emit_kept _ _ _ _ Hs H)|].
    apply emit_inv in H. subst s'. exact Hc.
  - intros _. apply hoare_ret. auto.
Qed.

Lemma unmap_page_kept d q : hoare I (unmap_page d q) (fun _ => I).
Proof.
  unfold unmap_page. apply hoare_seq; [apply hoare_gets; auto|].
  intros [pte|]; [|apply hoare_ret; auto].
  apply hoare_seq; [apply (del_pte_kept (fun _ => (d, q)))|]. intros _.
  destruct (pte_present pte); [apply put_frame_raw_kept | apply hoare_ret; auto].
Qed.

Lemma unmap_pages_kept n : forall d q, hoare I (unmap_pages d q n) (fun _ => I).
Proof.
  induction n as [|n IH]; intros d q; cbn [unmap_pages]; [apply hoare_ret; auto|].
  apply hoare_seq; [apply unmap_page_kept|]. intros _. apply IH.
Qed.

Lemma unmap_range_kept d v n : hoare I (paging_unmap_range d v n) (fun _ => I).
Proof.
  unfold paging_unmap_range. apply hoare_seq; [apply emit_kept|].
  intros _. apply unmap_pages_kept.
Qed.

Lemma temp_map_result p s t s' :
  paging_temp_map p s = Ret t s' -> t = 0 \/ t = PAGING_TEMP_VADDR.
Proof.
  unfold paging_temp_map, paging_temp_map_raw. intros H.
  bind_inv H u s1 H1. destruct (page_aligned p).
  - bind_inv H u2 s2 H2. apply ret_inv in H. destruct H as [<- _]. auto.
  - apply ret_inv in H. destruct H as [<- _]. auto.
Qed.

Lemma alloc_stack_frames_kept n : forall acc,
  Forall (other_frame pd) acc ->
  hoare I (alloc_stack_frames n acc)
    (fun r s => I s /\ forall frames, r = Some frames -> Forall (other_frame pd) frames).
Proof.
  induction n as [|n IH]; intros acc Hacc; cbn [alloc_stack_frames].
  - apply hoare_ret. intros s Hs. split; [exact Hs|].
    intros frames Heq. injection Heq as <-. exact Hacc.
  - eapply hoare_bind; [apply frame_alloc_kept|]. intros p. cbv beta.
    intros s a s' Hpre. destruct Hpre as [Hs Hp]. revert s a s' Hs.
    change (hoare I
      (if p =? 0 then put_frames acc ;; kfree HeapFrameList ;; ret None
       else alloc_stack_frames n (acc ++ [p]))
      (fun r s => I s /\
         forall frames, r = Some frames -> Forall (other_frame pd) frames)).
    destruct (p =? 0).
    + apply hoare_seq; [apply put_frames_kept|]. intros _.
      apply hoare_seq; [apply kfree_kept|]. intros _.
      apply hoare_ret. intros s Hs. split; [exact Hs | discriminate].
    + apply IH. apply Forall_app. split; [exact Hacc | constructor; [exact Hp | constructor]].
Qed.

Lemma copy_elf_segment_data_kept frame file off n z :
  other_frame pd frame -> 0 <= n -> 0 <= z -> n + z <= PAGE_SIZE ->
  hoare I (copy_elf_segment_data frame file off n z) (fun _ => I).
Proof.
  intros Hfr Hn Hz Hnz. unfold copy_elf_segment_data.
  apply hoare_seq; [apply hoare_assert|]. intros _.
  apply hoare_seq; [apply hoare_assert|]. intros _.
  apply (hoare_bind _ _ _ (fun t s => I s /\ (t = 0 \/ t = PAGING_TEMP_VADDR))).
  { intros s t s' Hs H.
    split; [exact (temp_map_kept frame Hfr _ _ _ Hs H) | exact (temp_map_result _ _ _ _ H)]. }
  intros t. destruct (t =? 0) eqn:Ht; [apply hoare_ret; tauto|].
  apply Z.eqb_neq in Ht.
  intros s a s' Hpre. destruct Hpre as [Hs [Hz0| ->]]; [contradiction|].
  revert s a s' Hs.
  change (hoare I
    ((if 0 <? n
      then memcpy PAGING_TEMP_VADDR (skipn (Z.to_nat off) file) (Z.to_nat n)
      else ret tt) ;;
     (if 0 <? z
      then memset (wrap32 (PAGING_TEMP_VADDR + n)) Byte.x00 (Z.to_nat z)
      else ret tt) ;;
     paging_temp_unmap PAGING_TEMP_VADDR ;; ret 0) (fun _ => I)).
  apply hoare_seq.
  { destruct (0 <? n); [|apply hoare_ret; auto].
    apply memcpy_temp_kept; [lia | rewrite Z2Nat.id by lia; lia]. }
  intros _. apply hoare_seq.
  { destruct (0 <? z); [|apply hoare_ret; auto].
    assert (Hw : wrap32 (PAGING_TEMP_VADDR + n) = PAGING_TEMP_VADDR + n).
    { apply wrap32_small. rewrite pow32.
      unfold PAGING_TEMP_VADDR, PAGE_SIZE in *. lia. }
    rewrite Hw. apply memset_temp_kept; [lia | rewrite Z2Nat.id by lia; lia]. }
  intros _. apply hoare_seq; [apply temp_unmap_kept|].
  intros _. apply hoare_ret; auto.
Qed.

Lemma map_single_keeps d v p fl :
  other_frame pd p -> Z.land fl PAGING_ADDR_MASK = 0 ->
  hoare I (paging_map_single_4k d v p fl) (fun _ => I).
Proof.
  intros Hp Hfl.
  apply (hoare_weaken _ I _ _ _ (map_single_kept d v p fl Hp Hfl)); [auto | tauto].
Qed.

Lemma load_page_kept file pgd i prot page_v :
  0 <= page_v < 2 ^ 32 -> Z.land prot PAGING_ADDR_MASK = 0 ->
  hoare I (load_page file pgd i prot page_v) (fun _ => I).
Proof.
  intros Hv Hprot. unfold load_page.
  eapply hoare_bind; [apply frame_alloc_kept|]. intros p. cbv beta.
  intros s a s' Hpre. destruct Hpre as [Hs Hp]. revert s a s' Hs.
  pose proof (page_slices_fit file i page_v Hv) as Hfit.
  destruct (page_slices file i page_v) as [[n off] z].
  destruct Hfit as (Hn & Hz & Hnz).
  change (hoare I
    (if p =? 0 then ret (Some p)
     else if PAGE_SIZE <? wrap32 (n + z) then put_frame p ;; ret (Some 0)
     else
       let* r := copy_elf_segment_data p file off n z in
       if negb (r =? 0) then put_frame p ;; ret (Some 0)
       else
         let* map_res := paging_map_single_4k pgd page_v p prot in
         match map_res with
         | MapOk => ret None
         | _ => put_frame p ;; ret (Some 0)
         end) (fun _ => I)).
  destruct (p =? 0); [apply hoare_ret; auto|].
  destruct (_ <? _).
  { apply hoare_seq; [apply put_frame_kept|]. intros _. apply hoare_ret; auto. }
  apply hoare_seq; [apply copy_elf_segment_data_kept; assumption|]. intros r.
  destruct (negb _).
  { apply hoare_seq; [apply put_frame_kept|]. intros _. apply hoare_ret; auto. }
  apply hoare_seq; [apply map_single_keeps; assumption|]. intros res.
  destruct res; try (apply hoare_ret; auto);
    (apply hoare_seq; [apply put_frame_kept|]; intros _; apply hoare_ret; auto).
Qed.

Lemma segment_page_prot_mask fl nx :
  Z.land (segment_page_prot fl nx) PAGING_ADDR_MASK = 0.
Proof.
  unfold segment_page_prot.
  destruct (has_flag fl PF_W), (has_flag fl PF_X), nx; reflexivity.
Qed.

Lemma load_segment_kept f size i m hi :
  hoare I (load_segment f size i m hi) (fun _ => I).
Proof.
  unfold load_segment.
  destruct (_ || _); [apply hoare_ret; auto|].
  destruct (segment_invalid f size i); [apply hoare_ret; auto|].
  destruct (_ <=? _); [apply hoare_ret; auto|].
  apply hoare_seq; [apply hoare_gets; auto|]. intros nx.
  apply hoare_seq; [apply insert_vma_kept|].
  intros [m2|]; [|apply hoare_ret; auto].
  apply hoare_seq.
  - apply hoare_for_pages.
    + intros v Hv. apply load_page_kept; [exact Hv | apply segment_page_prot_mask].
    + pose proof (u32_range f (phdr_at f i + 8)) as Hva. fold (p_vaddr f i) in Hva.
      rewrite page_align_down_eq by exact Hva.
      pose proof (Z.mul_div_le (p_vaddr f i) PAGE_SIZE ltac:(reflexivity)).
      split; [|lia]. apply Z.mul_nonneg_nonneg; [discriminate|].
      apply Z.div_pos; [lia | reflexivity].
  - intros [e|]; apply hoare_ret; auto.
Qed.

Lemma load_segments_kept n : forall f size i m hi,
  hoare I (load_segments n f size i m hi) (fun _ => I).
Proof.
  induction n as [|n IH]; intros f size i m hi; cbn [load_segments].
  - apply hoare_ret. auto.
  - apply hoare_seq; [apply load_segment_kept|].
    intros [[e m'] hi']. destruct e; [apply hoare_ret; auto | apply IH].
Qed.

Lemma cleanup_load_elf_kept b p : hoare I (cleanup_load_elf b p) (fun _ => I).
Proof.
  unfold cleanup_load_elf.
  apply hoare_seq; [destruct b; [apply kfree_kept | apply hoare_ret; auto]|].
  intros _. destruct (negb (p =? 0)); [apply put_frame_kept | apply hoare_ret; auto].
Qed.

Lemma load_elf_kept path m e0 b0 :
  hoare I (load_elf_and_init_memory path m e0 b0) (fun _ => I).
Proof.
  unfold load_elf_and_init_memory.
  apply hoare_seq; [apply read_file_kept|].
  intros [f|].
  2:{ apply hoare_seq; [apply cleanup_load_elf_kept|]. intros _. apply hoare_ret. auto. }
  destruct (_ <? sizeof_Ehdr).
  { apply hoare_seq; [apply cleanup_load_elf_kept|]. intros _. apply hoare_ret. auto. }
  destruct (header_invalid _ _).
  { apply hoare_seq; [apply cleanup_load_elf_kept|]. intros _. apply hoare_ret. auto. }
  apply hoare_seq.
  { destruct (_ <=? _); [apply emit_kept | apply hoare_ret; auto]. }
  intros _. apply hoare_seq; [apply load_segments_kept|].
  intros [[e m'] hi]. destruct e.
  - apply hoare_seq; [apply cleanup_load_elf_kept|]. intros _. apply hoare_ret. auto.
  - apply hoare_seq; [apply cleanup_load_elf_kept|]. intros _. apply hoare_ret. auto.
Qed.

(** The stores of [prepare_initial_kernel_stack] go to the top page of the
    kernel stack. *)
Lemma kstore32_kept top v w :
  top mod PAGE_SIZE = 0 -> PAGE_SIZE <= top <= 2 ^ 32 ->
  C (vpn (top - PAGE_SIZE)) ->
  top - PAGE_SIZE <= v -> v + 4 <= top ->
  hoare I (kstore32 v w) (fun _ => I).
Proof.
  intros Hmod Htop Hc Hlo Hhi. unfold kstore32.
  assert (Hpage : forall x, top - PAGE_SIZE <= x < top -> C (vpn x)).
  { intros x Hx. replace (vpn x) with (vpn (top - PAGE_SIZE)); [exact Hc|].
    rewrite !vpn_div.
    pose proof (Z.div_mod top PAGE_SIZE ltac:(discriminate)) as Hd.
    rewrite Hmod, Z.add_0_r in Hd.
    rewrite (div_page_eq x (top / PAGE_SIZE - 1)) by lia.
    apply div_page_eq. lia. }
  rewrite pow32 in Htop. unfold PAGE_SIZE in Hlo, Htop.
  rewrite !wrap32_small by (rewrite pow32; lia).
  apply hoare_seq; [apply kstore8_kept, Hpage; unfold PAGE_SIZE; lia|]. intros _.
  apply hoare_seq; [apply kstore8_kept, Hpage; unfold PAGE_SIZE; lia|]. intros _.
  apply hoare_seq; [apply kstore8_kept, Hpage; unfold PAGE_SIZE; lia|]. intros _.
  apply kstore8_kept, Hpage; unfold PAGE_SIZE; lia.
Qed.

Lemma prepare_kept cfg proc :
  kernel_stack_vaddr_top proc mod PAGE_SIZE = 0 ->
  PAGE_SIZE <= kernel_stack_vaddr_top proc <= 2 ^ 32 ->
  C (vpn (kernel_stack_vaddr_top proc - PAGE_SIZE)) ->
  hoare I (prepare_initial_kernel_stack cfg proc) (fun _ => I).
Proof.
  intros Hmod Htop Hc. unfold prepare_initial_kernel_stack, push32.
  set (top := kernel_stack_vaddr_top proc) in *.
  pose proof Htop as Htop'. rewrite pow32 in Htop'. unfold PAGE_SIZE in Htop'.
  assert (Hw1 : wrap32 (top - 4) = top - 4) by (apply wrap32_small; rewrite pow32; lia).
  assert (Hw2 : wrap32 (top - 4 - 4) = top - 8)
    by (rewrite wrap32_small by (rewrite pow32; lia); lia).
  assert (Hw3 : wrap32 (top - 8 - 4) = top - 12)
    by (rewrite wrap32_small by (rewrite pow32; lia); lia).
  assert (Hw4 : wrap32 (top - 12 - 4) = top - 16)
    by (rewrite wrap32_small by (rewrite pow32; lia); lia).
  assert (Hw5 : wrap32 (top - 16 - 4) = top - 20)
    by (rewrite wrap32_small by (rewrite pow32; lia); lia).
  apply hoare_seq; [apply hoare_assert|]. intros _.
  apply hoare_seq; [apply hoare_assert|]. intros _.
  apply hoare_seq; [apply hoare_assert|]. intros _.
  rewrite Hw1.
  apply (hoare_bind _ _ _ (fun p s => I s /\ p = top - 4)).
  { apply hoare_seq;
      [apply (kstore32_kept top); try assumption; unfold PAGE_SIZE; lia|].
    intros _. apply hoare_ret. auto. }
  intros p1 s a s' Hpre. destruct Hpre as [Hs ->]. revert s a s' Hs. rewrite Hw2.
  apply (hoare_bind _ _ _ (fun p s => I s /\ p = top - 8)).
  { apply hoare_seq;
      [apply (kstore32_kept top); try assumption; unfold PAGE_SIZE; lia|].
    intros _. apply hoare_ret. auto. }
  intros p2 s a s' Hpre. destruct Hpre as [Hs ->]. revert s a s' Hs. rewrite Hw3.
  apply (hoare_bind _ _ _ (fun p s => I s /\ p = top - 12)).
  { apply hoare_seq;
      [apply (kstore32_kept top); try assumption; unfold PAGE_SIZE; lia|].
    intros _. apply hoare_ret. auto. }
  intros p3 s a s' Hpre. destruct Hpre as [Hs ->]. revert s a s' Hs. rewrite Hw4.
  apply (hoare_bind _ _ _ (fun p s => I s /\ p = top - 16)).
  { apply hoare_seq;
      [apply (kstore32_kept top); try assumption; unfold PAGE_SIZE; lia|].
    intros _. apply hoare_ret. auto. }
  intros p4 s a s' Hpre. destruct Hpre as [Hs ->]. revert s a s' Hs. rewrite Hw5.
  apply hoare_seq.
  { apply hoare_seq;
      [apply (kstore32_kept top); try assumption; unfold PAGE_SIZE; lia|].
    intros _. apply hoare_ret. auto. }
  intros p5. apply hoare_ret. auto.
Qed.

Lemma finish_kept cfg proc m brk :
  kernel_stack_vaddr_top proc mod PAGE_SIZE = 0 ->
  PAGE_SIZE <= kernel_stack_vaddr_top proc <= 2 ^ 32 ->
  C (vpn (kernel_stack_vaddr_top proc - PAGE_SIZE)) ->
  hoare I (finish_user_process cfg proc m brk) (fun _ => I).
Proof.
  intros Hmod Htop Hc. unfold finish_user_process.
  apply hoare_seq; [apply insert_vma_kept|]. intros heap.
  apply hoare_seq; [apply hoare_assert|]. intros _.
  apply hoare_seq; [apply insert_vma_kept|]. intros [m'|]; [|apply hoare_ret; auto].
  apply hoare_seq; [apply hoare_assert|]. intros _.
  eapply hoare_bind; [apply frame_alloc_kept|]. intros p. cbv beta.
  intros s a s' Hpre. destruct Hpre as [Hs Hp]. revert s a s' Hs.
  match goal with
  | |- forall s a s', I s -> ?m s = Ret a s' -> I s' =>
      change (hoare I m (fun _ => I))
  end.
  destruct (p =? 0); [apply hoare_ret; auto|].
  apply hoare_seq; [apply map_single_keeps; [exact Hp | reflexivity]|].
  intros res. destruct res; try (apply hoare_ret; auto).
  apply hoare_seq; [apply prepare_kept; assumption|].
  intros proc'. apply hoare_ret. auto.
Qed.

End Kept.

Lemma nth_other pd frames k :
  pd <> 0 -> Forall (other_frame pd) frames -> other_frame pd (nth k frames 0).
Proof.
  intros Hpd0 Hfr. destruct (Nat.lt_ge_cases k (length frames)) as [Hlt|Hge].
  - apply (proj1 (List.Forall_forall _ _) Hfr). apply nth_In, Hlt.
  - rewrite nth_overflow by exact Hge. apply zero_other, Hpd0.
Qed.

Lemma allocate_kernel_stack_spec_base s ok s1 n acc fr s2 :
  kmalloc s = Ret ok s1 ->
  alloc_stack_frames n acc s1 = Ret fr s2 ->
  g_next_kernel_stack_virt_base s2 = g_next_kernel_stack_virt_base s.
Proof.
  intros H1 H2.
  apply kmalloc_spec in H1. destruct H1 as (_ & _ & _ & Hn1).
  apply alloc_stack_frames_spec in H2. destruct H2 as (_ & _ & Hn2 & _).
  congruence.
Qed.

(** The mapping loop of [allocate_kernel_stack]: every page it maps is
    backed by another frame. *)
Lemma map_stack_pages_kept pd kpd g base frames n :
  pd mod PAGE_SIZE = 0 -> pd <> 0 -> 0 <= pd < 2 ^ 32 ->
  Forall (other_frame pd) frames ->
  forall i (C : Z -> Prop), C temp_vpn ->
  hoare (frame_kept pd kpd g C) (map_stack_pages n i base frames)
    (fun b s =>
       frame_kept pd kpd g C s /\
       (b = true ->
        forall k, 0 <= k < Z.of_nat n ->
          clean pd (vpn (wrap32 (base + wrap32 ((i + k) * PAGE_SIZE)))) s)).
Proof.
  intros Hpd Hpd0 Hrange Hfr.
  induction n as [|n IH]; intros i C HC s b s' Hs H; cbn [map_stack_pages] in H.
  - apply ret_inv in H. destruct H as [<- <-]. split; [exact Hs|]. intros _ k Hk. lia.
  - bind_inv H kpd' s0 H0. apply gets_inv in H0. destruct H0 as [-> ->].
    rewrite (fk_kpd _ _ _ _ _ Hs) in H.
    bind_inv H r s1 H1.
    destruct (map_single_kept pd kpd g C Hpd Hpd0 Hrange HC _ _ _ PTE_KERNEL_DATA_FLAGS
                (nth_other pd frames _ Hpd0 Hfr) eq_refl _ _ _ Hs H1) as [Hs1 Hc1].
    destruct r.
    + specialize (Hc1 eq_refl eq_refl).
      pose proof (kept_add _ _ _ _ _ _ Hs1 Hc1) as Hs1'.
      destruct (IH (i + 1) _ (or_introl HC) _ _ _ Hs1' H) as [Hs' Hc'].
      split; [apply (kept_weaken _ _ _ _ _ _ (fun q Hq => or_introl Hq) Hs')|].
      intros Hb k Hk. destruct (Z.eq_dec k 0) as [->|Hne].
      * rewrite Z.add_0_r. apply (fk_clean _ _ _ _ _ Hs'). right. reflexivity.
      * replace (i + k) with (i + 1 + (k - 1)) by lia. apply Hc'; [exact Hb | lia].
    + assert (Hb : b = false /\ frame_kept pd kpd g C s').
      { bind_inv H u2 s2 H2.
        assert (Hs2 : frame_kept pd kpd g C s2).
        { destruct (0 <? i).
          - exact (unmap_range_kept _ _ _ _ _ _ _ _ _ _ Hs1 H2).
          - apply ret_inv in H2. destruct H2 as [_ <-]. exact Hs1. }
        bind_inv H u3 s3 H3. pose proof (put_frames_kept _ _ _ _ _ _ _ _ Hs2 H3) as Hs3.
        bind_inv H u4 s4 H4. pose proof (kfree_kept _ _ _ _ _ _ _ _ Hs3 H4) as Hs4.
        bind_inv H u5 s5 H5.
        pose proof (set_next_kstack_kept _ _ _ _ _ _ _ _ Hs4 H5) as Hs5.
        apply ret_inv in H. destruct H as [<- <-]. auto. }
      destruct Hb as [-> Hs']. split; [exact Hs' | discriminate].
    + assert (Hb : b = false /\ frame_kept pd kpd g C s').
      { bind_inv H u2 s2 H2.
        assert (Hs2 : frame_kept pd kpd g C s2).
        { destruct (0 <? i).
          - exact (unmap_range_kept _ _ _ _ _ _ _ _ _ _ Hs1 H2).
          - apply ret_inv in H2. destruct H2 as [_ <-]. exact Hs1. }
        bind_inv H u3 s3 H3. pose proof (put_frames_kept _ _ _ _ _ _ _ _ Hs2 H3) as Hs3.
        bind_inv H u4 s4 H4. pose proof (kfree_kept _ _ _ _ _ _ _ _ Hs3 H4) as Hs4.
        bind_inv H u5 s5 H5.
        pose proof (set_next_kstack_kept _ _ _ _ _ _ _ _ Hs4 H5) as Hs5.
        apply ret_inv in H. destruct H as [<- <-]. auto. }
      destruct Hb as [-> Hs']. split; [exact Hs' | discriminate].
    + assert (Hb : b = false /\ frame_kept pd kpd g C s').
      { bind_inv H u2 s2 H2.
        assert (Hs2 : frame_kept pd kpd g C s2).
        { destruct (0 <? i).
          - exact (unmap_range_kept _ _ _ _ _ _ _ _ _ _ Hs1 H2).
          - apply ret_inv in H2. destruct H2 as [_ <-]. exact Hs1. }
        bind_inv H u3 s3 H3. pose proof (put_frames_kept _ _ _ _ _ _ _ _ Hs2 H3) as Hs3.
        bind_inv H u4 s4 H4. pose proof (kfree_kept _ _ _ _ _ _ _ _ Hs3 H4) as Hs4.
        bind_inv H u5 s5 H5.
        pose proof (set_next_kstack_kept _ _ _ _ _ _ _ _ Hs4 H5) as Hs5.
        apply ret_inv in H. destruct H as [<- <-]. auto. }
      destruct Hb as [-> Hs']. split; [exact Hs' | discriminate].
Qed.

(** [allocate_kernel_stack] keeps the frame, and on success the top page
    of the new stack is backed by another frame. *)
Lemma allocate_kernel_stack_kept pd kpd g (C : Z -> Prop) cfg proc s ok proc' s' :
  pd mod PAGE_SIZE = 0 -> pd <> 0 -> 0 <= pd < 2 ^ 32 -> C temp_vpn ->
  0 <= PROCESS_KSTACK_SIZE cfg < 2 ^ 32 ->
  0 <= g_next_kernel_stack_virt_base s < 2 ^ 32 ->
  frame_kept pd kpd g C s ->
  allocate_kernel_stack cfg proc s = Ret (ok, proc') s' ->
  frame_kept pd kpd g C s' /\
  (ok = true -> clean pd (vpn (kernel_stack_vaddr_top proc' - PAGE_SIZE)) s').
Proof.
  intros Hpd Hpd0 Hrange HC Hsize Hnext Hs H.
  pose proof H as Hspec.
  apply (allocate_kernel_stack_spec _ _ _ _ _ _ Hsize Hnext) in Hspec.
  destruct Hspec as (_ & evs & _ & Hspec).
  unfold allocate_kernel_stack in H.
  destruct (_ || _).
  { apply ret_inv in H. destruct H as [H <-]. injection H as <- <-.
    split; [exact Hs | discriminate]. }
  bind_inv H okm s1 H1. pose proof (kmalloc_kept _ _ _ _ _ _ _ Hs H1) as Hs1.
  destruct okm; cbn [negb] in H.
  2:{ apply ret_inv in H. destruct H as [H <-]. injection H as <- <-.
      split; [exact Hs1 | discriminate]. }
  bind_inv H fr s2 H2.
  destruct (alloc_stack_frames_kept pd kpd g C Hpd0 _ [] (List.Forall_nil _) _ _ _ Hs1 H2)
    as [Hs2 Hfr].
  destruct fr as [frames|].
  2:{ apply ret_inv in H. destruct H as [H <-]. injection H as <- <-.
      split; [exact Hs2 | discriminate]. }
  specialize (Hfr frames eq_refl).
  bind_inv H base s3 H3. apply gets_inv in H3. destruct H3 as [-> ->].
  destruct (_ || _).
  { bind_inv H u4 s4 H4. pose proof (put_frames_kept _ _ _ _ _ _ _ _ Hs2 H4) as Hs4.
    bind_inv H u5 s5 H5. pose proof (kfree_kept _ _ _ _ _ _ _ _ Hs4 H5) as Hs5.
    apply ret_inv in H. destruct H as [H <-]. injection H as <- <-.
    split; [exact Hs5 | discriminate]. }
  bind_inv H u4 s4 H4. pose proof (set_next_kstack_kept _ _ _ _ _ _ _ _ Hs2 H4) as Hs4.
  bind_inv H u5 s5 H5. apply assert_inv in H5. destruct H5 as [_ ->].
  bind_inv H mapped s6 H6.
  destruct (map_stack_pages_kept pd kpd g _ _ _ Hpd Hpd0 Hrange Hfr 0 C HC _ _ _ Hs4 H6)
    as [Hs6 Hc6].
  destruct mapped; cbn [negb] in H.
  2:{ apply ret_inv in H. destruct H as [H <-]. injection H as <- <-.
      split; [exact Hs6 | discriminate]. }
  bind_inv H u7 s7 H7. pose proof (kfree_kept _ _ _ _ _ _ _ _ Hs6 H7) as Hs7.
  apply emit_inv in H7. subst s7.
  apply ret_inv in H. destruct H as [H <-]. injection H as <- <-.
  split; [exact Hs7|]. intros _.
  cbn [kernel_stack_vaddr_top set_kernel_stack_vaddr_top] in *.
  destruct Hspec as (Hreg & Htop & _ & Hal & _).
  destruct Hreg as (Hpos & Hmod & Hlo & Hhi).
  cbn [kernel_stack_vaddr_top set_kernel_stack_vaddr_top] in *.
  set (size := PROCESS_KSTACK_SIZE cfg) in *.
  set (base := g_next_kernel_stack_virt_base s) in *.
  assert (Hbase2 : g_next_kernel_stack_virt_base s2 = base).
  { exact (allocate_kernel_stack_spec_base _ _ _ _ _ _ _ H1 H2). }
  rewrite Hbase2 in *.
  assert (Hsz : size = PAGE_SIZE * (size / PAGE_SIZE)).
  { pose proof (Z.div_mod size PAGE_SIZE ltac:(discriminate)). lia. }
  assert (Hn : 1 <= size / PAGE_SIZE) by (unfold PAGE_SIZE in *; lia).
  specialize (Hc6 eq_refl (size / PAGE_SIZE - 1)).
  rewrite Z2Nat.id in Hc6 by lia. specialize (Hc6 ltac:(lia)).
  rewrite Z.add_0_l in Hc6.
  rewrite stack_page_addr in Hc6;
    [| unfold KERNEL_STACK_VIRT_START in *; lia | lia
     | unfold KERNEL_STACK_VIRT_END in *; rewrite pow32; unfold PAGE_SIZE in *; lia].
  intros pte Hpte. apply (Hc6 pte). cbn [ptes g_kernel_page_directory_phys set_trace].
  replace (base + PAGE_SIZE * (size / PAGE_SIZE - 1)) with (wrap32 (base + size) - PAGE_SIZE);
    [exact Hpte|].
  rewrite Htop. lia.
Qed.

Lemma lor_range32 a b :
  0 <= a < 2 ^ 32 -> 0 <= b < 2 ^ 32 -> 0 <= Z.lor a b < 2 ^ 32.
Proof.
  intros Ha Hb. split; [apply Z.lor_nonneg; lia|].
  destruct (Z.eq_dec (Z.lor a b) 0) as [->|Hne]; [lia|].
  assert (Hpos : 0 < Z.lor a b).
  { assert (0 <= Z.lor a b) by (apply Z.lor_nonneg; lia). lia. }
  apply Z.log2_lt_pow2; [exact Hpos|].
  rewrite Z.log2_lor by lia.
  apply Z.max_lub_lt.
  - destruct (Z.eq_dec a 0) as [->|Ha0]; [reflexivity | apply Z.log2_lt_pow2; lia].
  - destruct (Z.eq_dec b 0) as [->|Hb0]; [reflexivity | apply Z.log2_lt_pow2; lia].
Qed.

(** What a successful [paging_temp_map] does. *)
Lemma temp_map_spec p s t s' :
  paging_temp_map p s = Ret t s' -> t <> 0 ->
  t = PAGING_TEMP_VADDR /\ p mod PAGE_SIZE = 0 /\
  ptes s' = <[(g_kernel_page_directory_phys s, temp_vpn)
                := Z.lor p PTE_KERNEL_DATA_FLAGS]> (ptes s) /\
  g_kernel_page_directory_phys s' = g_kernel_page_directory_phys s /\
  phys s' = phys s /\ frame_script s' = frame_script s.
Proof.
  unfold paging_temp_map, paging_temp_map_raw. intros H Ht.
  bind_inv H u s1 H1. apply emit_inv in H1. subst s1.
  destruct (page_aligned p) eqn:Hal.
  - bind_inv H u2 s2 H2. apply modify_inv in H2. subst s2.
    apply ret_inv in H. destruct H as [<- <-]. cbn.
    apply page_aligned_iff in Hal. auto 10.
  - apply ret_inv in H. destruct H as [<- _]. contradiction.
Qed.

Lemma inert_translate v :
  inert (fun _ => false) (fun q => q = vpn v)
    (fun s => translate s (g_kernel_page_directory_phys s) v).
Proof.
  constructor; try reflexivity.
  intros m s H. unfold translate. cbn. rewrite H by reflexivity. reflexivity.
Qed.

(** Under a window, a word read through the kernel mapping is the word in
    physical memory. *)
Lemma window_pload32 lo hi d s v :
  window lo hi d s -> lo <= v -> v + 4 <= hi -> 0 <= lo -> hi <= 2 ^ 32 ->
  kload32 s v = Some (pload32 s (v + d)).
Proof.
  intros Hw Hlo Hhi H0 H32. unfold kload32, kload8, pload32.
  rewrite !wrap32_small by lia.
  rewrite (Hw v), (Hw (v + 1)), (Hw (v + 2)), (Hw (v + 3)) by lia.
  replace (v + 1 + d) with (v + d + 1) by lia.
  replace (v + 2 + d) with (v + d + 2) by lia.
  replace (v + 3 + d) with (v + d + 3) by lia.
  reflexivity.
Qed.

(** Stores change physical memory only. *)
Lemma kstore8_script v b : preserves frame_script (kstore8 v b).
Proof.
  intros s a s' H. unfold kstore8 in H.
  destruct (translate s _ v); [|discriminate H]. inversion H; subst. reflexivity.
Qed.

Lemma kstore32_script v w : preserves frame_script (kstore32 v w).
Proof. unfold kstore32. repeat pres_step; apply kstore8_script. Qed.

Lemma memset_script n : forall p c, preserves frame_script (memset p c n).
Proof.
  induction n as [|n IH]; intros p c; cbn [memset]; repeat pres_step;
    [apply kstore8_script | apply IH].
Qed.

Lemma copy_pde_slots_script n : forall d i, preserves frame_script (copy_pde_slots d i n).
Proof.
  induction n as [|n IH]; intros d i; cbn [copy_pde_slots]; repeat pres_step;
    [apply kstore32_script | apply IH].
Qed.

Lemma copy_kernel_pde_entries_script d :
  preserves frame_script (copy_kernel_pde_entries d).
Proof.
  unfold copy_kernel_pde_entries. repeat pres_step.
  - apply preserves_modify. reflexivity.
  - apply copy_pde_slots_script.
Qed.

Lemma prepare_fields cfg proc s proc' s' :
  prepare_initial_kernel_stack cfg proc s = Ret proc' s' ->
  page_directory_phys proc' = page_directory_phys proc.
Proof.
  intros H. unfold prepare_initial_kernel_stack in H.
  bind_inv H a1 t1 A1. bind_inv H a2 t2 A2. bind_inv H a3 t3 A3.
  bind_inv H p1 s1 H1. bind_inv H p2 s2 H2. bind_inv H p3 s3 H3.
  bind_inv H p4 s4 H4. bind_inv H p5 s5 H5.
  apply ret_inv in H. destruct H as [<- _]. reflexivity.
Qed.

(** C4 (amended): when [create_user_process] succeeds and the allocator
    does not hand out the frame of the new page directory a second time,
    entry 1023 of that directory holds the directory's own physical address
    with the present, read/write and no-execute bits: NX is set beside
    present and read/write. *)
Theorem create_user_process_recursive_pde cfg path s pcb s' :
  0 <= PROCESS_KSTACK_SIZE cfg < 2 ^ 32 ->
  0 <= g_next_kernel_stack_virt_base s < 2 ^ 32 ->
  Forall (fun p => 0 <= p < 2 ^ 32) (frame_script s) ->
  (forall rest, frame_script s = page_directory_phys pcb :: rest ->
                ~ In (page_directory_phys pcb) rest) ->
  create_user_process cfg path s = Ret (Some pcb) s' ->
  pload32 s' (page_directory_phys pcb + 4 * RECURSIVE_PDE_INDEX) =
    Z.lor (Z.lor (Z.lor (page_directory_phys pcb) PAGE_PRESENT) PAGE_RW) PAGE_NX_BIT.
Proof.
  intros Hsize Hnext Hscr Hfresh H. unfold create_user_process in H.
  bind_inv H ok s1 H1.
  assert (Hscr1 : frame_script s1 = frame_script s).
  { unfold kmalloc in H1. inversion H1; subst. reflexivity. }
  pose proof (pres_kmalloc _ _ _ (inert_next_kstack (fun _ => False)) loud_ok_none
                _ _ _ H1) as Hn1.
  destruct ok; cbn [negb] in H.
  2:{ apply ret_inv in H. destruct H as [H _]. discriminate H. }
  bind_inv H pid0 s2 H2. apply gets_inv in H2. destruct H2 as [-> ->].
  bind_inv H u3 s3 H3. apply modify_inv in H3. subst s3.
  bind_inv H r s4 H4.
  destruct r as [c|proc].
  { bind_inv H u5 s5 H5. apply ret_inv in H. destruct H as [H _]. discriminate H. }
  apply ret_inv in H. destruct H as [H <-]. injection H as ->.
  unfold build_user_process in H4.
  bind_inv H4 pd t2 K2.
  destruct (pd =? 0) eqn:Hpd0.
  { apply ret_inv in H4. destruct H4 as [H4 _]. discriminate H4. }
  apply Z.eqb_neq in Hpd0.
  bind_inv H4 t t3 K3.
  destruct (t =? 0) eqn:Ht0.
  { apply ret_inv in H4. destruct H4 as [H4 _]. discriminate H4. }
  apply Z.eqb_neq in Ht0.
  bind_inv H4 u4 t4 K4. bind_inv H4 u5 t5 K5. bind_inv H4 u6 t6 K6.
  bind_inv H4 u7 t7 K7.
  pose proof (pd_setup_inert _ _ _ _ _ _ _ _ _ _ _ _ _ _ _ _ _
                (inert_next_kstack _) loud_ok_none K2 K3 K4 K5 K6 K7) as Hn7.
  cbn in Hn7.
  (* the frame of the directory *)
  destruct (frame_alloc_spec _ _ _ K2) as (_ & _ & _ & _ & Hhead).
  destruct (Hhead Hpd0) as (rest & Hscr2 & Hrest). cbn in Hscr2.
  rewrite Hscr1 in Hscr2.
  destruct (temp_map_spec _ _ _ _ K3 Ht0) as (-> & Hal & Hp3 & Hk3 & Hph3 & Hs3).
  assert (Hpdr : 0 <= pd < 2 ^ 32).
  { rewrite Hscr2 in Hscr. inversion Hscr; subst. assumption. }
  (* the word stored through the temporary mapping *)
  assert (Hwin3 : window PAGING_TEMP_VADDR (PAGING_TEMP_VADDR + PAGE_SIZE)
                    (pd - PAGING_TEMP_VADDR) t3).
  { intros v Hv. unfold translate. rewrite (temp_page_vpn v Hv), Hk3, Hp3.
    rewrite lookup_insert_eq.
    rewrite present_lor_flags by reflexivity.
    rewrite pte_frame_lor by (try assumption; reflexivity).
    f_equal. rewrite page_offset_mod.
    assert (Hm : v mod PAGE_SIZE = v - PAGING_TEMP_VADDR).
    { symmetry. apply (Z.mod_unique_pos v PAGE_SIZE 0xFFBFF);
        unfold PAGING_TEMP_VADDR, PAGE_SIZE in *; lia. }
    rewrite Hm. lia. }
  assert (Hwin5 : window PAGING_TEMP_VADDR (PAGING_TEMP_VADDR + PAGE_SIZE)
                    (pd - PAGING_TEMP_VADDR) t5).
  { intros v Hv.
    rewrite (pres_copy_kernel_pde_entries _ _ _ (inert_translate v) loud_ok_none
               _ _ _ _ K5).
    rewrite (pres_memset _ _ _ (inert_translate v) _ _ _ _ _ _ K4).
    apply Hwin3, Hv. }
  set (W := Z.lor (Z.lor (Z.lor (Z.land pd PAGING_ADDR_MASK) PAGE_PRESENT) PAGE_RW)
              PAGE_NX_BIT) in *.
  assert (Hland : Z.land pd PAGING_ADDR_MASK = pd).
  { change (Z.land pd PAGING_ADDR_MASK) with (pte_frame pd).
    rewrite <- (Z.lor_0_r pd) at 1.
    apply pte_frame_lor; [exact Hpdr | exact Hal | reflexivity]. }
  assert (HW : 0 <= W < 2 ^ 32).
  { unfold W. rewrite Hland.
    apply lor_range32; [apply lor_range32; [apply lor_range32; [exact Hpdr|]|]|];
      rewrite pow32; unfold PAGE_PRESENT, PAGE_RW, PAGE_NX_BIT, PAGE_OS_AVAILABLE_1; lia. }
  change (wrap32 (PAGING_TEMP_VADDR + 4 * RECURSIVE_PDE_INDEX))
    with (PAGING_TEMP_VADDR + 4092) in K6.
  pose proof K6 as K6s.
  apply (kstore32_window _ _ _ _ _ _ _ _ Hwin5) in K6;
    [| unfold PAGING_TEMP_VADDR; lia
     | unfold PAGING_TEMP_VADDR, PAGE_SIZE; rewrite pow32; lia
     | lia | unfold PAGE_SIZE; lia | exact HW].
  destruct K6 as (Hwin6 & Hload & _).
  rewrite (window_pload32 _ _ _ _ _ Hwin6) in Hload;
    [| lia | unfold PAGE_SIZE; lia | unfold PAGING_TEMP_VADDR; lia
     | unfold PAGING_TEMP_VADDR, PAGE_SIZE; rewrite pow32; lia].
  injection Hload as Hload.
  replace (PAGING_TEMP_VADDR + 4092 + (pd - PAGING_TEMP_VADDR)) with (pd + 4092)
    in Hload by lia.
  (* the rest of the call *)
  bind_inv H4 res t8 K8. destruct res as [ok proc2].
  destruct ok; cbn [negb] in H4.
  2:{ apply ret_inv in H4. destruct H4 as [H4 _]. discriminate H4. }
  assert (Hnext7 : 0 <= g_next_kernel_stack_virt_base t7 < 2 ^ 32)
    by (rewrite Hn7, Hn1; exact Hnext).
  destruct (allocate_kernel_stack_spec _ _ _ _ _ _ Hsize Hnext7 K8)
    as (_ & evs & _ & Hreg & Htop & _ & Hbal & _ & phys_base & Hproc2).
  assert (Htmod : kernel_stack_vaddr_top proc2 mod PAGE_SIZE = 0).
  { destruct Hreg as (_ & Hmod & _). rewrite Htop, Zplus_mod, Hbal, Hmod. reflexivity. }
  assert (Htrange : PAGE_SIZE <= kernel_stack_vaddr_top proc2 <= 2 ^ 32).
  { destruct Hreg as (Hpos & _ & Hlo & Hhi).
    unfold KERNEL_STACK_VIRT_START, KERNEL_STACK_VIRT_END, PAGE_SIZE in *.
    rewrite pow32. lia. }
  assert (Hpd2 : page_directory_phys proc2 = pd) by (rewrite Hproc2; reflexivity).
  bind_inv H4 u9 t9 K9. bind_inv H4 cm t10 K10.
  destruct cm as [m|].
  2:{ apply ret_inv in H4. destruct H4 as [H4 _]. discriminate H4. }
  bind_inv H4 loaded t11 K11. destruct loaded as [[[res m'] entry] brk].
  destruct (negb (res =? 0)).
  { apply ret_inv in H4. destruct H4 as [H4 _]. discriminate H4. }
  pose proof H4 as Hfin. apply finish_success_inv in Hfin.
  destruct Hfin as (proc9 & s9 & Hprep & _ & Hpd9 & _).
  apply prepare_fields in Hprep. cbn in Hpd9.
  assert (Hpcb : page_directory_phys pcb = pd) by congruence.
  rewrite Hpcb in *. clear Hprep Hpd9.
  specialize (Hfresh rest Hscr2).
  (* from here on the frame is out of reach *)
  set (kpd := g_kernel_page_directory_phys t7).
  assert (Hkept7 : frame_kept pd kpd (phys t6) (fun q => q = temp_vpn) t7).
  { unfold paging_temp_unmap, paging_temp_unmap_raw in K7.
    bind_inv K7 e8 t8' E8. apply emit_inv in E8. subst t8'.
    apply modify_inv in K7. subst kpd t7. constructor; cbn.
    - assert (Hs6 : frame_script t6 = rest).
      { rewrite (kstore32_script _ _ _ _ _ K6s).
        rewrite (copy_kernel_pde_entries_script _ _ _ _ K5).
        rewrite (memset_script _ _ _ _ _ _ K4).
        rewrite Hs3. exact Hrest. }
      rewrite Hs6. rewrite Hscr2 in Hscr. inversion Hscr as [|? ? _ Hr]; subst.
      apply List.Forall_forall. intros p Hp. split.
      + intros ->. exact (Hfresh Hp).
      + exact (proj1 (List.Forall_forall _ _) Hr p Hp).
    - intros q -> pte. cbn. rewrite lookup_delete_eq. discriminate.
    - reflexivity.
    - reflexivity. }
  destruct (allocate_kernel_stack_kept pd kpd _ _ cfg _ _ _ _ _ Hal Hpd0 Hpdr eq_refl
              Hsize Hnext7 Hkept7 K8) as [Hkept8 Hclean].
  specialize (Hclean eq_refl).
  pose proof (kept_add _ _ _ _ _ _ Hkept8 Hclean) as Hkept8'.
  set (C := fun q => q = temp_vpn \/ q = vpn (kernel_stack_vaddr_top proc2 - PAGE_SIZE))
    in Hkept8'.
  pose proof (tss_set_kept _ _ _ _ _ _ _ _ Hkept8' K9) as Hkept9.
  pose proof (create_mm_kept _ _ _ _ _ _ _ _ Hkept9 K10) as Hkept10.
  pose proof (load_elf_kept pd kpd _ C Hal Hpd0 Hpdr (or_introl eq_refl)
                _ _ _ _ _ _ _ Hkept10 K11) as Hkept11.
  pose proof (finish_kept pd kpd _ C Hal Hpd0 Hpdr (or_introl eq_refl)
                cfg (set_mm (Some (set_brk brk m'))
                       (set_entry_point entry (set_mm (Some m') (set_mm (Some m) proc2))))
                _ _ Htmod Htrange (or_intror eq_refl) _ _ _ Hkept11 H4)
    as Hkept.
  unfold pload32 in Hload |- *.
  change (4 * RECURSIVE_PDE_INDEX) with 4092.
  rewrite !(fk_phys _ _ _ _ _ Hkept) by (unfold PAGE_SIZE; lia).
  rewrite Hload. unfold W. rewrite Hland. reflexivity.
Qed.

Lemma create_user_process_recursive_pde_witness :
  exists s',
    create_user_process cfg0 "/kernel.bin" (boot_state scenario_elf)
      = Ret (Some demo_pcb) s' /\
    pload32 s' (page_directory_phys demo_pcb + 4 * RECURSIVE_PDE_INDEX) =
      Z.lor (Z.lor (Z.lor (page_directory_phys demo_pcb) PAGE_PRESENT) PAGE_RW)
        PAGE_NX_BIT.
Proof.
  assert (Hv : outcome_value
                 (create_user_process cfg0 "/kernel.bin" (boot_state scenario_elf))
               = Some (Some demo_pcb)) by (vm_compute; reflexivity).
  destruct (create_user_process cfg0 "/kernel.bin" (boot_state scenario_elf))
    as [r s'| |] eqn:Hrun; try discriminate Hv.
  cbn in Hv. injection Hv as ->.
  exists s'. split; [reflexivity|].
  apply (create_user_process_recursive_pde cfg0 "/kernel.bin"
           (boot_state scenario_elf) demo_pcb s').
  - cbn. lia.
  - cbn. lia.
  - cbn. repeat (constructor; [lia|]). constructor.
  - intros rest Heq. cbn in Heq. injection Heq as <-. cbn.
    intros Hin. repeat (destruct Hin as [Hin|Hin]; [discriminate Hin|]). exact Hin.
  - exact Hrun.
Defined.

(** C4 as stated fails: in the directory of the process made from
    [scenario_elf], at 0x500000, entry 1023 is 0x500203, while the address
    with only present and read/write is 0x500003. *)
Lemma create_user_process_pde_has_nx :
  outcome_value (create_user_process cfg0 "/kernel.bin" (boot_state scenario_elf))
    = Some (Some demo_pcb) /\
  option_map
    (fun s => pload32 s (page_directory_phys demo_pcb + 4 * RECURSIVE_PDE_INDEX))
    (outcome_state (create_user_process cfg0 "/kernel.bin" (boot_state scenario_elf)))
    = Some 0x500203 /\
  Z.lor (Z.lor (page_directory_phys demo_pcb) PAGE_PRESENT) PAGE_RW = 0x500003.
Proof. vm_compute. repeat split; reflexivity. Qed.

End DirectoryFacts.
Import DirectoryFacts.

(** ** Segment contents *)

Module SegmentFacts.

(** C2 fails for a segment that does not start on a page boundary.  The
    file [unaligned_elf] has one PT_LOAD with [p_vaddr = 0x08048004],
    [p_filesz = 4] and [p_memsz = 8]; the loader accepts it, and the four
    file bytes 1, 2, 3, 4 land at 0x08048000, the start of the page, while
    the bytes at [p_vaddr] are zero: [copy_elf_segment_data] always copies
    to offset 0 of the frame. *)
Theorem load_elf_misplaces_unaligned_segment :
  loadable unaligned_elf 0 = true /\
  p_vaddr unaligned_elf 0 = 0x08048004 /\
  exists m' s',
    load_elf_and_init_memory "/kernel.bin" mm0 0 0 (boot_state unaligned_elf)
      = Ret (0, m', 0x08048004, 0x08049000) s' /\
    nth (Z.to_nat (p_offset unaligned_elf 0)) unaligned_elf Byte.x00 = Byte.x01 /\
    uload8 s' (pgd_phys mm0) 0x08048004 = Some Byte.x00 /\
    uload8 s' (pgd_phys mm0) 0x08048000 = Some Byte.x01 /\
    ~ segment_loaded s' (pgd_phys mm0) unaligned_elf 0.
Proof.
  split; [vm_compute; reflexivity|]. split; [vm_compute; reflexivity|].
  assert (Hv : load_summary
                 (load_elf_and_init_memory "/kernel.bin" mm0 0 0
                    (boot_state unaligned_elf))
               = Some (0, 0x08048004, 0x08049000)) by (vm_compute; reflexivity).
  assert (Hb : loaded_bytes
                 (load_elf_and_init_memory "/kernel.bin" mm0 0 0
                    (boot_state unaligned_elf))
                 (pgd_phys mm0) [0x08048004; 0x08048000]
               = [Some Byte.x00; Some Byte.x01]) by (vm_compute; reflexivity).
  destruct (load_elf_and_init_memory "/kernel.bin" mm0 0 0 (boot_state unaligned_elf))
    as [[[[r m'] e] b] s'| |] eqn:Hrun; try discriminate Hv.
  cbn in Hv. injection Hv as -> -> ->.
  cbn [loaded_bytes map] in Hb. injection Hb as Hb0 Hb1.
  exists m', s'. split; [reflexivity|].
  assert (Hfile : nth (Z.to_nat (p_offset unaligned_elf 0)) unaligned_elf Byte.x00
                  = Byte.x01) by (vm_compute; reflexivity).
  split; [exact Hfile|]. split; [exact Hb0|]. split; [exact Hb1|].
  intros [Hdata _].
  specialize (Hdata 0).
  assert (Hsz : 0 <= 0 < p_filesz unaligned_elf 0) by (vm_compute; split; [discriminate | reflexivity]).
  specialize (Hdata Hsz).
  replace (p_vaddr unaligned_elf 0 + 0) with 0x08048004 in Hdata
    by (vm_compute; reflexivity).
  rewrite Z.add_0_r, Hfile in Hdata.
  change (uload8 s' (pgd_phys mm0) 134512644) with (uload8 s' 4194304 134512644) in Hdata.
  rewrite Hb0 in Hdata. discriminate Hdata.
Qed.

End SegmentFacts.
Import SegmentFacts.

(** ** Kernel stacks, once more *)

Module StackProps.

Ltac bind_inv H a s1 H1 :=
  apply bind_ret_inv in H; destruct H as (a & s1 & H1 & H).

(** A mapping that succeeds writes the PTE it was asked for. *)
Lemma map_single_ok pd v p fl s s' :
  paging_map_single_4k pd v p fl s = Ret MapOk s' ->
  ptes s' !! (pd, vpn v) = Some (Z.lor (pte_frame p) fl).
Proof.
  intros H. unfold paging_map_single_4k in H.
  bind_inv H r s1 H1. bind_inv H u s2 H2. apply emit_inv in H2. subst s2.
  apply ret_inv in H. destruct H as [-> <-]. cbn [ptes set_trace].
  unfold paging_map_single_4k_raw in H1.
  destruct (negb _); [apply ret_inv in H1; destruct H1 as [H1 _]; discriminate H1|].
  destruct (_ && _); [apply ret_inv in H1; destruct H1 as [H1 _]; discriminate H1|].
  bind_inv H1 ok s2 H2. destruct ok; cbn [negb] in H1;
    [|apply ret_inv in H1; destruct H1 as [H1 _]; discriminate H1].
  bind_inv H1 old s3 H3. apply gets_inv in H3. destruct H3 as [-> ->].
  bind_inv H1 u3 s3 H3. apply modify_inv in H3. subst s3.
  assert (Hput : forall q s4 u4,
            (if pte_present q && negb (pte_frame q =? pte_frame p)
             then put_frame_raw (pte_frame q) else ret tt)
              (set_ptes (<[(pd, vpn v) := Z.lor (pte_frame p) fl]> (ptes s2)) s2)
              = Ret u4 s4 ->
            ptes s4 = <[(pd, vpn v) := Z.lor (pte_frame p) fl]> (ptes s2)).
  { intros q s4 u4 Hq. destruct (_ && _).
    - unfold put_frame_raw in Hq. apply modify_inv in Hq. subst s4. cbn.
      destruct (frame_refs s2 !! pte_frame q) as [[|?]|]; reflexivity.
    - apply ret_inv in Hq. destruct Hq as [_ <-]. reflexivity. }
  destruct (ptes s2 !! (pd, vpn v)) as [q|].
  - bind_inv H1 u4 s4 H4. apply ret_inv in H1. destruct H1 as [_ <-].
    rewrite (Hput _ _ _ H4). apply lookup_insert_eq.
  - apply ret_inv in H1. destruct H1 as [_ <-]. cbn. apply lookup_insert_eq.
Qed.

(** A mapping elsewhere leaves the PTE of a kernel-stack page alone. *)
Lemma map_single_stack_other pd v p fl s r s' pd0 v0 :
  KERNEL_STACK_VIRT_START <= v0 < KERNEL_STACK_VIRT_END ->
  vpn v <> vpn v0 ->
  paging_map_single_4k pd v p fl s = Ret r s' ->
  ptes s' !! (pd0, vpn v0) = ptes s !! (pd0, vpn v0).
Proof.
  intros Hv0 Hne H. unfold paging_map_single_4k in H.
  bind_inv H r1 s1 H1. bind_inv H u s2 H2. apply emit_inv in H2. subst s2.
  apply ret_inv in H. destruct H as [_ <-]. cbn [ptes set_trace].
  exact (pres_map_single_raw _ _ _ (inert_pte_at pd0 (vpn v0))
           (kernel_only_stack_page v0 Hv0) pd v p fl Hne _ _ _ H1).
Qed.

(** The mapping loop of [allocate_kernel_stack], when it succeeds: page
    [k] of the stack is mapped to frame [k] of the list. *)
Lemma map_stack_pages_mapped base frames n : forall i s s',
  map_stack_pages n i base frames s = Ret true s' ->
  0 <= i -> base mod PAGE_SIZE = 0 -> KERNEL_STACK_VIRT_START <= base ->
  base + PAGE_SIZE * (i + Z.of_nat n) <= KERNEL_STACK_VIRT_END ->
  (forall k, i <= k < i + Z.of_nat n ->
     ptes s' !! (g_kernel_page_directory_phys s, vpn base + k)
       = Some (Z.lor (pte_frame (nth (Z.to_nat k) frames 0)) PTE_KERNEL_DATA_FLAGS)) /\
  (forall k, 0 <= k < i ->
     ptes s' !! (g_kernel_page_directory_phys s, vpn base + k)
       = ptes s !! (g_kernel_page_directory_phys s, vpn base + k)).
Proof.
  induction n as [|n IH]; intros i s s' H Hi Hal Hlo Hhi; cbn [map_stack_pages] in H.
  - apply ret_inv in H. destruct H as [_ <-]. split; [intros k Hk; lia | auto].
  - assert (Hb : 0 <= base) by (unfold KERNEL_STACK_VIRT_START in Hlo; lia).
    rewrite stack_page_addr in H;
      [| exact Hb | exact Hi
       | unfold KERNEL_STACK_VIRT_END, PAGE_SIZE in *; rewrite pow32; lia].
    bind_inv H kpd s0 H0. apply gets_inv in H0. destruct H0 as [-> ->].
    bind_inv H r s1 H1.
    pose proof (map_single_spec _ _ _ _ _ _ _ H1) as (_ & Hk1 & _).
    assert (Hvpn : forall k, vpn (base + PAGE_SIZE * k) = vpn base + k)
      by (intros k; apply stack_page_vpn, Hal).
    assert (Hreg : forall k, 0 <= k < i + Z.of_nat (S n) ->
              KERNEL_STACK_VIRT_START <= base + PAGE_SIZE * k < KERNEL_STACK_VIRT_END)
      by (intros k Hk; unfold PAGE_SIZE in *; lia).
    destruct r.
    2-4: (bind_inv H u2 s2 H2; bind_inv H u3 s3 H3; bind_inv H u4 s4 H4;
          bind_inv H u5 s5 H5; apply ret_inv in H; destruct H as [H _];
          discriminate H).
    apply IH in H; [| lia | exact Hal | exact Hlo | lia].
    rewrite Hk1 in H. destruct H as [Hnew Hold].
    split.
    + intros k Hk. destruct (Z.eq_dec k i) as [->|Hne].
      * rewrite Hold by lia. rewrite <- Hvpn. apply (map_single_ok _ _ _ _ _ _ H1).
      * apply Hnew. lia.
    + intros k Hk. rewrite Hold by lia.
      rewrite <- (Hvpn k).
      refine (map_single_stack_other _ _ _ _ _ _ _ _ _ (Hreg k ltac:(lia)) _ H1).
      rewrite !Hvpn. lia.
Qed.

(** X1: when [allocate_kernel_stack] succeeds, the stack is the next
    [PROCESS_KSTACK_SIZE] bytes of the kernel-stack region: it starts at the
    old bump pointer, which is page-aligned, the bump pointer moves to its
    top, and page [k] of it is mapped in the kernel page directory, with
    the kernel data flags, to the [k]-th frame the call got from
    [frame_alloc]; no frame was given back. *)
Theorem allocate_kernel_stack_maps cfg proc s proc' s' :
  0 <= PROCESS_KSTACK_SIZE cfg < 2 ^ 32 ->
  0 <= g_next_kernel_stack_virt_base s < 2 ^ 32 ->
  allocate_kernel_stack cfg proc s = Ret (true, proc') s' ->
  kernel_stack_vaddr_top proc'
    = g_next_kernel_stack_virt_base s + PROCESS_KSTACK_SIZE cfg /\
  g_next_kernel_stack_virt_base s' = kernel_stack_vaddr_top proc' /\
  kstack_in_region cfg (kernel_stack_vaddr_top proc') /\
  g_next_kernel_stack_virt_base s mod PAGE_SIZE = 0 /\
  exists evs,
    trace s' = trace s ++ evs /\
    frames_released evs = [] /\
    length (frames_allocated evs) = Z.to_nat (PROCESS_KSTACK_SIZE cfg / PAGE_SIZE) /\
    kernel_stack_phys_base proc' = nth 0 (frames_allocated evs) 0 /\
    forall k, 0 <= k < PROCESS_KSTACK_SIZE cfg / PAGE_SIZE ->
      ptes s' !! (g_kernel_page_directory_phys s',
                  vpn (g_next_kernel_stack_virt_base s) + k)
        = Some (Z.lor (pte_frame (nth (Z.to_nat k) (frames_allocated evs) 0))
                  PTE_KERNEL_DATA_FLAGS).
Proof.
  intros Hsize Hnext H.
  destruct (allocate_kernel_stack_spec _ _ _ _ _ _ Hsize Hnext H)
    as (Hkpd & _ & _ & Hreg & Htop & Hn' & Hal & _).
  split; [exact Htop|]. split; [exact Hn'|]. split; [exact Hreg|].
  split; [exact Hal|].
  unfold allocate_kernel_stack in H.
  destruct (_ || _);
    [apply ret_inv in H; destruct H as [H _]; discriminate H|].
  bind_inv H ok s1 H1.
  apply kmalloc_spec in H1. destruct H1 as (Ht1 & Hp1 & Hk1 & Hn1).
  destruct ok; cbn [negb] in H;
    [|apply ret_inv in H; destruct H as [H _]; discriminate H].
  bind_inv H fr s2 H2.
  apply alloc_stack_frames_spec in H2.
  destruct H2 as (Hp2 & Hk2 & Hn2 & new & Hnew & Hfr).
  destruct fr as [frames|];
    [|apply ret_inv in H; destruct H as [H _]; discriminate H].
  destruct Hfr as (Hfr & Hlen & Ht2). cbn [app] in Hfr. subst frames.
  bind_inv H base s3 H3. apply gets_inv in H3. destruct H3 as [-> ->].
  assert (Hbase : g_next_kernel_stack_virt_base s2 = g_next_kernel_stack_virt_base s)
    by congruence.
  rewrite Hbase in H.
  destruct (_ || _).
  { bind_inv H u4 s4 H4. bind_inv H u5 s5 H5.
    apply ret_inv in H. destruct H as [H _]. discriminate H. }
  bind_inv H u4 s4 H4. apply modify_inv in H4. subst s4.
  bind_inv H u5 s5 H5. apply assert_inv in H5. destruct H5 as [_ ->].
  bind_inv H mapped s6 H6.
  destruct mapped; cbn [negb] in H;
    [|apply ret_inv in H; destruct H as [H _]; discriminate H].
  bind_inv H u7 s7 H7. apply emit_inv in H7. subst s7.
  apply ret_inv in H. destruct H as [H <-]. injection H as <-.
  destruct Hreg as (Hpos & Hmod & Hlo & Hhi).
  rewrite Htop in Hlo, Hhi.
  set (size := PROCESS_KSTACK_SIZE cfg) in *.
  set (base := g_next_kernel_stack_virt_base s) in *.
  assert (Hsz : size = PAGE_SIZE * (size / PAGE_SIZE)).
  { pose proof (Z.div_mod size PAGE_SIZE ltac:(discriminate)). lia. }
  assert (Hn0 : 0 <= size / PAGE_SIZE) by (apply Z.div_pos; [lia | reflexivity]).
  pose proof H6 as H6'.
  apply map_stack_pages_spec in H6';
    [| lia | unfold KERNEL_STACK_VIRT_START in Hlo; lia | exact Hal
     | rewrite Z2Nat.id by exact Hn0; unfold KERNEL_STACK_VIRT_END in Hhi;
       rewrite pow32; lia].
  destruct H6' as (Hk6 & evs & Ht6 & Ha6 & _ & Hr6).
  cbn [g_kernel_page_directory_phys set_next_kstack] in Hk6.
  apply map_stack_pages_mapped in H6;
    [| lia | exact Hal | lia | rewrite Z2Nat.id by exact Hn0; lia].
  destruct H6 as [Hmapped _]. cbn [g_kernel_page_directory_phys set_next_kstack] in Hmapped.
  exists ([EvKmalloc true] ++ map EvFrameAlloc new ++ evs ++ [EvKfree HeapFrameList]).
  assert (Hfa : frames_allocated
                  ([EvKmalloc true] ++ map EvFrameAlloc new ++ evs ++
                   [EvKfree HeapFrameList]) = new).
  { rewrite !frames_allocated_app, frames_allocated_allocs by exact Hnew.
    rewrite Ha6. cbn. apply app_nil_r. }
  rewrite Hfa. cbn [trace set_trace ptes g_kernel_page_directory_phys
                     kernel_stack_phys_base set_kernel_stack_vaddr_top
                     set_kernel_stack_phys_base].
  split.
  { cbn [trace set_next_kstack] in Ht6.
    rewrite Ht6, Ht2, Ht1, <- !List.app_assoc. reflexivity. }
  split.
  { rewrite !frames_released_app, frames_released_allocs, Hr6. reflexivity. }
  split; [exact Hlen|]. split; [reflexivity|].
  intros k Hk. rewrite Hk6.
  apply Hmapped. rewrite Z2Nat.id by exact Hn0. lia.
Qed.

(** X2: [destroy_process] on a process with a kernel stack unmaps every
    page of that stack from the kernel page directory, and it neither
    rewinds the kernel-stack bump pointer nor touches the TSS: the virtual
    range of the stack is not reclaimed and [esp0] keeps pointing at it. *)
Theorem destroy_process_unmaps_stack cfg pcb s u s' :
  kstack_in_region cfg (kernel_stack_vaddr_top pcb) ->
  kernel_stack_vaddr_top pcb mod PAGE_SIZE = 0 ->
  destroy_process cfg pcb s = Ret u s' ->
  (forall v,
     kernel_stack_vaddr_top pcb - PROCESS_KSTACK_SIZE cfg <= v
       < kernel_stack_vaddr_top pcb ->
     ptes s' !! (g_kernel_page_directory_phys s', vpn v) = None) /\
  g_next_kernel_stack_virt_base s' = g_next_kernel_stack_virt_base s /\
  tss_esp0 s' = tss_esp0 s /\
  g_kernel_page_directory_phys s' = g_kernel_page_directory_phys s.
Proof.
  intros Hreg Hmod H.
  assert (Hnz : kernel_stack_vaddr_top pcb <> 0).
  { destruct Hreg as (Hpos & _ & Hlo & _). unfold KERNEL_STACK_VIRT_START in Hlo. lia. }
  destruct (destroy_process_unmaps _ _ _ _ _ Hnz Hreg Hmod H) as [Hk Hnone].
  split; [rewrite Hk; exact Hnone|].
  split.
  { exact (pres_destroy_process _ _ (inert_next_kstack _) loud_ok_none cfg pcb _ _ _ H). }
  split; [|exact Hk].
  exact (pres_destroy_process _ _ (inert_tss_esp0 _) loud_ok_none cfg pcb _ _ _ H).
Qed.

(** X20: kernel stacks are handed out back to back and never overlap:
    when two calls of [allocate_kernel_stack] in a row succeed, the first
    stack starts at the bump pointer, the second starts where the first
    ends, and both lie in the kernel-stack region. *)
Theorem allocate_kernel_stack_adjacent cfg p1 p2 s p1' s1 p2' s2 :
  0 <= PROCESS_KSTACK_SIZE cfg < 2 ^ 32 ->
  0 <= g_next_kernel_stack_virt_base s < 2 ^ 32 ->
  allocate_kernel_stack cfg p1 s = Ret (true, p1') s1 ->
  allocate_kernel_stack cfg p2 s1 = Ret (true, p2') s2 ->
  kernel_stack_vaddr_top p1' - PROCESS_KSTACK_SIZE cfg
    = g_next_kernel_stack_virt_base s /\
  kernel_stack_vaddr_top p2' - PROCESS_KSTACK_SIZE cfg = kernel_stack_vaddr_top p1' /\
  kernel_stack_vaddr_top p1' < kernel_stack_vaddr_top p2' /\
  kstack_in_region cfg (kernel_stack_vaddr_top p1') /\
  kstack_in_region cfg (kernel_stack_vaddr_top p2').
Proof.
  intros Hsize Hnext H1 H2.
  destruct (allocate_kernel_stack_spec _ _ _ _ _ _ Hsize Hnext H1)
    as (_ & evs1 & _ & Hreg1 & Htop1 & Hn1 & _).
  assert (Hnext1 : 0 <= g_next_kernel_stack_virt_base s1 < 2 ^ 32).
  { rewrite Hn1. destruct Hreg1 as (Hpos & _ & Hlo & Hhi).
    unfold KERNEL_STACK_VIRT_START, KERNEL_STACK_VIRT_END in *. rewrite pow32. lia. }
  destruct (allocate_kernel_stack_spec _ _ _ _ _ _ Hsize Hnext1 H2)
    as (_ & evs2 & _ & Hreg2 & Htop2 & _).
  rewrite Hn1 in Htop2.
  destruct Hreg1 as (Hpos & Hreg1). pose proof (conj Hpos Hreg1) as Hr1.
  split; [lia|]. split; [lia|]. split; [lia|]. split; [exact Hr1 | exact Hreg2].
Qed.

Lemma allocate_kernel_stack_adjacent_witness :
  exists p1' s1 p2' s2,
    allocate_kernel_stack cfg0 proc0 (boot_state []) = Ret (true, p1') s1 /\
    allocate_kernel_stack cfg0 proc0 s1 = Ret (true, p2') s2 /\
    kernel_stack_vaddr_top p1' - PROCESS_KSTACK_SIZE cfg0
      = g_next_kernel_stack_virt_base (boot_state []) /\
    kernel_stack_vaddr_top p2' - PROCESS_KSTACK_SIZE cfg0
      = kernel_stack_vaddr_top p1' /\
    kernel_stack_vaddr_top p1' < kernel_stack_vaddr_top p2' /\
    kstack_in_region cfg0 (kernel_stack_vaddr_top p1') /\
    kstack_in_region cfg0 (kernel_stack_vaddr_top p2').
Proof.
  assert (Hv : two_stacks_summary
                 ((let* a := allocate_kernel_stack cfg0 proc0 in
                   let* b := allocate_kernel_stack cfg0 proc0 in
                   ret (a, b)) (boot_state []))
               = Some (true, true)) by (vm_compute; reflexivity).
  destruct ((let* a := allocate_kernel_stack cfg0 proc0 in
             let* b := allocate_kernel_stack cfg0 proc0 in
             ret (a, b)) (boot_state []))
    as [[[a p1'] [b p2']] s2| |] eqn:Hrun; try discriminate Hv.
  cbn in Hv. injection Hv as -> ->.
  apply bind_ret_inv in Hrun. destruct Hrun as (r1 & s1 & H1 & Hrun).
  apply bind_ret_inv in Hrun. destruct Hrun as (r2 & t2 & H2 & Hrun).
  apply ret_inv in Hrun. destruct Hrun as [Hr <-].
  injection Hr as -> ->.
  exists p1', s1, p2', t2. split; [exact H1|]. split; [exact H2|].
  apply (allocate_kernel_stack_adjacent cfg0 proc0 proc0 (boot_state []) p1' s1 p2' t2).
  - cbn. lia.
  - cbn. lia.
  - exact H1.
  - exact H2.
Defined.

Lemma allocate_kernel_stack_maps_witness :
  exists proc' s',
    allocate_kernel_stack cfg0 proc0 (boot_state []) = Ret (true, proc') s' /\
    kernel_stack_vaddr_top proc'
      = g_next_kernel_stack_virt_base (boot_state []) + PROCESS_KSTACK_SIZE cfg0 /\
    g_next_kernel_stack_virt_base s' = kernel_stack_vaddr_top proc' /\
    kstack_in_region cfg0 (kernel_stack_vaddr_top proc') /\
    g_next_kernel_stack_virt_base (boot_state []) mod PAGE_SIZE = 0 /\
    exists evs,
      trace s' = trace (boot_state []) ++ evs /\
      frames_released evs = [] /\
      length (frames_allocated evs) = Z.to_nat (PROCESS_KSTACK_SIZE cfg0 / PAGE_SIZE) /\
      kernel_stack_phys_base proc' = nth 0 (frames_allocated evs) 0 /\
      forall k, 0 <= k < PROCESS_KSTACK_SIZE cfg0 / PAGE_SIZE ->
        ptes s' !! (g_kernel_page_directory_phys s',
                    vpn (g_next_kernel_stack_virt_base (boot_state [])) + k)
          = Some (Z.lor (pte_frame (nth (Z.to_nat k) (frames_allocated evs) 0))
                    PTE_KERNEL_DATA_FLAGS).
Proof.
  assert (Hs : kstack_summary (allocate_kernel_stack cfg0 proc0 (boot_state []))
               = Some true) by (vm_compute; reflexivity).
  destruct (allocate_kernel_stack cfg0 proc0 (boot_state []))
    as [[r proc'] s'| |] eqn:Hrun; try discriminate Hs.
  cbn in Hs. injection Hs as ->. exists proc', s'. split; [reflexivity|].
  apply (allocate_kernel_stack_maps cfg0 proc0 (boot_state []) proc' s').
  - cbn. lia.
  - cbn. lia.
  - exact Hrun.
Defined.

Lemma destroy_process_unmaps_stack_witness :
  exists s',
    destroy_process cfg0 demo_pcb demo_state = Ret tt s' /\
    (forall v,
       kernel_stack_vaddr_top demo_pcb - PROCESS_KSTACK_SIZE cfg0 <= v
         < kernel_stack_vaddr_top demo_pcb ->
       ptes s' !! (g_kernel_page_directory_phys s', vpn v) = None) /\
    g_next_kernel_stack_virt_base s' = g_next_kernel_stack_virt_base demo_state /\
    tss_esp0 s' = tss_esp0 demo_state /\
    g_kernel_page_directory_phys s' = g_kernel_page_directory_phys demo_state.
Proof.
  assert (Hv : outcome_value (destroy_process cfg0 demo_pcb demo_state) = Some tt)
    by (vm_compute; reflexivity).
  destruct (destroy_process cfg0 demo_pcb demo_state) as [r s'| |] eqn:Hrun;
    try discriminate Hv.
  cbn in Hv. injection Hv as ->. exists s'. split; [reflexivity|].
  apply (destroy_process_unmaps_stack cfg0 demo_pcb demo_state tt s').
  - unfold kstack_in_region. repeat split; vm_compute; first [reflexivity | discriminate].
  - reflexivity.
  - exact Hrun.
Defined.

End StackProps.
Import StackProps.

(** ** What the loader never does *)

Module LoaderProps.

Ltac bind_inv H a s1 H1 :=
  apply bind_ret_inv in H; destruct H as (a & s1 & H1 & H).

Lemma cleanup_then_ret {A} b p (a : A) s r s' :
  (cleanup_load_elf b p ;; ret a) s = Ret r s' -> r = a.
Proof.
  intros H. bind_inv H u s1 H1. apply ret_inv in H. destruct H as [<- _]. reflexivity.
Qed.

Lemma load_elf_status path m e0 b0 s res m' e b s' :
  load_elf_and_init_memory path m e0 b0 s = Ret (res, m', e, b) s' ->
  res = 0 \/ res = -1.
Proof.
  intros H. unfold load_elf_and_init_memory in H.
  bind_inv H file s1 H1. destruct file as [f|].
  2:{ apply cleanup_then_ret in H. injection H as -> _ _ _. auto. }
  destruct (_ <? sizeof_Ehdr).
  { apply cleanup_then_ret in H. injection H as -> _ _ _. auto. }
  destruct (header_invalid _ _).
  { apply cleanup_then_ret in H. injection H as -> _ _ _. auto. }
  bind_inv H u2 s2 H2. bind_inv H r3 s3 H3. destruct r3 as [[err m3] hi].
  destruct err.
  - apply cleanup_then_ret in H. injection H as -> _ _ _. auto.
  - apply cleanup_then_ret in H. injection H as -> _ _ _. auto.
Qed.

(** X3: as long as [frame_alloc] hands out page-aligned frames,
    [load_elf_and_init_memory] returns, whatever the file holds: no
    [KERNEL_ASSERT] on its path fires, no store through the temporary
    mapping faults and every page loop ends.  What it returns is 0 or -1. *)
Theorem load_elf_always_returns path m e0 b0 s :
  frames_ok s ->
  exists res m' e b s',
    load_elf_and_init_memory path m e0 b0 s = Ret (res, m', e, b) s' /\
    (res = 0 \/ res = -1) /\ frames_ok s'.
Proof.
  intros Hs. destruct (load_elf_total path m e0 b0 s Hs) as ([[[res m'] e] b] & s' & H & Hs').
  exists res, m', e, b, s'. split; [exact H|]. split; [|exact Hs'].
  exact (load_elf_status _ _ _ _ _ _ _ _ _ _ H).
Qed.


(** X5: whatever it returns, [load_elf_and_init_memory] leaves the kernel
    side of the machine alone: the TSS, the kernel-stack bump pointer, the
    kernel page directory pointer and the filesystem are as before, and in
    no page directory does it change the PTE of a kernel page other than
    the temporary mapping slot. *)
Theorem load_elf_leaves_kernel_alone path m e0 b0 s r s' :
  load_elf_and_init_memory path m e0 b0 s = Ret r s' ->
  tss_esp0 s' = tss_esp0 s /\
  g_next_kernel_stack_virt_base s' = g_next_kernel_stack_virt_base s /\
  g_kernel_page_directory_phys s' = g_kernel_page_directory_phys s /\
  files s' = files s /\
  forall pd q, vpn KERNEL_SPACE_VIRT_START <= q -> q <> temp_vpn ->
               ptes s' !! (pd, q) = ptes s !! (pd, q).
Proof.
  intros H.
  split.
  { exact (pres_load_elf _ _ _ (inert_tss_esp0 _) kernel_only_none loud_ok_none
             _ _ _ _ (fun _ => eq_refl) (fun _ => eq_refl) _ _ _ H). }
  split.
  { exact (pres_load_elf _ _ _ (inert_next_kstack _) kernel_only_none loud_ok_none
             _ _ _ _ (fun _ => eq_refl) (fun _ => eq_refl) _ _ _ H). }
  split.
  { exact (pres_load_elf _ _ _ (inert_kpd _) kernel_only_none loud_ok_none
             _ _ _ _ (fun _ => eq_refl) (fun _ => eq_refl) _ _ _ H). }
  split.
  { exact (pres_load_elf _ _ _ (inert_files _) kernel_only_none loud_ok_none
             _ _ _ _ (fun _ => eq_refl) (fun _ => eq_refl) _ _ _ H). }
  intros pd q Hq Hne.
  assert (HK : kernel_only (fun q' => q' = q)) by (intros q' ->; auto).
  exact (pres_load_elf _ _ _ (inert_pte_at pd q) HK loud_ok_none
           _ _ _ _ (fun _ => eq_refl) (fun _ => eq_refl) _ _ _ H).
Qed.

(** X6: a PT_LOAD segment with a non-zero memory size that passes the
    validation of the loader lies below the kernel: [p_vaddr + p_memsz] does
    not wrap around and is at most [KERNEL_VIRT_BASE], [p_filesz] is at
    most [p_memsz], and the file slice [p_offset, p_offset + p_filesz) lies
    inside the file. *)
Theorem accepted_segment_bounds f size i :
  segment_invalid f size i = false -> p_memsz f i <> 0 ->
  p_vaddr f i + p_memsz f i < 2 ^ 32 /\
  p_vaddr f i + p_memsz f i <= KERNEL_VIRT_BASE /\
  p_filesz f i <= p_memsz f i /\
  p_offset f i + p_filesz f i <= size.
Proof.
  intros H Hm. destruct (segment_valid_bounds f size i H Hm) as (Hw & Hr & Hf & Ho).
  split; [|split; [lia | split; assumption]].
  unfold KERNEL_VIRT_BASE in Hr. rewrite pow32. lia.
Qed.

(** X7: the page protection the loader derives from [p_flags] always has
    the present and user bits, has the read/write bit exactly when the
    segment is writable, and has the NX bit exactly when the segment is not
    executable and NX is supported; an executable segment never gets NX. *)
Theorem segment_page_prot_bits flags nx :
  has_flag (segment_page_prot flags nx) PAGE_PRESENT = true /\
  has_flag (segment_page_prot flags nx) PAGE_USER = true /\
  has_flag (segment_page_prot flags nx) PAGE_RW = has_flag flags PF_W /\
  has_flag (segment_page_prot flags nx) PAGE_NX_BIT
    = negb (has_flag flags PF_X) && nx.
Proof.
  unfold segment_page_prot.
  destruct (has_flag flags PF_W), (has_flag flags PF_X), nx; repeat split; reflexivity.
Qed.

Lemma load_page_error_zero f pgd i prot v s e s' :
  load_page f pgd i prot v s = Ret (Some e) s' -> e = 0.
Proof.
  intros H. unfold load_page in H.
  bind_inv H p s1 H1. destruct (p =? 0) eqn:Hp.
  { apply ret_inv in H. destruct H as [H _]. injection H as <-.
    apply Z.eqb_eq, Hp. }
  destruct (page_slices f i v) as [[n off] z].
  destruct (_ <? _).
  { bind_inv H u s2 H2. apply ret_inv in H. destruct H as [H _]. congruence. }
  bind_inv H r s2 H2. destruct (negb _).
  { bind_inv H u s3 H3. apply ret_inv in H. destruct H as [H _]. congruence. }
  bind_inv H res s3 H3.
  destruct res;
    try (bind_inv H u s4 H4; apply ret_inv in H; destruct H as [H _]; congruence).
  apply ret_inv in H. destruct H as [H _]. discriminate H.
Qed.

Lemma for_pages_error_zero body v_end :
  (forall v s e s', body v s = Ret (Some e) s' -> e = 0) ->
  forall fuel v s e s',
    for_pages fuel v v_end body s = Ret (Some e) s' -> e = 0.
Proof.
  intros Hb. induction fuel as [|fuel IH]; intros v s e s' H; cbn [for_pages] in H.
  - discriminate H.
  - destruct (v <? v_end).
    + bind_inv H r s1 H1. destruct r as [e1|].
      * apply ret_inv in H. destruct H as [H _]. injection H as <-.
        exact (Hb _ _ _ _ H1).
      * exact (IH _ _ _ _ H).
    + apply ret_inv in H. destruct H as [H _]. discriminate H.
Qed.

Lemma load_segment_error_zero f size i m hi s e m' hi' s' :
  load_segment f size i m hi s = Ret (Some e, m', hi') s' -> e = 0.
Proof.
  intros H. unfold load_segment in H.
  destruct (_ || _); [apply ret_inv in H; destruct H as [H _]; discriminate H|].
  destruct (segment_invalid f size i);
    [apply ret_inv in H; destruct H as [H _]; congruence|].
  destruct (_ <=? _); [apply ret_inv in H; destruct H as [H _]; discriminate H|].
  bind_inv H nx s1 H1. bind_inv H ins s2 H2.
  destruct ins as [m2|]; [|apply ret_inv in H; destruct H as [H _]; congruence].
  bind_inv H r s3 H3. destruct r as [e3|].
  - apply ret_inv in H. destruct H as [H _]. injection H as <- _ _.
    refine (for_pages_error_zero _ _ _ _ _ _ _ _ H3).
    intros v t e t'. apply load_page_error_zero.
  - apply ret_inv in H. destruct H as [H _]. discriminate H.
Qed.

(** When the segment loop jumps to [cleanup_load_elf], the local
    [phys_page] is 0. *)
Lemma load_segments_error_zero n : forall f size i m hi s e m' hi' s',
  load_segments n f size i m hi s = Ret (Some e, m', hi') s' -> e = 0.
Proof.
  induction n as [|n IH]; intros f size i m hi s e m' hi' s' H;
    cbn [load_segments] in H.
  - apply ret_inv in H. destruct H as [H _]. discriminate H.
  - bind_inv H r s1 H1. destruct r as [[e1 m1] hi1]. destruct e1 as [p|].
    + apply ret_inv in H. destruct H as [H _]. injection H as <- _ _.
      exact (load_segment_error_zero _ _ _ _ _ _ _ _ _ _ H1).
    + exact (IH _ _ _ _ _ _ _ _ _ _ H).
Qed.

Lemma load_elf_always_returns_witness :
  exists res m' e b s',
    load_elf_and_init_memory "/kernel.bin" mm0 0 0 (boot_state scenario_elf)
      = Ret (res, m', e, b) s' /\
    (res = 0 \/ res = -1) /\ frames_ok s'.
Proof.
  apply (load_elf_always_returns "/kernel.bin" mm0 0 0 (boot_state scenario_elf)).
  unfold frames_ok. cbn. repeat constructor.
Defined.


Lemma load_elf_leaves_kernel_alone_witness :
  exists r s',
    load_elf_and_init_memory "/kernel.bin" mm0 0 0 (boot_state scenario_elf)
      = Ret r s' /\
    tss_esp0 s' = tss_esp0 (boot_state scenario_elf) /\
    g_next_kernel_stack_virt_base s'
      = g_next_kernel_stack_virt_base (boot_state scenario_elf) /\
    g_kernel_page_directory_phys s'
      = g_kernel_page_directory_phys (boot_state scenario_elf) /\
    files s' = files (boot_state scenario_elf) /\
    forall pd q, vpn KERNEL_SPACE_VIRT_START <= q -> q <> temp_vpn ->
                 ptes s' !! (pd, q) = ptes (boot_state scenario_elf) !! (pd, q).
Proof.
  assert (Hv : load_summary
                 (load_elf_and_init_memory "/kernel.bin" mm0 0 0
                    (boot_state scenario_elf))
               = Some (0, 0x08048000, 0x0804A000)) by (vm_compute; reflexivity).
  destruct (load_elf_and_init_memory "/kernel.bin" mm0 0 0 (boot_state scenario_elf))
    as [r s'| |] eqn:Hrun; try discriminate Hv.
  exists r, s'. split; [reflexivity|].
  apply (load_elf_leaves_kernel_alone "/kernel.bin" mm0 0 0
           (boot_state scenario_elf) r s').
  exact Hrun.
Defined.

Lemma accepted_segment_bounds_witness :
  p_vaddr scenario_elf 0 + p_memsz scenario_elf 0 < 2 ^ 32 /\
  p_vaddr scenario_elf 0 + p_memsz scenario_elf 0 <= KERNEL_VIRT_BASE /\
  p_filesz scenario_elf 0 <= p_memsz scenario_elf 0 /\
  p_offset scenario_elf 0 + p_filesz scenario_elf 0
    <= Z.of_nat (length scenario_elf).
Proof.
  apply (accepted_segment_bounds scenario_elf (Z.of_nat (length scenario_elf)) 0).
  - vm_compute. reflexivity.
  - vm_compute. discriminate.
Defined.

End LoaderProps.
Import LoaderProps.

(** ** Filling memory *)

Module MemoryProps.

Ltac bind_inv H a s1 H1 :=
  apply bind_ret_inv in H; destruct H as (a & s1 & H1 & H).

(** A store through a window changes one byte of physical memory and
    nothing else in the state. *)
Lemma kstore8_window_eq lo hi d v b s u s' :
  window lo hi d s -> lo <= v < hi ->
  kstore8 v b s = Ret u s' ->
  s' = set_phys (fun a => if a =? v + d then b else phys s a) s.
Proof.
  intros Hw Hv H. unfold kstore8 in H. rewrite (Hw v Hv) in H.
  inversion H; subst. reflexivity.
Qed.

Lemma window_set_phys lo hi d g s :
  window lo hi d s -> window lo hi d (set_phys g s).
Proof. intros Hw v Hv. exact (Hw v Hv). Qed.

Lemma memset_phys lo hi d c n : forall p s u s',
  window lo hi d s -> 0 <= lo -> hi <= 2 ^ 32 -> lo <= p -> p + Z.of_nat n <= hi ->
  memset p c n s = Ret u s' ->
  window lo hi d s' /\
  (forall k, 0 <= k < Z.of_nat n -> phys s' (p + d + k) = c) /\
  (forall a, ~ (p + d <= a < p + d + Z.of_nat n) -> phys s' a = phys s a) /\
  ptes s' = ptes s /\ trace s' = trace s /\
  g_kernel_page_directory_phys s' = g_kernel_page_directory_phys s.
Proof.
  induction n as [|n IH]; intros p s u s' Hw Hlo Hhi Hp Hn H; cbn [memset] in H.
  - apply ret_inv in H. destruct H as [_ <-].
    split; [exact Hw|]. split; [intros k Hk; lia|]. auto.
  - bind_inv H u1 s1 H1.
    apply (kstore8_window_eq lo hi d) in H1; [|exact Hw | lia]. subst s1.
    assert (Hrest : exists q, memset q c n
              (set_phys (fun a => if a =? p + d then c else phys s a) s) = Ret u s' /\
              (n <> O -> q = p + 1)).
    { exists (wrap32 (p + 1)). split; [exact H|]. intros Hn0.
      apply wrap32_small. rewrite pow32 in *. lia. }
    clear H. destruct Hrest as (q & H & Hq).
    destruct n as [|n'].
    { cbn [memset] in H. apply ret_inv in H. destruct H as [_ <-].
      split; [apply window_set_phys, Hw|]. split; [|split; [|auto]].
      - intros k Hk. replace k with 0 by lia. cbn. rewrite Z.add_0_r, Z.eqb_refl.
        reflexivity.
      - intros a Ha. cbn. destruct (Z.eqb_spec a (p + d)); [lia | reflexivity]. }
    rewrite (Hq ltac:(discriminate)) in H.
    apply IH in H; [| apply window_set_phys, Hw | exact Hlo | exact Hhi | lia | lia].
    destruct H as (Hw' & Hin & Hout & Hpt & Htr & Hk).
    split; [exact Hw'|]. split; [|split; [|auto]].
    + intros k Hk'. destruct (Z.eq_dec k 0) as [->|Hne].
      * rewrite Hout by lia. cbn. rewrite Z.add_0_r, Z.eqb_refl. reflexivity.
      * replace (p + d + k) with (p + 1 + d + (k - 1)) by lia. apply Hin. lia.
    + intros a Ha. rewrite Hout by lia. cbn.
      destruct (Z.eqb_spec a (p + d)); [lia | reflexivity].
Qed.

Lemma memcpy_phys lo hi d n : forall p src s u s',
  window lo hi d s -> 0 <= lo -> hi <= 2 ^ 32 -> lo <= p -> p + Z.of_nat n <= hi ->
  memcpy p src n s = Ret u s' ->
  window lo hi d s' /\
  (forall k, 0 <= k < Z.of_nat n -> phys s' (p + d + k) = nth (Z.to_nat k) src Byte.x00) /\
  (forall a, ~ (p + d <= a < p + d + Z.of_nat n) -> phys s' a = phys s a) /\
  ptes s' = ptes s /\ trace s' = trace s /\
  g_kernel_page_directory_phys s' = g_kernel_page_directory_phys s.
Proof.
  induction n as [|n IH]; intros p src s u s' Hw Hlo Hhi Hp Hn H; cbn [memcpy] in H.
  - apply ret_inv in H. destruct H as [_ <-].
    split; [exact Hw|]. split; [intros k Hk; lia|]. auto.
  - bind_inv H u1 s1 H1.
    apply (kstore8_window_eq lo hi d) in H1; [|exact Hw | lia]. subst s1.
    assert (Hrest : exists q, memcpy q (tl src) n
              (set_phys (fun a => if a =? p + d then hd Byte.x00 src else phys s a) s)
              = Ret u s' /\ (n <> O -> q = p + 1)).
    { exists (wrap32 (p + 1)). split; [exact H|]. intros Hn0.
      apply wrap32_small. rewrite pow32 in *. lia. }
    clear H. destruct Hrest as (q & H & Hq).
    destruct n as [|n'].
    { cbn [memcpy] in H. apply ret_inv in H. destruct H as [_ <-].
      split; [apply window_set_phys, Hw|]. split; [|split; [|auto]].
      - intros k Hk. replace k with 0 by lia. cbn. rewrite Z.add_0_r, Z.eqb_refl.
        destruct src; reflexivity.
      - intros a Ha. cbn. destruct (Z.eqb_spec a (p + d)); [lia | reflexivity]. }
    rewrite (Hq ltac:(discriminate)) in H.
    apply IH in H; [| apply window_set_phys, Hw | exact Hlo | exact Hhi | lia | lia].
    destruct H as (Hw' & Hin & Hout & Hpt & Htr & Hk).
    split; [exact Hw'|]. split; [|split; [|auto]].
    + intros k Hk'. destruct (Z.eq_dec k 0) as [->|Hne].
      * rewrite Hout by lia. cbn. rewrite Z.add_0_r, Z.eqb_refl.
        destruct src; reflexivity.
      * replace (p + d + k) with (p + 1 + d + (k - 1)) by lia.
        rewrite Hin by lia.
        replace (Z.to_nat k) with (S (Z.to_nat (k - 1))) by lia.
        destruct src as [|b src]; [destruct (Z.to_nat (k - 1)); reflexivity | reflexivity].
    + intros a Ha. rewrite Hout by lia. cbn.
      destruct (Z.eqb_spec a (p + d)); [lia | reflexivity].
Qed.

(** X9: [memset] through a mapped stretch of kernel memory: afterwards each
    of the [n] bytes from [p] on reads [c], every other byte of the stretch
    reads what it read before, and nothing outside physical memory has
    changed. *)
Theorem memset_fills lo hi d p c n s u s' :
  window lo hi d s -> 0 <= lo -> hi <= 2 ^ 32 -> lo <= p -> p + Z.of_nat n <= hi ->
  memset p c n s = Ret u s' ->
  (forall v, p <= v < p + Z.of_nat n -> kload8 s' v = Some c) /\
  (forall v, lo <= v < hi -> ~ (p <= v < p + Z.of_nat n) -> kload8 s' v = kload8 s v) /\
  s' = set_phys (phys s') s.
Proof.
  intros Hw Hlo Hhi Hp Hn H.
  assert (Hsame : s' = set_phys (phys s') s).
  { clear Hw Hlo Hhi Hp Hn. revert p s u s' H.
    induction n as [|n IH]; intros p s u s' H; cbn [memset] in H.
    - apply ret_inv in H. destruct H as [_ <-]. destruct s; reflexivity.
    - bind_inv H u1 s1 H1. apply IH in H. rewrite H.
      unfold kstore8 in H1. destruct (translate s _ p); [|discriminate H1].
      inversion H1; subst. reflexivity. }
  destruct (memset_phys lo hi d c n p s u s' Hw Hlo Hhi Hp Hn H)
    as (Hw' & Hin & Hout & _).
  split; [|split; [|exact Hsame]].
  - intros v Hv. unfold kload8. rewrite (Hw' v) by lia.
    replace (v + d) with (p + d + (v - p)) by lia. rewrite Hin by lia. reflexivity.
  - intros v Hv Hnot. unfold kload8. rewrite (Hw' v Hv), (Hw v Hv).
    rewrite Hout by lia. reflexivity.
Qed.

Lemma nth_skipn {A} (l : list A) (a k : nat) (d : A) :
  nth k (skipn a l) d = nth (a + k) l d.
Proof.
  revert l. induction a as [|a IH]; intros l; [reflexivity|].
  destruct l as [|x l]; [destruct k; reflexivity | apply IH].
Qed.

(** X10: what [copy_elf_segment_data] leaves in the frame when it returns
    0, for a slice [file_buffer_offset, file_buffer_offset + size_to_copy)
    that lies inside the file buffer: the frame is page-aligned and not 0,
    its first [size_to_copy] bytes are the bytes of the slice, the next
    [zero_padding] bytes are zero, no other byte of physical memory has
    changed, and the temporary mapping slot is unmapped again.  The data
    always starts at offset 0 of the frame. *)
Theorem copy_elf_segment_data_fills frame file off n z s s' :
  0 <= frame < 2 ^ 32 -> 0 <= off -> 0 <= n -> 0 <= z -> n + z <= PAGE_SIZE ->
  off + n <= Z.of_nat (length file) ->
  copy_elf_segment_data frame file off n z s = Ret 0 s' ->
  frame <> 0 /\ frame mod PAGE_SIZE = 0 /\
  (forall k, 0 <= k < n ->
     phys s' (frame + k) = nth (Z.to_nat (off + k)) file Byte.x00) /\
  (forall k, n <= k < n + z -> phys s' (frame + k) = Byte.x00) /\
  (forall a, ~ (frame <= a < frame + n + z) -> phys s' a = phys s a) /\
  ptes s' !! (g_kernel_page_directory_phys s', temp_vpn) = None.
Proof.
  intros Hfr Hoff Hn Hz Hnz Hslice H. unfold copy_elf_segment_data in H.
  bind_inv H u1 s1 H1. apply assert_inv in H1. destruct H1 as [Hchk ->].
  apply andb_true_iff in Hchk. destruct Hchk as [Hne Hal].
  apply negb_true_iff, Z.eqb_neq in Hne. apply Z.eqb_eq in Hal.
  split; [exact Hne|]. split; [exact Hal|].
  bind_inv H u2 s2 H2. apply assert_inv in H2. destruct H2 as [_ ->].
  bind_inv H t s3 H3.
  destruct (t =? 0) eqn:Ht0.
  { apply ret_inv in H. destruct H as [H _]. discriminate H. }
  apply Z.eqb_neq in Ht0.
  destruct (DirectoryFacts.temp_map_spec _ _ _ _ H3 Ht0)
    as (-> & _ & Hp3 & Hk3 & Hph3 & _).
  assert (Hwin : window PAGING_TEMP_VADDR (PAGING_TEMP_VADDR + PAGE_SIZE)
                   (frame - PAGING_TEMP_VADDR) s3).
  { intros v Hv. unfold translate. rewrite (temp_page_vpn v Hv), Hk3, Hp3.
    rewrite lookup_insert_eq.
    rewrite present_lor_flags by reflexivity.
    rewrite DirectoryFacts.pte_frame_lor by (try assumption; reflexivity).
    f_equal. rewrite page_offset_mod.
    assert (Hm : v mod PAGE_SIZE = v - PAGING_TEMP_VADDR).
    { symmetry. apply (Z.mod_unique_pos v PAGE_SIZE 0xFFBFF);
        unfold PAGING_TEMP_VADDR, PAGE_SIZE in *; lia. }
    rewrite Hm. lia. }
  assert (Hlo : 0 <= PAGING_TEMP_VADDR) by (unfold PAGING_TEMP_VADDR; lia).
  assert (Hhi : PAGING_TEMP_VADDR + PAGE_SIZE <= 2 ^ 32)
    by (unfold PAGING_TEMP_VADDR, PAGE_SIZE; rewrite pow32; lia).
  bind_inv H u4 s4 H4.
  assert (Hcopy : window PAGING_TEMP_VADDR (PAGING_TEMP_VADDR + PAGE_SIZE)
                    (frame - PAGING_TEMP_VADDR) s4 /\
                  (forall k, 0 <= k < n ->
                     phys s4 (frame + k) = nth (Z.to_nat (off + k)) file Byte.x00) /\
                  (forall a, ~ (frame <= a < frame + n) -> phys s4 a = phys s3 a) /\
                  ptes s4 = ptes s3 /\
                  g_kernel_page_directory_phys s4 = g_kernel_page_directory_phys s3).
  { destruct (0 <? n) eqn:Hn0.
    - apply Z.ltb_lt in Hn0.
      apply (memcpy_phys _ _ _ _ _ _ _ _ _ Hwin Hlo Hhi) in H4;
        [| lia | rewrite Z2Nat.id by lia; lia].
      destruct H4 as (Hw4 & Hin & Hout & Hpt & _ & Hk4).
      rewrite Z2Nat.id in Hin, Hout by lia.
      split; [exact Hw4|]. split; [|split; [|auto]].
      + intros k Hk.
        replace (frame + k) with (PAGING_TEMP_VADDR + (frame - PAGING_TEMP_VADDR) + k)
          by lia.
        rewrite Hin by exact Hk. rewrite nth_skipn. f_equal. lia.
      + intros a Ha. apply Hout. lia.
    - apply Z.ltb_ge in Hn0. apply ret_inv in H4. destruct H4 as [_ <-].
      split; [exact Hwin|]. split; [intros k Hk; lia | auto]. }
  destruct Hcopy as (Hw4 & Hin4 & Hout4 & Hp4 & Hk4).
  bind_inv H u5 s5 H5.
  assert (Hzero : (forall k, n <= k < n + z -> phys s5 (frame + k) = Byte.x00) /\
                  (forall a, ~ (frame + n <= a < frame + n + z) -> phys s5 a = phys s4 a) /\
                  ptes s5 = ptes s4 /\
                  g_kernel_page_directory_phys s5 = g_kernel_page_directory_phys s4).
  { destruct (0 <? z) eqn:Hz0.
    - apply Z.ltb_lt in Hz0.
      rewrite wrap32_small in H5 by (rewrite pow32 in *; lia).
      apply (memset_phys _ _ _ _ _ _ _ _ _ Hw4 Hlo Hhi) in H5;
        [| lia | rewrite Z2Nat.id by lia; lia].
      destruct H5 as (_ & Hin & Hout & Hpt & _ & Hk5).
      rewrite Z2Nat.id in Hin, Hout by lia.
      split; [|split; [|auto]].
      + intros k Hk.
        replace (frame + k)
          with (PAGING_TEMP_VADDR + n + (frame - PAGING_TEMP_VADDR) + (k - n)) by lia.
        apply Hin. lia.
      + intros a Ha. apply Hout. lia.
    - apply Z.ltb_ge in Hz0. apply ret_inv in H5. destruct H5 as [_ <-].
      split; [intros k Hk; lia | auto]. }
  destruct Hzero as (Hin5 & Hout5 & Hp5 & Hk5).
  bind_inv H u6 s6 H6. apply ret_inv in H. destruct H as [_ <-].
  unfold paging_temp_unmap, paging_temp_unmap_raw in H6.
  bind_inv H6 u7 s7 H7. apply emit_inv in H7. subst s7.
  apply modify_inv in H6. subst s6. cbn.
  split; [|split; [|split]].
  - intros k Hk. rewrite Hout5 by lia. apply Hin4, Hk.
  - exact Hin5.
  - intros a Ha. rewrite Hout5, Hout4 by lia. rewrite Hph3. reflexivity.
  - apply lookup_delete_eq.
Qed.

(** One mapped page of the kernel page directory is a window. *)
Lemma window_of_page q pte s :
  ptes s !! (g_kernel_page_directory_phys s, q) = Some pte ->
  pte_present pte = true ->
  window (q * PAGE_SIZE) (q * PAGE_SIZE + PAGE_SIZE) (pte_frame pte - q * PAGE_SIZE) s.
Proof.
  intros Hpte Hp v Hv. unfold translate.
  assert (Hq : vpn v = q /\ PAGE_OFFSET v = v - q * PAGE_SIZE).
  { rewrite vpn_div, page_offset_mod. split.
    - symmetry. apply (Z.div_unique v PAGE_SIZE q (v - q * PAGE_SIZE)).
      + left. unfold PAGE_SIZE in *. lia.
      + unfold PAGE_SIZE in *. lia.
    - symmetry. apply (Z.mod_unique v PAGE_SIZE q (v - q * PAGE_SIZE)).
      + left. unfold PAGE_SIZE in *. lia.
      + unfold PAGE_SIZE in *. lia. }
  destruct Hq as [-> ->]. rewrite Hpte, Hp. f_equal. lia.
Qed.

Lemma memset_fills_witness :
  exists s',
    memset 0xE0000010 "A"%byte 16 mapped_state = Ret tt s' /\
    (forall v, 0xE0000010 <= v < 0xE0000010 + Z.of_nat 16 ->
       kload8 s' v = Some "A"%byte) /\
    (forall v, 0xE0000 * PAGE_SIZE <= v < 0xE0000 * PAGE_SIZE + PAGE_SIZE ->
       ~ (0xE0000010 <= v < 0xE0000010 + Z.of_nat 16) ->
       kload8 s' v = kload8 mapped_state v) /\
    s' = set_phys (phys s') mapped_state.
Proof.
  assert (Hv : outcome_value (memset 0xE0000010 "A"%byte 16 mapped_state) = Some tt)
    by (vm_compute; reflexivity).
  destruct (memset 0xE0000010 "A"%byte 16 mapped_state) as [r s'| |] eqn:Hrun;
    try discriminate Hv.
  cbn in Hv. injection Hv as ->. exists s'. split; [reflexivity|].
  apply (memset_fills (0xE0000 * PAGE_SIZE) (0xE0000 * PAGE_SIZE + PAGE_SIZE)
           (pte_frame (Z.lor 0x501000 PTE_KERNEL_DATA_FLAGS) - 0xE0000 * PAGE_SIZE)
           0xE0000010 "A"%byte 16 mapped_state tt s').
  - apply window_of_page; vm_compute; reflexivity.
  - vm_compute. discriminate.
  - vm_compute. discriminate.
  - vm_compute. discriminate.
  - vm_compute. discriminate.
  - exact Hrun.
Defined.

Lemma copy_elf_segment_data_fills_witness :
  exists s',
    copy_elf_segment_data 0x500000 payload 0 0x100 0x10 (boot_state []) = Ret 0 s' /\
    0x500000 <> 0 /\ 0x500000 mod PAGE_SIZE = 0 /\
    (forall k, 0 <= k < 0x100 ->
       phys s' (0x500000 + k) = nth (Z.to_nat (0 + k)) payload Byte.x00) /\
    (forall k, 0x100 <= k < 0x100 + 0x10 -> phys s' (0x500000 + k) = Byte.x00) /\
    (forall a, ~ (0x500000 <= a < 0x500000 + 0x100 + 0x10) ->
       phys s' a = phys (boot_state []) a) /\
    ptes s' !! (g_kernel_page_directory_phys s', temp_vpn) = None.
Proof.
  assert (Hv : outcome_value
                 (copy_elf_segment_data 0x500000 payload 0 0x100 0x10 (boot_state []))
               = Some 0) by (vm_compute; reflexivity).
  destruct (copy_elf_segment_data 0x500000 payload 0 0x100 0x10 (boot_state []))
    as [r s'| |] eqn:Hrun; try discriminate Hv.
  cbn in Hv. injection Hv as ->. exists s'. split; [reflexivity|].
  apply (copy_elf_segment_data_fills 0x500000 payload 0 0x100 0x10 (boot_state []) s').
  - cbn. lia.
  - lia.
  - lia.
  - lia.
  - unfold PAGE_SIZE. lia.
  - vm_compute. discriminate.
  - exact Hrun.
Defined.

End MemoryProps.
Import MemoryProps.

(** ** Created and failed processes *)

Module CreateProps.

Ltac bind_inv H a s1 H1 :=
  apply bind_ret_inv in H; destruct H as (a & s1 & H1 & H).

Lemma copy_elf_segment_data_trace frame file off n z s s' :
  copy_elf_segment_data frame file off n z s = Ret 0 s' ->
  trace s' = trace s ++ [EvTempMap frame; EvTempUnmap PAGING_TEMP_VADDR].
Proof.
  intros H. unfold copy_elf_segment_data in H.
  bind_inv H u1 s1 H1. apply assert_inv in H1. destruct H1 as [_ ->].
  bind_inv H u2 s2 H2. apply assert_inv in H2. destruct H2 as [_ ->].
  bind_inv H t s3 H3.
  destruct (t =? 0) eqn:Ht0.
  { apply ret_inv in H. destruct H as [H _]. discriminate H. }
  apply Z.eqb_neq in Ht0.
  destruct (DirectoryFacts.temp_map_result _ _ _ _ H3) as [Hz| ->]; [contradiction|].
  assert (Ht3 : trace s3 = trace s ++ [EvTempMap frame]).
  { unfold paging_temp_map in H3. bind_inv H3 u s4 H4. apply emit_inv in H4. subst s4.
    exact (pres_temp_map_raw _ _ _ (inert_trace (fun _ => False)) kernel_only_none
             _ _ _ _ H3). }
  bind_inv H u4 s4 H4.
  assert (Ht4 : trace s4 = trace s3).
  { destruct (0 <? n).
    - exact (pres_memcpy _ _ _ (inert_trace (fun _ => False)) _ _ _ _ _ _ H4).
    - apply ret_inv in H4. destruct H4 as [_ <-]. reflexivity. }
  bind_inv H u5 s5 H5.
  assert (Ht5 : trace s5 = trace s4).
  { destruct (0 <? z).
    - exact (pres_memset _ _ _ (inert_trace (fun _ => False)) _ _ _ _ _ _ H5).
    - apply ret_inv in H5. destruct H5 as [_ <-]. reflexivity. }
  bind_inv H u6 s6 H6. apply ret_inv in H. destruct H as [_ <-].
  unfold paging_temp_unmap, paging_temp_unmap_raw in H6.
  bind_inv H6 u7 s7 H7. apply emit_inv in H7. subst s7.
  apply modify_inv in H6. subst s6. cbn.
  rewrite Ht5, Ht4, Ht3, <- List.app_assoc. reflexivity.
Qed.

(** X11: one turn of the page loop of the loader that ends without an
    error makes these calls, in this order and no others: [frame_alloc],
    which returns a frame [p] other than 0; [paging_temp_map(p)];
    [paging_temp_unmap]; and [paging_map_single_4k] of the page to [p] in
    the directory of the process, with the protection of the segment,
    which returns OK.  Afterwards the page is mapped to [p]. *)
Theorem load_page_calls f pgd i prot v s s' :
  load_page f pgd i prot v s = Ret None s' ->
  exists p,
    p <> 0 /\
    trace s' = trace s ++
      [EvFrameAlloc p; EvTempMap p; EvTempUnmap PAGING_TEMP_VADDR;
       EvMapSingle pgd v p prot MapOk] /\
    ptes s' !! (pgd, vpn v) = Some (Z.lor (pte_frame p) prot).
Proof.
  intros H. unfold load_page in H.
  bind_inv H p s1 H1. destruct (p =? 0) eqn:Hp.
  { apply ret_inv in H. destruct H as [H _]. discriminate H. }
  apply Z.eqb_neq in Hp.
  destruct (frame_alloc_spec _ _ _ H1) as (Ht1 & _).
  destruct (page_slices f i v) as [[n off] z].
  destruct (_ <? _).
  { bind_inv H u s2 H2. apply ret_inv in H. destruct H as [H _]. discriminate H. }
  bind_inv H r s2 H2. destruct (r =? 0) eqn:Hr; cbn [negb] in H.
  2:{ bind_inv H u s3 H3. apply ret_inv in H. destruct H as [H _]. discriminate H. }
  apply Z.eqb_eq in Hr. subst r.
  apply copy_elf_segment_data_trace in H2.
  bind_inv H res s3 H3.
  destruct res;
    try (bind_inv H u s4 H4; apply ret_inv in H; destruct H as [H _]; discriminate H).
  apply ret_inv in H. destruct H as [_ <-].
  exists p. split; [exact Hp|]. split.
  - destruct (map_single_spec _ _ _ _ _ _ _ H3) as (Ht3 & _).
    rewrite Ht3, H2, Ht1, <- !List.app_assoc. reflexivity.
  - exact (StackProps.map_single_ok _ _ _ _ _ _ H3).
Qed.

Lemma insert_vma_fields m a b fl prot s r s' :
  insert_vma m a b fl prot s = Ret (Some r) s' -> pgd_phys r = pgd_phys m.
Proof.
  intros H. unfold insert_vma in H. destruct (_ || _).
  - bind_inv H u s1 H1. apply ret_inv in H. destruct H as [H _]. discriminate H.
  - bind_inv H ok s1 H1. bind_inv H u s2 H2. destruct ok.
    + apply ret_inv in H. destruct H as [H _]. injection H as <-. reflexivity.
    + apply ret_inv in H. destruct H as [H _]. discriminate H.
Qed.

Lemma load_segment_pgd f size i m hi s e m' hi' s' :
  load_segment f size i m hi s = Ret (e, m', hi') s' -> pgd_phys m' = pgd_phys m.
Proof.
  intros H. unfold load_segment in H.
  destruct (_ || _).
  { apply ret_inv in H. destruct H as [H _]. congruence. }
  destruct (segment_invalid _ _ _).
  { apply ret_inv in H. destruct H as [H _]. congruence. }
  destruct (_ <=? _).
  { apply ret_inv in H. destruct H as [H _]. congruence. }
  bind_inv H nx s1 H1. bind_inv H ins s2 H2.
  destruct ins as [m2|].
  2:{ apply ret_inv in H. destruct H as [H _]. congruence. }
  apply insert_vma_fields in H2.
  bind_inv H e2 s3 H3.
  destruct e2; apply ret_inv in H; destruct H as [H _]; congruence.
Qed.

Lemma load_segments_pgd n : forall f size i m hi s e m' hi' s',
  load_segments n f size i m hi s = Ret (e, m', hi') s' -> pgd_phys m' = pgd_phys m.
Proof.
  induction n as [|n IH]; intros f size i m hi s e m' hi' s' H; cbn [load_segments] in H.
  - apply ret_inv in H. destruct H as [H _]. congruence.
  - bind_inv H r s1 H1. destruct r as [[e1 m1] h1].
    apply load_segment_pgd in H1.
    destruct e1.
    + apply ret_inv in H. destruct H as [H _]. congruence.
    + apply IH in H. congruence.
Qed.

(** The steps of [create_user_process] after the ELF image is loaded, when
    they succeed. *)
Lemma finish_success_full cfg proc m brk s pcb s' :
  finish_user_process cfg proc m brk s = Ret (inr pcb) s' ->
  exists m9 p s8 s9,
    p <> 0 /\
    paging_map_single_4k (page_directory_phys proc)
      (wrap32 (USER_STACK_TOP_VIRT_ADDR cfg - PAGE_SIZE)) p PTE_USER_DATA_FLAGS s8
      = Ret MapOk s9 /\
    prepare_initial_kernel_stack cfg
      (set_user_stack_top (USER_STACK_TOP_VIRT_ADDR cfg) (set_mm (Some m9) proc)) s9
      = Ret pcb s' /\
    pgd_phys m9 = pgd_phys m.
Proof.
  intros H. unfold finish_user_process in H.
  bind_inv H heap s1 H1. bind_inv H u2 s2 H2.
  bind_inv H stk s3 H3.
  destruct stk as [m'|].
  2:{ apply ret_inv in H. destruct H as [H _]. discriminate H. }
  assert (Hpgd : pgd_phys m' = pgd_phys m).
  { apply insert_vma_fields in H3. rewrite H3.
    destruct heap as [mh|]; [|reflexivity].
    exact (insert_vma_fields _ _ _ _ _ _ _ _ H1). }
  bind_inv H u4 s4 H4. bind_inv H fr s5 H5.
  destruct (fr =? 0) eqn:Hfr.
  { apply ret_inv in H. destruct H as [H _]. discriminate H. }
  apply Z.eqb_neq in Hfr.
  bind_inv H r s6 H6.
  destruct r; try (apply ret_inv in H; destruct H as [H _]; discriminate H).
  bind_inv H p s7 H7. apply ret_inv in H. destruct H as [H <-].
  injection H as <-.
  exists m', fr, s5, s6. cbn in H6. auto.
Qed.

Lemma prepare_result cfg proc s proc' s' :
  prepare_initial_kernel_stack cfg proc s = Ret proc' s' ->
  exists esp, proc' = set_kernel_esp_for_switch esp proc.
Proof.
  intros H. unfold prepare_initial_kernel_stack in H.
  bind_inv H a1 t1 A1. bind_inv H a2 t2 A2. bind_inv H a3 t3 A3.
  bind_inv H p1 s1 H1. bind_inv H p2 s2 H2. bind_inv H p3 s3 H3.
  bind_inv H p4 s4 H4. bind_inv H p5 s5 H5.
  apply ret_inv in H. destruct H as [<- _]. eexists. reflexivity.
Qed.

(** X12: what a successful [create_user_process] returns.  The PCB has the
    pid that was next, the entry point of the ELF file, the configured top
    of the user stack, a page directory other than 0 that its memory
    descriptor is bound to, and a kernel stack that starts at the old bump
    pointer; the bump pointer and the TSS [esp0] both hold the top of that
    stack; and the page below the top of the user stack is mapped in the
    directory of the process with the user data flags. *)
Theorem create_user_process_result cfg path s f pcb s' :
  0 <= PROCESS_KSTACK_SIZE cfg < 2 ^ 32 ->
  0 <= g_next_kernel_stack_virt_base s < 2 ^ 32 ->
  files s !! path = Some f ->
  create_user_process cfg path s = Ret (Some pcb) s' ->
  pid pcb = next_pid s /\
  entry_point pcb = e_entry f /\
  user_stack_top pcb = USER_STACK_TOP_VIRT_ADDR cfg /\
  page_directory_phys pcb <> 0 /\
  (exists m, mm pcb = Some m /\ pgd_phys m = page_directory_phys pcb) /\
  kernel_stack_vaddr_top pcb
    = g_next_kernel_stack_virt_base s + PROCESS_KSTACK_SIZE cfg /\
  g_next_kernel_stack_virt_base s' = kernel_stack_vaddr_top pcb /\
  tss_esp0 s' = kernel_stack_vaddr_top pcb /\
  exists p,
    p <> 0 /\
    ptes s' !! (page_directory_phys pcb,
                vpn (wrap32 (USER_STACK_TOP_VIRT_ADDR cfg - PAGE_SIZE)))
      = Some (Z.lor (pte_frame p) PTE_USER_DATA_FLAGS).
Proof.
  intros Hsize Hnext Hfile H. unfold create_user_process in H.
  bind_inv H ok s1 H1.
  pose proof (pres_kmalloc _ _ _ (inert_files (fun _ => False)) loud_ok_none
                _ _ _ H1) as Hf1.
  pose proof (pres_kmalloc _ _ _ (inert_next_kstack (fun _ => False)) loud_ok_none
                _ _ _ H1) as Hn1.
  assert (Hpid1 : next_pid s1 = next_pid s).
  { unfold kmalloc in H1. inversion H1; subst. reflexivity. }
  destruct ok; cbn [negb] in H.
  2:{ apply ret_inv in H. destruct H as [H _]. discriminate H. }
  bind_inv H pid0 s2 H2. apply gets_inv in H2. destruct H2 as [-> ->].
  bind_inv H u3 s3 H3. apply modify_inv in H3. subst s3.
  bind_inv H r s4 H4.
  destruct r as [c|proc].
  { bind_inv H u5 s5 H5. apply ret_inv in H. destruct H as [H _]. discriminate H. }
  apply ret_inv in H. destruct H as [H <-]. injection H as ->.
  unfold build_user_process in H4.
  bind_inv H4 pd t2 K2.
  destruct (pd =? 0) eqn:Hpd0.
  { apply ret_inv in H4. destruct H4 as [H4 _]. discriminate H4. }
  apply Z.eqb_neq in Hpd0.
  bind_inv H4 t t3 K3.
  destruct (t =? 0).
  { apply ret_inv in H4. destruct H4 as [H4 _]. discriminate H4. }
  bind_inv H4 u4 t4 K4. bind_inv H4 u5 t5 K5. bind_inv H4 u6 t6 K6.
  bind_inv H4 u7 t7 K7.
  pose proof (pd_setup_inert _ _ _ _ _ _ _ _ _ _ _ _ _ _ _ _ _
                (inert_files _) loud_ok_none K2 K3 K4 K5 K6 K7) as Hf7.
  pose proof (pd_setup_inert _ _ _ _ _ _ _ _ _ _ _ _ _ _ _ _ _
                (inert_next_kstack _) loud_ok_none K2 K3 K4 K5 K6 K7) as Hn7.
  cbn in Hf7, Hn7.
  bind_inv H4 res t8 K8. destruct res as [ok proc2].
  destruct ok; cbn [negb] in H4.
  2:{ apply ret_inv in H4. destruct H4 as [H4 _]. discriminate H4. }
  pose proof (pres_allocate_kernel_stack _ _ (inert_files _) loud_ok_none cfg
                (fun _ _ => eq_refl) _ _ _ _ K8) as Hf8.
  cbn beta in Hf8.
  assert (Hnext7 : 0 <= g_next_kernel_stack_virt_base t7 < 2 ^ 32)
    by (rewrite Hn7, Hn1; exact Hnext).
  destruct (allocate_kernel_stack_spec _ _ _ _ _ _ Hsize Hnext7 K8)
    as (_ & evs & _ & _ & Htop & Hn8 & _ & _ & phys_base & Hproc2).
  rewrite Hn7, Hn1 in Htop.
  bind_inv H4 u9 t9 K9.
  assert (Hs9 : files t9 = files t8 /\ tss_esp0 t9 = kernel_stack_vaddr_top proc2 /\
                g_next_kernel_stack_virt_base t9 = g_next_kernel_stack_virt_base t8).
  { unfold tss_set_kernel_stack, bind, emit, modify in K9. inversion K9; subst. auto. }
  destruct Hs9 as (Hf9 & He9 & Hn9).
  bind_inv H4 cm t10 K10.
  pose proof (pres_create_mm _ _ _ (inert_files (fun _ => False)) loud_ok_none
                _ _ _ _ K10) as Hf10.
  pose proof (pres_create_mm _ _ _ (inert_tss_esp0 (fun _ => False)) loud_ok_none
                _ _ _ _ K10) as He10.
  pose proof (pres_create_mm _ _ _ (inert_next_kstack (fun _ => False)) loud_ok_none
                _ _ _ _ K10) as Hn10.
  destruct cm as [m|].
  2:{ apply ret_inv in H4. destruct H4 as [H4 _]. discriminate H4. }
  assert (Hm : pgd_phys m = page_directory_phys proc2).
  { unfold create_mm in K10. bind_inv K10 u s5 E5. bind_inv K10 okm s6 E6.
    destruct okm; apply ret_inv in K10; destruct K10 as [K10 _];
      [injection K10 as <-; reflexivity | discriminate K10]. }
  bind_inv H4 loaded t11 K11. destruct loaded as [[[res m'] entry] brk].
  destruct (res =? 0) eqn:Hres; cbn [negb] in H4.
  2:{ apply ret_inv in H4. destruct H4 as [H4 _]. discriminate H4. }
  apply Z.eqb_eq in Hres. subst res.
  pose proof (pres_load_elf _ _ _ (inert_tss_esp0 _) kernel_only_none loud_ok_none
                _ _ _ _ (fun _ => eq_refl) (fun _ => eq_refl) _ _ _ K11) as He11.
  pose proof (pres_load_elf _ _ _ (inert_next_kstack _) kernel_only_none loud_ok_none
                _ _ _ _ (fun _ => eq_refl) (fun _ => eq_refl) _ _ _ K11) as Hn11.
  pose proof (pres_finish_user_process _ _ _ (inert_tss_esp0 _) kernel_only_none
                loud_ok_none _ _ _ _ _ _ _ H4) as He12.
  pose proof (pres_finish_user_process _ _ _ (inert_next_kstack _) kernel_only_none
                loud_ok_none _ _ _ _ _ _ _ H4) as Hn12.
  apply load_elf_success in K11.
  destruct K11 as (f' & l1 & l2 & hi & Hf' & _ & _ & Hsegs & _ & _ & Hentry & _).
  apply load_segments_pgd in Hsegs.
  assert (f' = f).
  { rewrite Hf10, Hf9, Hf8, Hf7, Hf1, Hfile in Hf'. congruence. }
  subst f'.
  apply finish_success_full in H4.
  destruct H4 as (m9 & p & s8 & s9 & Hp & Hmap & Hprep & Hpgd).
  cbn [page_directory_phys set_mm set_entry_point] in Hmap.
  assert (Hpte : ptes s4 !! (page_directory_phys proc2,
                             vpn (wrap32 (USER_STACK_TOP_VIRT_ADDR cfg - PAGE_SIZE)))
                 = Some (Z.lor (pte_frame p) PTE_USER_DATA_FLAGS)).
  { rewrite (pres_prepare _ _ _ (inert_pte_at _ _) cfg _ _ _ _ Hprep).
    exact (StackProps.map_single_ok _ _ _ _ _ _ Hmap). }
  apply prepare_result in Hprep. destruct Hprep as [esp ->].
  cbn [pid entry_point user_stack_top page_directory_phys mm kernel_stack_vaddr_top
       set_kernel_esp_for_switch set_user_stack_top set_mm set_entry_point].
  rewrite Hproc2 in *.
  cbn [pid entry_point user_stack_top page_directory_phys mm kernel_stack_vaddr_top
       set_kernel_stack_vaddr_top set_kernel_stack_phys_base set_page_directory_phys]
    in *.
  split; [exact Hpid1|]. split; [exact Hentry|]. split; [reflexivity|].
  split; [exact Hpd0|]. split.
  { exists m9. split; [reflexivity|]. rewrite Hpgd. cbn. congruence. }
  split; [exact Htop|].
  split; [congruence|]. split; [congruence|].
  exists p. split; [exact Hp | exact Hpte].
Qed.

Lemma finish_fail_pid cfg proc m brk s c s' :
  finish_user_process cfg proc m brk s = Ret (inl c) s' ->
  pid (fc_proc c) = pid proc.
Proof.
  intros H. unfold finish_user_process in H.
  bind_inv H heap s1 H1. bind_inv H u2 s2 H2. bind_inv H stk s3 H3.
  destruct stk as [m'|].
  2:{ apply ret_inv in H. destruct H as [H _]. injection H as <-. reflexivity. }
  bind_inv H u4 s4 H4. bind_inv H fr s5 H5.
  destruct (fr =? 0).
  { apply ret_inv in H. destruct H as [H _]. injection H as <-. reflexivity. }
  bind_inv H r s6 H6.
  destruct r;
    try (apply ret_inv in H; destruct H as [H _]; injection H as <-; reflexivity).
  bind_inv H p s7 H7. apply ret_inv in H. destruct H as [H _]. discriminate H.
Qed.

Lemma allocate_pid cfg proc s ok proc' s' :
  allocate_kernel_stack cfg proc s = Ret (ok, proc') s' -> pid proc' = pid proc.
Proof.
  intros H. unfold allocate_kernel_stack in H.
  destruct (_ || _); [apply ret_inv in H; destruct H as [H _]; congruence|].
  bind_inv H okm s1 H1. destruct okm; cbn [negb] in H;
    [|apply ret_inv in H; destruct H as [H _]; congruence].
  bind_inv H fr s2 H2. destruct fr as [frames|];
    [|apply ret_inv in H; destruct H as [H _]; congruence].
  bind_inv H base s3 H3. destruct (_ || _).
  { bind_inv H u4 s4 H4. bind_inv H u5 s5 H5.
    apply ret_inv in H. destruct H as [H _]. injection H as _ <-. reflexivity. }
  bind_inv H u4 s4 H4. bind_inv H u5 s5 H5. bind_inv H mapped s6 H6.
  destruct mapped; cbn [negb] in H.
  - bind_inv H u7 s7 H7. apply ret_inv in H. destruct H as [H _].
    injection H as _ <-. reflexivity.
  - apply ret_inv in H. destruct H as [H _]. injection H as _ <-. reflexivity.
Qed.

Lemma build_fail_pid cfg path proc s c s' :
  build_user_process cfg path proc s = Ret (inl c) s' -> pid (fc_proc c) = pid proc.
Proof.
  intros H. unfold build_user_process in H.
  bind_inv H pd s2 H2. destruct (pd =? 0).
  { apply ret_inv in H. destruct H as [H _]. injection H as <-. reflexivity. }
  bind_inv H t s3 H3. destruct (t =? 0).
  { apply ret_inv in H. destruct H as [H _]. injection H as <-. reflexivity. }
  bind_inv H u4 s4 H4. bind_inv H u5 s5 H5. bind_inv H u6 s6 H6. bind_inv H u7 s7 H7.
  bind_inv H res s8 H8. destruct res as [ok proc2].
  apply allocate_pid in H8. cbn in H8.
  destruct ok; cbn [negb] in H.
  2:{ apply ret_inv in H. destruct H as [H _]. injection H as <-. exact H8. }
  bind_inv H u9 s9 H9. bind_inv H cm s10 H10.
  destruct cm as [m|].
  2:{ apply ret_inv in H. destruct H as [H _]. injection H as <-. exact H8. }
  bind_inv H loaded s11 H11. destruct loaded as [[[res m'] entry] brk].
  destruct (negb _).
  { apply ret_inv in H. destruct H as [H _]. injection H as <-. exact H8. }
  apply finish_fail_pid in H. cbn in H. congruence.
Qed.

(** X13: a failed [create_user_process] does not leak the PCB: either the
    PCB could not be allocated, and that [kmalloc] is the only call made,
    or the last call of the failure path is the [kfree] of the PCB, whose
    pid is the one that was next on entry. *)
Theorem create_failure_frees_pcb cfg path s s' :
  create_user_process cfg path s = Ret None s' ->
  trace s' = trace s ++ [EvKmalloc false] \/
  exists pre, trace s' = pre ++ [EvKfree (HeapPcb (next_pid s))].
Proof.
  intros H. unfold create_user_process in H.
  bind_inv H ok s1 H1.
  assert (Hpid1 : next_pid s1 = next_pid s).
  { unfold kmalloc in H1. inversion H1; subst. reflexivity. }
  apply kmalloc_spec in H1. destruct H1 as (Ht1 & _).
  destruct ok; cbn [negb] in H.
  2:{ apply ret_inv in H. destruct H as [_ <-]. left. exact Ht1. }
  right.
  bind_inv H pid0 s2 H2. apply gets_inv in H2. destruct H2 as [-> ->].
  bind_inv H u3 s3 H3. apply modify_inv in H3. subst s3.
  bind_inv H r s4 H4.
  destruct r as [c|proc].
  2:{ apply ret_inv in H. destruct H as [H _]. discriminate H. }
  apply build_fail_pid in H4. cbn in H4.
  bind_inv H u5 s5 H5. apply ret_inv in H. destruct H as [_ <-].
  unfold fail_create in H5.
  bind_inv H5 u6 s6 H6. bind_inv H5 u7 s7 H7.
  unfold destroy_process in H5.
  bind_inv H5 e8 s8 H8. bind_inv H5 e9 s9 H9. bind_inv H5 e10 s10 H10.
  apply emit_inv in H5. subst s5. cbn [trace set_trace pid set_mm].
  exists (trace s10). rewrite H4, Hpid1. reflexivity.
Qed.

Lemma load_page_calls_witness :
  exists s' p,
    load_page scenario_elf 0x400000 0 5 0x08048000 (boot_state scenario_elf)
      = Ret None s' /\
    p <> 0 /\
    trace s' = trace (boot_state scenario_elf) ++
      [EvFrameAlloc p; EvTempMap p; EvTempUnmap PAGING_TEMP_VADDR;
       EvMapSingle 0x400000 0x08048000 p 5 MapOk] /\
    ptes s' !! (0x400000, vpn 0x08048000) = Some (Z.lor (pte_frame p) 5).
Proof.
  assert (Hv : outcome_value
                 (load_page scenario_elf 0x400000 0 5 0x08048000
                    (boot_state scenario_elf))
               = Some None) by (vm_compute; reflexivity).
  destruct (load_page scenario_elf 0x400000 0 5 0x08048000 (boot_state scenario_elf))
    as [r s'| |] eqn:Hrun; try discriminate Hv.
  cbn in Hv. injection Hv as ->. exists s'.
  destruct (load_page_calls scenario_elf 0x400000 0 5 0x08048000
              (boot_state scenario_elf) s' Hrun) as (p & Hp).
  exists p. split; [reflexivity | exact Hp].
Defined.

Lemma create_user_process_result_witness :
  exists s',
    create_user_process cfg0 "/kernel.bin" (boot_state scenario_elf)
      = Ret (Some demo_pcb) s' /\
    (pid demo_pcb = next_pid (boot_state scenario_elf) /\
     entry_point demo_pcb = e_entry scenario_elf /\
     user_stack_top demo_pcb = USER_STACK_TOP_VIRT_ADDR cfg0 /\
     page_directory_phys demo_pcb <> 0 /\
     (exists m, mm demo_pcb = Some m /\ pgd_phys m = page_directory_phys demo_pcb) /\
     kernel_stack_vaddr_top demo_pcb
       = g_next_kernel_stack_virt_base (boot_state scenario_elf)
         + PROCESS_KSTACK_SIZE cfg0 /\
     g_next_kernel_stack_virt_base s' = kernel_stack_vaddr_top demo_pcb /\
     tss_esp0 s' = kernel_stack_vaddr_top demo_pcb /\
     exists p,
       p <> 0 /\
       ptes s' !! (page_directory_phys demo_pcb,
                   vpn (wrap32 (USER_STACK_TOP_VIRT_ADDR cfg0 - PAGE_SIZE)))
         = Some (Z.lor (pte_frame p) PTE_USER_DATA_FLAGS)).
Proof.
  assert (Hv : outcome_value
                 (create_user_process cfg0 "/kernel.bin" (boot_state scenario_elf))
               = Some (Some demo_pcb)) by (vm_compute; reflexivity).
  destruct (create_user_process cfg0 "/kernel.bin" (boot_state scenario_elf))
    as [r s'| |] eqn:Hrun; try discriminate Hv.
  cbn in Hv. injection Hv as ->.
  exists s'. split; [reflexivity|].
  apply (create_user_process_result cfg0 "/kernel.bin" (boot_state scenario_elf)
           scenario_elf demo_pcb s').
  - cbn. lia.
  - cbn. lia.
  - apply files_machine.
  - exact Hrun.
Defined.

Lemma create_failure_frees_pcb_witness :
  exists s',
    create_user_process cfg0 "/kernel.bin" (boot_state bad_magic_elf) = Ret None s' /\
    (trace s' = trace (boot_state bad_magic_elf) ++ [EvKmalloc false] \/
     exists pre,
       trace s' = pre ++ [EvKfree (HeapPcb (next_pid (boot_state bad_magic_elf)))]).
Proof.
  assert (Hv : outcome_value
                 (create_user_process cfg0 "/kernel.bin" (boot_state bad_magic_elf))
               = Some None) by (vm_compute; reflexivity).
  destruct (create_user_process cfg0 "/kernel.bin" (boot_state bad_magic_elf))
    as [r s'| |] eqn:Hrun; try discriminate Hv.
  cbn in Hv. injection Hv as ->.
  exists s'. split; [reflexivity|].
  apply (create_failure_frees_pcb cfg0 "/kernel.bin" (boot_state bad_magic_elf) s').
  exact Hrun.
Defined.

End CreateProps.
Import CreateProps.

(** ** Console output and the heap region *)

Module InitProps.
Import Boot Init BootFacts.

(** Masking with [~(2^k - 1)] rounds a 32-bit value down to a multiple of
    [2^k]. *)
Lemma land_mask k x :
  0 <= k <= 32 -> 0 <= x < 2 ^ 32 ->
  Z.land x (not32 (2 ^ k - 1)) = 2 ^ k * (x / 2 ^ k).
Proof.
  intros Hk Hx. unfold not32, wrap32.
  rewrite <- (Z.land_ones (Z.lnot (2 ^ k - 1)) 32) by lia.
  rewrite Z.land_assoc, (Z.land_comm x), <- Z.land_assoc.
  rewrite (Z.land_ones x 32) by lia. rewrite (Z.mod_small x) by exact Hx.
  rewrite Z.land_comm, <- Z.ldiff_land.
  replace (2 ^ k - 1) with (Z.ones k) by (rewrite Z.ones_equiv; lia).
  rewrite Z.ldiff_ones_r by lia.
  rewrite Z.shiftl_mul_pow2, Z.shiftr_div_pow2 by lia. lia.
Qed.

Lemma first_largest_bound kend seen bb bs e :
  first_largest kend seen bb bs -> In e seen -> considered e ->
  remaining_size kend e <= bs.
Proof.
  intros (l1 & e0 & l2 & -> & Hc & _ & Hs & H1 & H2) Hin Hce.
  apply in_app_or in Hin. destruct Hin as [Hin | [<- | Hin]].
  - specialize (H1 e Hin Hce). lia.
  - lia.
  - exact (H2 e Hin Hce).
Qed.

Lemma first_largest_snoc kend seen bb bs e :
  first_largest kend seen bb bs ->
  (considered e -> remaining_size kend e <= bs) ->
  first_largest kend (seen ++ [e]) bb bs.
Proof.
  intros (l1 & e0 & l2 & -> & Hc & Hb & Hs & H1 & H2) He.
  exists l1, e0, (l2 ++ [e]). split; [rewrite <- app_assoc; reflexivity|].
  split; [exact Hc|]. split; [exact Hb|]. split; [exact Hs|]. split; [exact H1|].
  intros e' Hin Hce. apply in_app_or in Hin. destruct Hin as [Hin | [<- | []]].
  - exact (H2 e' Hin Hce).
  - exact (He Hce).
Qed.

Lemma remaining_size_nonneg kend e : 0 <= remaining_size kend e.
Proof. unfold remaining_size. lia. Qed.

Lemma first_largest_fold kend rest : forall seen bb bs,
  Forall (fun e => considered e -> below_4g e) rest ->
  (bs = 0 /\ (forall e, In e seen -> considered e -> remaining_size kend e = 0)) \/
  (0 < bs /\ first_largest kend seen bb bs) ->
  let best := fold_left (scan_entry kend) rest (bb, bs) in
  (best.2 = 0 /\
   (forall e, In e (seen ++ rest) -> considered e -> remaining_size kend e = 0)) \/
  (0 < best.2 /\ first_largest kend (seen ++ rest) best.1 best.2).
Proof.
  induction rest as [|e rest IH]; intros seen bb bs Hall Hinv; cbn [fold_left].
  - rewrite app_nil_r. exact Hinv.
  - inversion Hall as [|? ? He Hrest]; subst.
    replace (seen ++ e :: rest) with ((seen ++ [e]) ++ rest)
      by (rewrite <- app_assoc; reflexivity).
    assert (Hbs : 0 <= bs) by (destruct Hinv as [[-> _] | [Hb _]]; lia).
    rewrite scan_entry_below_4g by assumption.
    pose proof (remaining_size_nonneg kend e) as Hnn.
    destruct ((mm_type e =? MULTIBOOT_MEMORY_AVAILABLE) && (0x100000 <=? mm_addr e))
      eqn:Hc.
    + apply considered_dec in Hc.
      destruct (bs <? remaining_size kend e) eqn:Hlt;
        [apply Z.ltb_lt in Hlt | apply Z.ltb_ge in Hlt].
      * apply IH; [exact Hrest|]. right. split; [lia|].
        exists seen, e, []. split; [reflexivity|]. split; [exact Hc|].
        split; [reflexivity|]. split; [reflexivity|]. split; [|intros e' []].
        intros e' Hin Hce. destruct Hinv as [[-> Hz] | [_ Hf]].
        -- rewrite (Hz e' Hin Hce). exact Hlt.
        -- pose proof (first_largest_bound _ _ _ _ _ Hf Hin Hce). lia.
      * apply IH; [exact Hrest|]. destruct Hinv as [[-> Hz] | [Hb Hf]].
        -- left. split; [reflexivity|]. intros e' Hin Hce.
           apply in_app_or in Hin. destruct Hin as [Hin | [<- | []]].
           ++ exact (Hz e' Hin Hce).
           ++ lia.
        -- right. split; [exact Hb|]. apply first_largest_snoc; [exact Hf|].
           intros _. exact Hlt.
    + apply IH; [exact Hrest|]. destruct Hinv as [[-> Hz] | [Hb Hf]].
      * left. split; [reflexivity|]. intros e' Hin Hce.
        apply in_app_or in Hin. destruct Hin as [Hin | [<- | []]].
        -- exact (Hz e' Hin Hce).
        -- apply considered_dec in Hce. congruence.
      * right. split; [exact Hb|]. apply first_largest_snoc; [exact Hf|].
        intros Hce. apply considered_dec in Hce. congruence.
Qed.

(** X14: among regions of the same largest size
    [find_largest_memory_area] picks the first of the map: on a map whose
    AVAILABLE entries at or above 1 MiB lie below 4 GiB, the region it
    returns is what remains of an entry such that every considered entry
    before it leaves strictly less, and every one after it leaves at most as
    much. *)
Theorem find_largest_memory_area_first kend entries base size :
  Forall (fun e => considered e -> below_4g e) entries ->
  find_largest_memory_area kend entries = Some (base, size) ->
  first_largest kend entries base size.
Proof.
  intros Hall H. unfold find_largest_memory_area in H.
  pose proof (first_largest_fold kend entries [] 0 0 Hall) as Hf.
  cbn zeta in Hf. rewrite app_nil_l in Hf.
  destruct (fold_left (scan_entry kend) entries (0, 0)) as [bb bs].
  cbn [fst snd] in Hf.
  destruct (0 <? bs) eqn:Hb; [apply Z.ltb_lt in Hb | discriminate H].
  injection H as <- <-.
  destruct Hf as [[Hz _] | [_ Hf]]; [left; split; [reflexivity | intros e []] | lia |].
  destruct Hf as (l1 & e & l2 & Hent & Hc & Hbase & Hsize & H1 & H2).
  assert (Hfit : below_4g e).
  { rewrite List.Forall_forall in Hall. apply (Hall e); [|exact Hc].
    rewrite Hent. apply in_or_app. right. left. reflexivity. }
  pose proof (remaining_size_bound kend e Hc Hfit) as Hlt.
  rewrite wrap32_small by lia.
  exists l1, e, l2. auto 10.
Qed.

Lemma find_largest_memory_area_first_witness :
  first_largest 0x200000 twin_map 0x400000 0x800000.
Proof.
  apply (find_largest_memory_area_first 0x200000 twin_map 0x400000 0x800000).
  - repeat constructor; simpl; lia.
  - reflexivity.
Defined.

Lemma hex_char_digit value i :
  hex_digit_value (hex_char value i)
    = Some (Z.land (Z.shiftr value ((7 - i) * 4)) 0xF).
Proof.
  unfold hex_char, hex_digit_value.
  set (n := Z.land (Z.shiftr value ((7 - i) * 4)) 0xF).
  assert (Hn : 0 <= n < 16).
  { unfold n. change 0xF with (Z.ones 4). rewrite Z.land_ones by lia.
    apply Z.mod_pos_bound. lia. }
  change (b2z "0"%byte) with 48. change (b2z "A"%byte) with 65.
  destruct (n <? 10) eqn:Hlt; [apply Z.ltb_lt in Hlt | apply Z.ltb_ge in Hlt];
    rewrite b2z_z2b, Z.mod_small by lia.
  - replace ((48 <=? 48 + n) && (48 + n <=? 57)) with true
      by (symmetry; apply andb_true_iff; split; apply Z.leb_le; lia).
    f_equal. lia.
  - replace ((48 <=? 65 + n - 10) && (65 + n - 10 <=? 57)) with false
      by (symmetry; apply andb_false_iff; right; apply Z.leb_gt; lia).
    replace ((65 <=? 65 + n - 10) && (65 + n - 10 <=? 70)) with true
      by (symmetry; apply andb_true_iff; split; apply Z.leb_le; lia).
    f_equal. lia.
Qed.

Lemma nibble_div value k :
  0 <= k -> Z.land (Z.shiftr value (k * 4)) 0xF = (value / 16 ^ k) mod 16.
Proof.
  intros Hk. change 0xF with (Z.ones 4). rewrite Z.land_ones by lia.
  rewrite Z.shiftr_div_pow2 by lia.
  replace (2 ^ (k * 4)) with (16 ^ k); [reflexivity|].
  rewrite Z.mul_comm, Z.pow_mul_r by lia. reflexivity.
Qed.

(** X15: [print_hex] writes eight upper-case hexadecimal digits, most
    significant first, and they read back as the value printed. *)
Theorem print_hex_round_trip value :
  0 <= value < 2 ^ 32 ->
  length (print_hex value) = 8%nat /\ hex_value 0 (print_hex value) = Some value.
Proof.
  intros Hv. split; [reflexivity|].
  unfold print_hex. cbn [seq map hex_value].
  rewrite !hex_char_digit.
  change (Z.of_nat 0) with 0. change (Z.of_nat 1) with 1. change (Z.of_nat 2) with 2.
  change (Z.of_nat 3) with 3. change (Z.of_nat 4) with 4. change (Z.of_nat 5) with 5.
  change (Z.of_nat 6) with 6. change (Z.of_nat 7) with 7.
  change (7 - 0) with 7. change (7 - 1) with 6. change (7 - 2) with 5.
  change (7 - 3) with 4. change (7 - 4) with 3. change (7 - 5) with 2.
  change (7 - 6) with 1. change (7 - 7) with 0.
  rewrite !nibble_div by lia.
  f_equal.
  change (16 ^ 7) with 268435456. change (16 ^ 6) with 16777216.
  change (16 ^ 5) with 1048576. change (16 ^ 4) with 65536.
  change (16 ^ 3) with 4096. change (16 ^ 2) with 256.
  change (16 ^ 1) with 16. change (16 ^ 0) with 1.
  rewrite pow32 in Hv.
  Z.div_mod_to_equations. lia.
Qed.

Lemma print_hex_round_trip_witness :
  length (print_hex 0xC0FFEE) = 8%nat /\
  hex_value 0 (print_hex 0xC0FFEE) = Some 0xC0FFEE.
Proof.
  apply (print_hex_round_trip 0xC0FFEE). cbn. lia.
Defined.

Lemma align_up_page x :
  0 <= x <= 2 ^ 32 - PAGE_SIZE ->
  let a := Z.land (wrap32 (x + PAGE_SIZE - 1)) (not32 (PAGE_SIZE - 1)) in
  a mod PAGE_SIZE = 0 /\ x <= a < x + PAGE_SIZE.
Proof.
  intros Hx a.
  pose proof (page_align_up_eq x Hx) as Ha.
  unfold PAGE_ALIGN_UP, ALIGN_UP in Ha. fold a in Ha.
  rewrite pow32 in Hx. unfold PAGE_SIZE in *. rewrite Ha.
  split.
  - rewrite Z.mul_comm. apply Z.mod_mul. lia.
  - Z.div_mod_to_equations. lia.
Qed.

(** X16: the heap region [init_memory_management] gives to the buddy
    allocator.  A region [start, start + size) of the 32-bit address space
    is refused when the size, clamped to [1 << MAX_ORDER], is below 1 MiB,
    and only then: when a heap is handed out the clamped size is at least
    1 MiB, so the test after the alignment never fires.  The heap then
    starts at [start] rounded up to a page, ends where the clamped region
    ends, and so lies inside the region found. *)
Theorem heap_region_inside MAX_ORDER start size :
  0 <= MAX_ORDER < 32 -> 0 <= start -> 0 <= size -> start + size <= 2 ^ 32 ->
  match heap_region MAX_ORDER start size with
  | Some (b, n) =>
      1024 * 1024 <= Z.min size (2 ^ MAX_ORDER) /\
      b mod PAGE_SIZE = 0 /\ start <= b < start + PAGE_SIZE /\
      b + n = start + Z.min size (2 ^ MAX_ORDER) /\ 0 < n
  | None => Z.min size (2 ^ MAX_ORDER) < 1024 * 1024
  end.
Proof.
  intros Hmo Hs Hz Hfit. unfold heap_region.
  assert (Hpow : 0 < 2 ^ MAX_ORDER < 2 ^ 32).
  { split; [apply Z.pow_pos_nonneg; lia | apply Z.pow_lt_mono_r; lia]. }
  rewrite Z.shiftl_1_l, (wrap32_small (2 ^ MAX_ORDER)) by lia.
  set (sz := if 2 ^ MAX_ORDER <? size then 2 ^ MAX_ORDER else size).
  assert (Hsz : sz = Z.min size (2 ^ MAX_ORDER)).
  { unfold sz. destruct (2 ^ MAX_ORDER <? size) eqn:Hc;
      [apply Z.ltb_lt in Hc | apply Z.ltb_ge in Hc]; lia. }
  rewrite <- Hsz.
  destruct (sz <? 1024 * 1024) eqn:Hsmall;
    [apply Z.ltb_lt in Hsmall; exact Hsmall | apply Z.ltb_ge in Hsmall].
  rewrite pow32 in *.
  assert (Hx : 0 <= start <= 2 ^ 32 - PAGE_SIZE)
    by (rewrite pow32; unfold PAGE_SIZE; lia).
  destruct (align_up_page start Hx) as [Hal Hrange].
  set (a := Z.land (wrap32 (start + PAGE_SIZE - 1)) (not32 (PAGE_SIZE - 1))) in *.
  unfold PAGE_SIZE in Hrange.
  rewrite (wrap32_small (a - start)) by (rewrite pow32; lia).
  destruct (sz <=? a - start) eqn:Hle; [apply Z.leb_le in Hle; lia|].
  apply Z.leb_gt in Hle.
  rewrite wrap32_small by (rewrite pow32; lia).
  unfold PAGE_SIZE. split; [exact Hsmall|]. split; [exact Hal|]. lia.
Qed.

Lemma heap_region_inside_witness :
  match heap_region 22 0x400800 0x800000 with
  | Some (b, n) =>
      1024 * 1024 <= Z.min 0x800000 (2 ^ 22) /\
      b mod PAGE_SIZE = 0 /\ 0x400800 <= b < 0x400800 + PAGE_SIZE /\
      b + n = 0x400800 + Z.min 0x800000 (2 ^ 22) /\ 0 < n
  | None => Z.min 0x800000 (2 ^ 22) < 1024 * 1024
  end.
Proof.
  apply (heap_region_inside 22 0x400800 0x800000); cbn; lia.
Defined.

Lemma phys_mapping_size_eq start size :
  0 <= start -> 0 <= size -> start + size <= 0xFFF00000 ->
  phys_mapping_size start size
    = 1048576 * ((Z.max (start + size) (16 * 1024 * 1024) + 0xFFFFF) / 1048576).
Proof.
  intros Hs Hz He. unfold phys_mapping_size.
  rewrite (wrap32_small (start + size)) by (rewrite pow32; lia).
  set (p1 := if start + size <? 16 * 1024 * 1024 then 16 * 1024 * 1024
             else start + size).
  assert (Hp1 : p1 = Z.max (start + size) (16 * 1024 * 1024)).
  { unfold p1. destruct (start + size <? 16 * 1024 * 1024) eqn:Hc;
      [apply Z.ltb_lt in Hc | apply Z.ltb_ge in Hc]; lia. }
  rewrite <- Hp1.
  assert (Hr1 : 16 * 1024 * 1024 <= p1 <= 0xFFF00000) by lia.
  clearbody p1.
  rewrite (wrap32_small (p1 + 0xFFFFF)) by (rewrite pow32; lia).
  change (not32 0xFFFFF) with (not32 (2 ^ 20 - 1)).
  rewrite (land_mask 20) by (rewrite ?pow32; lia).
  change (2 ^ 20) with 1048576.
  set (q := (p1 + 0xFFFFF) / 1048576).
  assert (Hq : 0 <= q <= 0xFFF) by (unfold q; Z.div_mod_to_equations; lia).
  rewrite (wrap32_small (1048576 * q + PAGE_SIZE - 1))
    by (rewrite pow32; unfold PAGE_SIZE; lia).
  rewrite land_page_mask by (rewrite pow32; unfold PAGE_SIZE; lia).
  replace ((1048576 * q + PAGE_SIZE - 1) / PAGE_SIZE) with (256 * q).
  2:{ apply (Z.div_unique _ PAGE_SIZE (256 * q) (PAGE_SIZE - 1));
        unfold PAGE_SIZE; lia. }
  unfold PAGE_SIZE. lia.
Qed.

(** X17: for a heap that ends at or below 0xFFF00000 the size of the
    initial mapping is a whole number of MiB, at least 16 MiB, and reaches
    the end of the heap with less than 1 MiB to spare over the larger of
    the two; the page rounding that follows the MiB rounding changes
    nothing. *)
Theorem phys_mapping_size_covers start size :
  0 <= start -> 0 <= size -> start + size <= 0xFFF00000 ->
  phys_mapping_size start size mod 2 ^ 20 = 0 /\
  Z.max (start + size) (16 * 1024 * 1024) <= phys_mapping_size start size
    < Z.max (start + size) (16 * 1024 * 1024) + 2 ^ 20.
Proof.
  intros Hs Hz He. rewrite (phys_mapping_size_eq start size Hs Hz He).
  change (2 ^ 20) with 1048576. split.
  - rewrite Z.mul_comm. apply Z.mod_mul. lia.
  - Z.div_mod_to_equations. lia.
Qed.

Lemma phys_mapping_size_covers_witness :
  phys_mapping_size 0x401000 0x7FF800 mod 2 ^ 20 = 0 /\
  Z.max (0x401000 + 0x7FF800) (16 * 1024 * 1024) <= phys_mapping_size 0x401000 0x7FF800
    < Z.max (0x401000 + 0x7FF800) (16 * 1024 * 1024) + 2 ^ 20.
Proof.
  apply (phys_mapping_size_covers 0x401000 0x7FF800); lia.
Defined.

(** X18: for a heap that ends above 0xFFF00000 the rounding up to a MiB
    wraps around, and the size of the initial mapping comes out as 0. *)
Theorem phys_mapping_size_wraps start size :
  0 <= start -> 0 <= size -> 0xFFF00000 < start + size < 2 ^ 32 ->
  phys_mapping_size start size = 0.
Proof.
  intros Hs Hz He. rewrite pow32 in He. unfold phys_mapping_size.
  rewrite (wrap32_small (start + size)) by (rewrite pow32; lia).
  replace (start + size <? 16 * 1024 * 1024) with false
    by (symmetry; apply Z.ltb_ge; lia).
  set (e := start + size) in *.
  assert (Hw : wrap32 (e + 0xFFFFF) = e + 0xFFFFF - 2 ^ 32).
  { unfold wrap32. symmetry. apply (Z.mod_unique _ _ 1); rewrite ?pow32; lia. }
  rewrite Hw. change 0xFFFFF with (2 ^ 20 - 1) at 2.
  rewrite (land_mask 20) by (rewrite ?pow32; lia).
  replace ((e + 0xFFFFF - 2 ^ 32) / 2 ^ 20) with 0.
  2:{ symmetry. apply Z.div_small. rewrite pow32. change (2 ^ 20) with 1048576. lia. }
  rewrite Z.mul_0_r. vm_compute. reflexivity.
Qed.

Lemma phys_mapping_size_wraps_witness : phys_mapping_size 0xFFC00000 0x3FF000 = 0.
Proof.
  apply (phys_mapping_size_wraps 0xFFC00000 0x3FF000); cbn; lia.
Defined.

(** X19: the macros of [paging.h] take a 32-bit address apart without
    loss: the directory index, the table index and the offset are below
    1024, 1024 and 4096 and put together give the address back, and
    [PAGE_ALIGN_DOWN] is the address without its offset. *)
Theorem address_parts addr :
  0 <= addr < 2 ^ 32 ->
  0 <= PDE_INDEX addr < 1024 /\ 0 <= PTE_INDEX addr < 1024 /\
  0 <= PAGE_OFFSET addr < PAGE_SIZE /\
  addr = PDE_INDEX addr * 2 ^ 22 + PTE_INDEX addr * 2 ^ 12 + PAGE_OFFSET addr /\
  PAGE_ALIGN_DOWN addr = PDE_INDEX addr * 2 ^ 22 + PTE_INDEX addr * 2 ^ 12.
Proof.
  intros Ha. rewrite page_align_down_eq by exact Ha. rewrite page_offset_mod.
  unfold PDE_INDEX, PTE_INDEX, PAGING_PDE_SHIFT, PAGING_PTE_SHIFT.
  change 0x3FF with (Z.ones 10). rewrite !Z.land_ones by lia.
  rewrite !Z.shiftr_div_pow2 by lia.
  rewrite pow32 in Ha. unfold PAGE_SIZE.
  change (2 ^ 22) with 4194304. change (2 ^ 12) with 4096. change (2 ^ 10) with 1024.
  Z.div_mod_to_equations. lia.
Qed.

Lemma address_parts_witness :
  0 <= PDE_INDEX 0xC0123ABC < 1024 /\ 0 <= PTE_INDEX 0xC0123ABC < 1024 /\
  0 <= PAGE_OFFSET 0xC0123ABC < PAGE_SIZE /\
  0xC0123ABC = PDE_INDEX 0xC0123ABC * 2 ^ 22 + PTE_INDEX 0xC0123ABC * 2 ^ 12
               + PAGE_OFFSET 0xC0123ABC /\
  PAGE_ALIGN_DOWN 0xC0123ABC
    = PDE_INDEX 0xC0123ABC * 2 ^ 22 + PTE_INDEX 0xC0123ABC * 2 ^ 12.
Proof.
  apply (address_parts 0xC0123ABC). cbn. lia.
Defined.

End InitProps.
Import InitProps.

(** ** Page tables against the log *)

Module TrackFacts.

Ltac bind_inv H a s1 H1 :=
  apply bind_ret_inv in H; destruct H as (a & s1 & H1 & H).

Lemma written_app_l e1 e2 pd q w : written e1 pd q w -> written (e1 ++ e2) pd q w.
Proof.
  intros (v & p & fl & Hin & Hq & Hw). exists v, p, fl.
  split; [apply in_or_app; left; exact Hin | auto].
Qed.

Lemma written_app_r e1 e2 pd q w : written e2 pd q w -> written (e1 ++ e2) pd q w.
Proof.
  intros (v & p & fl & Hin & Hq & Hw). exists v, p, fl.
  split; [apply in_or_app; right; exact Hin | auto].
Qed.

Lemma tracks_refl s : tracks s s [].
Proof.
  split; [rewrite app_nil_r; reflexivity|]. split; [auto|]. intros pd v p fl [].
Qed.

Lemma tracks_trans s s1 s2 e1 e2 :
  tracks s s1 e1 -> tracks s1 s2 e2 -> tracks s s2 (e1 ++ e2).
Proof.
  intros (Ht1 & Hc1 & Hm1) (Ht2 & Hc2 & Hm2). split; [|split].
  - rewrite Ht2, Ht1, <- app_assoc. reflexivity.
  - intros pd q Hq. destruct (Hc2 pd q Hq) as [Heq | (w & Hw & Hl)].
    + rewrite Heq. destruct (Hc1 pd q Hq) as [Heq1 | (w & Hw & Hl)]; [left; exact Heq1|].
      right. exists w. split; [apply written_app_l, Hw | exact Hl].
    + right. exists w. split; [apply written_app_r, Hw | exact Hl].
  - intros pd v p fl Hin Hv. apply in_app_or in Hin. destruct Hin as [Hin | Hin].
    + destruct (Hc2 pd (vpn v) Hv) as [Heq | (w & Hw & Hl)].
      * destruct (Hm1 pd v p fl Hin Hv) as (w & Hw & Hl).
        exists w. split; [apply written_app_l, Hw | rewrite Heq; exact Hl].
      * exists w. split; [apply written_app_r, Hw | exact Hl].
    + destruct (Hm2 pd v p fl Hin Hv) as (w & Hw & Hl).
      exists w. split; [apply written_app_r, Hw | exact Hl].
Qed.

Section Tracking.

Variable ok : event -> Prop.

Lemma tracking_ret {A} (a : A) : tracking ok (ret a).
Proof.
  intros s b s' H. apply ret_inv in H. destruct H as [_ <-].
  exists []. split; [apply tracks_refl | constructor].
Qed.

Lemma tracking_bind {A B} (m : M A) (k : A -> M B) :
  tracking ok m -> (forall a, tracking ok (k a)) -> tracking ok (bind m k).
Proof.
  intros Hm Hk s b s' H. bind_inv H a s1 H1.
  destruct (Hm _ _ _ H1) as (e1 & T1 & F1).
  destruct (Hk _ _ _ _ H) as (e2 & T2 & F2).
  exists (e1 ++ e2). split; [exact (tracks_trans _ _ _ _ _ T1 T2)|].
  apply Forall_app. auto.
Qed.

Lemma tracking_halt {A} : tracking ok (@halt A).
Proof. intros s a s' H. discriminate H. Qed.

Lemma tracking_spin {A} : tracking ok (@spin A).
Proof. intros s a s' H. discriminate H. Qed.

(** A call that logs nothing and leaves the page tables alone, the
    temporary slot apart. *)
Lemma tracking_silent {A} (m : M A) :
  preserves trace m ->
  (forall pd q, q <> temp_vpn -> preserves (fun s => ptes s !! (pd, q)) m) ->
  tracking ok m.
Proof.
  intros Ht Hp s a s' H. exists []. split; [|constructor].
  split; [rewrite app_nil_r; exact (Ht _ _ _ H)|]. split.
  - intros pd q Hq. left. exact (Hp pd q Hq _ _ _ H).
  - intros pd v p fl [].
Qed.

Lemma tracking_gets {A} (f : kstate -> A) : tracking ok (gets f).
Proof.
  apply tracking_silent; [|intros pd q _]; apply preserves_gets.
Qed.

Lemma tracking_assert c : tracking ok (KERNEL_ASSERT c).
Proof.
  apply tracking_silent; [|intros pd q _]; apply preserves_assert.
Qed.

Lemma tracking_emit e :
  ok e -> (forall pd v p fl, e <> EvMapSingle pd v p fl MapOk) -> tracking ok (emit e).
Proof.
  intros Hok Hne s a s' H. apply emit_inv in H. subst s'.
  exists [e]. split; [|constructor; [exact Hok | constructor]].
  split; [reflexivity|]. split; [intros pd q _; left; reflexivity|].
  intros pd v p fl [Hin | []]. exfalso. exact (Hne _ _ _ _ Hin).
Qed.

Lemma tracking_for_pages {E} (body : Z -> M (option E)) :
  (forall v, tracking ok (body v)) ->
  forall fuel v v_end, tracking ok (for_pages fuel v v_end body).
Proof.
  intros Hb. induction fuel as [|fuel IH]; intros v v_end; cbn [for_pages].
  - apply tracking_spin.
  - destruct (v <? v_end); [|apply tracking_ret].
    apply tracking_bind; [apply Hb|].
    intros [e|]; [apply tracking_ret | apply IH].
Qed.

End Tracking.

(** Structural steps of a [tracking] proof. *)
Ltac track_step :=
  match goal with
  | |- tracking _ (ret _) => apply tracking_ret
  | |- tracking _ halt => apply tracking_halt
  | |- tracking _ spin => apply tracking_spin
  | |- tracking _ (gets _) => apply tracking_gets
  | |- tracking _ (KERNEL_ASSERT _) => apply tracking_assert
  | |- tracking _ (emit _) =>
      apply tracking_emit; [exact I | intros ? ? ? ?; discriminate]
  | |- tracking _ (bind _ _) => apply tracking_bind; [|intros ?]
  | |- tracking _ (if ?b then _ else _) => destruct b
  | |- tracking _ (match ?x with _ => _ end) => destruct x
  | |- tracking _ (for_pages _ _ _ _) => apply tracking_for_pages; intros ?
  end.

Lemma inert_trace_all K : inert (fun _ => true) K trace.
Proof. constructor; try reflexivity. intros e s H. discriminate. Qed.

(** Calls that log nothing and touch no PTE. *)
Lemma silent_of_inert {A} (m : M A) :
  (forall B (f : kstate -> B) loud K, inert loud K f -> preserves f m) ->
  forall ok, tracking ok m.
Proof.
  intros H ok. apply tracking_silent.
  - apply (H _ trace (fun _ => true) (fun _ => False)), inert_trace_all.
  - intros pd q _.
    apply (H _ (fun s => ptes s !! (pd, q)) (fun _ => false) (fun q' => q' = q)).
    apply inert_pte_at.
Qed.

Section Calls.

Variable ok : event -> Prop.
Hypothesis Hok : forall e, (forall pd v p fl, e <> EvMapSingle pd v p fl MapOk) -> ok e.

Lemma ok_emit e :
  (forall pd v p fl, e <> EvMapSingle pd v p fl MapOk) -> tracking ok (emit e).
Proof. intros H. apply tracking_emit; [apply Hok, H | exact H]. Qed.

Lemma tracking_frame_alloc_raw : tracking ok frame_alloc_raw.
Proof. apply silent_of_inert. intros B f loud K Hf. apply (pres_frame_alloc_raw loud K f Hf). Qed.

Lemma tracking_put_frame_raw p : tracking ok (put_frame_raw p).
Proof. apply silent_of_inert. intros B f loud K Hf. apply (pres_put_frame_raw loud K f Hf). Qed.

Lemma tracking_memset n p c : tracking ok (memset p c n).
Proof. apply silent_of_inert. intros B f loud K Hf. apply (pres_memset loud K f Hf). Qed.

Lemma tracking_memcpy n d src : tracking ok (memcpy d src n).
Proof. apply silent_of_inert. intros B f loud K Hf. apply (pres_memcpy loud K f Hf). Qed.

Lemma tracking_kstore32 v w : tracking ok (kstore32 v w).
Proof. apply silent_of_inert. intros B f loud K Hf. apply (pres_kstore32 loud K f Hf). Qed.

Lemma tracking_kmalloc : tracking ok kmalloc.
Proof.
  intros s a s' H. unfold kmalloc in H. injection H as <- <-.
  exists [EvKmalloc (hd true (kmalloc_script s))].
  split; [|constructor; [apply Hok; intros; discriminate | constructor]].
  split; [reflexivity|]. split; [intros pd q _; left; reflexivity|].
  intros pd v p fl [Hin | []]. discriminate Hin.
Qed.

Lemma tracking_frame_alloc : tracking ok frame_alloc.
Proof.
  unfold frame_alloc. apply tracking_bind; [apply tracking_frame_alloc_raw|].
  intros p. apply tracking_bind; [|intros ?; apply tracking_ret].
  apply ok_emit. intros; discriminate.
Qed.

Lemma tracking_put_frame p : tracking ok (put_frame p).
Proof.
  unfold put_frame. apply tracking_bind; [|intros ?; apply tracking_put_frame_raw].
  apply ok_emit. intros; discriminate.
Qed.

Lemma tracking_kfree o : tracking ok (kfree o).
Proof. apply ok_emit. intros; discriminate. Qed.

Lemma tracking_temp_map_raw p : tracking ok (paging_temp_map_raw p).
Proof.
  apply tracking_silent.
  - unfold paging_temp_map_raw. repeat pres_step.
    apply preserves_modify. reflexivity.
  - intros pd q Hq. unfold paging_temp_map_raw. repeat pres_step.
    apply preserves_modify. intros s. cbn.
    apply lookup_insert_ne. intros Heq. injection Heq as _ Heq. congruence.
Qed.

Lemma tracking_temp_unmap_raw : tracking ok paging_temp_unmap_raw.
Proof.
  apply tracking_silent.
  - apply preserves_modify. reflexivity.
  - intros pd q Hq. apply preserves_modify. intros s. cbn.
    apply lookup_delete_ne. intros Heq. injection Heq as _ Heq. congruence.
Qed.

Lemma tracking_temp_map p : tracking ok (paging_temp_map p).
Proof.
  unfold paging_temp_map. apply tracking_bind; [|intros ?; apply tracking_temp_map_raw].
  apply ok_emit. intros; discriminate.
Qed.

Lemma tracking_temp_unmap v : tracking ok (paging_temp_unmap v).
Proof.
  unfold paging_temp_unmap. apply tracking_bind; [|intros ?; apply tracking_temp_unmap_raw].
  apply ok_emit. intros; discriminate.
Qed.

Lemma tracking_ensure_page_table pd v : tracking ok (ensure_page_table pd v).
Proof.
  unfold ensure_page_table. repeat track_step;
    first [apply tracking_frame_alloc_raw | apply tracking_temp_map_raw
          | apply tracking_put_frame_raw | apply tracking_memset
          | apply tracking_temp_unmap_raw | idtac].
  apply tracking_silent; [|intros pd0 q _]; apply preserves_modify; reflexivity.
Qed.

Lemma tracking_read_file path : tracking ok (read_file path).
Proof.
  unfold read_file. apply tracking_bind; [|intros ?; apply tracking_gets].
  apply ok_emit. intros; discriminate.
Qed.

Lemma tracking_create_mm pd : tracking ok (create_mm pd).
Proof.
  unfold create_mm. apply tracking_bind; [apply ok_emit; intros; discriminate|].
  intros ?. apply tracking_bind; [apply tracking_kmalloc|].
  intros []; apply tracking_ret.
Qed.

Lemma tracking_insert_vma m a b fl prot : tracking ok (insert_vma m a b fl prot).
Proof.
  unfold insert_vma. destruct (_ || _).
  - apply tracking_bind; [apply ok_emit; intros; discriminate|].
    intros ?. apply tracking_ret.
  - apply tracking_bind; [apply tracking_kmalloc|]. intros okm.
    apply tracking_bind; [apply ok_emit; intros; discriminate|].
    intros ?. destruct okm; apply tracking_ret.
Qed.

Lemma tracking_copy_elf_segment_data frame file off n z :
  tracking ok (copy_elf_segment_data frame file off n z).
Proof.
  unfold copy_elf_segment_data. repeat track_step;
    first [apply tracking_temp_map | apply tracking_memcpy | apply tracking_memset
          | apply tracking_temp_unmap].
Qed.

Lemma tracking_cleanup_load_elf b p : tracking ok (cleanup_load_elf b p).
Proof.
  unfold cleanup_load_elf. repeat track_step;
    first [apply tracking_kfree | apply tracking_put_frame].
Qed.

End Calls.

(** What a call of the mapping engine does to the page tables. *)
Lemma map_single_raw_cases pd v p fl s r s' :
  paging_map_single_4k_raw pd v p fl s = Ret r s' ->
  trace s' = trace s /\
  (r <> MapOk ->
   forall pd' q, q <> temp_vpn -> ptes s' !! (pd', q) = ptes s !! (pd', q)) /\
  (r = MapOk ->
   (Z.land fl PAGE_USER <> 0 -> v < KERNEL_SPACE_VIRT_START) /\
   ptes s' !! (pd, vpn v) = Some (Z.lor (pte_frame p) fl) /\
   forall pd' q, q <> temp_vpn -> (pd', q) <> (pd, vpn v) ->
                 ptes s' !! (pd', q) = ptes s !! (pd', q)).
Proof.
  intros H.
  split.
  { exact (pres_map_single_raw (fun _ => true) (fun _ => False) trace
             (inert_trace_all _) kernel_only_none pd v p fl (fun x => x) _ _ _ H). }
  unfold paging_map_single_4k_raw in H.
  destruct (negb _).
  { apply ret_inv in H. destruct H as [<- <-].
    split; [auto | intros Hc; discriminate Hc]. }
  destruct (_ && _) eqn:Hksv.
  { apply ret_inv in H. destruct H as [<- <-].
    split; [auto | intros Hc; discriminate Hc]. }
  bind_inv H okt s2 H2.
  assert (Hp2 : forall pd' q, q <> temp_vpn -> ptes s2 !! (pd', q) = ptes s !! (pd', q)).
  { intros pd' q Hq.
    destruct (tracking_ensure_page_table (fun _ => True) pd v _ _ _ H2)
      as (evs & (Ht & Hc & _) & _).
    pose proof (pres_ensure_page_table (fun _ => true) (fun _ => False) trace
                  (inert_trace_all _) kernel_only_none pd v _ _ _ H2) as Htr.
    cbn beta in Htr. rewrite Htr in Ht.
    assert (evs = []) by (apply (app_inv_head (trace s)); rewrite app_nil_r; auto).
    subst evs. destruct (Hc pd' q Hq) as [Heq | (w & (? & ? & ? & [] & _) & _)].
    exact Heq. }
  destruct okt; cbn [negb] in H.
  2:{ apply ret_inv in H. destruct H as [<- <-].
      split; [intros _; exact Hp2 | intros Hc; discriminate Hc]. }
  bind_inv H old s3 H3. apply gets_inv in H3. destruct H3 as [-> ->].
  bind_inv H u3 s3 H3. apply modify_inv in H3. subst s3.
  assert (Hfin : ptes s' = <[(pd, vpn v) := Z.lor (pte_frame p) fl]> (ptes s2) /\
                 r = MapOk).
  { destruct (ptes s2 !! (pd, vpn v)) as [q|].
    - bind_inv H u4 s4 H4. apply ret_inv in H. destruct H as [<- <-].
      split; [|reflexivity].
      destruct (pte_present q && negb (pte_frame q =? pte_frame p)).
      + unfold put_frame_raw in H4. apply modify_inv in H4. subst s4. cbn.
        destruct (frame_refs s2 !! pte_frame q) as [[|?]|]; reflexivity.
      + apply ret_inv in H4. destruct H4 as [_ <-]. reflexivity.
    - apply ret_inv in H. destruct H as [<- <-]. split; reflexivity. }
  destruct Hfin as [Hfin ->].
  split; [intros Hc; contradiction|]. intros _. split; [|split].
  - intros Hu. apply andb_false_iff in Hksv. destruct Hksv as [Hk | Hk].
    + apply Z.leb_gt in Hk. exact Hk.
    + apply negb_false_iff, Z.eqb_eq in Hk. contradiction.
  - rewrite Hfin. apply lookup_insert_eq.
  - intros pd' q Hq Hne. rewrite Hfin, lookup_insert_ne by congruence.
    apply Hp2, Hq.
Qed.

Lemma map_single_tracks pd v p fl s r s' :
  paging_map_single_4k pd v p fl s = Ret r s' ->
  tracks s s' [EvMapSingle pd v p fl r] /\
  (r = MapOk -> Z.land fl PAGE_USER <> 0 -> v < KERNEL_SPACE_VIRT_START).
Proof.
  intros H. unfold paging_map_single_4k in H.
  bind_inv H r1 s1 H1. bind_inv H u s2 H2. apply emit_inv in H2. subst s2.
  apply ret_inv in H. destruct H as [-> <-].
  destruct (map_single_raw_cases _ _ _ _ _ _ _ H1) as (Ht & Hbad & Hgood).
  split.
  - split; [cbn; rewrite Ht; reflexivity|]. cbn [ptes set_trace]. split.
    + intros pd' q Hq. destruct r.
      * destruct (Hgood eq_refl) as (_ & Hval & Hoth).
        destruct (decide ((pd', q) = (pd, vpn v))) as [Heq | Hne].
        -- injection Heq as -> ->. right. eexists. split; [|exact Hval].
           exists v, p, fl. split; [left; reflexivity | auto].
        -- left. apply Hoth; assumption.
      * left. apply Hbad; [discriminate | exact Hq].
      * left. apply Hbad; [discriminate | exact Hq].
      * left. apply Hbad; [discriminate | exact Hq].
    + intros pd0 v0 p0 fl0 [Hin | []] Hv0. inversion Hin; subst.
      destruct (Hgood eq_refl) as (_ & Hval & _).
      eexists. split; [|exact Hval].
      do 3 eexists. split; [left; reflexivity | split; reflexivity].
  - intros -> Hu. destruct (Hgood eq_refl) as (Hlt & _). exact (Hlt Hu).
Qed.

Lemma tracking_map_single_user pd v p fl :
  Z.land fl PAGE_PRESENT = 1 -> Z.land fl PAGE_USER <> 0 ->
  tracking user_mapping (paging_map_single_4k pd v p fl).
Proof.
  intros Hp Hu s r s' H. destruct (map_single_tracks _ _ _ _ _ _ _ H) as [T Hlt].
  exists [EvMapSingle pd v p fl r]. split; [exact T|].
  constructor; [|constructor]. destruct r; cbn; auto.
Qed.

Lemma user_mapping_other e :
  (forall pd v p fl, e <> EvMapSingle pd v p fl MapOk) -> user_mapping e.
Proof.
  intros H. destruct e; cbn; auto. destruct r; auto. exfalso. exact (H _ _ _ _ eq_refl).
Qed.

Lemma segment_page_prot_present flags nx :
  Z.land (segment_page_prot flags nx) PAGE_PRESENT = 1.
Proof.
  unfold segment_page_prot.
  destruct (has_flag flags PF_W), (has_flag flags PF_X), nx; reflexivity.
Qed.

Lemma tracking_load_page file pgd i prot page_v :
  Z.land prot PAGE_PRESENT = 1 -> Z.land prot PAGE_USER <> 0 ->
  tracking user_mapping (load_page file pgd i prot page_v).
Proof.
  intros Hp Hu. unfold load_page.
  destruct (page_slices file i page_v) as [[n off] z]. repeat track_step;
    first [apply tracking_frame_alloc, user_mapping_other
          | apply tracking_put_frame, user_mapping_other
          | apply tracking_copy_elf_segment_data, user_mapping_other
          | apply tracking_map_single_user; assumption].
Qed.

Lemma tracking_load_segment file size i m hi :
  tracking user_mapping (load_segment file size i m hi).
Proof.
  unfold load_segment. repeat track_step;
    first [apply tracking_insert_vma, user_mapping_other
          | apply tracking_load_page;
            [apply segment_page_prot_present | apply segment_page_prot_user]].
Qed.

Lemma tracking_load_segments n : forall file size i m hi,
  tracking user_mapping (load_segments n file size i m hi).
Proof.
  induction n as [|n IH]; intros file size i m hi; cbn [load_segments].
  - apply tracking_ret.
  - apply tracking_bind; [apply tracking_load_segment|].
    intros [[e m'] hi']. destruct e; [apply tracking_ret | apply IH].
Qed.

Lemma tracking_load_elf path m e b :
  tracking user_mapping (load_elf_and_init_memory path m e b).
Proof.
  unfold load_elf_and_init_memory.
  apply tracking_bind; [apply tracking_read_file, user_mapping_other|]. intros [file|].
  - repeat track_step;
      first [apply tracking_cleanup_load_elf, user_mapping_other
            | apply tracking_load_segments
            | apply tracking_emit; [exact I | intros; discriminate]].
  - repeat track_step. apply tracking_cleanup_load_elf, user_mapping_other.
Qed.

Lemma tracking_finish_user_process cfg proc m brk :
  tracking user_mapping (finish_user_process cfg proc m brk).
Proof.
  unfold finish_user_process. repeat track_step;
    first [apply tracking_insert_vma, user_mapping_other
          | apply tracking_frame_alloc, user_mapping_other
          | apply tracking_map_single_user; [reflexivity | vm_compute; discriminate]
          | idtac].
  apply silent_of_inert. intros B f loud K Hf. apply (pres_prepare loud K f Hf).
Qed.

(** A page tracked as mapped by user mappings is present. *)
Lemma tracks_present s s' evs pd v p fl :
  tracks s s' evs -> Forall user_mapping evs ->
  In (EvMapSingle pd v p fl MapOk) evs ->
  v < KERNEL_SPACE_VIRT_START /\ page_present s' pd v.
Proof.
  intros (_ & _ & Hm) Hall Hin.
  rewrite List.Forall_forall in Hall.
  pose proof (Hall _ Hin) as [_ Hlt]. cbn in Hlt. split; [exact Hlt|].
  assert (Hv : vpn v <> temp_vpn).
  { assert (Hq : vpn v <= vpn (KERNEL_SPACE_VIRT_START - 1)) by (apply vpn_mono; lia).
    change (vpn (KERNEL_SPACE_VIRT_START - 1)) with 0xBFFFF in Hq.
    change temp_vpn with 0xFFBFF. lia. }
  destruct (Hm _ _ _ _ Hin Hv) as (w & (v1 & p1 & fl1 & Hin1 & _ & ->) & Hl).
  exists (Z.lor (pte_frame p1) fl1). split; [exact Hl|].
  apply present_lor_flags. pose proof (Hall _ Hin1) as [Hp _]. exact Hp.
Qed.

End TrackFacts.
Import TrackFacts.

(** ** Frames of the loader *)

Module LoaderTrace.

Ltac bind_inv H a s1 H1 :=
  apply bind_ret_inv in H; destruct H as (a & s1 & H1 & H).

Lemma mapped_frames_app t1 t2 :
  mapped_frames (t1 ++ t2) = mapped_frames t1 ++ mapped_frames t2.
Proof. apply flat_map_app. Qed.

Lemma account_quiet evs : quiet evs -> account None evs.
Proof.
  intros (Ha & Hm & Hr). unfold account, frames_accounted.
  rewrite Ha, Hm, Hr. auto.
Qed.

Lemma account_app r e1 e2 : account None e1 -> account r e2 -> account r (e1 ++ e2).
Proof.
  unfold account, frames_accounted. intros [Ha1 Hr1] [Ha2 Hr2].
  rewrite frames_allocated_app, mapped_frames_app, frames_released_app.
  rewrite Ha1, Ha2, Hr1, app_nil_r, <- app_assoc.
  split; [reflexivity|]. destruct r; cbn; exact Hr2.
Qed.

Lemma copy_elf_segment_data_quiet frame file off n z s r s' :
  copy_elf_segment_data frame file off n z s = Ret r s' ->
  exists evs, trace s' = trace s ++ evs /\ quiet evs.
Proof.
  intros H. unfold copy_elf_segment_data in H.
  bind_inv H u1 s1 H1. apply assert_inv in H1. destruct H1 as [_ ->].
  bind_inv H u2 s2 H2. apply assert_inv in H2. destruct H2 as [_ ->].
  bind_inv H t s3 H3.
  assert (Ht3 : trace s3 = trace s ++ [EvTempMap frame]).
  { unfold paging_temp_map in H3. bind_inv H3 u s4 H4. apply emit_inv in H4. subst s4.
    exact (pres_temp_map_raw _ _ _ (inert_trace (fun _ => False)) kernel_only_none
             _ _ _ _ H3). }
  destruct (t =? 0).
  { apply ret_inv in H. destruct H as [_ <-].
    exists [EvTempMap frame]. split; [exact Ht3 | repeat split]. }
  bind_inv H u4 s4 H4.
  assert (Ht4 : trace s4 = trace s3).
  { destruct (0 <? n).
    - exact (pres_memcpy _ _ _ (inert_trace (fun _ => False)) _ _ _ _ _ _ H4).
    - apply ret_inv in H4. destruct H4 as [_ <-]. reflexivity. }
  bind_inv H u5 s5 H5.
  assert (Ht5 : trace s5 = trace s4).
  { destruct (0 <? z).
    - exact (pres_memset _ _ _ (inert_trace (fun _ => False)) _ _ _ _ _ _ H5).
    - apply ret_inv in H5. destruct H5 as [_ <-]. reflexivity. }
  bind_inv H u6 s6 H6. apply ret_inv in H. destruct H as [_ <-].
  unfold paging_temp_unmap, paging_temp_unmap_raw in H6.
  bind_inv H6 u7 s7 H7. apply emit_inv in H7. subst s7.
  apply modify_inv in H6. subst s6.
  exists [EvTempMap frame; EvTempUnmap t]. split; [|repeat split].
  cbn. rewrite Ht5, Ht4, Ht3, <- List.app_assoc. reflexivity.
Qed.

Lemma put_frame_trace p s u s' :
  put_frame p s = Ret u s' -> trace s' = trace s ++ [EvPutFrame p].
Proof.
  unfold put_frame, put_frame_raw, bind, emit, modify. intros H.
  injection H as _ <-. cbn. destruct (frame_refs s !! p) as [[|?]|]; reflexivity.
Qed.

(** One turn of the page loop. *)
Lemma load_page_account f pgd i prot v s r s' :
  load_page f pgd i prot v s = Ret r s' ->
  exists evs, trace s' = trace s ++ evs /\ account r evs.
Proof.
  intros H. unfold load_page in H.
  bind_inv H p s1 H1.
  destruct (frame_alloc_spec _ _ _ H1) as (Ht1 & _).
  destruct (p =? 0) eqn:Hp.
  { apply ret_inv in H. destruct H as [<- <-]. apply Z.eqb_eq in Hp. subst p.
    exists [EvFrameAlloc 0]. split; [exact Ht1|].
    split; [reflexivity | split; [reflexivity | cbn; lia]]. }
  assert (Hfail : forall s2 evs u,
            trace s2 = trace s1 ++ evs -> quiet evs ->
            put_frame p s2 = Ret u s' ->
            exists evs', trace s' = trace s ++ evs' /\ account (Some 0) evs').
  { intros s2 evs u Ht2 (Qa & Qm & Qr) Hput. apply put_frame_trace in Hput.
    exists ([EvFrameAlloc p] ++ evs ++ [EvPutFrame p]). split.
    - rewrite Hput, Ht2, Ht1, <- !List.app_assoc. reflexivity.
    - unfold account, frames_accounted.
      rewrite !frames_allocated_app, !mapped_frames_app, !frames_released_app.
      rewrite Qa, Qm, Qr. cbn. rewrite Hp. cbn.
      split; [reflexivity | split; [reflexivity | lia]]. }
  destruct (page_slices f i v) as [[n off] z].
  destruct (_ <? _).
  { bind_inv H u s2 H2. apply ret_inv in H. destruct H as [<- <-].
    apply (Hfail s1 [] u); [rewrite app_nil_r; reflexivity | repeat split | exact H2]. }
  bind_inv H rc s2 H2.
  destruct (copy_elf_segment_data_quiet _ _ _ _ _ _ _ _ H2) as (ev2 & Ht2 & Q2).
  destruct (negb (rc =? 0)).
  { bind_inv H u s3 H3. apply ret_inv in H. destruct H as [<- <-].
    exact (Hfail s2 ev2 u Ht2 Q2 H3). }
  bind_inv H res s3 H3.
  destruct (map_single_spec _ _ _ _ _ _ _ H3) as (Ht3 & _).
  assert (Hq3 : res <> MapOk ->
            quiet (ev2 ++ [EvMapSingle pgd v p prot res])).
  { intros Hres. destruct Q2 as (Qa & Qm & Qr). unfold quiet.
    rewrite frames_allocated_app, mapped_frames_app, frames_released_app, Qa, Qm, Qr.
    destruct res; [contradiction | | |]; repeat split. }
  assert (Ht3' : trace s3 = trace s1 ++ ev2 ++ [EvMapSingle pgd v p prot res])
    by (rewrite Ht3, Ht2, <- List.app_assoc; reflexivity).
  destruct res.
  - apply ret_inv in H. destruct H as [<- <-].
    exists ([EvFrameAlloc p] ++ ev2 ++ [EvMapSingle pgd v p prot MapOk]). split.
    + rewrite Ht3', Ht1, <- !List.app_assoc. reflexivity.
    + destruct Q2 as (Qa & Qm & Qr). unfold account, frames_accounted.
      rewrite !frames_allocated_app, !mapped_frames_app, !frames_released_app.
      rewrite Qa, Qm, Qr. cbn. rewrite Hp. cbn. split; reflexivity.
  - bind_inv H u s4 H4. apply ret_inv in H. destruct H as [<- <-].
    exact (Hfail s3 _ u Ht3' (Hq3 ltac:(discriminate)) H4).
  - bind_inv H u s4 H4. apply ret_inv in H. destruct H as [<- <-].
    exact (Hfail s3 _ u Ht3' (Hq3 ltac:(discriminate)) H4).
  - bind_inv H u s4 H4. apply ret_inv in H. destruct H as [<- <-].
    exact (Hfail s3 _ u Ht3' (Hq3 ltac:(discriminate)) H4).
Qed.

(** The page loop. *)
Lemma for_pages_account (body : Z -> M (option Z)) v_end :
  (forall v s r s', body v s = Ret r s' ->
     exists evs, trace s' = trace s ++ evs /\ account r evs) ->
  forall fuel v s r s',
    for_pages fuel v v_end body s = Ret r s' ->
    exists evs, trace s' = trace s ++ evs /\ account r evs.
Proof.
  intros Hb. induction fuel as [|fuel IH]; intros v s r s' H; cbn [for_pages] in H.
  - discriminate H.
  - destruct (v <? v_end).
    2:{ apply ret_inv in H. destruct H as [<- <-].
        exists []. rewrite app_nil_r. split; [reflexivity | apply account_quiet; repeat split]. }
    bind_inv H r1 s1 H1. destruct (Hb _ _ _ _ H1) as (e1 & Ht1 & A1).
    destruct r1 as [e|].
    + apply ret_inv in H. destruct H as [<- <-]. exists e1. auto.
    + destruct (IH _ _ _ _ H) as (e2 & Ht2 & A2).
      exists (e1 ++ e2). split; [rewrite Ht2, Ht1, <- List.app_assoc; reflexivity|].
      apply account_app; assumption.
Qed.

Lemma kmalloc_trace s ok s' :
  kmalloc s = Ret ok s' -> trace s' = trace s ++ [EvKmalloc ok].
Proof. unfold kmalloc. intros H. injection H as <- <-. reflexivity. Qed.

Lemma insert_vma_quiet m a b fl prot s r s' :
  insert_vma m a b fl prot s = Ret r s' ->
  exists evs, trace s' = trace s ++ evs /\ quiet evs.
Proof.
  intros H. unfold insert_vma in H. destruct (_ || _).
  - bind_inv H u s1 H1. apply emit_inv in H1. subst s1.
    apply ret_inv in H. destruct H as [_ <-].
    eexists. split; [reflexivity | repeat split].
  - bind_inv H okm s1 H1. apply kmalloc_trace in H1.
    bind_inv H u s2 H2. apply emit_inv in H2. subst s2.
    exists [EvKmalloc okm; EvInsertVma a b okm]. split; [|repeat split].
    assert (s' = set_trace (trace s1 ++ [EvInsertVma a b okm]) s1)
      by (destruct okm; apply ret_inv in H; destruct H as [_ <-]; reflexivity).
    subst s'. cbn. rewrite H1, <- List.app_assoc. reflexivity.
Qed.

Lemma load_segment_account f size i m hi s e m' hi' s' :
  load_segment f size i m hi s = Ret (e, m', hi') s' ->
  exists evs, trace s' = trace s ++ evs /\ account e evs.
Proof.
  intros H. unfold load_segment in H.
  assert (Hnil : forall r, r = None \/ r = Some 0 ->
            exists evs, trace s = trace s ++ evs /\ account r evs).
  { intros r Hr. exists []. rewrite app_nil_r. split; [reflexivity|].
    destruct Hr as [-> | ->]; [apply account_quiet; repeat split|].
    split; [reflexivity | split; [reflexivity | cbn; lia]]. }
  destruct (_ || _).
  { apply ret_inv in H. destruct H as [H <-]. injection H as <- _ _. apply Hnil. auto. }
  destruct (segment_invalid f size i).
  { apply ret_inv in H. destruct H as [H <-]. injection H as <- _ _. apply Hnil. auto. }
  destruct (_ <=? _).
  { apply ret_inv in H. destruct H as [H <-]. injection H as <- _ _. apply Hnil. auto. }
  bind_inv H nx s1 H1. apply gets_inv in H1. destruct H1 as [-> ->].
  bind_inv H ins s2 H2.
  destruct (insert_vma_quiet _ _ _ _ _ _ _ _ H2) as (e2 & Ht2 & Q2).
  destruct ins as [m2|].
  2:{ apply ret_inv in H. destruct H as [H <-]. injection H as <- _ _.
      exists e2. split; [exact Ht2|]. destruct Q2 as (Qa & Qm & Qr).
      unfold account, frames_accounted. rewrite Qa, Qm, Qr.
      split; [reflexivity | split; [reflexivity | cbn; lia]]. }
  bind_inv H r s3 H3.
  destruct (for_pages_account _ _ (load_page_account f (pgd_phys m2) i _) _ _ _ _ _ H3)
    as (e3 & Ht3 & A3).
  assert (s' = s3 /\ e = r).
  { destruct r; apply ret_inv in H; destruct H as [H <-]; injection H as <- _ _; auto. }
  destruct H0 as [-> ->].
  exists (e2 ++ e3). split; [rewrite Ht3, Ht2, <- List.app_assoc; reflexivity|].
  apply account_app; [apply account_quiet, Q2 | exact A3].
Qed.

(** The segment loop. *)
Lemma load_segments_account n : forall f size i m hi s e m' hi' s',
  load_segments n f size i m hi s = Ret (e, m', hi') s' ->
  exists evs, trace s' = trace s ++ evs /\ account e evs.
Proof.
  induction n as [|n IH]; intros f size i m hi s e m' hi' s' H;
    cbn [load_segments] in H.
  - apply ret_inv in H. destruct H as [H <-]. injection H as <- _ _.
    exists []. rewrite app_nil_r. repeat split.
  - bind_inv H r s1 H1. destruct r as [[e1 m1] hi1].
    destruct (load_segment_account _ _ _ _ _ _ _ _ _ _ H1) as (ev1 & Ht1 & A1).
    destruct e1 as [p|].
    + apply ret_inv in H. destruct H as [H <-]. injection H as <- _ _.
      exists ev1. split; [exact Ht1 | exact A1].
    + destruct (IH _ _ _ _ _ _ _ _ _ _ H) as (ev2 & Ht2 & A2).
      exists (ev1 ++ ev2). split; [rewrite Ht2, Ht1, <- List.app_assoc; reflexivity|].
      exact (account_app _ _ _ A1 A2).
Qed.

(** X8: the frames of the segment loop of [load_elf_and_init_memory] are
    all accounted for.  The frames the loop took from [frame_alloc] are, in
    order, the frames it mapped into the process followed by the frames it
    handed to [put_frame].  When the loop jumps to [cleanup_load_elf] the
    local [phys_page], which guards the [put_frame] there, is 0, and at
    most one frame, that of the page turn that failed, has been released.
    When the loop runs to its end no frame has been released. *)
Theorem load_segments_frames_accounted n f size i m hi s e m' hi' s' :
  load_segments n f size i m hi s = Ret (e, m', hi') s' ->
  exists evs,
    trace s' = trace s ++ evs /\
    frames_allocated evs = mapped_frames evs ++ frames_released evs /\
    match e with
    | None => frames_released evs = []
    | Some p => p = 0 /\ (length (frames_released evs) <= 1)%nat
    end.
Proof.
  intros H. destruct (load_segments_account _ _ _ _ _ _ _ _ _ _ _ H) as (evs & Ht & A).
  exists evs. split; [exact Ht | exact A].
Qed.

Lemma load_segments_frames_accounted_witness :
  exists e m' hi' s' evs,
    load_segments 1 scenario_elf (Z.of_nat (length scenario_elf)) 0 mm0 0
      (machine [0x500000] scenario_elf) = Ret (e, m', hi') s' /\
    trace s' = trace (machine [0x500000] scenario_elf) ++ evs /\
    frames_allocated evs = mapped_frames evs ++ frames_released evs /\
    match e with
    | None => frames_released evs = []
    | Some p => p = 0 /\ (length (frames_released evs) <= 1)%nat
    end.
Proof.
  assert (Hv : segments_summary
                 (load_segments 1 scenario_elf (Z.of_nat (length scenario_elf)) 0
                    mm0 0 (machine [0x500000] scenario_elf))
               = Some (Some 0)) by (vm_compute; reflexivity).
  destruct (load_segments 1 scenario_elf (Z.of_nat (length scenario_elf)) 0
              mm0 0 (machine [0x500000] scenario_elf))
    as [[[e m'] hi'] s'| |] eqn:Hrun; try discriminate Hv.
  destruct (load_segments_frames_accounted 1 scenario_elf
              (Z.of_nat (length scenario_elf)) 0 mm0 0
              (machine [0x500000] scenario_elf) e m' hi' s' Hrun) as (evs & Hevs).
  exists e, m', hi', s', evs. split; [reflexivity | exact Hevs].
Defined.

(** The loader as a whole. *)
Lemma load_elf_account path m e0 b0 s res m' e b s' :
  load_elf_and_init_memory path m e0 b0 s = Ret (res, m', e, b) s' ->
  exists evs,
    trace s' = trace s ++ evs /\ frames_accounted evs /\
    (length (frames_released evs) <= 1)%nat /\
    (res = 0 -> frames_released evs = []).
Proof.
  intros H. unfold load_elf_and_init_memory in H.
  bind_inv H file s1 H1. unfold read_file in H1.
  bind_inv H1 u s0 H0. apply emit_inv in H0. subst s0.
  apply gets_inv in H1. destruct H1 as [-> ->]. cbn [files set_trace] in H.
  assert (Hearly : forall have s2 u2 r,
            cleanup_load_elf have 0 (set_trace (trace s ++ [EvReadFile path]) s)
              = Ret u2 s2 ->
            r <> 0 ->
            exists evs,
              trace s2 = trace s ++ evs /\ frames_accounted evs /\
              (length (frames_released evs) <= 1)%nat /\
              (r = 0 -> frames_released evs = [])).
  { intros have s2 u2 r Hc Hr. unfold cleanup_load_elf in Hc.
    bind_inv Hc u3 s3 H3. apply ret_inv in Hc. destruct Hc as [_ <-].
    destruct have.
    - apply emit_inv in H3. subst s3.
      exists [EvReadFile path; EvKfree HeapFileData].
      split; [cbn; rewrite <- List.app_assoc; reflexivity|].
      split; [reflexivity | split; [cbn; lia | intros; contradiction]].
    - apply ret_inv in H3. destruct H3 as [_ <-].
      exists [EvReadFile path].
      split; [reflexivity|].
      split; [reflexivity | split; [cbn; lia | intros; contradiction]]. }
  destruct (files s !! path) as [f|].
  2:{ bind_inv H u2 s2 H2. apply ret_inv in H. destruct H as [H <-].
      injection H as <- _ _ _. apply (Hearly _ _ _ (-1) H2). discriminate. }
  destruct (_ <? sizeof_Ehdr).
  { bind_inv H u2 s2 H2. apply ret_inv in H. destruct H as [H <-].
    injection H as <- _ _ _. apply (Hearly _ _ _ (-1) H2). discriminate. }
  destruct (header_invalid _ _).
  { bind_inv H u2 s2 H2. apply ret_inv in H. destruct H as [H <-].
    injection H as <- _ _ _. apply (Hearly _ _ _ (-1) H2). discriminate. }
  bind_inv H u2 s2 H2.
  assert (Hw : exists ew, trace s2 = trace s ++ [EvReadFile path] ++ ew /\ quiet ew).
  { destruct (_ <=? _).
    - apply emit_inv in H2. subst s2. eexists. cbn.
      split; [rewrite <- List.app_assoc; reflexivity | repeat split].
    - apply ret_inv in H2. destruct H2 as [_ <-]. exists []. cbn.
      split; [reflexivity | repeat split]. }
  destruct Hw as (ew & Ht2 & Qw).
  bind_inv H r s3 H3. destruct r as [[err m3] hi3].
  destruct (load_segments_account _ _ _ _ _ _ _ _ _ _ _ H3)
    as (ev3 & Ht3 & Hacc & Hrel).
  assert (Hfin : forall s4 u4,
            cleanup_load_elf true 0 s3 = Ret u4 s4 ->
            trace s4 = trace s ++ ([EvReadFile path] ++ ew) ++ ev3 ++ [EvKfree HeapFileData]).
  { intros s4 u4 Hc. unfold cleanup_load_elf in Hc.
    bind_inv Hc u5 s5 H5. apply ret_inv in Hc. destruct Hc as [_ <-].
    apply emit_inv in H5. subst s5. cbn.
    rewrite Ht3, Ht2, <- !List.app_assoc. reflexivity. }
  assert (Hacc' : frames_accounted (([EvReadFile path] ++ ew) ++ ev3 ++ [EvKfree HeapFileData])
                  /\ frames_released (([EvReadFile path] ++ ew) ++ ev3 ++ [EvKfree HeapFileData])
                     = frames_released ev3).
  { destruct Qw as (Qa & Qm & Qr). unfold frames_accounted.
    rewrite !frames_allocated_app, !mapped_frames_app, !frames_released_app.
    rewrite Qa, Qm, Qr. cbn. rewrite !app_nil_r. split; [exact Hacc | reflexivity]. }
  destruct Hacc' as [Hacc' Hrel'].
  destruct err as [p|].
  - destruct Hrel as [-> Hlen].
    bind_inv H u4 s4 H4. apply ret_inv in H. destruct H as [H <-].
    injection H as <- _ _ _.
    eexists. split; [exact (Hfin _ _ H4)|]. split; [exact Hacc'|].
    rewrite Hrel'. split; [exact Hlen | intros Hc; discriminate Hc].
  - bind_inv H u4 s4 H4. apply ret_inv in H. destruct H as [H <-].
    injection H as <- _ _ _.
    eexists. split; [exact (Hfin _ _ H4)|]. split; [exact Hacc'|].
    rewrite Hrel', Hrel. split; [cbn; lia | reflexivity].
Qed.

(** C8 (amended): a file whose header breaks one of the validated
    conditions is refused with -1 right after it was read: the only calls
    are [read_file] and the [kfree] of the buffer, and nothing has been
    allocated, mapped or written.  With page-aligned frames, a file with a
    PT_LOAD segment of non-zero memory size whose range reaches kernel
    space or wraps, whose [filesz] exceeds [memsz], or whose file slice
    leaves the buffer, is refused with -1 as well; on that return every
    frame the loader took is either mapped or given back, and every page
    the loader mapped for the segments before is still mapped.  A program
    header with [p_memsz = 0] is skipped without any validation. *)
Theorem load_elf_rejects_invalid path m e0 b0 s f :
  files s !! path = Some f ->
  (header_violation f ->
   exists s', load_elf_and_init_memory path m e0 b0 s = Ret (-1, m, e0, b0) s' /\
              trace s' = trace s ++ [EvReadFile path; EvKfree HeapFileData] /\
              ptes s' = ptes s /\ frame_script s' = frame_script s /\
              phys s' = phys s) /\
  (frames_ok s ->
   (exists i, 0 <= i < e_phnum f /\ loadable f i = true /\ segment_violation f i) ->
   exists m' e b s' evs,
     load_elf_and_init_memory path m e0 b0 s = Ret (-1, m', e, b) s' /\
     trace s' = trace s ++ evs /\
     frames_allocated evs = mapped_frames evs ++ frames_released evs /\
     forall pd v p fl, In (EvMapSingle pd v p fl MapOk) evs ->
                       v < KERNEL_SPACE_VIRT_START /\ page_present s' pd v) /\
  (forall size i m1 hi s1,
     p_memsz f i = 0 ->
     load_segment f size i m1 hi s1 = Ret (None, m1, hi) s1).
Proof.
  intros Hf. split; [|split].
  - intros Hv. exact (load_elf_header_rejected path m e0 b0 s f Hf Hv).
  - intros Hs Hviol.
    destruct (load_elf_segment_rejected path m e0 b0 s f Hf Hs Hviol)
      as (m' & e & b & s' & Hrun).
    destruct (load_elf_account _ _ _ _ _ _ _ _ _ _ Hrun) as (evs & Ht & Hacc & _).
    destruct (TrackFacts.tracking_load_elf path m e0 b0 _ _ _ Hrun) as (evs' & T & Hall).
    assert (evs' = evs).
    { destruct T as (Ht' & _). rewrite Ht in Ht'.
      symmetry. exact (app_inv_head _ _ _ Ht'). }
    subst evs'.
    exists m', e, b, s', evs. split; [exact Hrun|]. split; [exact Ht|].
    split; [exact Hacc|]. intros pd v p fl Hin.
    exact (TrackFacts.tracks_present _ _ _ _ _ _ _ T Hall Hin).
  - intros size i m1 hi s1 Hz. unfold load_segment.
    rewrite Hz. cbn [Z.eqb]. rewrite orb_true_r. reflexivity.
Qed.

Lemma load_elf_rejects_invalid_witness :
  (exists s', load_elf_and_init_memory "/kernel.bin" mm0 0 0 (boot_state bad_magic_elf)
                = Ret (-1, mm0, 0, 0) s' /\
              trace s' = trace (boot_state bad_magic_elf)
                         ++ [EvReadFile "/kernel.bin"; EvKfree HeapFileData] /\
              ptes s' = ptes (boot_state bad_magic_elf) /\
              frame_script s' = frame_script (boot_state bad_magic_elf) /\
              phys s' = phys (boot_state bad_magic_elf)) /\
  (exists m' e b s' evs,
     load_elf_and_init_memory "/kernel.bin" mm0 0 0 (boot_state late_violation_elf)
       = Ret (-1, m', e, b) s' /\
     trace s' = trace (boot_state late_violation_elf) ++ evs /\
     frames_allocated evs = mapped_frames evs ++ frames_released evs /\
     forall pd v p fl, In (EvMapSingle pd v p fl MapOk) evs ->
                       v < KERNEL_SPACE_VIRT_START /\ page_present s' pd v).
Proof.
  split.
  - apply (load_elf_rejects_invalid "/kernel.bin" mm0 0 0
             (boot_state bad_magic_elf) bad_magic_elf).
    + apply files_machine.
    + left. vm_compute. discriminate.
  - apply (load_elf_rejects_invalid "/kernel.bin" mm0 0 0
             (boot_state late_violation_elf) late_violation_elf).
    + apply files_machine.
    + unfold frames_ok. cbn. repeat constructor.
    + exists 1. split; [vm_compute; split; [discriminate | reflexivity]|].
      split; [vm_compute; reflexivity|]. left. vm_compute. reflexivity.
Defined.

End LoaderTrace.
Import LoaderTrace.

(** ** Runs with enough memory *)

Module ScriptFacts.

Ltac bind_inv H a s1 H1 :=
  apply bind_ret_inv in H; destruct H as (a & s1 & H1 & H).

Lemma scripts_emit e : preserves scripts (emit e).
Proof. apply preserves_modify. reflexivity. Qed.

Lemma scripts_kstore8 v b : preserves scripts (kstore8 v b).
Proof.
  intros s a s' H. unfold kstore8 in H.
  destruct (translate s (g_kernel_page_directory_phys s) v); [|discriminate].
  injection H as Hs. subst s'. reflexivity.
Qed.

Lemma scripts_kstore32 v w : preserves scripts (kstore32 v w).
Proof. unfold kstore32. repeat pres_step; apply scripts_kstore8. Qed.

Lemma scripts_memset n : forall p c, preserves scripts (memset p c n).
Proof.
  induction n as [|n IH]; intros p c; cbn [memset]; repeat pres_step;
    [apply scripts_kstore8 | apply IH].
Qed.

Lemma scripts_copy_pde_slots n : forall d i, preserves scripts (copy_pde_slots d i n).
Proof.
  induction n as [|n IH]; intros d i; cbn [copy_pde_slots]; repeat pres_step;
    [apply scripts_kstore32 | apply IH].
Qed.

Lemma scripts_copy_kernel_pde_entries d : preserves scripts (copy_kernel_pde_entries d).
Proof.
  unfold copy_kernel_pde_entries. repeat pres_step;
    [apply scripts_emit | apply scripts_copy_pde_slots].
Qed.

Lemma scripts_temp_map_raw p : preserves scripts (paging_temp_map_raw p).
Proof.
  unfold paging_temp_map_raw. repeat pres_step. apply preserves_modify. reflexivity.
Qed.

Lemma scripts_temp_map p : preserves scripts (paging_temp_map p).
Proof.
  unfold paging_temp_map. repeat pres_step;
    [apply scripts_emit | apply scripts_temp_map_raw].
Qed.

Lemma scripts_temp_unmap_raw : preserves scripts paging_temp_unmap_raw.
Proof. apply preserves_modify. reflexivity. Qed.

Lemma scripts_temp_unmap v : preserves scripts (paging_temp_unmap v).
Proof.
  unfold paging_temp_unmap. repeat pres_step;
    [apply scripts_emit | apply scripts_temp_unmap_raw].
Qed.

Lemma scripts_put_frame_raw p : preserves scripts (put_frame_raw p).
Proof.
  apply preserves_modify. intros s.
  destruct (frame_refs s !! p) as [[|?]|]; reflexivity.
Qed.

Lemma usable_frame_spec p :
  usable_frame p = true -> p <> 0 /\ 0 <= p < 2 ^ 32 /\ p mod PAGE_SIZE = 0.
Proof.
  unfold usable_frame. intros H.
  apply andb_true_iff in H. destruct H as [H H3].
  apply andb_true_iff in H. destruct H as [H1 H2].
  apply Z.ltb_lt in H1, H2. apply Z.eqb_eq in H3. lia.
Qed.

Lemma frames_suffice_cons k s :
  frames_suffice (S k) s = true ->
  exists p rest,
    frame_script s = p :: rest /\ usable_frame p = true /\
    (k <= length rest)%nat /\ forallb usable_frame (firstn k rest) = true.
Proof.
  unfold frames_suffice. intros H. apply andb_true_iff in H. destruct H as [Hl Hf].
  apply Nat.leb_le in Hl.
  destruct (frame_script s) as [|p rest]; [cbn in Hl; lia|].
  cbn [firstn forallb] in Hf. apply andb_true_iff in Hf. destruct Hf as [Hp Hf].
  exists p, rest. cbn in Hl. repeat split; [exact Hp | lia | exact Hf].
Qed.

Lemma frames_suffice_intro k s l :
  frame_script s = l -> (k <= length l)%nat ->
  forallb usable_frame (firstn k l) = true -> frames_suffice k s = true.
Proof.
  intros Hsc Hl Hf. unfold frames_suffice. rewrite Hsc. apply andb_true_iff.
  split; [apply Nat.leb_le; exact Hl | exact Hf].
Qed.

Lemma forallb_firstn_le {A} (f : A -> bool) j k (l : list A) :
  (j <= k)%nat -> forallb f (firstn k l) = true -> forallb f (firstn j l) = true.
Proof.
  revert k l. induction j as [|j IH]; intros k l Hjk H; [reflexivity|].
  destruct k as [|k]; [lia|]. destruct l as [|x l]; [reflexivity|].
  cbn [firstn forallb] in *. apply andb_true_iff in H. destruct H as [Hx H].
  rewrite Hx. cbn. apply (IH k); [lia | exact H].
Qed.

Lemma frames_suffice_le j k s :
  (j <= k)%nat -> frames_suffice k s = true -> frames_suffice j s = true.
Proof.
  unfold frames_suffice. intros Hjk H. apply andb_true_iff in H. destruct H as [Hl Hf].
  apply Nat.leb_le in Hl. apply andb_true_iff. split.
  - apply Nat.leb_le. lia.
  - exact (forallb_firstn_le _ _ _ _ Hjk Hf).
Qed.

(** After a call that took at most one frame, one frame less is needed. *)
Lemma frames_suffice_step k s s1 :
  frames_suffice (S k) s = true ->
  frame_script s1 = frame_script s \/ frame_script s1 = tl (frame_script s) ->
  frames_suffice k s1 = true.
Proof.
  intros H Hs. destruct Hs as [Hs | Hs].
  - apply (frames_suffice_le k (S k)); [lia|].
    unfold frames_suffice in *. rewrite Hs. exact H.
  - destruct (frames_suffice_cons _ _ H) as (p & rest & Hsc & _ & Hl & Hf).
    rewrite Hsc in Hs. cbn in Hs.
    exact (frames_suffice_intro _ _ _ Hs Hl Hf).
Qed.

Lemma kmalloc_answer s ok s' :
  kmalloc s = Ret ok s' ->
  ok = hd true (kmalloc_script s) /\
  kmalloc_script s' = tl (kmalloc_script s) /\
  frame_script s' = frame_script s.
Proof. unfold kmalloc. intros H. injection H as <- <-. auto. Qed.

Lemma frame_alloc_raw_answer s p s' :
  frame_alloc_raw s = Ret p s' ->
  p = hd 0 (frame_script s) /\
  frame_script s' = tl (frame_script s) /\
  kmalloc_script s' = kmalloc_script s.
Proof.
  unfold frame_alloc_raw. intros H.
  destruct (frame_script s) as [|q rest] eqn:Hs.
  - injection H as <- <-. rewrite Hs. auto.
  - injection H as <- <-. cbn. destruct (q =? 0); auto.
Qed.

Lemma frame_alloc_answer s p s' :
  frame_alloc s = Ret p s' ->
  p = hd 0 (frame_script s) /\
  frame_script s' = tl (frame_script s) /\
  kmalloc_script s' = kmalloc_script s.
Proof.
  unfold frame_alloc. intros H. bind_inv H q s1 H1.
  bind_inv H u s2 H2. apply emit_inv in H2. subst s2.
  apply ret_inv in H. destruct H as [-> <-].
  exact (frame_alloc_raw_answer _ _ _ H1).
Qed.

(** Step 1 of [allocate_kernel_stack] with enough frames. *)
Lemma alloc_stack_frames_ok n : forall acc s r s',
  alloc_stack_frames n acc s = Ret r s' ->
  frames_suffice n s = true ->
  r = Some (acc ++ firstn n (frame_script s)) /\
  frame_script s' = skipn n (frame_script s) /\
  kmalloc_script s' = kmalloc_script s.
Proof.
  induction n as [|n IH]; intros acc s r s' H Hs; cbn [alloc_stack_frames] in H.
  - apply ret_inv in H. destruct H as [<- <-]. cbn. rewrite app_nil_r. auto.
  - bind_inv H p s1 H1. apply frame_alloc_answer in H1.
    destruct H1 as (Hp & Hs1 & Hk1).
    destruct (frames_suffice_cons _ _ Hs) as (q & rest & Hsc & Hq & Hl & Hf).
    rewrite Hsc in Hp, Hs1. cbn in Hp, Hs1. subst p.
    destruct (usable_frame_spec _ Hq) as (Hq0 & _).
    apply Z.eqb_neq in Hq0. rewrite Hq0 in H.
    apply IH in H; [|exact (frames_suffice_intro _ _ _ Hs1 Hl Hf)].
    destruct H as (-> & Hs' & Hk'). rewrite Hsc, Hs1 in *. cbn [firstn skipn].
    rewrite <- app_assoc. cbn. repeat split; congruence.
Qed.

(** The page table of a mapping is there, or one of the coming frames
    becomes it. *)
Lemma ensure_page_table_ok pd v s ok s' :
  ensure_page_table pd v s = Ret ok s' ->
  frames_suffice 1 s = true ->
  ok = true /\
  (frame_script s' = frame_script s \/ frame_script s' = tl (frame_script s)) /\
  kmalloc_script s' = kmalloc_script s.
Proof.
  intros H Hs. unfold ensure_page_table in H.
  bind_inv H known s0 H0. apply gets_inv in H0. destruct H0 as [-> ->].
  destruct (page_tables s !! (pd, PDE_INDEX v)).
  { apply ret_inv in H. destruct H as [<- <-]. auto. }
  bind_inv H pt s1 H1. apply frame_alloc_raw_answer in H1.
  destruct H1 as (Hpt & Hs1 & Hk1).
  destruct (frames_suffice_cons _ _ Hs) as (q & rest & Hsc & Hq & _).
  rewrite Hsc in Hpt. cbn in Hpt. subst pt.
  destruct (usable_frame_spec _ Hq) as (Hq0 & _ & Hal).
  apply Z.eqb_neq in Hq0. rewrite Hq0 in H.
  bind_inv H t s2 H2.
  pose proof (scripts_temp_map_raw q _ _ _ H2) as Hsc2.
  unfold paging_temp_map_raw, page_aligned in H2.
  apply Z.eqb_eq in Hal. rewrite Hal in H2.
  bind_inv H2 u s3 H3. apply ret_inv in H2. destruct H2 as [<- _].
  change (PAGING_TEMP_VADDR =? 0) with false in H.
  bind_inv H u4 s4 H4. pose proof (scripts_memset _ _ _ _ _ _ H4) as Hsc4.
  bind_inv H u5 s5 H5. pose proof (scripts_temp_unmap_raw _ _ _ H5) as Hsc5.
  bind_inv H u6 s6 H6. apply modify_inv in H6. subst s6.
  apply ret_inv in H. destruct H as [<- <-].
  unfold scripts in *. cbn [frame_script kmalloc_script set_page_tables].
  injection Hsc5 as Ha5 Hb5. injection Hsc4 as Ha4 Hb4. injection Hsc2 as Ha2 Hb2.
  split; [reflexivity|]. split; [right|]; congruence.
Qed.

(** A kernel mapping of a usable frame at an aligned address succeeds when
    one more frame can be had. *)
Lemma map_kernel_page_ok pd v p s r s' :
  paging_map_single_4k pd v p PTE_KERNEL_DATA_FLAGS s = Ret r s' ->
  v mod PAGE_SIZE = 0 -> usable_frame p = true ->
  frames_suffice 1 s = true ->
  r = MapOk /\
  (frame_script s' = frame_script s \/ frame_script s' = tl (frame_script s)) /\
  kmalloc_script s' = kmalloc_script s.
Proof.
  intros H Hv Hp Hs. unfold paging_map_single_4k in H.
  bind_inv H r1 s1 H1. bind_inv H u s2 H2. apply emit_inv in H2. subst s2.
  apply ret_inv in H. destruct H as [-> <-].
  cbn [frame_script kmalloc_script set_trace].
  unfold paging_map_single_4k_raw, page_aligned in H1.
  destruct (usable_frame_spec _ Hp) as (_ & _ & Hal).
  apply Z.eqb_eq in Hv, Hal. rewrite Hv, Hal in H1. cbn [andb negb] in H1.
  change (Z.land PTE_KERNEL_DATA_FLAGS PAGE_USER =? 0) with true in H1.
  rewrite andb_false_r in H1.
  bind_inv H1 okt s2 H2.
  destruct (ensure_page_table_ok _ _ _ _ _ H2 Hs) as (-> & Hsc & Hk).
  cbn [negb] in H1.
  bind_inv H1 old s3 H3. apply gets_inv in H3. destruct H3 as [-> ->].
  bind_inv H1 u3 s3 H3. apply modify_inv in H3. subst s3.
  destruct (ptes s2 !! (pd, vpn v)) as [q|].
  - bind_inv H1 u4 s4 H4. apply ret_inv in H1. destruct H1 as [<- <-].
    assert (Hs4 : scripts s4 = scripts s2).
    { destruct (pte_present q && negb (pte_frame q =? pte_frame p)).
      - exact (scripts_put_frame_raw _ _ _ _ H4).
      - apply ret_inv in H4. destruct H4 as [_ <-]. reflexivity. }
    unfold scripts in Hs4. injection Hs4 as Ha Hb.
    split; [reflexivity|]. rewrite Ha, Hb. auto.
  - apply ret_inv in H1. destruct H1 as [<- <-]. auto.
Qed.

(** Step 3 of [allocate_kernel_stack] with enough frames. *)
Lemma map_stack_pages_ok base frames n : forall i s b s',
  map_stack_pages n i base frames s = Ret b s' ->
  0 <= i -> 0 <= base -> base mod PAGE_SIZE = 0 ->
  base + PAGE_SIZE * (i + Z.of_nat n) <= 2 ^ 32 ->
  (forall k, i <= k < i + Z.of_nat n -> usable_frame (nth (Z.to_nat k) frames 0) = true) ->
  frames_suffice n s = true ->
  b = true /\ kmalloc_script s' = kmalloc_script s.
Proof.
  induction n as [|n IH]; intros i s b s' H Hi Hb Hal Hmax Hfr Hs;
    cbn [map_stack_pages] in H.
  - apply ret_inv in H. destruct H as [<- <-]. auto.
  - rewrite stack_page_addr in H by (unfold PAGE_SIZE in *; lia).
    bind_inv H kpd s0 H0. apply gets_inv in H0. destruct H0 as [-> ->].
    bind_inv H r s1 H1.
    apply map_kernel_page_ok in H1.
    + destruct H1 as (-> & Hsc & Hk).
      destruct (IH (i + 1) s1 b s' H) as [-> Hk'];
        [lia | exact Hb | exact Hal | lia | intros k Hk0; apply Hfr; lia
        | exact (frames_suffice_step _ _ _ Hs Hsc) |].
      split; [reflexivity | congruence].
    + rewrite Z.mul_comm, Z_mod_plus_full. exact Hal.
    + apply Hfr. lia.
    + apply (frames_suffice_le 1 (S n)); [lia | exact Hs].
Qed.

End ScriptFacts.
Import ScriptFacts.

(** ** Failure after the TSS update *)

Module LateFailure.

Ltac bind_inv H a s1 H1 :=
  apply bind_ret_inv in H; destruct H as (a & s1 & H1 & H).

Lemma forallb_skipn {A} (f : A -> bool) a : forall (l : list A),
  forallb f l = true -> forallb f (skipn a l) = true.
Proof.
  induction a as [|a IH]; intros l H; [exact H|].
  destruct l as [|x l]; [reflexivity|]. cbn [skipn]. apply IH.
  cbn in H. apply andb_true_iff in H. apply H.
Qed.

Lemma frames_suffice_skipn a b s s1 :
  frames_suffice (a + b) s = true ->
  frame_script s1 = skipn a (frame_script s) ->
  frames_suffice b s1 = true.
Proof.
  unfold frames_suffice. intros H Hs. apply andb_true_iff in H. destruct H as [Hl Hf].
  apply Nat.leb_le in Hl. rewrite Hs. apply andb_true_iff. split.
  - apply Nat.leb_le. rewrite length_skipn. lia.
  - rewrite firstn_skipn_comm. apply forallb_skipn. exact Hf.
Qed.

Lemma forallb_firstn_nth {A} (f : A -> bool) d : forall n (l : list A) k,
  forallb f (firstn n l) = true -> (k < n)%nat -> (n <= length l)%nat ->
  f (nth k l d) = true.
Proof.
  induction n as [|n IH]; intros l k H Hk Hl; [lia|].
  destruct l as [|x l]; [cbn in Hl; lia|].
  cbn [firstn forallb] in H. apply andb_true_iff in H. destruct H as [Hx H].
  destruct k as [|k]; [exact Hx|]. cbn [nth]. apply IH; [exact H | lia | cbn in Hl; lia].
Qed.

Lemma nth_firstn_lt {A} (d : A) : forall n (l : list A) k,
  (k < n)%nat -> nth k (firstn n l) d = nth k l d.
Proof.
  induction n as [|n IH]; intros l k Hk; [lia|].
  destruct l as [|x l]; [reflexivity|].
  destruct k as [|k]; [reflexivity|]. cbn [firstn nth]. apply IH. lia.
Qed.

(** With the heap and enough usable frames at hand, and room left in the
    kernel-stack region, [allocate_kernel_stack] succeeds: page [k] of the
    stack is mapped to the [k]-th of the coming frames. *)
Lemma allocate_kernel_stack_ok cfg proc s r proc' s' :
  allocate_kernel_stack cfg proc s = Ret (r, proc') s' ->
  kstack_in_region cfg (g_next_kernel_stack_virt_base s + PROCESS_KSTACK_SIZE cfg) ->
  hd true (kmalloc_script s) = true ->
  frames_suffice (Z.to_nat (PROCESS_KSTACK_SIZE cfg / PAGE_SIZE)
                  + Z.to_nat (PROCESS_KSTACK_SIZE cfg / PAGE_SIZE)) s = true ->
  r = true /\
  forall k, 0 <= k < PROCESS_KSTACK_SIZE cfg / PAGE_SIZE ->
    usable_frame (nth (Z.to_nat k) (frame_script s) 0) = true /\
    ptes s' !! (g_kernel_page_directory_phys s,
                vpn (g_next_kernel_stack_virt_base s) + k)
      = Some (Z.lor (pte_frame (nth (Z.to_nat k) (frame_script s) 0))
                PTE_KERNEL_DATA_FLAGS).
Proof.
  intros H (Hpos & Hmod & Hlo & Hhi) Hkm Hfs.
  set (size := PROCESS_KSTACK_SIZE cfg) in *.
  set (base := g_next_kernel_stack_virt_base s) in *.
  set (n := Z.to_nat (size / PAGE_SIZE)) in *.
  assert (Hsz : size = PAGE_SIZE * (size / PAGE_SIZE)).
  { pose proof (Z.div_mod size PAGE_SIZE ltac:(discriminate)). lia. }
  assert (Hn0 : 0 <= size / PAGE_SIZE) by (apply Z.div_pos; [lia | reflexivity]).
  assert (Hnn : Z.of_nat n = size / PAGE_SIZE) by (unfold n; apply Z2Nat.id, Hn0).
  unfold KERNEL_STACK_VIRT_START, KERNEL_STACK_VIRT_END in Hlo, Hhi.
  unfold allocate_kernel_stack in H. fold size in H.
  replace ((size =? 0) || negb (size mod PAGE_SIZE =? 0)) with false in H.
  2:{ symmetry. apply orb_false_iff. split; [apply Z.eqb_neq; lia|].
      apply negb_false_iff, Z.eqb_eq, Hmod. }
  bind_inv H ok s1 H1.
  destruct (kmalloc_answer _ _ _ H1) as (Hok & _ & Hsc1).
  apply kmalloc_spec in H1. destruct H1 as (_ & Hp1 & Hk1 & Hn1).
  rewrite Hkm in Hok. subst ok. cbn [negb] in H.
  bind_inv H fr s2 H2.
  pose proof (alloc_stack_frames_spec _ _ _ _ _ H2) as (_ & Hk2 & Hn2 & _).
  apply alloc_stack_frames_ok in H2.
  2:{ apply (frames_suffice_le n (n + n)); [lia|].
      unfold frames_suffice in *. rewrite Hsc1. exact Hfs. }
  destruct H2 as (-> & Hsc2 & _). cbn [app] in H. rewrite Hsc1 in H, Hsc2.
  bind_inv H base' s3 H3. apply gets_inv in H3. destruct H3 as [-> ->].
  assert (Hbase : g_next_kernel_stack_virt_base s2 = base) by (unfold base; congruence).
  rewrite Hbase in H.
  assert (Hw : wrap32 (base + size) = base + size)
    by (apply wrap32_small; rewrite pow32; lia).
  rewrite Hw in H.
  replace ((base <? KERNEL_STACK_VIRT_START) || (KERNEL_STACK_VIRT_END <? base + size)
           || (base + size <=? base)) with false in H.
  2:{ symmetry. unfold KERNEL_STACK_VIRT_START, KERNEL_STACK_VIRT_END.
      apply orb_false_iff. split; [apply orb_false_iff; split|].
      - apply Z.ltb_ge. lia.
      - apply Z.ltb_ge. lia.
      - apply Z.leb_gt. lia. }
  bind_inv H u4 s4 H4. apply modify_inv in H4. subst s4.
  bind_inv H u5 s5 H5. apply assert_inv in H5. destruct H5 as [Hal ->].
  apply Z.eqb_eq in Hal.
  bind_inv H mapped s6 H6.
  assert (Husable : forall k, 0 <= k < 0 + Z.of_nat n ->
            usable_frame (nth (Z.to_nat k) (firstn n (frame_script s)) 0) = true).
  { intros k Hk. rewrite nth_firstn_lt by lia.
    unfold frames_suffice in Hfs. apply andb_true_iff in Hfs. destruct Hfs as [Hl Hf].
    apply Nat.leb_le in Hl.
    apply (forallb_firstn_nth _ _ n); [|lia|lia].
    exact (forallb_firstn_le _ n (n + n) _ ltac:(lia) Hf). }
  pose proof H6 as H6'.
  apply map_stack_pages_ok in H6';
    [| lia | lia | exact Hal | rewrite pow32; lia | exact Husable
     | apply (frames_suffice_skipn n n s); [exact Hfs | exact Hsc2]].
  destruct H6' as [-> _]. cbn [negb] in H.
  apply map_stack_pages_mapped in H6;
    [| lia | exact Hal | unfold KERNEL_STACK_VIRT_START; lia
     | unfold KERNEL_STACK_VIRT_END; lia].
  destruct H6 as [Hmapped _].
  cbn [g_kernel_page_directory_phys set_next_kstack] in Hmapped.
  bind_inv H u7 s7 H7. apply emit_inv in H7. subst s7.
  apply ret_inv in H. destruct H as [H <-]. injection H as <- _.
  split; [reflexivity|]. intros k Hk.
  specialize (Husable k ltac:(lia)). rewrite nth_firstn_lt in Husable by lia.
  split; [exact Husable|].
  cbn [ptes set_trace]. rewrite <- Hk1, <- Hk2.
  rewrite Hmapped by lia. rewrite nth_firstn_lt by lia. reflexivity.
Qed.

(** The steps of [create_user_process] that follow the TSS update. *)
Local Abbreviation late_steps cfg path proc :=
  (let* created := create_mm (page_directory_phys proc) in
   match created with
   | None => ret (inl (FailCtx proc false 0 0 false (-4)))
   | Some m =>
       let proc := set_mm (Some m) proc in
       let* (loaded, initial_brk_addr) :=
         load_elf_and_init_memory path m (entry_point proc) 0 in
       let '(res, m, entry) := loaded in
       let proc := set_entry_point entry (set_mm (Some m) proc) in
       if negb (res =? 0) then ret (inl (FailCtx proc false 0 0 false (-5)))
       else
         let m := set_brk initial_brk_addr m in
         finish_user_process cfg (set_mm (Some m) proc) m initial_brk_addr
   end).

Lemma late_steps_inert {B} loud K (f : kstate -> B) cfg path proc :
  inert loud K f -> kernel_only K -> loud_ok loud ->
  (forall v, loud (EvWarnEntryInKernel v) = false) ->
  (forall p, loud (EvReadFile p) = false) ->
  preserves f (late_steps cfg path proc).
Proof.
  intros Hf HK Hloud Hwarn Hread.
  repeat first [pres_step | progress cbv zeta];
    first [apply (pres_create_mm loud K f Hf Hloud)
          | apply (pres_load_elf loud K f Hf HK Hloud); assumption
          | apply (pres_finish_user_process loud K f Hf HK Hloud)].
Qed.

Lemma late_steps_tracking cfg path proc :
  tracking user_mapping (late_steps cfg path proc).
Proof.
  repeat first [track_step | progress cbv zeta];
    first [apply tracking_create_mm, user_mapping_other
          | apply tracking_load_elf
          | apply tracking_finish_user_process].
Qed.

Lemma finish_fail_ctx cfg proc m brk s c s' :
  finish_user_process cfg proc m brk s = Ret (inl c) s' ->
  kernel_stack_vaddr_top (fc_proc c) = kernel_stack_vaddr_top proc /\
  page_directory_phys (fc_proc c) = page_directory_phys proc /\
  fc_pd_mapped_temp c = false.
Proof.
  intros H. unfold finish_user_process in H.
  bind_inv H heap s1 H1. bind_inv H u2 s2 H2. bind_inv H stk s3 H3.
  destruct stk as [m'|].
  2:{ apply ret_inv in H. destruct H as [H _]. injection H as <-. auto. }
  bind_inv H u4 s4 H4. bind_inv H fr s5 H5.
  destruct (fr =? 0).
  { apply ret_inv in H. destruct H as [H _]. injection H as <-. auto. }
  bind_inv H r s6 H6.
  destruct r;
    try (apply ret_inv in H; destruct H as [H _]; injection H as <-; auto).
  bind_inv H p s7 H7. apply ret_inv in H. destruct H as [H _]. discriminate H.
Qed.

Lemma late_steps_ctx cfg path proc s c s1 :
  late_steps cfg path proc s = Ret (inl c) s1 ->
  kernel_stack_vaddr_top (fc_proc c) = kernel_stack_vaddr_top proc /\
  page_directory_phys (fc_proc c) = page_directory_phys proc /\
  fc_pd_mapped_temp c = false.
Proof.
  intros H. bind_inv H cm s2 H2. destruct cm as [m|].
  2:{ apply ret_inv in H. destruct H as [H _]. injection H as <-. auto. }
  bind_inv H loaded s3 H3. destruct loaded as [[[res m'] entry] brk].
  destruct (negb (res =? 0)).
  { apply ret_inv in H. destruct H as [H _]. injection H as <-. auto. }
  apply finish_fail_ctx in H. exact H.
Qed.

(** The teardown of a process whose kernel stack lies in the stack region
    returns, and logs [teardown_events]. *)
Lemma destroy_process_teardown cfg pcb s :
  kstack_in_region cfg (kernel_stack_vaddr_top pcb) ->
  exists s',
    destroy_process cfg pcb s = Ret tt s' /\
    trace s' = trace s ++ teardown_events cfg pcb s.
Proof.
  intros Hreg. unfold destroy_process, teardown_events.
  assert (H1 : exists s1,
    (match mm pcb with Some m => destroy_mm m | None => ret tt end) s = Ret tt s1 /\
    trace s1 = trace s ++
      (match mm pcb with Some m => [EvDestroyMm (pgd_phys m)] | None => [] end) /\
    g_kernel_page_directory_phys s1 = g_kernel_page_directory_phys s /\
    forall v, KERNEL_STACK_VIRT_START <= v < KERNEL_STACK_VIRT_END ->
              stack_page_release s1 v = stack_page_release s v).
  { destruct (mm pcb) as [m|]; [apply destroy_mm_spec|].
    exists s. rewrite app_nil_r. auto. }
  destruct H1 as (s1 & Hr1 & Ht1 & Hk1 & Hrel).
  rewrite (bind_run _ _ _ _ _ Hr1).
  cbn [kernel_stack_vaddr_top page_directory_phys pid set_mm].
  set (top := kernel_stack_vaddr_top pcb) in *.
  set (size := PROCESS_KSTACK_SIZE cfg) in *.
  pose proof Hreg as (Hpos & Hmod & Hlo & Hhi).
  fold size in Hpos, Hmod, Hlo.
  unfold KERNEL_STACK_VIRT_START, KERNEL_STACK_VIRT_END in Hlo, Hhi.
  replace (top =? 0) with false by (symmetry; apply Z.eqb_neq; lia).
  cbn [negb].
  rewrite wrap32_small by (rewrite pow32; lia).
  assert (Hsz : size = PAGE_SIZE * (size / PAGE_SIZE)).
  { pose proof (Z.div_mod size PAGE_SIZE ltac:(discriminate)). lia. }
  assert (Hn : 0 <= size / PAGE_SIZE) by (apply Z.div_pos; [lia | reflexivity]).
  destruct (release_loop_spec top (Z.to_nat (size / PAGE_SIZE)) page_fuel
              (top - size) s1) as (s2 & Hr2 & Ht2 & Hp2 & Hk2).
  { apply page_fuel_gt. rewrite Z2Nat.id by exact Hn.
    change (2 ^ 20) with 1048576. unfold PAGE_SIZE in *. lia. }
  { lia. }
  { rewrite Z2Nat.id by exact Hn. lia. }
  { rewrite pow32. unfold PAGE_SIZE. lia. }
  destruct (unmap_pages_returns
              (Z.to_nat ((PAGE_OFFSET (top - size) + size + PAGE_SIZE - 1) / PAGE_SIZE))
              (g_kernel_page_directory_phys s1) (vpn (top - size))
              (set_trace (trace s2 ++ [EvUnmapRange (g_kernel_page_directory_phys s1)
                                         (top - size) size]) s2))
    as (s3 & Hr3).
  assert (H2 : (let* kpd := gets g_kernel_page_directory_phys in
                for_pages page_fuel (top - size) top (release_stack_page kpd) ;;
                paging_unmap_range kpd (top - size) size) s1 = Ret tt s3).
  { unfold bind at 1. unfold gets at 1. rewrite (bind_run _ _ _ _ _ Hr2).
    unfold paging_unmap_range. unfold bind at 1. unfold emit, modify. exact Hr3. }
  rewrite (bind_run _ _ _ _ _ H2).
  apply preserves_trace_unmap_pages in Hr3. cbn [trace set_trace] in Hr3.
  assert (H3 : exists s4,
    (if negb (page_directory_phys pcb =? 0)
     then put_frame (page_directory_phys pcb) else ret tt) s3 = Ret tt s4 /\
    trace s4 = trace s3 ++
      (if page_directory_phys pcb =? 0 then []
       else [EvPutFrame (page_directory_phys pcb)])).
  { destruct (page_directory_phys pcb =? 0); cbn [negb].
    - exists s3. rewrite app_nil_r. auto.
    - eexists. split; [reflexivity|]. cbn.
      destruct (frame_refs s3 !! page_directory_phys pcb) as [[|?]|]; reflexivity. }
  destruct H3 as (s4 & Hr4 & Ht4).
  rewrite (bind_run _ _ _ _ _ Hr4).
  eexists. split; [reflexivity|]. cbn [trace set_trace].
  rewrite Ht4, Hr3, Ht2, Ht1, Hk1, <- !app_assoc. f_equal. f_equal. f_equal.
  f_equal. apply map_ext_in. intros v Hv. apply Hrel.
  apply (stack_pages_in_region cfg top v Hreg Hv).
Qed.

(** The frames the loop over [n] mapped stack pages gives back. *)
Lemma released_stack_pages s : forall n base frames,
  length frames = n ->
  (forall k, (k < n)%nat ->
     kernel_frame s (base + PAGE_SIZE * Z.of_nat k) = Some (nth k frames 0) /\
     nth k frames 0 <> 0) ->
  frames_released (concat (map (stack_page_release s) (stack_pages base n))) = frames.
Proof.
  induction n as [|n IH]; intros base frames Hlen Hk.
  - destruct frames; [reflexivity | discriminate Hlen].
  - destruct frames as [|p frames]; [discriminate Hlen|].
    rewrite stack_pages_succ. cbn [map concat]. rewrite frames_released_app.
    destruct (Hk 0%nat ltac:(lia)) as [H0 Hnz]. cbn [nth] in H0, Hnz.
    change (Z.of_nat 0) with 0 in H0. rewrite Z.mul_0_r, Z.add_0_r in H0.
    unfold stack_page_release at 1. rewrite H0.
    replace (p =? 0) with false by (symmetry; apply Z.eqb_neq; exact Hnz).
    cbn [frames_released flat_map app]. f_equal.
    apply IH; [cbn in Hlen; lia|].
    intros k Hlt. specialize (Hk (S k) ltac:(lia)). cbn [nth] in Hk.
    replace (base + PAGE_SIZE + PAGE_SIZE * Z.of_nat k)
      with (base + PAGE_SIZE * Z.of_nat (S k)) by lia.
    exact Hk.
Qed.

Lemma teardown_released cfg pcb s frames :
  kernel_stack_vaddr_top pcb <> 0 -> page_directory_phys pcb <> 0 ->
  length frames = Z.to_nat (PROCESS_KSTACK_SIZE cfg / PAGE_SIZE) ->
  (forall k, (k < Z.to_nat (PROCESS_KSTACK_SIZE cfg / PAGE_SIZE))%nat ->
     kernel_frame s (kernel_stack_vaddr_top pcb - PROCESS_KSTACK_SIZE cfg
                     + PAGE_SIZE * Z.of_nat k) = Some (nth k frames 0) /\
     nth k frames 0 <> 0) ->
  frames_released (teardown_events cfg pcb s) = frames ++ [page_directory_phys pcb] /\
  In (EvUnmapRange (g_kernel_page_directory_phys s)
        (kernel_stack_vaddr_top pcb - PROCESS_KSTACK_SIZE cfg)
        (PROCESS_KSTACK_SIZE cfg)) (teardown_events cfg pcb s) /\
  tss_calls (teardown_events cfg pcb s) = [].
Proof.
  intros Htop Hpd Hlen Hk. unfold teardown_events.
  replace (kernel_stack_vaddr_top pcb =? 0) with false
    by (symmetry; apply Z.eqb_neq; exact Htop).
  replace (page_directory_phys pcb =? 0) with false
    by (symmetry; apply Z.eqb_neq; exact Hpd).
  split; [|split].
  - rewrite !frames_released_app.
    rewrite (released_stack_pages s _ _ frames Hlen Hk).
    destruct (mm pcb); cbn [frames_released flat_map app];
      rewrite !app_nil_r; reflexivity.
  - apply in_or_app. right. apply in_or_app. left. apply in_or_app. right.
    left. reflexivity.
  - rewrite !tss_calls_app.
    assert (Hloop : forall l, tss_calls (concat (map (stack_page_release s) l)) = []).
    { induction l as [|v l IH]; [reflexivity|]. cbn [map concat].
      rewrite tss_calls_app, IH. unfold stack_page_release.
      destruct (kernel_frame s v) as [p|]; [destruct (p =? 0)|]; reflexivity. }
    rewrite Hloop. destruct (mm pcb); reflexivity.

Qed.

Lemma tracking_trace ok {A} (m : M A) s a s' :
  tracking ok m -> m s = Ret a s' -> exists evs, trace s' = trace s ++ evs.
Proof.
  intros T H. destruct (T _ _ _ H) as (evs & (Ht & _) & _). exists evs. exact Ht.
Qed.

Lemma tracking_copy_kernel_pde_entries d :
  tracking user_mapping (copy_kernel_pde_entries d).
Proof.
  unfold copy_kernel_pde_entries. apply tracking_bind.
  - apply ok_emit; [exact user_mapping_other | intros; discriminate].
  - intros _. apply silent_of_inert. intros B f loud K Hf.
    apply (pres_copy_pde_slots loud K f Hf).
Qed.

(** The set-up of the page directory logs some events. *)
Lemma pd_setup_trace t a w s1 s2 s3 s4 s5 s6 u3 u4 u5 u6 pd :
  paging_temp_map pd s1 = Ret t s2 ->
  memset t Byte.x00 (Z.to_nat PAGE_SIZE) s2 = Ret u3 s3 ->
  copy_kernel_pde_entries t s3 = Ret u4 s4 ->
  kstore32 a w s4 = Ret u5 s5 ->
  paging_temp_unmap t s5 = Ret u6 s6 ->
  exists evs, trace s6 = trace s1 ++ evs.
Proof.
  intros H2 H3 H4 H5 H6.
  destruct (tracking_trace _ _ _ _ _ (tracking_temp_map _ user_mapping_other pd) H2)
    as (e2 & T2).
  destruct (tracking_trace _ _ _ _ _ (tracking_memset user_mapping _ _ _) H3) as (e3 & T3).
  destruct (tracking_trace _ _ _ _ _ (tracking_copy_kernel_pde_entries _) H4)
    as (e4 & T4).
  destruct (tracking_trace _ _ _ _ _ (tracking_kstore32 user_mapping _ _) H5) as (e5 & T5).
  destruct (tracking_trace _ _ _ _ _ (tracking_temp_unmap _ user_mapping_other _) H6)
    as (e6 & T6).
  exists (e2 ++ e3 ++ e4 ++ e5 ++ e6).
  rewrite T6, T5, T4, T3, T2, <- !app_assoc. reflexivity.
Qed.

(** The set-up of the page directory leaves both scripts alone. *)
Lemma pd_setup_scripts t a w s1 s2 s3 s4 s5 s6 u3 u4 u5 u6 pd :
  paging_temp_map pd s1 = Ret t s2 ->
  memset t Byte.x00 (Z.to_nat PAGE_SIZE) s2 = Ret u3 s3 ->
  copy_kernel_pde_entries t s3 = Ret u4 s4 ->
  kstore32 a w s4 = Ret u5 s5 ->
  paging_temp_unmap t s5 = Ret u6 s6 ->
  scripts s6 = scripts s1.
Proof.
  intros H2 H3 H4 H5 H6.
  rewrite (scripts_temp_unmap _ _ _ _ H6), (scripts_kstore32 _ _ _ _ _ H5),
    (scripts_copy_kernel_pde_entries _ _ _ _ H4), (scripts_memset _ _ _ _ _ _ H3).
  exact (scripts_temp_map _ _ _ _ H2).
Qed.

(** The first thing the loader logs is the read of the file. *)
Lemma load_elf_reads_first path m e b s r s' :
  load_elf_and_init_memory path m e b s = Ret r s' ->
  exists evs, trace s' = trace s ++ EvReadFile path :: evs.
Proof.
  intros H. unfold load_elf_and_init_memory in H.
  bind_inv H file s1 H1. unfold read_file in H1.
  bind_inv H1 u s2 H2. apply emit_inv in H2. subst s2.
  apply gets_inv in H1. destruct H1 as [_ ->].
  assert (T : exists evs, trace s' = trace (set_trace (trace s ++ [EvReadFile path]) s)
                            ++ evs).
  { revert H. apply tracking_trace with (ok := user_mapping).
    destruct file as [file|].
    - repeat first [track_step | progress cbv zeta];
        first [apply tracking_cleanup_load_elf, user_mapping_other
              | apply tracking_load_segments
              | apply tracking_emit; [exact I | intros; discriminate]].
    - repeat track_step. apply tracking_cleanup_load_elf, user_mapping_other. }
  destruct T as (evs & T). exists evs. rewrite T. cbn [trace set_trace].
  rewrite <- app_assoc. reflexivity.
Qed.

(** What the steps after the TSS update log when they fail: the creation
    of the memory descriptor and, if that succeeded, the read of the
    file. *)
Lemma late_steps_trace cfg path proc s c s1 :
  late_steps cfg path proc s = Ret (inl c) s1 ->
  exists ok post,
    trace s1 = trace s ++ EvCreateMm (page_directory_phys proc) :: EvKmalloc ok :: post /\
    (ok = true -> exists post', post = EvReadFile path :: post').
Proof.
  intros H. bind_inv H cm s2 H2. unfold create_mm in H2.
  bind_inv H2 u s3 H3. apply emit_inv in H3. subst s3.
  bind_inv H2 ok s4 H4. apply kmalloc_trace in H4. cbn [trace set_trace] in H4.
  exists ok. destruct ok.
  2:{ apply ret_inv in H2. destruct H2 as [<- <-].
      apply ret_inv in H. destruct H as [_ <-]. exists [].
      split; [rewrite H4, <- app_assoc; reflexivity | discriminate]. }
  apply ret_inv in H2. destruct H2 as [<- <-].
  bind_inv H loaded s5 H5. destruct loaded as [[[res m'] entry] brk].
  apply load_elf_reads_first in H5. destruct H5 as (evL & H5).
  destruct (negb (res =? 0)).
  { apply ret_inv in H. destruct H as [_ <-]. exists (EvReadFile path :: evL).
    split; [|eauto]. rewrite H5, H4, <- !app_assoc. reflexivity. }
  destruct (tracking_trace _ _ _ _ _ (tracking_finish_user_process _ _ _ _) H)
    as (evF & TF).
  exists (EvReadFile path :: evL ++ evF). split; [|eauto].
  rewrite TF, H5, H4, <- !app_assoc. reflexivity.
Qed.

(** C10: take a call of [create_user_process] that fails although the heap
    grants its first two requests, [frame_alloc] has usable frames for the
    page directory and the kernel stack, and the stack region has room, so
    that the failure comes after the kernel stack was set up.  Its log then
    reads: some calls that neither touch the TSS nor read the file, then
    [tss_set_kernel_stack] with the top of the new kernel stack, then
    [create_mm] and, if the heap granted the descriptor, the read of the
    ELF file, and then the rest, where the TSS is not set again.  After the
    TSS update [put_frame] is called on the frames of the kernel stack, in
    order, and on the page-directory frame, last of all; the stack is
    unmapped with [paging_unmap_range].  When the call returns no page of
    that stack is mapped, and [esp0] of the TSS is still the top of it. *)
Theorem create_failure_leaves_tss cfg path s s' :
  kstack_in_region cfg (g_next_kernel_stack_virt_base s + PROCESS_KSTACK_SIZE cfg) ->
  hd true (kmalloc_script s) = true ->
  hd true (tl (kmalloc_script s)) = true ->
  frames_suffice (1 + 2 * Z.to_nat (PROCESS_KSTACK_SIZE cfg / PAGE_SIZE)) s = true ->
  create_user_process cfg path s = Ret None s' ->
  exists pre ok post rel,
    trace s' = trace s ++ pre ++
      EvTssSetKernelStack (g_next_kernel_stack_virt_base s + PROCESS_KSTACK_SIZE cfg) ::
      EvCreateMm (hd 0 (frame_script s)) :: EvKmalloc ok :: post /\
    read_calls pre = [] /\ tss_calls pre = [] /\ tss_calls post = [] /\
    (ok = true -> exists post', post = EvReadFile path :: post') /\
    tss_esp0 s' = g_next_kernel_stack_virt_base s + PROCESS_KSTACK_SIZE cfg /\
    frames_released post =
      rel ++ firstn (Z.to_nat (PROCESS_KSTACK_SIZE cfg / PAGE_SIZE)) (tl (frame_script s))
          ++ [hd 0 (frame_script s)] /\
    In (EvUnmapRange (g_kernel_page_directory_phys s)
          (g_next_kernel_stack_virt_base s) (PROCESS_KSTACK_SIZE cfg)) post /\
    forall v,
      g_next_kernel_stack_virt_base s <= v
        < g_next_kernel_stack_virt_base s + PROCESS_KSTACK_SIZE cfg ->
      ptes s' !! (g_kernel_page_directory_phys s', vpn v) = None.
Proof.
  intros Hreg Hkm1 Hkm2 Hfs H.
  set (size := PROCESS_KSTACK_SIZE cfg) in *.
  set (n := Z.to_nat (size / PAGE_SIZE)) in *.
  set (base := g_next_kernel_stack_virt_base s) in *.
  set (kpd := g_kernel_page_directory_phys s) in *.
  pose proof Hreg as (Hpos & Hmod & Hlo & Hhi).
  unfold KERNEL_STACK_VIRT_START, KERNEL_STACK_VIRT_END in Hlo, Hhi.
  fold size in Hpos, Hmod, Hlo.
  replace (1 + 2 * n)%nat with (S (n + n)) in Hfs by lia.
  destruct (frames_suffice_cons _ _ Hfs) as (p & rest & Hsc & Hup & Hlen & Hall).
  destruct (usable_frame_spec _ Hup) as (Hpnz & Hprange & Hpal).
  rewrite Hsc. cbn [hd tl].
  (* the PCB *)
  unfold create_user_process in H.
  bind_inv H ok s1 H1.
  destruct (kmalloc_answer _ _ _ H1) as (Hok & Hks1 & Hfs1).
  pose proof (pres_kmalloc _ _ _ (inert_tss_view (fun _ => False)) loud_ok_tss
                _ _ _ H1) as Hv1.
  pose proof (pres_kmalloc _ _ _ (inert_read_calls (fun _ => False)) loud_ok_read
                _ _ _ H1) as Hr1.
  cbn beta in Hv1, Hr1.
  apply kmalloc_spec in H1. destruct H1 as (Ht1 & Hp1 & Hkpd1 & Hn1).
  rewrite Hkm1 in Hok. subst ok. cbn [negb] in H.
  bind_inv H pid0 s2 H2. apply gets_inv in H2. destruct H2 as [-> ->].
  bind_inv H u3 s3 H3. apply modify_inv in H3. subst s3.
  bind_inv H r s4 H4.
  destruct r as [c|proc].
  2:{ apply ret_inv in H. destruct H as [H _]. discriminate H. }
  bind_inv H u5 s5 H5. apply ret_inv in H. destruct H as [_ <-].
  (* the page directory *)
  unfold build_user_process in H4.
  bind_inv H4 pd t1 G1.
  destruct (frame_alloc_answer _ _ _ G1) as (Hpd & Hsc1 & Hk1).
  cbn [frame_script kmalloc_script set_next_pid] in Hpd, Hsc1, Hk1.
  rewrite Hfs1, Hsc in Hpd, Hsc1. cbn [hd tl] in Hpd, Hsc1. subst pd.
  replace (p =? 0) with false in H4 by (symmetry; apply Z.eqb_neq; exact Hpnz).
  bind_inv H4 t t2 G2.
  assert (Ht : t = PAGING_TEMP_VADDR).
  { pose proof G2 as G2'. unfold paging_temp_map, paging_temp_map_raw in G2'.
    bind_inv G2' e1 t1' G2a. unfold page_aligned in G2'.
    replace (p mod PAGE_SIZE =? 0) with true in G2'
      by (symmetry; apply Z.eqb_eq; exact Hpal).
    bind_inv G2' e2 t1'' G2b. apply ret_inv in G2'. destruct G2' as [<- _].
    reflexivity. }
  replace (t =? 0) with false in H4 by (rewrite Ht; reflexivity).
  bind_inv H4 e3 t3 G3. bind_inv H4 e4 t4 G4. bind_inv H4 e5 t5 G5.
  bind_inv H4 e6 t6 G6.
  pose proof (pd_setup_inert _ _ _ _ _ _ _ _ _ _ _ _ _ _ _ _ _
                (inert_tss_view _) loud_ok_tss G1 G2 G3 G4 G5 G6) as Hv6.
  pose proof (pd_setup_inert _ _ _ _ _ _ _ _ _ _ _ _ _ _ _ _ _
                (inert_read_calls _) loud_ok_read G1 G2 G3 G4 G5 G6) as Hr6.
  pose proof (pd_setup_inert _ _ _ _ _ _ _ _ _ _ _ _ _ _ _ _ _
                (inert_next_kstack _) loud_ok_none G1 G2 G3 G4 G5 G6) as Hn6.
  pose proof (pd_setup_inert _ _ _ _ _ _ _ _ _ _ _ _ _ _ _ _ _
                (inert_kpd _) loud_ok_none G1 G2 G3 G4 G5 G6) as Hkpd6.
  cbn beta in Hv6, Hr6, Hn6, Hkpd6.
  cbn [trace tss_esp0 g_next_kernel_stack_virt_base g_kernel_page_directory_phys
       set_next_pid] in Hv6, Hr6, Hn6, Hkpd6.
  pose proof (pd_setup_scripts _ _ _ _ _ _ _ _ _ _ _ _ _ _ G2 G3 G4 G5 G6) as Hsc6.
  unfold scripts in Hsc6. injection Hsc6 as Hfr6 Hkm6.
  rewrite Hsc1 in Hfr6. rewrite Hk1, Hks1 in Hkm6.
  destruct (pd_setup_trace _ _ _ _ _ _ _ _ _ _ _ _ _ _ G2 G3 G4 G5 G6) as (evPD & Tpd).
  apply frame_alloc_spec in G1. destruct G1 as (Tfa & _).
  cbn [trace set_next_pid] in Tfa.
  (* the kernel stack *)
  bind_inv H4 res t7 G7. destruct res as [okk proc2].
  assert (Hbase6 : g_next_kernel_stack_virt_base t6 = base) by (unfold base; congruence).
  assert (Hkpdt6 : g_kernel_page_directory_phys t6 = kpd) by (unfold kpd; congruence).
  assert (Hsize : 0 <= size < 2 ^ 32) by (rewrite pow32; lia).
  assert (Hnext : 0 <= g_next_kernel_stack_virt_base t6 < 2 ^ 32)
    by (rewrite Hbase6, pow32; lia).
  pose proof (pres_allocate_kernel_stack _ _ (inert_tss_view _) loud_ok_tss cfg
                (fun _ _ => eq_refl) _ _ _ _ G7) as Hv7.
  pose proof (pres_allocate_kernel_stack _ _ (inert_read_calls _) loud_ok_read cfg
                (fun _ _ => eq_refl) _ _ _ _ G7) as Hr7.
  cbn beta in Hv7, Hr7.
  destruct (allocate_kernel_stack_ok _ _ _ _ _ _ G7) as (-> & Hstack).
  { rewrite Hbase6. exact Hreg. }
  { rewrite Hkm6. exact Hkm2. }
  { apply (frames_suffice_intro _ _ rest Hfr6 Hlen Hall). }
  fold size n in Hstack. rewrite Hbase6, Hkpdt6, Hfr6 in Hstack.
  destruct (allocate_kernel_stack_spec _ _ _ _ _ _ Hsize Hnext G7)
    as (Hkpd7 & evA & Ta & _ & Htop & _ & Hal & _ & (pb & Hproc2)).
  fold size in Htop. rewrite Hbase6 in Htop, Hal.
  set (top := base + size) in *.
  assert (Hpd2 : page_directory_phys proc2 = p) by (rewrite Hproc2; reflexivity).
  cbn [negb] in H4.
  (* the TSS *)
  bind_inv H4 e8 t8 G8.
  unfold tss_set_kernel_stack, bind, emit, modify in G8. injection G8 as _ <-.
  rewrite Htop in H4.
  match type of H4 with _ ?st = _ => set (t8 := st) in * end.
  (* the steps that may fail *)
  pose proof (late_steps_ctx _ _ _ _ _ _ H4) as (Hctop & Hcpd & Hctemp).
  rewrite Htop in Hctop. rewrite Hpd2 in Hcpd.
  destruct (late_steps_trace _ _ _ _ _ _ H4) as (ok & post1 & Tl & Hread).
  rewrite Hpd2 in Tl.
  pose proof (late_steps_inert _ _ _ cfg path proc2 (inert_tss_view (fun _ => False))
                kernel_only_none loud_ok_tss (fun _ => eq_refl) (fun _ => eq_refl)
                _ _ _ H4) as Hv4.
  pose proof (late_steps_inert _ _ _ cfg path proc2 (inert_kpd (fun _ => False))
                kernel_only_none loud_ok_none (fun _ => eq_refl) (fun _ => eq_refl)
                _ _ _ H4) as Hkpd4.
  cbn beta in Hv4, Hkpd4.
  assert (Hpte4 : forall v, KERNEL_STACK_VIRT_START <= v < KERNEL_STACK_VIRT_END ->
            ptes s4 !! (kpd, vpn v) = ptes t7 !! (kpd, vpn v)).
  { intros v Hv.
    exact (late_steps_inert _ _ _ cfg path proc2 (inert_pte_at kpd (vpn v))
             (kernel_only_stack_page v Hv) loud_ok_none
             (fun _ => eq_refl) (fun _ => eq_refl) _ _ _ H4). }
  (* fail_create *)
  pose proof (pres_fail_create _ _ (inert_tss_view _) loud_ok_tss cfg _ _ _ _ H5)
    as Hv5.
  cbn beta in Hv5.
  unfold fail_create in H5. rewrite Hctemp in H5. cbn [andb] in H5.
  bind_inv H5 e9 s4' F1. apply ret_inv in F1. destruct F1 as [_ <-].
  bind_inv H5 e10 s6 F2.
  assert (Hput : exists evP, trace s6 = trace s4 ++ evP /\ tss_calls evP = [] /\
                   ptes s6 = ptes s4 /\
                   g_kernel_page_directory_phys s6 = g_kernel_page_directory_phys s4).
  { destruct (negb (fc_initial_stack_phys_frame c =? 0)
              && negb (fc_initial_stack_mapped c)).
    - exists [EvPutFrame (fc_initial_stack_phys_frame c)].
      split; [exact (put_frame_trace _ _ _ _ F2)|]. split; [reflexivity|].
      unfold put_frame, put_frame_raw, bind, emit, modify in F2.
      injection F2 as _ <-. cbn.
      destruct (frame_refs s4 !! fc_initial_stack_phys_frame c) as [[|?]|]; auto.
    - apply ret_inv in F2. destruct F2 as [_ <-]. exists [].
      rewrite app_nil_r. auto. }
  destruct Hput as (evP & Tp & HtssP & Hp6 & Hkpd6').
  assert (Hregc : kstack_in_region cfg (kernel_stack_vaddr_top (fc_proc c)))
    by (rewrite Hctop; exact Hreg).
  destruct (destroy_process_teardown cfg (fc_proc c) s6 Hregc) as (s7 & Hd & Td).
  rewrite Hd in H5. injection H5 as _ <-.
  assert (Hkpds6 : g_kernel_page_directory_phys s6 = kpd).
  { rewrite Hkpd6', Hkpd4. cbn. rewrite Hkpd7. exact Hkpdt6. }
  assert (Hn0 : 0 <= size / PAGE_SIZE) by (apply Z.div_pos; [lia | reflexivity]).
  assert (Hsz : size = PAGE_SIZE * (size / PAGE_SIZE)).
  { pose proof (Z.div_mod size PAGE_SIZE ltac:(discriminate)). lia. }
  destruct (teardown_released cfg (fc_proc c) s6 (firstn n rest))
    as (Hrel & Hunmap & HtssT).
  { rewrite Hctop. unfold top. lia. }
  { rewrite Hcpd. exact Hpnz. }
  { rewrite length_firstn. fold size n. lia. }
  { fold size n. intros k Hk. rewrite Hctop. unfold top.
    replace (base + size - size) with base by lia.
    rewrite nth_firstn_lt by exact Hk.
    destruct (Hstack (Z.of_nat k)) as [Hus Hpte].
    { split; [lia|]. unfold n in Hk. apply Nat2Z.inj_lt in Hk.
      rewrite Z2Nat.id in Hk by exact Hn0. exact Hk. }
    rewrite Nat2Z.id in Hus, Hpte.
    destruct (usable_frame_spec _ Hus) as (Hnz & Hrange & Halign).
    split; [|exact Hnz].
    unfold kernel_frame. rewrite Hkpds6, Hp6.
    rewrite Hpte4.
    2:{ unfold KERNEL_STACK_VIRT_START, KERNEL_STACK_VIRT_END.
        unfold n in Hk. apply Nat2Z.inj_lt in Hk.
        rewrite Z2Nat.id in Hk by exact Hn0. unfold PAGE_SIZE in *. lia. }
    rewrite (stack_page_vpn base (Z.of_nat k) Hal), Hpte.
    rewrite present_lor_flags by reflexivity.
    rewrite pte_frame_lor_frame by reflexivity.
    f_equal. rewrite <- (Z.lor_0_r (nth k rest 0)) at 1.
    apply pte_frame_lor; [exact Hrange | exact Halign | reflexivity]. }
  rewrite Hctop, Hcpd, Hkpds6 in *. fold size in Hunmap.
  unfold top in Hunmap. replace (base + size - size) with base in Hunmap by lia.
  (* the log *)
  set (td := teardown_events cfg (fc_proc c) s6) in *.
  exists ([EvKmalloc true] ++ [EvFrameAlloc p] ++ evPD ++ evA), ok,
    (post1 ++ evP ++ td), (frames_released post1 ++ frames_released evP).
  assert (Tpre : trace t7 = trace s ++ [EvKmalloc true] ++ [EvFrameAlloc p] ++ evPD ++ evA).
  { rewrite Ta, Tpd, Tfa, Ht1, <- !app_assoc. reflexivity. }
  assert (Tpost : tss_calls (trace s4) = tss_calls (trace t8)) by congruence.
  split; [|split; [|split; [|split; [|split; [|split; [|split; [|split]]]]]]].
  - rewrite Td, Tp, Tl. unfold t8. cbn [trace set_trace set_tss_esp0].
    rewrite Tpre, <- !app_assoc. reflexivity.
  - assert (E : read_calls (trace t7) = read_calls (trace s)) by congruence.
    rewrite Tpre, read_calls_app in E.
    rewrite <- (app_nil_r (read_calls (trace s))) in E at 2.
    exact (app_inv_head _ _ _ E).
  - assert (E : tss_calls (trace t7) = tss_calls (trace s)) by congruence.
    rewrite Tpre, tss_calls_app in E.
    rewrite <- (app_nil_r (tss_calls (trace s))) in E at 2.
    exact (app_inv_head _ _ _ E).
  - rewrite Tl, tss_calls_app in Tpost.
    change (tss_calls (EvCreateMm p :: EvKmalloc ok :: post1))
      with (tss_calls post1) in Tpost.
    rewrite <- (app_nil_r (tss_calls (trace t8))) in Tpost at 2.
    apply app_inv_head in Tpost.
    rewrite !tss_calls_app, Tpost, HtssP, HtssT. reflexivity.
  - intros Hok'. destruct (Hread Hok') as (post' & ->).
    exists (post' ++ evP ++ td). reflexivity.
  - injection Hv5 as _ He5. rewrite He5.
    injection Hv4 as _ He4. rewrite He4. reflexivity.
  - rewrite !frames_released_app, Hrel, <- !app_assoc. reflexivity.
  - apply in_or_app. right. apply in_or_app. right. exact Hunmap.
  - assert (Hnz : kernel_stack_vaddr_top (fc_proc c) <> 0)
      by (rewrite Hctop; unfold top; lia).
    assert (Htmod : kernel_stack_vaddr_top (fc_proc c) mod PAGE_SIZE = 0).
    { rewrite Hctop. unfold top. rewrite Zplus_mod, Hal, Hmod. reflexivity. }
    assert (Hregc' : kstack_in_region cfg (kernel_stack_vaddr_top (fc_proc c)))
      by (rewrite Hctop; exact Hreg).
    destruct (destroy_process_unmaps _ _ _ _ _ Hnz Hregc' Htmod Hd) as (Hk & Hnone).
    rewrite Hk. intros v Hv. apply Hnone. rewrite Hctop. unfold top. fold size. lia.
Qed.

Lemma create_failure_leaves_tss_witness :
  exists s',
    create_user_process cfg0 "/kernel.bin" (boot_state bad_magic_elf) = Ret None s' /\
    exists pre ok post rel,
      trace s' = [] ++ pre ++
        EvTssSetKernelStack 0xE0002000 :: EvCreateMm 0x500000 :: EvKmalloc ok :: post /\
      read_calls pre = [] /\ tss_calls pre = [] /\ tss_calls post = [] /\
      (ok = true -> exists post', post = EvReadFile "/kernel.bin" :: post') /\
      tss_esp0 s' = 0xE0002000 /\
      frames_released post = rel ++ [0x501000; 0x502000] ++ [0x500000] /\
      In (EvUnmapRange 0x100000 0xE0000000 0x2000) post /\
      forall v, 0xE0000000 <= v < 0xE0002000 ->
        ptes s' !! (g_kernel_page_directory_phys s', vpn v) = None.
Proof.
  assert (Hv : outcome_value
                 (create_user_process cfg0 "/kernel.bin" (boot_state bad_magic_elf))
               = Some None) by (vm_compute; reflexivity).
  destruct (create_user_process cfg0 "/kernel.bin" (boot_state bad_magic_elf))
    as [r s'| |] eqn:Hrun; try discriminate Hv.
  cbn in Hv. injection Hv as ->.
  exists s'. split; [reflexivity|].
  apply (create_failure_leaves_tss cfg0 "/kernel.bin" (boot_state bad_magic_elf) s').
  - unfold kstack_in_region. repeat split; vm_compute; first [reflexivity | discriminate].
  - reflexivity.
  - reflexivity.
  - vm_compute. reflexivity.
  - exact Hrun.
Defined.

End LateFailure.
Import LateFailure.
